(* ===== verification/_CoqProject ===== *)
-Q . S2P
Prelude.v
Crates.v
DiskFs.v
Strings.v
Bencode.v
BencodeText.v
Util.v
Message.v
Codec.v
MetaInfo.v
Block.v
Peer.v
DiskError.v
PieceBuffer.v
Events.v
TorrentFile.v
Tracker.v
Builder.v
PieceHandler.v
Download.v
Torrent.v
Pool.v
DiskFile.v
BlockIO.v
DiskManager.v
Store.v
NativeFs.v
Handler.v
Behavior.v
Announce.v
SafePool.v
SafeDisk.v
Panics.v
Client.v
Network.v
Exchange.v
Connect.v
Start.v
