(* ===== verification/Prelude.v ===== *)
(** * Verification of libp2p-bittorrent

    This development models the core of the crate under src/src/, a BitTorrent
    client on top of libp2p, and proves what makes it correct.

    ** The program

    - src/src/proto/: the peer wire messages and their framing on a connection;
    - src/src/peer/: the remote peers, the piece that is downloaded
      ([PieceBuffer]), the pieces and peers of a torrent
      ([TorrentPieceHandler]), the torrents ([Torrent], [TorrentPool]);
    - src/src/disk/: the disk manager, which checks, writes and reads blocks;
    - src/src/handler.rs: the substreams of a connection to a remote;
    - src/src/behavior.rs: the behaviour that drives pool and disk manager and
      exchanges events with the handlers;
    - src/src/torrent/: the metadata of torrents, torrent files, and the builder
      of metadata;
    - src/src/tracker.rs: the messages of a tracker;
    - src/examples/bittorrent.rs: a program around the crate, which seeds a file
      or leeches a torrent from the peer its arguments name.

    A message of a peer is decoded by the codec, reaches the behaviour through
    the handler of the connection, and the behaviour passes it to the pool.
    The pool asks peers for blocks; a piece that is complete goes to the disk
    manager, which checks its hash before it writes it.

    ** The files

    - Prelude (this file): the meaning of Rust expressions ([outcome]: a value
      or a panic; [checked]: arithmetic on machine integers under a build
      [Profile]), [poll], [result] and its [?] ([x ⇐ r; f]), vectors, maps and
      their iteration order, tactics and hints;
    - Crates: the third-party crates as classes of operations and classes of
      the documented behaviour the theorems use (byteorder, bit_vec, sha1,
      the clock, lru_cache, the message streams of futures_codec), with concrete
      instances for the witnesses;
    - DiskFs: the trait of disk/fs.rs as a class with its laws, and a file
      system in memory for the witnesses; NativeFs: disk/native.rs;
    - Strings: the bytes of strings, UTF-8, chunks of slices;
    - Bencode: bendy as a class, the traits [ToBencode] and [FromBencode];
      BencodeText: the format itself as an instance of the class;
    - Util: [ShaHash] (util.rs) and [BitField] (bitfield.rs);
    - Message, Codec: proto/message.rs and proto/codec.rs;
    - MetaInfo: the data and sizes of torrent/mod.rs; TorrentFile: its bencoded
      form and error.rs; Builder: torrent/builder.rs;
    - Tracker: tracker.rs and proto/tracker.rs;
    - Block, DiskError: the blocks of disk/block.rs, disk/error.rs;
    - Peer: peer/mod.rs; PieceBuffer, PieceHandler: peer/piece.rs; Download:
      what the polls of peer/piece.rs come to over a whole download;
    - Events: results and configuration of behavior.rs, disk/message.rs and
      disk/torrent.rs;
    - Torrent, Pool: peer/torrent.rs and peer/builder.rs;
    - DiskFile: disk/file.rs; BlockIO: the reads and writes of disk/block.rs;
      DiskManager: disk/manager.rs; Store: the disk manager as a map from pieces
      to their bytes;
    - Handler: handler.rs and the upgrades of proto/mod.rs;
    - Behavior: behavior.rs; Announce: what the behaviour, the pool and the disk
      manager come to over a whole run;
    - SafePool, SafeDisk, Panics: the states of the pool, the disk manager and
      the behaviour from which no operation panics;
    - Client: examples/bittorrent.rs;
    - Network: two such clients, with the handlers of the connection between them
      and the codec; Exchange: the one downloads a torrent from the other;
      Connect: how they get there, from the connection on; Start: the same, from
      the arguments of the programs on.

    Each file has the data, the operations in the order of the source, the
    specification, the lemmas, the properties and their witnesses.

    ** How the code is translated

    A method that takes [&mut self] becomes a function that returns the new
    state with its result.  A struct is a record, an enum an inductive type, a
    [HashMap] a [gmap] whose iteration order is a parameter ([MapOrder]), a
    [BTreeMap] a sorted list, a [HashSet] a list without duplicates with a
    parameter for its order ([SetOrder]).  Integers are [Z]; [a +! b] and the
    like are [u64] arithmetic, which panics in a build with overflow checks and
    wraps otherwise, so the theorems hold for both.  Slices and indices out of
    range panic.  [Poll] is [poll], [?] and [return] are matches.  The time of
    a call of [Instant::now] and random choices are arguments.

    ** What the theorems show

    - Codec: decoding inverts encoding, exactly for which messages; a stream of
      messages that can be read back arrives in chunks and is decoded to these
      messages, unless a chunk ends behind the length of a message; on which
      buffers [decode] panics; later bytes do not change what was decoded;
    - PieceBuffer: a state invariant (no block is lost, duplicated or invented),
      the behaviour of [next] and [add_block] on every branch, that a finished
      piece is the piece, and that a piece with a peer that answers completes;
    - PieceHandler, Download: an invariant of a torrent in every state that its
      operations lead to, also when peers send UnChoke twice or are inserted
      twice: these peers are a parameter [C], and what is said of a torrent
      without such peers is stronger ([nobody]).  All outcomes of [poll], and
      that a download completes with the right data when it starts with no piece
      in progress and every block that is asked for is delivered;
    - Torrent, Pool: an invariant of the pool, and what its event handlers do
      on every branch.  A peer belongs to one torrent at most, unless it answers
      a handshake while some torrent tracks it; these peers are a parameter too;
    - DiskFile, BlockIO, DiskManager: where the files of a torrent lie and
      which window a block has, that a written block is in its file, that only
      pieces with the hash of the metadata are written, and that a piece that
      was written is read back;
    - Store: whatever sequence of pieces is written and blocks are read, one
      request after the other and on a prompt file system, the disk manager
      answers as a map from pieces to bytes does;
    - Handler: every request is answered at most once and an answer goes to
      the substream of its request; request and answer cross a connection
      unchanged; [poll] returns, and without panic when no Port message arrives;
    - Behavior: the behaviour refines the pool (what it does to the pool are
      steps of the pool, so the invariant of the pool holds in every state the
      behaviour reaches), and a block a peer asks for is sent to this peer
      with the bytes of the file;
    - Announce: over all runs of the behaviour, with a log of the blocks that
      were reported as written, a peer is told of a piece only when the block that
      was written for it has the hash of the metadata and the peer is one of
      this torrent, and the last block of a download leads to a piece in the file
      and news to all peers;
    - SafePool, SafeDisk, Panics: whatever the peers send and whatever the file
      system does, the behaviour panics exactly at the calls that are not
      implemented, when each torrent has a single file, reads return fewer than
      2^63 bytes, and the build has no overflow checks or no peer asks for bytes
      behind the end of a file; with overflow checks such a request is proved to
      panic;
    - Network: what the two clients say on the wire and how they are polled, with
      the lemmas that the next files share;
    - Exchange, Connect, Start: when one client downloads a torrent of one file
      from another, with the handlers and the codec between them, on prompt file
      systems and with nobody timed out, the bytes of the one's file end up in
      the file of the other, after as many rounds as blocks were missing and two
      more, or five more when they have to get to know each other first; and two
      processes of the example, the one started with the torrent file the other
      one wrote, come to this;
    - NativeFs: over the file system of the operating system nothing is ever
      read or written;
    - TorrentFile, Builder: what is written to a torrent file is read back, no
      torrent file of a directory is read, and the pieces of a content are those
      of its bytes, whatever files these lie in;
    - the theorems that name a panic, a stall, a loss or a corruption state a
      flaw of the code.

    ** Bounds and fuel

    [Download.download] has the number of polls as fuel; [download_polls] is the
    number that is proved to be enough.  [DiskManager.DiskManager_poll] has the
    rounds of the outer loop of [poll] as fuel: two rounds are proved to be
    enough for a request on a prompt file system, and no number of rounds
    while the file system is not ready.  [Handler.handler_poll] has the steps on
    one substream: three are proved to be enough.  [Behavior.bt_poll] has the
    rounds of its loop and of the two loops in it: two of each are enough to
    serve a request, none is when a peer is timed out.  [Network.drain] has
    the calls of [poll] in a round: four are proved to be enough for the client
    that downloads, three for the other one.  [Builder.read_pieces]
    has its rounds, of which the caller gives enough, which is part of what is
    proved of the caller.  [Codec.decode_chunks] gives [Codec.decode_all] one
    call of [decode] more than the buffer has bytes, and each call that yields
    a message takes bytes off the buffer.  [Panics.bt_do] takes any fuel: the
    absence of panics holds however long a poll runs.  All other recursion is
    structural.

    ** What is not modelled

    - tokio: the files and futures disk/native.rs is made of are a parameter;
    - sockets, and the framing of futures_codec around the codec, which are
      parameters;
    - wakers and the swarm of libp2p, which decide when [poll] is called: the
      swarm of the example is an interface, and Network polls each client until
      it waits;
    - [creation_time] of the metadata (a conversion by chrono), [Display] and
      [Debug] instances, logging;
    - the keys, the transport and the runtime of the example;
    - the declarations of modules. *)

From stdpp Require Export base option list numbers gmap strings pretty sorting.

(** ** Results of Rust code *)

(** [outcome A]: what evaluating a Rust expression does, a value or a panic
    (slice index out of range, [unwrap] of [None], arithmetic overflow of a
    build with overflow checks, [unimplemented!()]). *)
Inductive outcome (A : Type) : Type :=
| Ret (a : A)
| Panic.
Arguments Ret {A} a.
Arguments Panic {A}.

(** [std::result::Result]. *)
Inductive result (A E : Type) : Type :=
| Ok (a : A)
| Err (e : E).
Arguments Ok {A E} a.
Arguments Err {A E} e.

(** [std::task::Poll]. *)
Inductive poll (A : Type) : Type :=
| Ready (a : A)
| Pending.
Arguments Ready {A} a.
Arguments Pending {A}.

(** [std::io::Error]: its kind and its message. *)
Inductive ErrorKind := InvalidData | InvalidInput | UnexpectedEof | Other.

Record io_error := io_Error { io_kind : ErrorKind; io_msg : string }.

#[export] Instance ErrorKind_eq_dec : EqDecision ErrorKind.
Proof. solve_decision. Defined.
#[export] Instance io_error_eq_dec : EqDecision io_error.
Proof. solve_decision. Defined.

#[export] Instance outcome_ret : MRet outcome := fun A a => Ret a.
#[export] Instance outcome_bind : MBind outcome :=
  fun A B f m => match m with Ret a => f a | Panic => Panic end.
#[export] Instance outcome_fmap : FMap outcome :=
  fun A B f m => match m with Ret a => Ret (f a) | Panic => Panic end.

#[export] Instance outcome_eq_dec {A} `{EqDecision A} : EqDecision (outcome A).
Proof. solve_decision. Defined.
#[export] Instance result_eq_dec {A E} `{EqDecision A, EqDecision E} :
  EqDecision (result A E).
Proof. solve_decision. Defined.
#[export] Instance poll_eq_dec {A} `{EqDecision A} : EqDecision (poll A).
Proof. solve_decision. Defined.

(** [Result::map], and [?]: an error is passed on, a value continues. *)
Definition result_map {A B E} (f : A -> B) (r : result A E) : result B E :=
  match r with Ok a => Ok (f a) | Err e => Err e end.

Definition result_bind {A B E} (r : result A E) (f : A -> result B E) : result B E :=
  match r with Ok a => f a | Err e => Err e end.

Notation "x '⇐' r ; f" := (result_bind r (fun x => f))
  (at level 20, r at level 100, f at level 200, only parsing) : stdpp_scope.
Notation "' x '⇐' r ; f" := (result_bind r (fun x => f))
  (at level 20, x pattern, r at level 100, f at level 200, only parsing) : stdpp_scope.

(** [Option::ok_or]. *)
Definition ok_or {A E} (o : option A) (e : E) : result A E :=
  match o with Some a => Ok a | None => Err e end.

Definition is_ok {A E} (r : result A E) : bool :=
  match r with Ok _ => true | Err _ => false end.

Definition is_pending {A} (p : poll A) : bool :=
  match p with Pending => true | Ready _ => false end.

(** ** Machine integers

    Unsigned integers are [Z] values with a range; [usize] is 64 bits wide.
    Whether an overflowing operation panics or wraps is a property of the
    build: debug builds set [overflow_checks], release builds do not. *)
Class Profile := { overflow_checks : bool }.

Definition in_range (w : Z) (z : Z) : Prop := (0 <= z < 2 ^ w)%Z.
Abbreviation is_u8 := (in_range 8).
Abbreviation is_u16 := (in_range 16).
Abbreviation is_u32 := (in_range 32).
Abbreviation is_u64 := (in_range 64).

(** [z as uN]: truncating cast. *)
Definition wrap (w : Z) (z : Z) : Z := (z mod 2 ^ w)%Z.

(** The result of an arithmetic operation whose exact value is [z]. *)
Definition checked `{Profile} (w : Z) (z : Z) : outcome Z :=
  if (0 <=? z)%Z && (z <? 2 ^ w)%Z then Ret z
  else if overflow_checks then Panic else Ret (wrap w z).

Declare Scope rust_scope.
Delimit Scope rust_scope with rust.
Notation "a +! b" := (checked 64 (a + b)%Z)
  (at level 50, left associativity) : rust_scope.
Notation "a -! b" := (checked 64 (a - b)%Z)
  (at level 50, left associativity) : rust_scope.
Notation "a *! b" := (checked 64 (a * b)%Z)
  (at level 40, left associativity) : rust_scope.

(** Both builds, for witnesses. *)
Definition debug_build : Profile := {| overflow_checks := true |}.
Definition release_build : Profile := {| overflow_checks := false |}.

(** ** Slices and vectors *)

(** [&l[a..b]]. *)
Definition slice {A} (l : list A) (a b : nat) : outcome (list A) :=
  if decide (a <= b /\ b <= length l) then Ret (take (b - a) (drop a l)) else Panic.

(** [l[i]]. *)
Definition index {A} (l : list A) (i : nat) : outcome A :=
  match l !! i with Some x => Ret x | None => Panic end.

(** [Option::unwrap]. *)
Definition unwrap {A} (o : option A) : outcome A :=
  match o with Some a => Ret a | None => Panic end.

(** [Vec::pop]: the last element and the rest. *)
Definition vec_pop {A} (l : list A) : option (A * list A) :=
  match last l with
  | Some x => Some (x, take (pred (length l)) l)
  | None => None
  end.

(** [iter().position(p)]. *)
Definition position {A} (p : A -> bool) (l : list A) : option nat :=
  fst <$> list_find p l.

(** [Vec::swap_remove(i)]: the element at [i]; the last one takes its place. *)
Definition swap_remove {A} (i : nat) (l : list A) : option (A * list A) :=
  match l !! i, vec_pop l with
  | Some x, Some (y, l') => Some (x, <[i := y]> l')
  | _, _ => None
  end.

(** Visit [l] in order until [f] returns a value. *)
Fixpoint first_some {A B} (f : A -> option B) (l : list A) : option B :=
  match l with
  | [] => None
  | x :: l' => match f x with Some b => Some b | None => first_some f l' end
  end.

(** ** [std::collections::BTreeMap] with integer keys

    The entries in key order, which is the order [values()] visits them. *)
Fixpoint btree_insert {V} (k : Z) (v : V) (t : list (Z * V)) : list (Z * V) :=
  match t with
  | [] => [(k, v)]
  | (k', v') :: t' =>
      if (k <? k')%Z then (k, v) :: t
      else if (k =? k')%Z then (k, v) :: t'
      else (k', v') :: btree_insert k v t'
  end.

Definition btree_sorted {V} (t : list (Z * V)) : Prop :=
  StronglySorted Z.lt t.*1.

(** ** [std::collections::HashMap] iteration

    The order in which [iter()], [keys()], [values()] and [values_mut()] visit
    a hash map is unspecified: any enumeration of its entries. *)
Class MapOrder (K V : Type) `{Countable K} := {
  map_iter : gmap K V -> list (K * V);
  map_iter_perm m : map_iter m ≡ₚ map_to_list m;
}.

(** One order of iteration that exists, for witnesses. *)
Definition default_order (K V : Type) `{Countable K} : MapOrder K V :=
  {| map_iter m := map_to_list m; map_iter_perm m := Permutation_refl _ |}.

(** ** [std::collections::HashSet]

    A list without duplicates; [insert] adds an element that is not there yet.
    [iter()] visits the elements in an unspecified order. *)
Definition set_insert {A} `{EqDecision A} (x : A) (l : list A) : list A :=
  if decide (x ∈ l) then l else l ++ [x].

Class SetOrder (A : Type) := {
  set_iter : list A -> list A;
  set_iter_perm l : set_iter l ≡ₚ l;
}.

Definition default_set_order (A : Type) : SetOrder A :=
  {| set_iter l := l; set_iter_perm l := Permutation_refl _ |}.

(** ** Lemmas *)

Create HintDb rust.
Create Rewrite HintDb rust.

Lemma bind_ret {A B} (a : A) (f : A -> outcome B) : (Ret a ≫= f) = f a.
Proof. done. Qed.

Lemma bind_Ret_inv {A B} (m : outcome A) (f : A -> outcome B) b :
  (m ≫= f) = Ret b -> exists a, m = Ret a /\ f a = Ret b.
Proof. destruct m as [a|]; [by exists a | done]. Qed.

(** [returns m Q]: [m] does not panic, and what it returns satisfies [Q]. *)
Definition returns {A} (m : outcome A) (Q : A -> Prop) : Prop :=
  match m with Ret a => Q a | Panic => False end.

Lemma returns_bind {A B} (m : outcome A) (f : A -> outcome B) (P : A -> Prop) (Q : B -> Prop) :
  returns m P -> (forall a, P a -> returns (f a) Q) -> returns (m ≫= f) Q.
Proof. destruct m as [a|]; [|done]. intros Ha Hf. by apply Hf. Qed.

Lemma returns_weaken {A} (m : outcome A) (P Q : A -> Prop) :
  returns m P -> (forall a, P a -> Q a) -> returns m Q.
Proof. destruct m as [a|]; [|done]. intros Ha Hq. by apply Hq. Qed.

Lemma returns_not_panic {A} (m : outcome A) (Q : A -> Prop) : returns m Q -> m <> Panic.
Proof. by destruct m. Qed.

(** [m] is the first part of the computation that has to return. *)
Ltac returns_step H := eapply returns_bind; [eapply H|]; cbv beta.

Lemma checked_in_range `{Profile} w z : in_range w z -> checked w z = Ret z.
Proof.
  intros [Hl Hh]. unfold checked.
  rewrite (proj2 (Z.leb_le _ _) Hl), (proj2 (Z.ltb_lt _ _) Hh). done.
Qed.

Lemma checked_release w z : checked (H := release_build) w z = Ret (wrap w z).
Proof.
  unfold checked, wrap. simpl.
  destruct (0 <=? z)%Z eqn:E1, (z <? 2 ^ w)%Z eqn:E2; simpl; try done.
  rewrite Z.mod_small; [done | lia].
Qed.

Lemma checked_debug w z :
  checked (H := debug_build) w z = Panic <-> ~ in_range w z.
Proof.
  unfold checked, in_range. simpl.
  destruct (0 <=? z)%Z eqn:E1, (z <? 2 ^ w)%Z eqn:E2; simpl; split;
    try done; lia.
Qed.

Lemma wrap_small w z : in_range w z -> wrap w z = z.
Proof. intros [? ?]. unfold wrap. by apply Z.mod_small. Qed.

Lemma slice_ok {A} (l : list A) a b :
  a <= b -> b <= length l -> slice l a b = Ret (take (b - a) (drop a l)).
Proof. intros. unfold slice. by rewrite decide_True. Qed.

Lemma slice_panic {A} (l : list A) a b :
  a <= b -> length l < b -> slice l a b = Panic.
Proof. intros. unfold slice. rewrite decide_False; [done | lia]. Qed.

Lemma slice_app {A} (l1 l2 l3 : list A) a b :
  a = length l1 -> b = length l1 + length l2 ->
  slice (l1 ++ l2 ++ l3) a b = Ret l2.
Proof.
  intros -> ->. rewrite slice_ok by (rewrite ?length_app; lia).
  rewrite drop_app_length, take_app_length'; [done | lia].
Qed.

Lemma vec_pop_snoc {A} (l : list A) x : vec_pop (l ++ [x]) = Some (x, l).
Proof.
  unfold vec_pop. rewrite last_snoc, length_app; simpl.
  rewrite Nat.add_1_r; simpl. by rewrite take_app_length.
Qed.

Lemma vec_pop_Some {A} (l l' : list A) x :
  vec_pop l = Some (x, l') <-> l = l' ++ [x].
Proof.
  split.
  - destruct (last l) as [y|] eqn:E; unfold vec_pop; rewrite E; [|done].
    intros [= <- <-]. apply last_Some in E as [l'' ->].
    rewrite length_app, Nat.add_1_r; simpl. by rewrite take_app_length.
  - intros ->. apply vec_pop_snoc.
Qed.

Lemma vec_pop_None {A} (l : list A) : vec_pop l = None <-> l = [].
Proof.
  unfold vec_pop. destruct (last l) eqn:E.
  - split; [done | intros ->; done].
  - by rewrite last_None in E.
Qed.

Lemma take_length_take {A} n (l : list A) : take (length (take n l)) l = take n l.
Proof. by rewrite length_take, <- (take_take l n), firstn_all. Qed.

Lemma position_Some {A} (p : A -> bool) (l : list A) i :
  position p l = Some i ->
  exists x, l !! i = Some x /\ p x = true /\
    forall j y, l !! j = Some y -> j < i -> p y = false.
Proof.
  unfold position. intros ([j x] & H & ->)%fmap_Some. simpl.
  apply list_find_Some in H as (Hl & Hp & Hmin). exists x.
  split_and!; [done | by apply Is_true_true | ].
  intros j' y Hj Hlt. specialize (Hmin _ _ Hj Hlt).
  revert Hmin; destruct (p y); naive_solver.
Qed.

Lemma position_None {A} (p : A -> bool) (l : list A) :
  position p l = None <-> forall x, x ∈ l -> p x = false.
Proof.
  unfold position. rewrite fmap_None, list_find_None, Forall_forall.
  split; intros H x Hx; specialize (H x Hx); revert H; destruct (p x); naive_solver.
Qed.

Lemma delete_Permutation {A} (l : list A) i x :
  l !! i = Some x -> l ≡ₚ x :: delete i l.
Proof. intros H. by apply delete_Permutation. Qed.

Lemma swap_remove_Permutation {A} (l l' : list A) i x :
  swap_remove i l = Some (x, l') -> l ≡ₚ x :: l'.
Proof.
  unfold swap_remove. destruct (l !! i) as [x'|] eqn:Hi; [|done].
  destruct (vec_pop l) as [[y l'']|] eqn:Hp; [|done].
  intros [= -> <-]. apply vec_pop_Some in Hp as ->.
  destruct (decide (i < length l'')) as [Hlt|Hge].
  - rewrite lookup_app_l in Hi by done.
    rewrite Permutation_app_comm; simpl.
    rewrite (insert_take_drop l'' i y) by done.
    rewrite <- (take_drop_middle l'' i x Hi) at 1.
    rewrite <- !Permutation_middle. apply perm_swap.
  - rewrite list_insert_ge by lia.
    rewrite lookup_app_r in Hi by lia.
    destruct (i - length l'') as [|n]; [|done]. simplify_eq/=.
    by rewrite Permutation_app_comm.
Qed.

Lemma swap_remove_in_range {A} k (l : list A) :
  (k < length l)%nat -> exists x l', swap_remove k l = Some (x, l') /\ l ≡ₚ x :: l'.
Proof.
  intros [x Hx]%lookup_lt_is_Some_2.
  destruct (swap_remove k l) as [[y l']|] eqn:Es.
  - exists y, l'. split; [done|]. by eapply swap_remove_Permutation.
  - unfold swap_remove in Es. rewrite Hx in Es.
    destruct (vec_pop l) as [[z l']|] eqn:Ev; [done|]. apply vec_pop_None in Ev. by subst.
Qed.

(** [x] is in the list at most once. *)
Definition once {A} (x : A) (l : list A) : Prop := ~ [x; x] ⊆+ l.

Lemma once_submseteq {A} (x : A) l k : l ⊆+ k -> once x k -> once x l.
Proof. intros Hs Hk Hl. apply Hk. by etrans. Qed.

Lemma once_cons_elem {A} (x : A) l : once x (x :: l) -> x ∉ l.
Proof. intros Ho Hx. apply Ho. by apply submseteq_skip, singleton_submseteq_l. Qed.

Lemma once_snoc {A} (x y : A) l : once x l -> (y = x -> x ∉ l) -> once x (l ++ [y]).
Proof.
  intros Ho Hy. unfold once. rewrite Permutation_app_comm. simpl. rewrite submseteq_cons_r.
  intros [Hl|(l' & Hp & Hl)]; [done|].
  assert (y = x) as ->.
  { assert (y ∈ [x; x]) as Hin by (rewrite Hp; left).
    apply elem_of_cons in Hin as [->|Hin]; [done|by apply list_elem_of_singleton in Hin]. }
  apply Permutation_cons_inv in Hp. rewrite <- Hp in Hl. apply Hy; [done|].
  by apply singleton_submseteq_l.
Qed.

Lemma NoDup_once {A} (l : list A) : NoDup l <-> forall x, once x l.
Proof.
  split.
  - intros Hn x Hs. apply submseteq_Permutation in Hs as [k Hk]. rewrite Hk in Hn. simpl in Hn.
    apply NoDup_cons in Hn as [Hx _]. apply Hx. left.
  - induction l as [|y l IH]; intros Ho; [constructor|]. constructor.
    + apply once_cons_elem, Ho.
    + apply IH. intros x. eapply once_submseteq; [|apply Ho]. by apply submseteq_cons.
Qed.

(** Keys that are listed once have one value. *)
Lemma NoDup_fst_unique {A B} (l : list (A * B)) x y y' :
  NoDup l.*1 -> (x, y) ∈ l -> (x, y') ∈ l -> y' = y.
Proof.
  induction l as [|[a b] l IH]; simpl; intros Hn Hy Hy'; [by apply not_elem_of_nil in Hy|].
  apply NoDup_cons in Hn as [Ha Hn].
  assert (forall z, (a, z) ∉ l) as Hl by (intros z Hz; apply Ha, list_elem_of_fmap; by exists (a, z)).
  apply elem_of_cons in Hy as [[= -> ->]|Hy]; apply elem_of_cons in Hy' as [Hy'|Hy'].
  - congruence.
  - by destruct (Hl y').
  - injection Hy' as -> ->. by destruct (Hl y).
  - by apply IH.
Qed.

(** The predicate no one satisfies *)
Definition nobody {A} : A -> Prop := fun _ => False.

Lemma not_nobody {A} (x : A) : ~ nobody x.
Proof. by intros []. Qed.
#[export] Hint Resolve not_nobody : core.

Lemma swap_remove_last {A} (l : list A) x :
  swap_remove (length l) (l ++ [x]) = Some (x, l).
Proof.
  unfold swap_remove. rewrite vec_pop_snoc, lookup_app_r, Nat.sub_diag by lia.
  simpl. by rewrite list_insert_ge.
Qed.

Lemma first_some_Some {A B} (f : A -> option B) l b :
  first_some f l = Some b -> exists x, x ∈ l /\ f x = Some b.
Proof.
  induction l as [|x l IH]; simpl; [done|].
  destruct (f x) eqn:E.
  - intros [= ->]. exists x. split; [left | done].
  - intros H. destruct (IH H) as (y & Hy & Hf). exists y. split; [by right | done].
Qed.

Lemma first_some_None {A B} (f : A -> option B) l :
  first_some f l = None <-> forall x, x ∈ l -> f x = None.
Proof.
  induction l as [|x l IH]; simpl.
  - split; [intros _ x Hx; by apply not_elem_of_nil in Hx | done].
  - destruct (f x) eqn:E; split.
    + done.
    + intros H. rewrite (H x) in E; [done | left].
    + intros H y [->|Hy]%elem_of_cons; [done | by apply IH].
    + intros H. apply IH. intros y Hy. apply H. by right.
Qed.

(** When every visit that returns a value returns the same one, the order of
    the visits does not matter. *)
Lemma first_some_unique {A B} (f : A -> option B) l x b :
  x ∈ l -> f x = Some b ->
  (forall y b', y ∈ l -> f y = Some b' -> y = x) ->
  first_some f l = Some b.
Proof.
  intros Hx Hf Hu. destruct (first_some f l) as [b'|] eqn:E.
  - apply first_some_Some in E as (y & Hy & Hfy).
    rewrite (Hu y b' Hy Hfy) in Hfy. congruence.
  - rewrite first_some_None in E. rewrite E in Hf; done.
Qed.

Lemma map_iter_elem `{MapOrder K V} (m : gmap K V) k v :
  (k, v) ∈ map_iter m <-> m !! k = Some v.
Proof. rewrite map_iter_perm. apply elem_of_map_to_list. Qed.

Lemma map_iter_empty `{MapOrder K V} : map_iter (∅ : gmap K V) = [].
Proof. apply Permutation_nil_r. rewrite map_iter_perm, map_to_list_empty. done. Qed.

(** *** Sorted entries of a [BTreeMap] *)

Lemma map_iter_singleton `{MapOrder K V} k (v : V) : map_iter ({[k := v]} : gmap K V) = [(k, v)].
Proof. apply Permutation_singleton_r. by rewrite map_iter_perm, map_to_list_singleton. Qed.

Lemma btree_insert_elem {V} k (v : V) t e :
  e ∈ btree_insert k v t -> e = (k, v) \/ e ∈ t.
Proof.
  induction t as [|[k' v'] t IH]; simpl.
  - rewrite list_elem_of_singleton. by left.
  - destruct (k <? k')%Z; [|destruct (k =? k')%Z]; rewrite !elem_of_cons; tauto.
Qed.

Lemma btree_insert_sorted {V} k (v : V) t :
  btree_sorted t -> btree_sorted (btree_insert k v t).
Proof.
  unfold btree_sorted. induction t as [|[k' v'] t IH]; simpl.
  - intros _. constructor; [constructor | constructor].
  - intros Hs. pose proof Hs as Hs'. inversion_clear Hs' as [|? ? Ht Hall].
    destruct (k <? k')%Z eqn:E1; [|destruct (k =? k')%Z eqn:E2]; simpl.
    + constructor; [done|]. constructor; [lia|].
      eapply Forall_impl; [exact Hall | simpl; lia].
    + assert (k = k') as -> by lia. by constructor.
    + constructor; [by apply IH|]. apply Forall_fmap, Forall_forall.
      intros [k'' v''] [[= -> ->]|Hin]%btree_insert_elem; simpl; [lia|].
      rewrite Forall_fmap, Forall_forall in Hall. exact (Hall _ Hin).
Qed.

Lemma btree_insert_fresh {V} k (v : V) t :
  k ∉ t.*1 -> btree_insert k v t ≡ₚ (k, v) :: t.
Proof.
  induction t as [|[k' v'] t IH]; simpl; [done|].
  intros [Hne Hni]%not_elem_of_cons.
  destruct (k <? k')%Z; [done|].
  destruct (k =? k')%Z eqn:E2; [lia|].
  rewrite IH by done. apply perm_swap.
Qed.

(** *** Tactics *)

(** Case analysis on the scrutinee of every [match] and [if] of a hypothesis. *)
Ltac case_all H :=
  repeat (first
    [ discriminate H
    | match type of H with
      | context [match ?x with _ => _ end] =>
          let E := fresh "E" in destruct x eqn:E; simpl in H
      end ]).

(** [lia] with division and remainder. *)
Ltac div_lia := zify; Z.to_euclidean_division_equations; lia.

Lemma result_bind_Ok {A B E} (r : result A E) (f : A -> result B E) b :
  result_bind r f = Ok b -> exists a, r = Ok a /\ f a = Ok b.
Proof. destruct r as [a|e]; [by exists a|done]. Qed.

(** Peel a [?] that did not return. *)
Ltac inv_try H :=
  let a := fresh "a" in let Ha := fresh "H" a in
  apply result_bind_Ok in H as (a & Ha & H).

(** Peel a monadic bind that returned a value. *)
Ltac inv_bind H :=
  let a := fresh "a" in let Ha := fresh "H" a in
  apply bind_Ret_inv in H as (a & Ha & H).

#[export] Hint Resolve checked_in_range wrap_small btree_insert_sorted : rust.
#[export] Hint Rewrite @bind_ret @vec_pop_snoc @length_app @length_take
  @length_drop : rust.

(** *** Reading a longer buffer *)

Lemma slice_Ret {A} (l x : list A) a b :
  slice l a b = Ret x -> a <= b /\ b <= length l /\ x = take (b - a) (drop a l).
Proof. unfold slice. case_decide; [|done]. intros [= <-]. split_and!; [lia | lia | done]. Qed.

Lemma slice_length {A} (l x : list A) a b : slice l a b = Ret x -> length x = b - a.
Proof.
  intros (? & ? & ->)%slice_Ret. rewrite length_take, length_drop. lia.
Qed.

Lemma slice_extend {A} (l l' x : list A) a b :
  slice l a b = Ret x -> slice (l ++ l') a b = Ret x.
Proof.
  intros (? & ? & ->)%slice_Ret. rewrite slice_ok by (rewrite ?length_app; lia).
  rewrite drop_app_le by lia. rewrite take_app_le; [done|]. rewrite length_drop. lia.
Qed.

Lemma index_Ret {A} (l : list A) i x : index l i = Ret x <-> l !! i = Some x.
Proof. unfold index. destruct (l !! i); naive_solver. Qed.

Lemma index_ok {A} (l : list A) i : i < length l -> exists x, index l i = Ret x.
Proof. intros [x Hx]%lookup_lt_is_Some_2. exists x. by apply index_Ret. Qed.

Lemma index_extend {A} (l l' : list A) i x :
  index l i = Ret x -> index (l ++ l') i = Ret x.
Proof. rewrite !index_Ret. apply lookup_app_l_Some. Qed.

(** *** Lists built by pushing at the end *)

Lemma foldl_push {A B} (f : A -> B) (l : list A) (acc : list B) :
  foldl (fun bs a => bs ++ [f a]) acc l = acc ++ (f <$> l).
Proof.
  revert acc. induction l as [|a l IH]; intros acc; simpl; [by rewrite app_nil_r|].
  by rewrite IH, <- app_assoc.
Qed.

Lemma seqZ_snoc n : (0 <= n)%Z -> seqZ 0 (n + 1) = seqZ 0 n ++ [n].
Proof.
  intros Hn. by rewrite seqZ_app by lia.
Qed.

(** The values of a map, in some order. *)
Lemma map_values_insert `{Countable K} {V} (m : gmap K V) k v :
  m !! k = None -> (map_to_list (<[k := v]> m)).*2 ≡ₚ v :: (map_to_list m).*2.
Proof. intros Hk. by rewrite map_to_list_insert. Qed.

Lemma map_values_delete `{Countable K} {V} (m : gmap K V) k v :
  m !! k = Some v -> (map_to_list m).*2 ≡ₚ v :: (map_to_list (delete k m)).*2.
Proof. intros Hk. by rewrite <- (map_to_list_delete m k v Hk). Qed.

Lemma map_values_elem `{Countable K} {V} (m : gmap K V) v :
  v ∈ (map_to_list m).*2 <-> exists k, m !! k = Some v.
Proof.
  rewrite list_elem_of_fmap. split.
  - intros ([k v'] & -> & Hk%elem_of_map_to_list). by exists k.
  - intros [k Hk]. exists (k, v). split; [done|]. by apply elem_of_map_to_list.
Qed.

(** A list without duplicates, position by position. *)
Lemma NoDup_delete {A} (l : list A) i : NoDup l -> NoDup (delete i l).
Proof.
  intros Hl. apply (sublist_NoDup _ l); [done|]. apply sublist_delete.
Qed.

Lemma NoDup_not_in_delete {A} (l : list A) i x :
  NoDup l -> l !! i = Some x -> x ∉ delete i l.
Proof.
  intros Hl Hi Hx. rewrite (delete_Permutation l i x Hi) in Hl.
  by apply NoDup_cons in Hl as [? _].
Qed.

Lemma forallb_false {A} (f : A -> bool) l :
  forallb f l = false -> exists x, x ∈ l /\ f x = false.
Proof.
  induction l as [|x l IH]; simpl; [done|]. destruct (f x) eqn:E; simpl.
  - intros (y & Hy & Hf)%IH. exists y. split; [by right | done].
  - intros _. exists x. split; [left | done].
Qed.
