(* ===== verification/Crates.v ===== *)
(** * The crates the program calls

    Third-party code is a parameter of the model: a class of operations, and a
    second class with the documented behaviour the theorems rely on.  The
    last section gives concrete instances, which the witnesses use.

    - [byteorder]: [BigEndian::read_u32] and friends;
    - [bit_vec]: [BitVec];
    - [sha1]: [Sha1];
    - [std]/[wasm_timer] clocks: [Instant].

    The buffers of the [bytes] crate ([Bytes], [BytesMut]) are sequences of
    bytes and are modelled as [list byte]. *)

From Stdlib Require Strings.Byte.
From S2P Require Import Prelude.

Abbreviation byte := Byte.byte.

(** ** Bytes and their bits *)

#[export] Instance byte_eq_dec : EqDecision byte := Byte.byte_eq_dec.

Definition byte_to_Z (b : byte) : Z := Z.of_N (Byte.to_N b).

(** [z as u8]. *)
Definition byte_of_Z (z : Z) : byte :=
  default Byte.x00 (Byte.of_N (Z.to_N (wrap 8 z))).

(** The bits of a byte, most significant first. *)
Definition byte_bits (b : byte) : list bool :=
  let '(b0, (b1, (b2, (b3, (b4, (b5, (b6, b7))))))) := Byte.to_bits b in
  [b7; b6; b5; b4; b3; b2; b1; b0].

Definition bits_byte (b7 b6 b5 b4 b3 b2 b1 b0 : bool) : byte :=
  Byte.of_bits (b0, (b1, (b2, (b3, (b4, (b5, (b6, b7))))))).

(** Bits in groups of eight, the last group padded with zero bits. *)
Fixpoint bits_to_bytes (l : list bool) : list byte :=
  match l with
  | b7 :: b6 :: b5 :: b4 :: b3 :: b2 :: b1 :: b0 :: l' =>
      bits_byte b7 b6 b5 b4 b3 b2 b1 b0 :: bits_to_bytes l'
  | [] => []
  | _ =>
      let bit i := default false (l !! i) in
      [bits_byte (bit 0) (bit 1) (bit 2) (bit 3) (bit 4) (bit 5) (bit 6) false]
  end.

(** ** Big-endian integers *)

(** The [n] low-order bytes of [z], most significant first. *)
Fixpoint be_split (n : nat) (z : Z) : list byte :=
  match n with
  | 0 => []
  | S m => byte_of_Z (z / 256 ^ Z.of_nat m) :: be_split m z
  end.

(** The integer whose digits in base 256 are [l]. *)
Definition be_combine (l : list byte) : Z :=
  foldl (fun acc b => acc * 256 + byte_to_Z b)%Z 0%Z l.

(** [byteorder::{BigEndian, ReadBytesExt, WriteBytesExt}] *)
Class ByteOrder := {
  read_u16 : list byte -> outcome Z;
  read_u32 : list byte -> outcome Z;
  write_u16 : Z -> list byte;
  write_u32 : Z -> list byte;
}.

(** "Reads an unsigned 32 bit integer from buf. Panics when buf.len() < 4." *)
Class ByteOrderLaws `{ByteOrder} : Prop := {
  read_u16_be l : 2 <= length l -> read_u16 l = Ret (be_combine (take 2 l));
  read_u16_short l : length l < 2 -> read_u16 l = Panic;
  read_u32_be l : 4 <= length l -> read_u32 l = Ret (be_combine (take 4 l));
  read_u32_short l : length l < 4 -> read_u32 l = Panic;
  write_u16_be z : is_u16 z -> write_u16 z = be_split 2 z;
  write_u32_be z : is_u32 z -> write_u32 z = be_split 4 z;
}.

(** ** [bit_vec::BitVec] *)

Class BitVec (BV : Type) := {
  bv_from_bytes : list byte -> BV;
  bv_from_elem : nat -> bool -> BV;
  bv_to_bytes : BV -> list byte;
  bv_iter : BV -> list bool;
  bv_len : BV -> nat;
  bv_get : BV -> nat -> option bool;
  bv_set : BV -> nat -> bool -> BV;
  bv_clear : BV -> BV;
  bv_truncate : BV -> nat -> BV;
  bv_all : BV -> bool;
}.

Class BitVecLaws (BV : Type) `{BitVec BV} : Prop := {
  bv_ext v w : bv_iter v = bv_iter w -> v = w;
  bv_iter_from_bytes l : bv_iter (bv_from_bytes l) = l ≫= byte_bits;
  bv_iter_from_elem n b : bv_iter (bv_from_elem n b) = replicate n b;
  bv_to_bytes_iter v : bv_to_bytes v = bits_to_bytes (bv_iter v);
  bv_len_iter v : bv_len v = length (bv_iter v);
  bv_get_iter v i : bv_get v i = bv_iter v !! i;
  (** [set] panics out of range: only the behaviour in range is known *)
  bv_iter_set v i b : i < bv_len v -> bv_iter (bv_set v i b) = <[i := b]> (bv_iter v);
  bv_iter_clear v : bv_iter (bv_clear v) = replicate (bv_len v) false;
  bv_iter_truncate v n : bv_iter (bv_truncate v n) = take n (bv_iter v);
  bv_all_iter v : bv_all v = forallb id (bv_iter v);
}.

(** ** [sha1::Sha1]

    [sha1] is the SHA-1 function, which the streaming hasher computes. *)
Class Sha1 (Hasher : Type) := {
  sha1 : list byte -> list byte;
  sha1_new : Hasher;
  sha1_update : Hasher -> list byte -> Hasher;
  sha1_digest : Hasher -> list byte;
}.

Class Sha1Laws (Hasher : Type) `{Sha1 Hasher} : Prop := {
  sha1_length l : length (sha1 l) = 20;
  sha1_digest_spec chunks :
    sha1_digest (foldl sha1_update sha1_new chunks) = sha1 (concat chunks);
}.

(** [Sha1::from(data)] *)
Definition sha1_from `{Sha1 Hasher} (data : list byte) : Hasher :=
  sha1_update sha1_new data.

(** ** [bytes::{Buf, BytesMut}] *)

(** [buf.split_to(n)]: the first [n] bytes and what remains in [buf]. *)
Definition split_to (buf : list byte) (n : nat) : outcome (list byte * list byte) :=
  if decide (n <= length buf) then Ret (take n buf, drop n buf) else Panic.

(** [buf.advance(n)] *)
Definition advance (buf : list byte) (n : nat) : outcome (list byte) :=
  if decide (n <= length buf) then Ret (drop n buf) else Panic.

(** ** [wasm_timer::Instant]

    [duration_since_secs t u] is [t.duration_since(u).as_secs()]. *)
Class Clock (Instant : Type) := duration_since_secs : Instant -> Instant -> Z.

(** [t + Duration::from_secs(n)] *)
Class InstantAdd (Instant : Type) := instant_plus_secs : Instant -> Z -> Instant.

(** ** [futures_codec::Framed<S, PeerWireCodec>]

    A [Sink] and a [Stream] of messages over a connection.  Reading calls the
    codec, so it may panic.  [M] is the type of messages. *)
Class MessageStream (S M : Type) := {
  sink_poll_ready : S -> S * poll (result unit io_error);
  sink_start_send : S -> M -> outcome (S * result unit io_error);
  sink_poll_flush : S -> S * poll (result unit io_error);
  sink_poll_close : S -> S * poll (result unit io_error);
  stream_poll_next : S -> outcome (S * poll (option (result M io_error)));
}.

(** ** [lru_cache::LruCache]

    [lru_get] is what a lookup would find, [lru_capacity] how many entries the
    cache keeps. *)
Class LruCache (K V C : Type) := {
  lru_new : Z -> C;
  lru_insert : C -> K -> V -> C;
  lru_remove : C -> K -> C * option V;
  lru_get : C -> K -> option V;
  lru_capacity : C -> Z;
}.

Class LruCacheLaws (K V C : Type) `{LruCache K V C} : Prop := {
  lru_capacity_new n : lru_capacity (lru_new n) = n;
  lru_capacity_insert c k v : lru_capacity (lru_insert c k v) = lru_capacity c;
  lru_capacity_remove c k : lru_capacity (lru_remove c k).1 = lru_capacity c;
  lru_get_new n k : lru_get (lru_new n) k = None;
  lru_remove_get c k : (lru_remove c k).2 = lru_get c k;
  lru_get_remove_eq c k : lru_get (lru_remove c k).1 k = None;
  lru_get_remove_ne c k k' : k <> k' -> lru_get (lru_remove c k).1 k' = lru_get c k';
  lru_get_insert_eq c k v : (0 < lru_capacity c)%Z -> lru_get (lru_insert c k v) k = Some v;
  (** an insertion may evict other entries *)
  lru_get_insert_ne c k v k' v' :
    k <> k' -> lru_get (lru_insert c k v) k' = Some v' -> lru_get c k' = Some v';
}.

(** ** Concrete instances, for the witnesses *)

(** A cache as its capacity and its entries, the last inserted first *)
Definition list_cache (K V : Type) `{EqDecision K} : LruCache K V (Z * list (K * V)) :=
  let other k := List.filter (fun e : K * V => negb (bool_decide (e.1 = k))) in
  {| lru_new n := (n, []);
     lru_insert c k v := (c.1, take (Z.to_nat c.1) ((k, v) :: other k c.2));
     lru_remove c k := ((c.1, other k c.2),
                        snd <$> find (fun e => bool_decide (e.1 = k)) c.2);
     lru_get c k := snd <$> find (fun e => bool_decide (e.1 = k)) c.2;
     lru_capacity c := c.1 |}.

Definition std_byteorder : ByteOrder := {|
  read_u16 l := if decide (2 <= length l) then Ret (be_combine (take 2 l)) else Panic;
  read_u32 l := if decide (4 <= length l) then Ret (be_combine (take 4 l)) else Panic;
  write_u16 z := be_split 2 z;
  write_u32 z := be_split 4 z;
|}.

(** A bit vector as the list of its bits. *)
Definition list_bitvec : BitVec (list bool) := {|
  bv_from_bytes l := l ≫= byte_bits;
  bv_from_elem n b := replicate n b;
  bv_to_bytes v := bits_to_bytes v;
  bv_iter v := v;
  bv_len v := length v;
  bv_get v i := v !! i;
  bv_set v i b := <[i := b]> v;
  bv_clear v := replicate (length v) false;
  bv_truncate v n := take n v;
  bv_all v := forallb id v;
|}.

(** A hasher that keeps what it was given and digests its length and first
    bytes: not SHA-1, but a function the classes above allow. *)
Definition toy_sha1 : Sha1 (list byte) :=
  let toy l := take 20 (be_split 4 (Z.of_nat (length l)) ++ l ++ replicate 20 Byte.x00) in
  {| sha1 := toy; sha1_new := []; sha1_update h l := h ++ l; sha1_digest := toy |}.

(** ** Lemmas *)

Lemma byte_to_Z_range b : is_u8 (byte_to_Z b).
Proof.
  unfold in_range, byte_to_Z. pose proof (Byte.to_N_bounded b). lia.
Qed.

Lemma byte_to_of_Z z : byte_to_Z (byte_of_Z z) = wrap 8 z.
Proof.
  unfold byte_to_Z, byte_of_Z.
  pose proof (Z.mod_pos_bound z (2 ^ 8) eq_refl) as Hb. fold (wrap 8 z) in Hb.
  destruct (Byte.of_N (Z.to_N (wrap 8 z))) as [b|] eqn:E; simpl.
  - apply Byte.to_of_N in E. rewrite E. lia.
  - apply Byte.of_N_None_iff in E. lia.
Qed.

Lemma byte_of_to_Z b : byte_of_Z (byte_to_Z b) = b.
Proof.
  unfold byte_of_Z. rewrite wrap_small by apply byte_to_Z_range.
  unfold byte_to_Z. rewrite N2Z.id, Byte.of_to_N. done.
Qed.

Lemma byte_to_Z_inj b c : byte_to_Z b = byte_to_Z c -> b = c.
Proof. intros H. by rewrite <- (byte_of_to_Z b), H, byte_of_to_Z. Qed.

Lemma length_be_split n z : length (be_split n z) = n.
Proof. induction n; simpl; congruence. Qed.

Lemma be_combine_acc l acc :
  foldl (fun acc b => acc * 256 + byte_to_Z b)%Z acc l =
  (acc * 256 ^ Z.of_nat (length l) + be_combine l)%Z.
Proof.
  unfold be_combine. revert acc. induction l as [|b l IH]; intros acc; simpl.
  - lia.
  - rewrite IH, (IH (0 * 256 + byte_to_Z b)%Z), Nat2Z.inj_succ, Z.pow_succ_r by lia. ring.
Qed.

Lemma be_combine_cons b l :
  be_combine (b :: l) = (byte_to_Z b * 256 ^ Z.of_nat (length l) + be_combine l)%Z.
Proof. unfold be_combine at 1. simpl. apply be_combine_acc. Qed.

Lemma be_combine_split n z :
  be_combine (be_split n z) = (z mod 256 ^ Z.of_nat n)%Z.
Proof.
  induction n as [|n IH]; [by rewrite Z.mod_1_r|].
  cbn [be_split]. rewrite be_combine_cons, length_be_split, IH, byte_to_of_Z.
  rewrite Nat2Z.inj_succ, Z.pow_succ_r by lia. unfold wrap.
  rewrite (Z.mul_comm 256), Z.rem_mul_r by lia.
  change (2 ^ 8)%Z with 256%Z. lia.
Qed.

Lemma be_combine_range l : (0 <= be_combine l < 256 ^ Z.of_nat (length l))%Z.
Proof.
  induction l as [|b l IH]; [done|].
  rewrite be_combine_cons. pose proof (byte_to_Z_range b) as Hb. unfold in_range in Hb.
  cbn [length]. rewrite Nat2Z.inj_succ, Z.pow_succ_r by lia. nia.
Qed.

(** Big-endian digits read back as the number. *)
Lemma be_combine_split_small n z :
  (0 <= z < 256 ^ Z.of_nat n)%Z -> be_combine (be_split n z) = z.
Proof. intros. rewrite be_combine_split. by apply Z.mod_small. Qed.

Lemma length_byte_bits b : length (byte_bits b) = 8.
Proof. unfold byte_bits. repeat case_match. done. Qed.

Lemma byte_bits_bits_byte b7 b6 b5 b4 b3 b2 b1 b0 :
  byte_bits (bits_byte b7 b6 b5 b4 b3 b2 b1 b0) = [b7; b6; b5; b4; b3; b2; b1; b0].
Proof. unfold byte_bits, bits_byte. by rewrite Byte.to_bits_of_bits. Qed.

(** Induction on a list of bits, one byte at a time. *)
Lemma bits_ind (P : list bool -> Prop) :
  (forall l, length l < 8 -> P l) ->
  (forall b7 b6 b5 b4 b3 b2 b1 b0 l, P l ->
     P (b7 :: b6 :: b5 :: b4 :: b3 :: b2 :: b1 :: b0 :: l)) ->
  forall l, P l.
Proof.
  intros Hs Hc l. remember (length l) as n eqn:Hn. revert l Hn.
  induction n as [n IH] using lt_wf_ind. intros l ->.
  do 8 (destruct l as [|? l]; [apply Hs; simpl; lia |]).
  apply Hc. by apply (IH (length l)); simpl; [lia|].
Qed.

Lemma bits_to_bytes_bits l :
  take (length l) (bits_to_bytes l ≫= byte_bits) = l.
Proof.
  induction l as [l Hl | ???????? l IH] using bits_ind.
  - do 8 (destruct l as [|? l];
      [by cbn -[byte_bits bits_byte]; rewrite ?byte_bits_bits_byte |]).
    simpl in Hl. lia.
  - cbn -[byte_bits bits_byte]. rewrite byte_bits_bits_byte. simpl. by rewrite IH.
Qed.

Lemma length_bits_to_bytes l :
  length (bits_to_bytes l) =
  length l / 8 + (if 0 <? length l mod 8 then 1 else 0).
Proof.
  induction l as [l Hl | ???????? l IH] using bits_ind.
  - do 8 (destruct l as [|? l]; [done |]). simpl in Hl. lia.
  - cbn [bits_to_bytes length]. rewrite IH.
    replace (S (S (S (S (S (S (S (S (length l))))))))) with (length l + 1 * 8) by lia.
    rewrite Nat.div_add, Nat.Div0.mod_add by lia. lia.
Qed.

Lemma std_byteorder_laws : @ByteOrderLaws std_byteorder.
Proof.
  split; intros; simpl; try done;
    [by rewrite decide_True | rewrite decide_False; [done|lia]
    | by rewrite decide_True | rewrite decide_False; [done|lia] ].
Qed.

Lemma list_bitvec_laws : @BitVecLaws (list bool) list_bitvec.
Proof. by split. Qed.

Lemma toy_sha1_laws : @Sha1Laws (list byte) toy_sha1.
Proof.
  split.
  - intros l. cbn [sha1 toy_sha1].
    rewrite length_take, !length_app, length_replicate, length_be_split. lia.
  - intros chunks. cbn [sha1_digest sha1 toy_sha1]. 
    assert (forall acc, foldl (fun h l => h ++ l) acc chunks = acc ++ concat chunks) as ->; [|done].
    induction chunks as [|c chunks IH]; intros acc; simpl; [by rewrite app_nil_r|].
    by rewrite IH, app_assoc.
Qed.

Lemma sha1_from_digest `{Sha1Laws Hasher} l :
  sha1_digest (sha1_from l) = sha1 l.
Proof.
  pose proof (sha1_digest_spec [l]) as Hs. simpl in Hs. by rewrite app_nil_r in Hs.
Qed.

Lemma split_to_app l1 l2 n : n = length l1 -> split_to (l1 ++ l2) n = Ret (l1, l2).
Proof.
  intros ->. unfold split_to. rewrite decide_True by (rewrite length_app; lia).
  by rewrite take_app_length, drop_app_length.
Qed.

Lemma split_to_ok l n : n <= length l -> split_to l n = Ret (take n l, drop n l).
Proof. intros. unfold split_to. by rewrite decide_True. Qed.

Lemma advance_ok l n : n <= length l -> advance l n = Ret (drop n l).
Proof. intros. unfold advance. by rewrite decide_True. Qed.

Lemma find_filter_other {K V} `{EqDecision K} (c : list (K * V)) k k' :
  k <> k' ->
  find (fun e => bool_decide (e.1 = k'))
    (List.filter (fun e => negb (bool_decide (e.1 = k))) c) =
  find (fun e => bool_decide (e.1 = k')) c.
Proof.
  intros Hne. induction c as [|[k1 v1] c IH]; simpl; [done|].
  destruct (decide (k1 = k)) as [->|Hk].
  - rewrite bool_decide_true by done. simpl. by rewrite (bool_decide_false (k = k')) by done.
  - rewrite (bool_decide_false (k1 = k)) by done. simpl. by case_bool_decide.
Qed.

Lemma find_filter_same {K V} `{EqDecision K} (c : list (K * V)) k :
  find (fun e => bool_decide (e.1 = k))
    (List.filter (fun e => negb (bool_decide (e.1 = k))) c) = None.
Proof.
  induction c as [|[k1 v1] c IH]; simpl; [done|].
  destruct (decide (k1 = k)) as [->|Hk].
  - by rewrite bool_decide_true by done.
  - rewrite (bool_decide_false (k1 = k)) by done. simpl. by rewrite bool_decide_false by done.
Qed.

Lemma find_take {A} (p : A -> bool) l n x : find p (take n l) = Some x -> find p l = Some x.
Proof.
  revert n. induction l as [|y l IH]; intros [|n]; simpl; try done.
  destruct (p y); [done|apply IH].
Qed.

Lemma list_cache_laws K V `{EqDecision K} :
  @LruCacheLaws K V (Z * list (K * V)) (list_cache K V).
Proof.
  split; simpl; try done.
  - intros c k. by rewrite find_filter_same.
  - intros c k k' Hne. by rewrite find_filter_other.
  - intros [n c] k v Hn. simpl in *. destruct (Z.to_nat n) eqn:E; [lia|]. simpl.
    by rewrite bool_decide_true.
  - intros [n c] k v k' v' Hne. simpl. intros [e [Hf He]]%fmap_Some.
    apply find_take in Hf. simpl in Hf. rewrite bool_decide_false in Hf by done.
    rewrite find_filter_other in Hf by done. by rewrite Hf, He.
Qed.
