(* ===== verification/DiskFs.v ===== *)
(** * File systems

    The trait [FileSystem] of src/src/disk/fs.rs, the laws its comments state,
    and a file system in memory, which the witnesses use.  The implementation
    over the operating system is in NativeFs.v. *)

From S2P Require Import Prelude Crates.

(** ** A file system

    [Fs] is the state of the file system with the files in it, [File] a file
    handle with its position. *)
Class FileSystem (Fs File FsError : Type) := {
  (** opens a file, and creates it if it does not exist *)
  poll_open_file : Fs -> string -> Fs * poll (result File FsError);
  sync_file : Fs -> File -> Fs * File * poll (result unit FsError);
  poll_file_size : Fs -> File -> Fs * File * poll (result Z FsError);
  (** [SeekFrom::Start(offset)], the only form the callers use *)
  poll_seek : Fs -> File -> Z -> Fs * File * poll (result Z FsError);
  (** appends what was read to a buffer of the given capacity *)
  poll_read_block :
    Fs -> File -> Z -> list byte -> Fs * File * list byte * poll (result Z FsError);
  poll_write_block : Fs -> File -> list byte -> Fs * File * poll (result Z FsError);
}.

(** What a file holds, and where its handle stands *)
Class FileContents (Fs File : Type) := {
  file_data : Fs -> File -> list byte;
  file_pos : Fs -> File -> Z;
}.

(** The bytes [bs] written at [off] *)
Definition overwrite (off : nat) (bs l : list byte) : list byte :=
  take off (l ++ replicate off Byte.x00) ++ bs ++ drop (off + length bs) l.

Class FileSystemLaws (Fs File FsError : Type)
    `{FileSystem Fs File FsError} `{FileContents Fs File} : Prop := {
  seek_data fs f off fs' f' r :
    poll_seek fs f off = (fs', f', r) -> file_data fs' f' = file_data fs f;
  seek_ok fs f off fs' f' p :
    poll_seek fs f off = (fs', f', Ready (Ok p)) -> file_pos fs' f' = off;
  write_count fs f buf fs' f' n :
    poll_write_block fs f buf = (fs', f', Ready (Ok n)) -> (0 <= n <= Z.of_nat (length buf))%Z;
  (** "On success, return the number of bytes written": a write may be partial. *)
  write_ok fs f buf fs' f' n :
    poll_write_block fs f buf = (fs', f', Ready (Ok n)) -> (0 <= file_pos fs f)%Z ->
    (0 <= n <= Z.of_nat (length buf))%Z /\
    file_data fs' f' =
      overwrite (Z.to_nat (file_pos fs f)) (take (Z.to_nat n) buf) (file_data fs f) /\
    file_pos fs' f' = (file_pos fs f + n)%Z;
  write_pending fs f buf fs' f' :
    poll_write_block fs f buf = (fs', f', Pending) ->
    file_data fs' f' = file_data fs f /\ file_pos fs' f' = file_pos fs f;
  (** "On success, return the number of bytes read." *)
  read_ok fs f cap buf fs' f' buf' n :
    poll_read_block fs f cap buf = (fs', f', buf', Ready (Ok n)) -> (0 <= file_pos fs f)%Z ->
    (0 <= n)%Z /\ file_data fs' f' = file_data fs f /\
    (exists d, buf' = buf ++ d /\ Z.of_nat (length d) = n /\
       d = take (Z.to_nat n) (drop (Z.to_nat (file_pos fs f)) (file_data fs f))) /\
    file_pos fs' f' = (file_pos fs f + n)%Z;
  read_pending fs f cap buf fs' f' buf' :
    poll_read_block fs f cap buf = (fs', f', buf', Pending) ->
    buf' = buf /\ file_data fs' f' = file_data fs f /\ file_pos fs' f' = file_pos fs f;
}.

(** ** A file system in memory *)

(** A file system of one file, whose writes take at most [limit] bytes and
    whose reads give at most [limit] bytes; handles are positions. *)
Definition memory_fs (limit : nat) : FileSystem (list byte) Z unit := {|
  poll_open_file fs _ := (fs, Ready (Ok 0%Z));
  sync_file fs f := (fs, f, Ready (Ok tt));
  poll_file_size fs f := (fs, f, Ready (Ok (Z.of_nat (length fs))));
  poll_seek fs _ off := (fs, off, Ready (Ok off));
  poll_read_block fs p cap buf :=
    let d := take (Nat.min limit (Z.to_nat cap - length buf)) (drop (Z.to_nat p) fs) in
    (fs, (p + Z.of_nat (length d))%Z, buf ++ d, Ready (Ok (Z.of_nat (length d))));
  poll_write_block fs p buf :=
    let n := Nat.min limit (length buf) in
    (overwrite (Z.to_nat p) (take n buf) fs, (p + Z.of_nat n)%Z, Ready (Ok (Z.of_nat n)));
|}.
Definition memory_contents : FileContents (list byte) Z :=
  {| file_data fs _ := fs; file_pos _ p := p |}.

(** ** Lemmas *)

Lemma memory_fs_laws limit :
  @FileSystemLaws (list byte) Z unit (memory_fs limit) memory_contents.
Proof.
  split; simpl.
  - by intros fs f off fs' f' r [= <- <- <-].
  - by intros fs f off fs' f' p [= <- <- <-].
  - intros fs f buf fs' f' n [= <- <- <-]. lia.
  - intros fs f buf fs' f' n [= <- <- <-] Hp. rewrite Nat2Z.id.
    split_and!; [lia | lia | done | done].
  - done.
  - intros fs f cap buf fs' f' buf' n [= <- <- <- <-] Hp. split_and!; [lia|done| |done].
    eexists. split_and!; [done|done|]. rewrite Nat2Z.id, length_take.
    by rewrite <- (take_take _ _ (length (drop (Z.to_nat f) fs))), firstn_all.
  - done.
Qed.

(** *** Overwriting *)

Lemma overwrite_at off bs l : take (length bs) (drop off (overwrite off bs l)) = bs.
Proof.
  unfold overwrite. rewrite drop_app_length'.
  - apply take_app_length.
  - rewrite length_take, length_app, length_replicate. lia.
Qed.

Lemma overwrite_before off bs l n :
  n <= off -> off <= length l -> take n (overwrite off bs l) = take n l.
Proof.
  intros Hn Hl. unfold overwrite. rewrite take_app_le by (rewrite length_take, length_app; lia).
  rewrite take_take, Nat.min_l by lia. by rewrite take_app_le by lia.
Qed.

(** A write behind the [w] bytes from [off] on extends them. *)
Lemma overwrite_append off w bs l :
  length (take w (drop off l)) = w ->
  take (w + length bs) (drop off (overwrite (off + w) bs l)) = take w (drop off l) ++ bs.
Proof.
  intros Hw. unfold overwrite. set (P := take (off + w) _).
  assert (length P = off + w) as HP
    by (unfold P; rewrite length_take, length_app, length_replicate; lia).
  rewrite drop_app_le by lia. rewrite app_assoc.
  assert (drop off P = take w (drop off l)) as ->.
  { unfold P. rewrite skipn_firstn_comm. replace (off + w - off) with w by lia.
    destruct w as [|w]; [done|]. rewrite length_take, length_drop in Hw.
    rewrite drop_app_le by lia. apply take_app_le. rewrite length_drop. lia. }
  apply take_app_length'. rewrite length_app. lia.
Qed.

(** A write leaves the bytes outside of it as they were. *)
Lemma overwrite_other off bs l o n :
  o + n <= length l -> o + n <= off \/ off + length bs <= o ->
  take n (drop o (overwrite off bs l)) = take n (drop o l).
Proof.
  intros Hl Ho. unfold overwrite. set (P := take off _).
  assert (length P = off) as HP
    by (unfold P; rewrite length_take, length_app, length_replicate; lia).
  destruct Ho as [Ho|Ho].
  - rewrite drop_app_le, take_app_le by (rewrite ?length_drop; lia). unfold P.
    rewrite skipn_firstn_comm, take_take, Nat.min_l, drop_app_le, take_app_le
      by (rewrite ?length_drop; lia). done.
  - rewrite drop_app_ge, drop_app_ge, drop_drop by (rewrite ?HP; lia). rewrite HP.
    do 2 f_equal. lia.
Qed.
