(* ===== verification/Strings.v ===== *)
(** * Strings, bytes and chunks

    What the code uses of [std::string] and [std::slice]: the bytes of a
    [String], [String::from_utf8], [String::from_utf8_lossy] and
    [chunks].  A [String] is a [string] of bytes in UTF-8. *)

From Stdlib Require Import String.
From S2P Require Import Prelude Crates.
Local Open Scope Z_scope.

(** ** Operations *)

(** [s.as_bytes()], and byte string literals *)
Definition bytes_of (s : string) : list byte := String.list_byte_of_string s.

(** The parts of a byte string: characters in UTF-8, and the longest pieces
    that begin one but are not one. *)
Definition between (a b : Z) (x : byte) : bool := (a <=? byte_to_Z x) && (byte_to_Z x <=? b).

(** What the second byte of a character may be, after the first *)
Definition second_ok (b0 b1 : byte) : bool :=
  let x := byte_to_Z b0 in
  if x =? 0xE0 then between 0xA0 0xBF b1
  else if x =? 0xED then between 0x80 0x9F b1
  else if x =? 0xF0 then between 0x90 0xBF b1
  else if x =? 0xF4 then between 0x80 0x8F b1
  else between 0x80 0xBF b1.

Fixpoint utf8_chunks (l : list byte) : list (result (list byte) (list byte)) :=
  match l with
  | [] => []
  | b0 :: l1 =>
      if byte_to_Z b0 <? 0x80 then Ok [b0] :: utf8_chunks l1
      else if negb (between 0xC2 0xF4 b0) then Err [b0] :: utf8_chunks l1
      else
        match l1 with
        | [] => [Err [b0]]
        | b1 :: l2 =>
            if negb (second_ok b0 b1) then Err [b0] :: utf8_chunks l1
            else if byte_to_Z b0 <? 0xE0 then Ok [b0; b1] :: utf8_chunks l2
            else
              match l2 with
              | [] => [Err [b0; b1]]
              | b2 :: l3 =>
                  if negb (between 0x80 0xBF b2) then Err [b0; b1] :: utf8_chunks l2
                  else if byte_to_Z b0 <? 0xF0 then Ok [b0; b1; b2] :: utf8_chunks l3
                  else
                    match l3 with
                    | [] => [Err [b0; b1; b2]]
                    | b3 :: l4 =>
                        if negb (between 0x80 0xBF b3) then Err [b0; b1; b2] :: utf8_chunks l3
                        else Ok [b0; b1; b2; b3] :: utf8_chunks l4
                    end
              end
        end
  end.

Definition utf8_valid (l : list byte) : bool := forallb is_ok (utf8_chunks l).

(** [String::from_utf8]; the error is not looked at. *)
Definition from_utf8 (l : list byte) : option string :=
  if utf8_valid l then Some (String.string_of_list_byte l) else None.

(** [String::from_utf8_lossy]: U+FFFD in the place of what is not a character *)
Definition from_utf8_lossy (l : list byte) : string :=
  String.string_of_list_byte
    (utf8_chunks l ≫= fun c => match c with Ok x => x | Err _ => byte_of_Z <$> [0xEF; 0xBF; 0xBD] end).

(** The text of the error of [std::str::from_utf8]: where the first part lies
    that is not a character, and how long it is, or that the end is missing *)
Fixpoint utf8_error_at (i : nat) (parts : list (result (list byte) (list byte))) : string :=
  match parts with
  | [] => ""
  | Ok x :: parts' => utf8_error_at (i + length x) parts'
  | Err x :: parts' =>
      if bool_decide (parts' = []) && forallb (between 0xC2 0xF4) (take 1 x) then
        "incomplete utf-8 byte sequence from index " +:+ pretty i
      else
        "invalid utf-8 sequence of " +:+ pretty (length x) +:+ " bytes from index " +:+ pretty i
  end.
Definition utf8_error_text (l : list byte) : string := utf8_error_at 0 (utf8_chunks l).

(** [l.chunks(n)] *)
Fixpoint chunks_fuel {A} (fuel : nat) (n : nat) (l : list A) : list (list A) :=
  match fuel, l with
  | O, _ | _, [] => []
  | S fuel, _ => take n l :: chunks_fuel fuel n (drop n l)
  end.
Definition chunks {A} (n : nat) (l : list A) : list (list A) := chunks_fuel (length l) n l.

(** ** Specification *)

(** The bytes of a [String] are in UTF-8. *)
Definition is_str (s : string) : Prop := utf8_valid (bytes_of s) = true.

(** ** Lemmas *)

Lemma string_of_bytes_of s : String.string_of_list_byte (bytes_of s) = s.
Proof. apply String.string_of_list_byte_of_string. Qed.

Lemma bytes_of_string_of l : bytes_of (String.string_of_list_byte l) = l.
Proof. apply String.list_byte_of_string_of_list_byte. Qed.

Lemma bytes_of_inj s t : bytes_of s = bytes_of t -> s = t.
Proof. intros H. by rewrite <- (string_of_bytes_of s), H, string_of_bytes_of. Qed.

Lemma from_utf8_bytes_of s : is_str s -> from_utf8 (bytes_of s) = Some s.
Proof. unfold from_utf8, is_str. intros ->. by rewrite string_of_bytes_of. Qed.

Lemma from_utf8_is_str l s : from_utf8 l = Some s -> is_str s /\ bytes_of s = l.
Proof.
  unfold from_utf8, is_str. destruct (utf8_valid l) eqn:E; [|done]. intros [= <-].
  by rewrite bytes_of_string_of.
Qed.

(** Nothing is lost between the parts of a byte string. *)
Lemma utf8_chunks_concat l :
  (utf8_chunks l ≫= fun c => match c with Ok x | Err x => x end) = l.
Proof.
  remember (length l) as n eqn:Hn. revert l Hn.
  induction n as [n IH] using lt_wf_ind. intros l Hn.
  assert (forall l', (length l' < n)%nat ->
    (utf8_chunks l' ≫= fun c => match c with Ok x | Err x => x end) = l') as IH'
    by (intros l' Hl; by eapply IH).
  clear IH. subst n.
  destruct l as [|b0 l]; [done|]. cbn [utf8_chunks].
  repeat match goal with
  | |- context [if ?c then _ else _] => destruct c
  | |- context [match ?k with [] => _ | _ => _ end] => is_var k; destruct k
  end; rewrite bind_cons; try done; by rewrite IH' by (simpl; lia).
Qed.

Lemma from_utf8_lossy_valid s : is_str s -> from_utf8_lossy (bytes_of s) = s.
Proof.
  intros Hs. unfold from_utf8_lossy. rewrite <- (string_of_bytes_of s) at 2. f_equal.
  rewrite <- (utf8_chunks_concat (bytes_of s)) at 2.
  unfold is_str, utf8_valid in Hs. induction (utf8_chunks _) as [|[x|x] l IH]; [done| |done].
  cbn [mbind list_bind]. simpl in Hs. f_equal. by apply IH.
Qed.

Lemma chunks_fuel_enough {A} fuel n (l : list A) :
  (0 < n)%nat -> (length l <= fuel)%nat -> chunks_fuel fuel n l = chunks n l.
Proof.
  intros Hn. unfold chunks. revert l.
  assert (forall k fuel l, (length l <= k)%nat -> (length l <= fuel)%nat ->
    chunks_fuel fuel n l = chunks_fuel k n (l : list A)) as Hk.
  { clear fuel. induction k as [|k IH]; intros fuel l Hl Hf.
    - destruct l; simpl in *; [|lia]. by destruct fuel.
    - destruct l as [|x l]; [by destruct fuel|]. destruct fuel as [|fuel]; [simpl in Hf; lia|].
      cbn [chunks_fuel]. f_equal. apply IH; rewrite length_drop; simpl in *; lia. }
  intros l Hl. by apply Hk.
Qed.

Lemma chunks_nil {A} n : chunks n ([] : list A) = [].
Proof. done. Qed.

Lemma chunks_step {A} n (l : list A) :
  (0 < n)%nat -> l <> [] -> chunks n l = take n l :: chunks n (drop n l).
Proof.
  intros Hn Hl. destruct l as [|x l]; [done|]. unfold chunks at 1. cbn [length chunks_fuel].
  f_equal. apply chunks_fuel_enough; [done|]. rewrite length_drop. simpl. lia.
Qed.

Lemma chunks_app {A} n (l1 l2 : list A) :
  (0 < n)%nat -> length l1 = n -> chunks n (l1 ++ l2) = l1 :: chunks n l2.
Proof.
  intros Hn Hl. rewrite chunks_step; [|done|destruct l1; simpl in *; [lia|done]].
  by rewrite take_app_length', drop_app_length'.
Qed.

Lemma chunks_short {A} n (l : list A) :
  (0 < n)%nat -> l <> [] -> (length l <= n)%nat -> chunks n l = [l].
Proof. intros Hn Hl Hs. rewrite chunks_step, take_ge, drop_ge by done. done. Qed.

Lemma chunks_concat {A} n (ls : list (list A)) :
  (0 < n)%nat -> Forall (fun l => length l = n) ls -> chunks n (concat ls) = ls.
Proof.
  intros Hn. induction 1 as [|l ls Hl _ IH]; [done|]. simpl. by rewrite chunks_app, IH.
Qed.

Lemma concat_chunks {A} n (l : list A) : (0 < n)%nat -> concat (chunks n l) = l.
Proof.
  intros Hn. remember (length l) as k eqn:Hk. revert l Hk.
  induction k as [k IH] using lt_wf_ind. intros l ->.
  destruct l as [|x l]; [done|]. rewrite chunks_step by done. simpl concat.
  rewrite (IH (length (drop n (x :: l)))); [apply take_drop| |done].
  rewrite length_drop. simpl. lia.
Qed.
