(* ===== verification/Bencode.v ===== *)
(** * Bencode

    The crate bendy: the values an encoder emits, the objects a decoder yields,
    and the two traits [ToBencode] and [FromBencode] as classes.

    Encoding is a parameter of the model, and so is decoding, which bendy does
    while the program walks over an object: the items of a list or dictionary
    that could be read come first, and then its end or the error that stopped
    the decoder. *)

From S2P Require Import Prelude Crates Strings.
#[local] Set Warnings "-register-all".

(** ** Data *)

(** What [SingleItemEncoder] is told to emit, in this order *)
Inductive bvalue :=
| BInt (z : Z)
| BBytes (b : list byte)
| BList (l : list bvalue)
| BDict (l : list (list byte * bvalue)).

(** [bendy::decoding::Object]: the items, and the error that ends them, if any *)
Inductive Object (E : Type) :=
| OInteger (z : Z)
| OBytes (b : list byte)
| OList (l : list (Object E)) (err : option E)
| ODict (l : list (list byte * Object E)) (err : option E).
Arguments OInteger {E}.
Arguments OBytes {E}.
Arguments OList {E}.
Arguments ODict {E}.

(** [emit_str] *)
Definition BStr (s : string) : bvalue := BBytes (bytes_of s).

(** The nesting of lists and dictionaries *)
Fixpoint depth (v : bvalue) : nat :=
  match v with
  | BInt _ | BBytes _ => 0
  | BList l => S (foldr (fun v n => Nat.max (depth v) n) 0 l)
  | BDict l => S (foldr (fun kv n => Nat.max (depth kv.2) n) 0 l)
  end.

(** The order of the keys of a dictionary *)
Fixpoint bytes_lt (a b : list byte) : bool :=
  match a, b with
  | _, [] => false
  | [], _ :: _ => true
  | x :: a', y :: b' =>
      (byte_to_Z x <? byte_to_Z y)%Z || (bool_decide (x = y) && bytes_lt a' b')
  end.

Fixpoint increasing (keys : list (list byte)) : bool :=
  match keys with
  | k :: (k' :: _) as rest => bytes_lt k k' && increasing rest
  | _ => true
  end.

(** Every dictionary of a value has its keys in order. *)
Fixpoint sorted (v : bvalue) : bool :=
  match v with
  | BInt _ | BBytes _ => true
  | BList l => forallb sorted l
  | BDict l => increasing l.*1 && forallb (fun kv => sorted kv.2) l
  end.

(** The object of a value that is read without an error *)
Fixpoint object_of {E} (v : bvalue) : Object E :=
  match v with
  | BInt z => OInteger z
  | BBytes b => OBytes b
  | BList l => OList (object_of <$> l) None
  | BDict l => ODict ((fun kv => (kv.1, object_of kv.2)) <$> l) None
  end.

(** No error comes up anywhere in an object. *)
Fixpoint complete {E} (o : Object E) : bool :=
  match o with
  | OInteger _ | OBytes _ => true
  | OList l err => negb (bool_decide (is_Some err)) && forallb complete l
  | ODict l err => negb (bool_decide (is_Some err)) && forallb (fun kv => complete kv.2) l
  end.

(** ** The operations of the crate *)

Class Bendy (DecodingError EncodingError : Type) := {
  (** the depth of decoders that name none *)
  DEFAULT_MAX_DEPTH : nat;
  (** [to_bencode] with a [MAX_DEPTH] *)
  bendy_encode : nat -> bvalue -> result (list byte) EncodingError;
  (** [Decoder::new(bytes).with_max_depth(n).next_object()], and all the
      object yields *)
  bendy_decode : nat -> list byte -> result (Object DecodingError) DecodingError;
  (** [DictDecoder::into_raw] *)
  bendy_into_raw :
    list (list byte * Object DecodingError) -> option DecodingError ->
    result (list byte) DecodingError;
  missing_field : string -> DecodingError;
  unexpected_field : string -> DecodingError;
  (** an object of another kind, a number out of range, bytes that are no text *)
  unexpected_token : DecodingError;
  malformed_content : DecodingError;
  (** [ResultExt::context] *)
  add_context : string -> DecodingError -> DecodingError;
}.

(** The documented behaviour: encoding fails for keys that are out of order
    and for values that are too deep; what was encoded is decoded, up to the
    depth that is allowed; an error while reading an object stops the decoder,
    so that whoever comes to the end of the object has seen all of it. *)
Class BendyLaws (DecodingError EncodingError : Type)
    `{Bendy DecodingError EncodingError} : Prop := {
  bendy_default_depth : DEFAULT_MAX_DEPTH = 2048;
  bendy_encode_ok d v :
    is_ok (bendy_encode d v) = true <-> (depth v <= d /\ sorted v = true);
  bendy_decode_encode d d' v b :
    bendy_encode d' v = Ok b -> depth v <= d -> bendy_decode d b = Ok (object_of v);
  bendy_decode_deep d d' v b o :
    bendy_encode d' v = Ok b -> d < depth v -> bendy_decode d b = Ok o -> complete o = false;
  bendy_decode_latched d b o :
    bendy_decode d b = Ok o ->
    match o with OList _ None | ODict _ None => complete o = true | _ => True end;
  bendy_into_raw_encoded d l b :
    bendy_encode d (BDict l) = Ok b ->
    bendy_into_raw ((fun kv => (kv.1, object_of kv.2)) <$> l) None = Ok b;
}.

(** ** Traits *)

(** [ToBencode]: what [encode] emits; the errors are those of the encoder. *)
Class ToBencode (A : Type) := {
  MAX_DEPTH : nat;
  encode : A -> bvalue;
}.
Arguments MAX_DEPTH A {_}.

(** [FromBencode] *)
Class FromBencode (A DecodingError : Type) := {
  EXPECTED_RECURSION_DEPTH : nat;
  decode_bencode_object : Object DecodingError -> result A DecodingError;
}.
Arguments EXPECTED_RECURSION_DEPTH A {_ _}.

Section Decoding.
Context `{Bendy DecodingError EncodingError}.
#[local] Abbreviation Obj := (Object DecodingError).
#[local] Abbreviation Res A := (result A DecodingError).

Definition to_bencode `{ToBencode A} (a : A) : result (list byte) EncodingError :=
  bendy_encode (MAX_DEPTH A) (encode a).

Definition from_bencode `{FromBencode A DecodingError} (bytes : list byte) : Res A :=
  object ⇐ bendy_decode (EXPECTED_RECURSION_DEPTH A) bytes;
  decode_bencode_object object.

(** [try_into_dictionary], [try_into_list], [try_into_bytes] *)
Definition try_into_dictionary (o : Obj) : Res (list (list byte * Obj) * option DecodingError) :=
  match o with ODict l err => Ok (l, err) | _ => Err unexpected_token end.

Definition try_into_list (o : Obj) : Res (list Obj * option DecodingError) :=
  match o with OList l err => Ok (l, err) | _ => Err unexpected_token end.

Definition try_into_bytes (o : Obj) : Res (list byte) :=
  match o with OBytes b => Ok b | _ => Err unexpected_token end.

(** [String::decode_bencode_object], and the same for an integer type whose
    values are from [lo] up to, but not including, [hi] *)
Definition decode_string (o : Obj) : Res string :=
  b ⇐ try_into_bytes o;
  ok_or (from_utf8 b) malformed_content.

Definition decode_int (lo hi : Z) (o : Obj) : Res Z :=
  match o with
  | OInteger z => if ((lo <=? z) && (z <? hi))%Z then Ok z else Err malformed_content
  | _ => Err unexpected_token
  end.

(** [.context(s)] *)
Definition context {A} (s : string) (r : Res A) : Res A :=
  match r with Ok a => Ok a | Err e => Err (add_context s e) end.

(** [while let Some(item) = list.next_object()? { .. }], and the same for the
    pairs of a dictionary, over what the loop changes *)
Fixpoint for_each {A X} (f : A -> X -> Res A) (acc : A) (l : list X)
    (err : option DecodingError) : Res A :=
  match l with
  | [] => match err with None => Ok acc | Some e => Err e end
  | x :: l' => acc ⇐ f acc x; for_each f acc l' err
  end.

(** The loop that pushes every item of a list to a vector *)
Definition decode_list {A} (decode : Obj -> Res A) (acc : list A) (o : Obj) : Res (list A) :=
  '(l, err) ⇐ try_into_list o;
  for_each (fun acc o => a ⇐ decode o; Ok (acc ++ [a])) acc l err.

(** [list.next_object()?] on a list that has not been read so far *)
Definition next_object (l : list Obj) (err : option DecodingError) : Res (option Obj * list Obj) :=
  match l with
  | o :: l' => Ok (Some o, l')
  | [] => match err with None => Ok (None, []) | Some e => Err e end
  end.

(** A key in a pattern, [b".."] *)
Definition is_key (key : list byte) (s : string) : bool := bool_decide (key = bytes_of s).
End Decoding.

(** ** Lemmas *)

Section BencodeLemmas.
Context `{BendyLaws DecodingError EncodingError}.
#[local] Abbreviation Obj := (Object DecodingError).
Implicit Types v : bvalue.

Lemma decode_string_str s : is_str s -> decode_string (OBytes (bytes_of s) : Obj) = Ok s.
Proof. intros Hs. unfold decode_string. simpl. by rewrite from_utf8_bytes_of. Qed.

Lemma decode_int_ok lo hi z :
  (lo <= z < hi)%Z -> decode_int lo hi (OInteger z : Obj) = Ok z.
Proof.
  intros [? ?]. simpl. rewrite (proj2 (Z.leb_le _ _)), (proj2 (Z.ltb_lt _ _)) by done. done.
Qed.

Lemma for_each_app {A X} (f : A -> X -> result A DecodingError) acc l1 l2 err acc' :
  for_each f acc l1 None = Ok acc' -> for_each f acc (l1 ++ l2) err = for_each f acc' l2 err.
Proof.
  revert acc. induction l1 as [|x l1 IH]; simpl; intros acc; [by intros [= ->]|].
  destruct (f acc x); simpl; [apply IH|done].
Qed.

(** A list of values each of which is decoded *)
Lemma decode_list_ok {A} (dec : Obj -> result A DecodingError) (enc : A -> bvalue) acc l :
  Forall (fun a => dec (object_of (enc a)) = Ok a) l ->
  decode_list dec acc (OList (object_of <$> (enc <$> l)) None) = Ok (acc ++ l).
Proof.
  unfold decode_list. simpl. intros Hl. revert acc.
  induction Hl as [|a l Ha _ IH]; intros acc; simpl; [by rewrite app_nil_r|].
  rewrite Ha. simpl. by rewrite IH, <- app_assoc.
Qed.

(** Whoever walks an object to its end has met no error in it. *)
Lemma for_each_no_err {A X} (f : A -> X -> result A DecodingError) acc l err acc' :
  for_each f acc l err = Ok acc' -> err = None.
Proof.
  revert acc. induction l as [|x l IH]; simpl; intros acc; [by destruct err|].
  intros Hf. inv_try Hf. by eapply IH.
Qed.

Lemma for_each_elem {A X} (f : A -> X -> result A DecodingError) acc l err acc' x :
  for_each f acc l err = Ok acc' -> x ∈ l -> exists a1 a2, f a1 x = Ok a2.
Proof.
  intros Hf Hx. revert acc Hf. induction Hx as [x l|x y l _ IH]; cbn [for_each]; intros acc Hf;
    inv_try Hf; [by eexists _, _|by eapply IH].
Qed.

Lemma encode_twice d d' v b :
  bendy_encode d' v = Ok b -> depth v <= d -> is_ok (bendy_encode d v) = true.
Proof.
  intros Hv Hd. apply bendy_encode_ok. split; [done|].
  apply (bendy_encode_ok d' v). by rewrite Hv.
Qed.
End BencodeLemmas.

Lemma depth_list n l : depth (BList l) <= S n <-> Forall (fun v => depth v <= n) l.
Proof.
  simpl. rewrite <- Nat.succ_le_mono. induction l as [|v l IH]; simpl.
  - split; [constructor|lia].
  - rewrite Forall_cons, <- IH. lia.
Qed.

Lemma depth_dict n l : depth (BDict l) <= S n <-> Forall (fun kv => depth kv.2 <= n) l.
Proof.
  simpl. rewrite <- Nat.succ_le_mono. induction l as [|kv l IH]; simpl.
  - split; [constructor|lia].
  - rewrite Forall_cons, <- IH. lia.
Qed.

Lemma depth_in_list v l : v ∈ l -> depth v < depth (BList l).
Proof.
  intros Hv. pose proof (proj1 (depth_list (pred (depth (BList l))) l) (le_n _)) as Hl.
  rewrite Forall_forall in Hl. specialize (Hl v Hv). simpl in *. lia.
Qed.

Lemma depth_in_dict k v l : (k, v) ∈ l -> depth v < depth (BDict l).
Proof.
  intros Hv. pose proof (proj1 (depth_dict (pred (depth (BDict l))) l) (le_n _)) as Hl.
  rewrite Forall_forall in Hl. specialize (Hl _ Hv). simpl in *. lia.
Qed.

Lemma sorted_list l : sorted (BList l) = true <-> Forall (fun v => sorted v = true) l.
Proof. simpl. by rewrite forallb_forall, Forall_forall; setoid_rewrite list_elem_of_In. Qed.

Lemma sorted_dict l :
  sorted (BDict l) = true <-> increasing l.*1 = true /\ Forall (fun kv => sorted kv.2 = true) l.
Proof.
  simpl. rewrite andb_true_iff, forallb_forall, Forall_forall.
  by setoid_rewrite list_elem_of_In.
Qed.
