(* ===== verification/BencodeText.v ===== *)
(** * A bencode encoder and decoder

    The format itself, as an instance of the class of the crate bendy: what the
    witnesses of the theorems on torrent files compute with.  The laws are
    proved for it, so the hypotheses of these theorems can hold. *)

From Stdlib Require Import DecimalString DecimalZ.
From S2P Require Import Prelude Crates Strings Bencode.

(** ** The encoder *)

Definition char (s : string) : byte := default Byte.x00 (head (bytes_of s)).

Definition print_Z (z : Z) : list byte := bytes_of (NilZero.string_of_int (Z.to_int z)).

Definition print_bytes (b : list byte) : list byte :=
  print_Z (Z.of_nat (length b)) ++ [char ":"] ++ b.

Fixpoint print (v : bvalue) : list byte :=
  match v with
  | BInt z => [char "i"] ++ print_Z z ++ [char "e"]
  | BBytes b => print_bytes b
  | BList l => [char "l"] ++ (l ≫= print) ++ [char "e"]
  | BDict l => [char "d"] ++ (l ≫= fun kv => print_bytes kv.1 ++ print kv.2) ++ [char "e"]
  end.

(** ** The decoder *)

(** What comes before the first [c], and what comes after it *)
Fixpoint span_until (c : byte) (l : list byte) : option (list byte * list byte) :=
  match l with
  | [] => None
  | b :: l' =>
      if bool_decide (b = c) then Some ([], l')
      else '(pre, post) ← span_until c l'; Some (b :: pre, post)
  end.

Definition parse_Z (stop : byte) (l : list byte) : option (Z * list byte) :=
  '(digits, rest) ← span_until stop l;
  d ← NilZero.int_of_string (String.string_of_list_byte digits);
  Some (Z.of_int d, rest).

Definition parse_bytes (l : list byte) : option (list byte * list byte) :=
  '(n, rest) ← parse_Z (char ":") l;
  if bool_decide (Z.to_nat n <= length rest) then Some (take (Z.to_nat n) rest, drop (Z.to_nat n) rest)
  else None.

(** Items up to the [e] that ends them *)
Fixpoint parse_items {A} (item : list byte -> option (A * list byte)) (n : nat) (l : list byte) :
    option (list A * list byte) :=
  match n, l with
  | S n, b :: l' =>
      if bool_decide (b = char "e") then Some ([], l')
      else '(a, rest) ← item l; '(items, rest) ← parse_items item n rest; Some (a :: items, rest)
  | _, _ => None
  end.

Definition parse_pair (value : list byte -> option (bvalue * list byte)) (l : list byte) :
    option ((list byte * bvalue) * list byte) :=
  '(key, rest) ← parse_bytes l;
  '(v, rest) ← value rest;
  Some ((key, v), rest).

Fixpoint parse (fuel : nat) (l : list byte) : option (bvalue * list byte) :=
  match fuel, l with
  | S fuel, b :: l' =>
      if bool_decide (b = char "i") then
        '(z, rest) ← parse_Z (char "e") l'; Some (BInt z, rest)
      else if bool_decide (b = char "l") then
        '(items, rest) ← parse_items (parse fuel) fuel l'; Some (BList items, rest)
      else if bool_decide (b = char "d") then
        '(items, rest) ← parse_items (parse_pair (parse fuel)) fuel l'; Some (BDict items, rest)
      else '(s, rest) ← parse_bytes l; Some (BBytes s, rest)
  | _, _ => None
  end.

(** ** The instance *)

(** The value of an object that has no error *)
Fixpoint value_of {E} (o : Object E) : option bvalue :=
  match o with
  | OInteger z => Some (BInt z)
  | OBytes b => Some (BBytes b)
  | OList l None => BList <$> mapM value_of l
  | ODict l None => BDict <$> mapM (fun kv => pair kv.1 <$> value_of kv.2) l
  | _ => None
  end.

Definition text_bendy : Bendy string string := {|
  DEFAULT_MAX_DEPTH := 2048;
  bendy_encode d v :=
    if negb (depth v <=? d) then Err "nesting too deep"
    else if negb (sorted v) then Err "unsorted keys"
    else Ok (print v);
  bendy_decode d b :=
    match parse (S (length b)) b with
    | Some (v, _) =>
        if negb (depth v <=? d) then Err "nesting too deep"
        else if negb (sorted v) then Err "unsorted keys"
        else Ok (object_of v)
    | None => Err "syntax error"
    end;
  bendy_into_raw l err :=
    match value_of (ODict l err) with Some v => Ok (print v) | None => Err "syntax error" end;
  missing_field s := "missing field " +:+ s;
  unexpected_field s := "unexpected field " +:+ s;
  unexpected_token := "unexpected token";
  malformed_content := "malformed content";
  add_context s e := s +:+ ": " +:+ e;
|}.

(** ** Lemmas *)

(** Induction over the parts of a value *)
Lemma bvalue_ind' (P : bvalue -> Prop) :
  (forall z, P (BInt z)) -> (forall b, P (BBytes b)) ->
  (forall l, Forall P l -> P (BList l)) ->
  (forall l, Forall (fun kv => P kv.2) l -> P (BDict l)) -> forall v, P v.
Proof.
  intros Hi Hb Hl Hd. fix IH 1. intros [z|b|l|l]; [apply Hi|apply Hb| |].
  - apply Hl. induction l as [|v l IHl]; constructor; [apply IH|exact IHl].
  - apply Hd. induction l as [|[k v] l IHl]; constructor; [apply IH|exact IHl].
Qed.

(** *** Numbers *)

Definition is_digit (b : byte) : bool :=
  bool_decide (b ∈ bytes_of "-0123456789").

Lemma bytes_of_String a s :
  bytes_of (String.String a s) = Ascii.byte_of_ascii a :: bytes_of s.
Proof. done. Qed.

Lemma digits_uint d : forallb is_digit (bytes_of (NilEmpty.string_of_uint d)) = true.
Proof.
  induction d; cbn [NilEmpty.string_of_uint]; [done|..];
    rewrite bytes_of_String; cbn [forallb]; by rewrite IHd.
Qed.

Lemma digits_uint0 d : forallb is_digit (bytes_of (NilZero.string_of_uint d)) = true.
Proof. unfold NilZero.string_of_uint. destruct d; try done; apply digits_uint. Qed.

Lemma digits_Z z : forallb is_digit (print_Z z) = true.
Proof.
  unfold print_Z, NilZero.string_of_int. destruct (Z.to_int z) as [d|d]; [apply digits_uint0|].
  rewrite bytes_of_String. cbn [forallb]. by rewrite digits_uint0.
Qed.

Lemma span_until_app c l rest :
  is_digit c = false -> forallb is_digit l = true ->
  span_until c (l ++ c :: rest) = Some (l, rest).
Proof.
  intros Hc. induction l as [|b l IH]; cbn [app span_until forallb]; intros Hl.
  - by rewrite bool_decide_true.
  - apply andb_true_iff in Hl as [Hb Hl]. rewrite bool_decide_false by congruence.
    by rewrite IH.
Qed.

Lemma parse_Z_print c z rest :
  is_digit c = false -> parse_Z c (print_Z z ++ c :: rest) = Some (z, rest).
Proof.
  intros Hc. unfold parse_Z. rewrite span_until_app by (done || apply digits_Z).
  cbn [mbind option_bind]. unfold print_Z. rewrite string_of_bytes_of.
  rewrite NilZero.isi.
  - cbn [mbind option_bind]. by rewrite DecimalZ.of_to.
  - destruct z; cbn; [done| |done]. intros [= He].
    apply (f_equal Pos.of_uint) in He. by rewrite DecimalPos.Unsigned.of_to in He.
  - destruct z; cbn; [done|done|]. intros [= He].
    apply (f_equal Pos.of_uint) in He. by rewrite DecimalPos.Unsigned.of_to in He.
Qed.

Lemma parse_bytes_print b rest : parse_bytes (print_bytes b ++ rest) = Some (b, rest).
Proof.
  unfold parse_bytes, print_bytes. rewrite <- !app_assoc. cbn [app].
  rewrite parse_Z_print by done. cbn [mbind option_bind].
  rewrite Nat2Z.id, bool_decide_true by (rewrite length_app; lia).
  by rewrite take_app_length, drop_app_length.
Qed.

(** A printed string starts with a digit. *)
Lemma print_Z_head z : exists b l, print_Z z = b :: l /\ is_digit b = true.
Proof.
  pose proof (digits_Z z) as Hd. destruct (print_Z z) as [|b l] eqn:E; [exfalso|].
  - pose proof (parse_Z_print (char "e") z [] eq_refl) as Hp. rewrite E in Hp. by vm_compute in Hp.
  - exists b, l. split; [done|]. by apply andb_true_iff in Hd as [? _].
Qed.

(** *** Values *)

(** The fuel a value needs *)
Fixpoint vsize (v : bvalue) : nat :=
  match v with
  | BInt _ | BBytes _ => 1
  | BList l => S (S (foldr (fun v n => vsize v + n) 0 l))
  | BDict l => S (S (foldr (fun kv n => vsize kv.2 + n) 0 l))
  end.

Lemma vsize_pos v : 1 <= vsize v.
Proof. destruct v; simpl; lia. Qed.

Lemma print_bytes_head b : exists x l, print_bytes b = x :: l /\ is_digit x = true.
Proof.
  unfold print_bytes. destruct (print_Z_head (Z.of_nat (length b))) as (x & l & -> & Hx).
  by exists x, (l ++ [char ":"] ++ b).
Qed.

Lemma print_head v : exists x l, print v = x :: l /\ x <> char "e".
Proof.
  destruct v as [z|b|l|l]; cbn [print app]; try by (eexists _, _; split; [done|]).
  destruct (print_bytes_head b) as (x & l & -> & Hx). exists x, l. split; [done|]. by intros ->.
Qed.

Lemma vsize_print v : vsize v <= length (print v).
Proof.
  induction v as [z|b|l IH|l IH] using bvalue_ind'; cbn [print vsize].
  - simpl. rewrite !length_app. lia.
  - destruct (print_bytes_head b) as (x & l & -> & _). simpl. lia.
  - rewrite !length_app. simpl length at 1 3.
    enough (foldr (fun v n => vsize v + n) 0 l <= length (l ≫= print)) by lia.
    induction IH as [|v l Hv _ IHl]; [simpl; lia|]. rewrite bind_cons, length_app. simpl. lia.
  - rewrite !length_app. simpl length at 1 3.
    enough (foldr (fun kv n => vsize kv.2 + n) 0 l <=
      length (l ≫= fun kv => print_bytes kv.1 ++ print kv.2)) by lia.
    induction IH as [|v l Hv _ IHl]; [simpl; lia|]. rewrite bind_cons, !length_app. simpl. lia.
Qed.

Lemma parse_items_print {A} (item : list byte -> option (A * list byte)) (pr : A -> list byte)
    n l rest :
  Forall (fun a => (forall rest, item (pr a ++ rest) = Some (a, rest)) /\
                   exists x t, pr a = x :: t /\ x <> char "e") l ->
  length l < n ->
  parse_items item n ((l ≫= pr) ++ char "e" :: rest) = Some (l, rest).
Proof.
  intros Hl. revert n. induction Hl as [|a l [Ha (x & t & Hx & Hne)] _ IH]; intros [|n] Hn;
    simpl in Hn; try lia.
  - done.
  - rewrite bind_cons, <- app_assoc. specialize (Ha ((l ≫= pr) ++ char "e" :: rest)).
    rewrite Hx in *. cbn [app parse_items]. cbn [app] in Ha.
    rewrite bool_decide_false, Ha by done. cbn [mbind option_bind].
    by rewrite IH by lia.
Qed.

Lemma foldr_sum_ge {A} (f : A -> nat) l :
  (forall a, 1 <= f a) -> length l <= foldr (fun a n => f a + n) 0 l.
Proof. intros Hf. induction l as [|a l IH]; simpl; [lia|]. specialize (Hf a). lia. Qed.

Lemma foldr_sum_elem {A} (f : A -> nat) l a :
  a ∈ l -> f a <= foldr (fun a n => f a + n) 0 l.
Proof. induction 1 as [a l|a b l _ IH]; simpl; lia. Qed.

(** Decoding inverts encoding. *)
Lemma parse_print v fuel rest : vsize v <= fuel -> parse fuel (print v ++ rest) = Some (v, rest).
Proof.
  revert v rest. induction fuel as [|fuel IH]; intros v rest Hf; [pose proof (vsize_pos v); lia|].
  destruct v as [z|b|l|l]; cbn [vsize] in Hf; cbn [print].
  - rewrite <- !app_assoc. cbn [app parse]. rewrite bool_decide_true by done.
    by rewrite parse_Z_print.
  - destruct (print_bytes_head b) as (x & t & Hx & Hd). pose proof (parse_bytes_print b rest) as Hp.
    rewrite Hx in *. cbn [app parse] in *.
    rewrite !bool_decide_false by (intros ->; by vm_compute in Hd). by rewrite Hp.
  - rewrite <- !app_assoc. cbn [app parse].
    rewrite bool_decide_false, bool_decide_true by done.
    rewrite parse_items_print; [done| |].
    + apply Forall_forall. intros v Hv. split; [|apply print_head]. intros rest'. apply IH.
      pose proof (foldr_sum_elem vsize l v Hv). lia.
    + pose proof (foldr_sum_ge vsize l vsize_pos). lia.
  - rewrite <- !app_assoc. cbn [app parse].
    rewrite !bool_decide_false by done. rewrite bool_decide_true by done.
    rewrite (parse_items_print _ (fun kv => print_bytes kv.1 ++ print kv.2)); [done| |].
    + apply Forall_forall. intros [k v] Hv. split.
      * intros rest'. unfold parse_pair. rewrite <- app_assoc, parse_bytes_print.
        cbn [mbind option_bind fst snd]. rewrite IH; [done|].
        pose proof (foldr_sum_elem (fun kv : list byte * bvalue => vsize kv.2) l _ Hv). simpl in *. lia.
      * cbn [fst snd]. destruct (print_bytes_head k) as (x & t & -> & Hx). exists x, (t ++ print v).
        split; [done|]. intros ->. by vm_compute in Hx.
    + pose proof (foldr_sum_ge (fun kv : list byte * bvalue => vsize kv.2) l
        (fun kv => vsize_pos kv.2)). lia.
Qed.

Lemma complete_object_of {E} v : complete (object_of v : Object E) = true.
Proof.
  induction v as [z|b|l IH|l IH] using bvalue_ind'; try done; cbn [object_of complete];
    rewrite bool_decide_false by (by intros [? [=]]); simpl;
    induction IH as [|v l Hv _ IHl]; try done; simpl; by rewrite Hv.
Qed.

Lemma value_of_object_of {E} v : value_of (object_of v : Object E) = Some v.
Proof.
  induction v as [z|b|l IH|l IH] using bvalue_ind'; try done; cbn [object_of value_of].
  - enough (mapM value_of (object_of <$> l : list (Object E)) = Some l) as -> by done.
    induction IH as [|v l Hv _ IHl]; [done|]. rewrite fmap_cons. simpl.
    by rewrite Hv; simpl; rewrite IHl.
  - enough (mapM (fun kv => pair kv.1 <$> value_of kv.2)
      ((fun kv => (kv.1, object_of kv.2 : Object E)) <$> l) = Some l) as -> by done.
    induction IH as [|[k v] l Hv _ IHl]; [done|]. rewrite fmap_cons. simpl in *.
    by rewrite Hv; simpl; rewrite IHl.
Qed.

Lemma text_bendy_laws : BendyLaws (H := text_bendy) string string.
Proof.
  assert (Henc : forall d v b, bendy_encode (Bendy := text_bendy) d v = Ok b ->
    (depth v <=? d) = true /\ sorted v = true /\ b = print v).
  { intros d v b. simpl. destruct (depth v <=? d), (sorted v); simpl; try done. by intros [= <-]. }
  assert (Hparse : forall v, parse (S (length (print v))) (print v) = Some (v, [])).
  { intros v. rewrite <- (app_nil_r (print v)) at 2. apply parse_print.
    pose proof (vsize_print v). lia. }
  split.
  - done.
  - intros d v. simpl. destruct (Nat.leb_spec (depth v) d), (sorted v); simpl; split;
      try done; try (by intros [? ?]); lia.
  - intros d d' v b (_ & Hs & ->)%Henc Hd. unfold bendy_decode, text_bendy.
    rewrite Hparse, (proj2 (Nat.leb_le _ _) Hd), Hs. done.
  - intros d d' v b o (_ & Hs & ->)%Henc Hd. unfold bendy_decode, text_bendy.
    rewrite Hparse. destruct (Nat.leb_spec (depth v) d); [lia|done].
  - intros d b o Ho. unfold bendy_decode, text_bendy in Ho. case_all Ho.
    injection Ho as <-. pose proof (complete_object_of (E := string) b0) as Hc.
    destruct b0; try done; by destruct err.
  - intros d l b (_ & _ & ->)%Henc. unfold bendy_into_raw, text_bendy.
    change (ODict ((fun kv => (kv.1, object_of kv.2)) <$> l) None)
      with (object_of (E := string) (BDict l)).
    by rewrite value_of_object_of.
Qed.
