(* ===== verification/Util.v ===== *)
(** * Hashes and bit fields

    [ShaHash] of src/src/util.rs and [BitField] of src/src/bitfield.rs. *)

From S2P Require Import Prelude Crates.

(** ** [ShaHash] *)

(** Length of a SHA-1 hash. *)
Definition SHA_HASH_LEN : nat := 20.

Record ShaHash := mkShaHash { hash : list byte }.

#[export] Instance ShaHash_eq_dec : EqDecision ShaHash.
Proof. solve_decision. Defined.

(** [hash] is an array of type [[u8; SHA_HASH_LEN]]. *)
Definition ShaHash_wf (h : ShaHash) : Prop := length (hash h) = SHA_HASH_LEN.

Section ShaHash.
Context `{Sha1 Hasher}.

Definition ShaHash_from_bytes (bytes : list byte) : ShaHash :=
  let sha := sha1_from bytes in
  {| hash := sha1_digest sha |}.

(** [ShaHash::for_file], over what opening the file gives: an error, or the
    results of the [read] calls on it; past these, [read] is at the end of the
    file and returns no bytes. *)
Fixpoint ShaHash_for_file_loop (hasher : Hasher) (reads : list (result (list byte) io_error)) :
    result Hasher io_error :=
  match reads with
  | [] => Ok (sha1_update hasher [])
  | Err e :: _ => Err e
  | Ok buf :: reads' =>
      let hasher := sha1_update hasher buf in
      if length buf =? 0 then Ok hasher else ShaHash_for_file_loop hasher reads'
  end.

Definition ShaHash_for_file (opened : result (list (result (list byte) io_error)) io_error) :
    result ShaHash io_error :=
  match opened with
  | Err e => Err e
  | Ok reads =>
      result_map (fun hasher => {| hash := sha1_digest hasher |})
        (ShaHash_for_file_loop sha1_new reads)
  end.
End ShaHash.

(** [impl TryFrom<&[u8]> for ShaHash] *)
Definition ShaHash_try_from (value : list byte) : result ShaHash unit :=
  if length value <? SHA_HASH_LEN then Err tt
  else Ok {| hash := take SHA_HASH_LEN value |}.

(** [impl PartialEq<[u8]> for ShaHash] *)
Definition ShaHash_eq_slice (h : ShaHash) (other : list byte) : bool :=
  let is_equal := length other =? length (hash h) in
  foldl (fun prev '(h, o) => prev && bool_decide (h = o)) is_equal
    (zip (hash h) other).

(** ** [BitField] *)

Record BitField (BV : Type) := mkBitField { inner : BV }.
Arguments mkBitField {BV} inner.
Arguments inner {BV} b.

#[export] Instance BitField_eq_dec {BV} `{EqDecision BV} : EqDecision (BitField BV).
Proof. solve_decision. Defined.

Section BitField.
Context `{BitVec BV}.
Implicit Types f : BitField BV.

Fixpoint first_set_from (i : nat) (bits : list bool) : option Z :=
  match bits with
  | [] => None
  | nbit :: bits' => if nbit then Some (wrap 32 (Z.of_nat i)) else first_set_from (S i) bits'
  end.

(** returns the index of the first set bit *)
Definition BitField_first_set f : option Z := first_set_from 0 (bv_iter (inner f)).

Definition BitField_from_bytes (bytes : list byte) : BitField BV :=
  {| inner := bv_from_bytes bytes |}.

(** Create a new bit field with [nbits] bits all set to true. *)
Definition BitField_new_all_set (nbits : nat) : BitField BV :=
  {| inner := bv_from_elem nbits true |}.

(** Create a new bit field with [nbits] bits all set to false. *)
Definition BitField_new_all_clear (nbits : nat) : BitField BV :=
  {| inner := bv_from_elem nbits false |}.

(** The methods of [BitVec] that are called through [Deref]. *)
Definition bf_iter f : list bool := bv_iter (inner f).
Definition bf_len f : nat := bv_len (inner f).
Definition bf_get f (i : nat) : option bool := bv_get (inner f) i.
Definition bf_all f : bool := bv_all (inner f).
Definition bf_set f (i : nat) (b : bool) : BitField BV := {| inner := bv_set (inner f) i b |}.
Definition bf_clear f : BitField BV := {| inner := bv_clear (inner f) |}.
Definition bf_truncate f (n : nat) : BitField BV := {| inner := bv_truncate (inner f) n |}.
Definition bf_to_bytes f : list byte := bv_to_bytes (inner f).
End BitField.

(** ** Lemmas *)

Section ShaHashLemmas.
Context `{Sha1Laws Hasher}.

Lemma ShaHash_from_bytes_hash l : hash (ShaHash_from_bytes l) = sha1 l.
Proof. simpl. apply sha1_from_digest. Qed.

Lemma ShaHash_from_bytes_wf l : ShaHash_wf (ShaHash_from_bytes l).
Proof. unfold ShaHash_wf. rewrite ShaHash_from_bytes_hash. apply sha1_length. Qed.

Lemma ShaHash_for_file_loop_spec chunks h :
  Forall (fun c => c <> []) chunks ->
  ShaHash_for_file_loop h (Ok <$> chunks) = Ok (foldl sha1_update h (chunks ++ [[]])).
Proof.
  intros Hall. revert h. induction Hall as [|c chunks Hc Hall IH]; intros h; simpl; [done|].
  destruct c as [|b c]; [done|]. apply IH.
Qed.

Lemma ShaHash_for_file_ok chunks :
  Forall (fun c => c <> []) chunks ->
  ShaHash_for_file (Ok (Ok <$> chunks)) = Ok (ShaHash_from_bytes (concat chunks)).
Proof.
  intros Hall. unfold ShaHash_for_file. rewrite ShaHash_for_file_loop_spec by done.
  simpl. f_equal. unfold ShaHash_from_bytes. f_equal.
  rewrite sha1_digest_spec, sha1_from_digest, concat_app. simpl. by rewrite app_nil_r.
Qed.
End ShaHashLemmas.

Lemma ShaHash_try_from_ok l :
  SHA_HASH_LEN <= length l -> ShaHash_try_from l = Ok {| hash := take SHA_HASH_LEN l |}.
Proof.
  intros Hl. unfold ShaHash_try_from. destruct (Nat.ltb_spec (length l) SHA_HASH_LEN); [lia|done].
Qed.

Lemma ShaHash_try_from_exact l :
  length l = SHA_HASH_LEN -> ShaHash_try_from l = Ok {| hash := l |}.
Proof. intros Hl. rewrite ShaHash_try_from_ok, take_ge by lia. done. Qed.

Lemma foldl_eqb_false (l : list (byte * byte)) :
  foldl (fun prev '(h, o) => prev && bool_decide (h = o)) false l = false.
Proof. induction l as [|[a b] l IH]; done. Qed.

Section BitFieldLemmas.
Context `{BitVecLaws BV}.
Implicit Types f : BitField BV.

Lemma bf_ext f g : bf_iter f = bf_iter g -> f = g.
Proof. destruct f, g. unfold bf_iter. simpl. intros Hi. f_equal. by apply bv_ext. Qed.

Lemma bf_len_iter f : bf_len f = length (bf_iter f).
Proof. apply bv_len_iter. Qed.

Lemma bf_get_iter f i : bf_get f i = bf_iter f !! i.
Proof. apply bv_get_iter. Qed.

Lemma bf_get_Some f i b : bf_get f i = Some b -> i < bf_len f.
Proof. rewrite bf_get_iter, bf_len_iter. apply lookup_lt_Some. Qed.

Lemma bf_iter_set f i b : i < bf_len f -> bf_iter (bf_set f i b) = <[i := b]> (bf_iter f).
Proof. apply bv_iter_set. Qed.

Lemma bf_len_set f i b : i < bf_len f -> bf_len (bf_set f i b) = bf_len f.
Proof. intros. by rewrite !bf_len_iter, bf_iter_set, length_insert. Qed.

Lemma bf_get_set f i b j :
  i < bf_len f -> bf_get (bf_set f i b) j = if decide (i = j) then Some b else bf_get f j.
Proof.
  intros Hi. rewrite !bf_get_iter, bf_iter_set by done.
  rewrite bf_len_iter in Hi. case_decide as Hd; [subst|].
  - by apply list_lookup_insert_eq.
  - by apply list_lookup_insert_ne.
Qed.

Lemma bf_iter_clear f : bf_iter (bf_clear f) = replicate (bf_len f) false.
Proof. apply bv_iter_clear. Qed.

Lemma bf_len_clear f : bf_len (bf_clear f) = bf_len f.
Proof. by rewrite bf_len_iter, bf_iter_clear, length_replicate. Qed.

Lemma bf_len_new_all_clear n : bf_len (BitField_new_all_clear (BV := BV) n) = n.
Proof.
  rewrite bf_len_iter. unfold bf_iter. simpl.
  by rewrite bv_iter_from_elem, length_replicate.
Qed.

Lemma bf_all_true f : bf_all f = true <-> forall i, i < bf_len f -> bf_get f i = Some true.
Proof.
  unfold bf_all. rewrite bv_all_iter, forallb_forall. fold (bf_iter f).
  setoid_rewrite bf_get_iter. rewrite bf_len_iter. split.
  - intros Hall i [b Hb]%lookup_lt_is_Some_2. rewrite Hb. f_equal.
    apply (Hall b). by apply list_elem_of_In, list_elem_of_lookup_2 with i.
  - intros Hget b Hb%list_elem_of_In. apply list_elem_of_lookup in Hb as [i Hi].
    pose proof (lookup_lt_Some _ _ _ Hi) as Hlt. specialize (Hget i Hlt).
    unfold id. congruence.
Qed.

(** The bytes of a bit field, cut to its length, are the bit field. *)
Lemma bf_to_from_bytes f :
  bf_truncate (BitField_from_bytes (bf_to_bytes f)) (bf_len f) = f.
Proof.
  apply bf_ext. unfold bf_iter, bf_truncate, bf_to_bytes, bf_len, BitField_from_bytes. simpl.
  rewrite bv_iter_truncate, bv_iter_from_bytes, bv_to_bytes_iter, bv_len_iter.
  apply bits_to_bytes_bits.
Qed.

Lemma length_bf_to_bytes f :
  length (bf_to_bytes f) = bf_len f / 8 + (if 0 <? bf_len f mod 8 then 1 else 0).
Proof.
  unfold bf_to_bytes. rewrite bv_to_bytes_iter, length_bits_to_bytes.
  by rewrite bf_len_iter.
Qed.

Lemma first_set_from_spec bits i k :
  first_set_from i bits = Some k <->
  exists n, bits !! n = Some true /\ (forall m, m < n -> bits !! m = Some false) /\
    k = wrap 32 (Z.of_nat (i + n)).
Proof.
  revert i. induction bits as [|b bits IH]; intros i; simpl.
  - split; [done|]. intros (n & Hn & _). by rewrite lookup_nil in Hn.
  - destruct b.
    + split.
      * intros [= <-]. exists 0. rewrite Nat.add_0_r. split_and!; [done| lia |done].
      * intros ([|n] & Hn & Hmin & ->); [by rewrite Nat.add_0_r|].
        specialize (Hmin 0 ltac:(lia)). done.
    + rewrite IH. split.
      * intros (n & Hn & Hmin & ->). exists (S n). split_and!; [done| |f_equal; lia].
        intros [|m] Hm; [done|]. apply Hmin. lia.
      * intros ([|n] & Hn & Hmin & ->); [done|]. exists n. split_and!; [done| |f_equal; lia].
        intros m Hm. apply (Hmin (S m)). lia.
Qed.
End BitFieldLemmas.
