(* ===== verification/Message.v ===== *)
(** * Messages of the peer wire protocol

    src/src/proto/message.rs and the types of src/src/piece.rs. *)

From S2P Require Import Prelude Crates Util.
Local Open Scope Z_scope.

(** ** src/src/piece.rs *)

(** smallest allowed piece size : 16 KB *)
Definition BLOCK_SIZE_MIN : Z := 16384.

(** greatest allowed piece size: 16 MB *)
Definition BLOCK_SIZE_MAX : Z := 16777216.

Record Piece := mkPiece {
  piece_idx : Z; (* index *)
  piece_begin : Z; (* begin *)
  piece_block : list byte; (* block *)
}.

Inductive PieceSelection := Random | Rarest.

Definition PieceSelection_default : PieceSelection := Random.

(** ** Data *)

Record PeerRequest := mkPeerRequest {
  req_index : Z;
  req_begin : Z;
  req_length : Z;
}.

Record Handshake := mkHandshake {
  reserved : list byte;
  info_hash : ShaHash;
  peer_id : ShaHash;
}.

Inductive PeerMessage (BV : Type) :=
| PM_KeepAlive
| PM_Choke
| PM_UnChoke
| PM_Interested
| PM_NotInterested
| PM_Have (index : Z)
| PM_Bitfield (index_field : BitField BV)
| PM_Request (request : PeerRequest)
| PM_Cancel (request : PeerRequest)
| PM_Piece (piece : Piece)
| PM_Handshake (handshake : Handshake)
| PM_Port (port : Z).
Arguments PM_KeepAlive {BV}.
Arguments PM_Choke {BV}.
Arguments PM_UnChoke {BV}.
Arguments PM_Interested {BV}.
Arguments PM_NotInterested {BV}.
Arguments PM_Have {BV} index.
Arguments PM_Bitfield {BV} index_field.
Arguments PM_Request {BV} request.
Arguments PM_Cancel {BV} request.
Arguments PM_Piece {BV} piece.
Arguments PM_Handshake {BV} handshake.
Arguments PM_Port {BV} port.

#[export] Instance Piece_eq_dec : EqDecision Piece.
Proof. solve_decision. Defined.
#[export] Instance PeerRequest_eq_dec : EqDecision PeerRequest.
Proof. solve_decision. Defined.
#[export] Instance Handshake_eq_dec : EqDecision Handshake.
Proof. solve_decision. Defined.
#[export] Instance PeerMessage_eq_dec {BV} `{EqDecision BV} : EqDecision (PeerMessage BV).
Proof. solve_decision. Defined.

Definition CHOKE_ID : Z := 0.
Definition UNCHOKE_ID : Z := 1.
Definition INTERESTED_ID : Z := 2.
Definition NOT_INTERESTED_ID : Z := 3.
Definition HAVE_ID : Z := 4.
Definition BITFIELD_ID : Z := 5.
Definition REQUEST_ID : Z := 6.
Definition PIECE_ID : Z := 7.
Definition CANCEL_ID : Z := 8.
Definition PORT_ID : Z := 9.
Definition HANDSHAKE_ID : Z := 19.

Definition BITTORRENT_IDENTIFIER : list byte :=
  byte_of_Z <$>
  [66; 105; 116; 84; 111; 114; 114; 101; 110; 116; 32; 112; 114; 111; 116; 111; 99;
   111; 108].

Definition BITTORRENT_IDENTIFIER_STR : string := "BitTorrent protocol".

Definition Handshake_new (info_hash peer_id : ShaHash) : Handshake :=
  {| reserved := byte_of_Z <$> [0; 0; 0; 0; 0; 0; 0; 0];
     info_hash := info_hash;
     peer_id := peer_id |}.

(** [ShaHash::random()] comes from a random source. *)
Definition Handshake_new_with_random_id (random : ShaHash) (info_hash : ShaHash) : Handshake :=
  {| reserved := replicate 8 (byte_of_Z 0);
     info_hash := info_hash;
     peer_id := random |}.

(** What the Rust types of the fields guarantee: array lengths, integer
    widths, lengths of vectors in memory. *)
Definition PeerRequest_wf (r : PeerRequest) : Prop :=
  is_u32 (req_index r) /\ is_u32 (req_begin r) /\ is_u32 (req_length r).

Definition Handshake_wf (h : Handshake) : Prop :=
  length (reserved h) = 8%nat /\ ShaHash_wf (info_hash h) /\ ShaHash_wf (peer_id h).

Definition PeerMessage_wf {BV} (m : PeerMessage BV) : Prop :=
  match m with
  | PM_Have i => is_u32 i
  | PM_Request r | PM_Cancel r => PeerRequest_wf r
  | PM_Piece p => is_u32 (piece_idx p) /\ is_u32 (piece_begin p)
  | PM_Handshake h => Handshake_wf h
  | PM_Port p => is_u16 p
  | _ => True
  end.

Section Message.
Context `{BitVec BV} `{ByteOrder} `{Profile}.
Implicit Types m : PeerMessage BV.

(** [PeerMessage::len]: bytes to reserve for serialising the message. *)
Definition PeerMessage_len m : nat :=
  4 + match m with
      | PM_KeepAlive => 0
      | PM_Choke | PM_UnChoke | PM_Interested | PM_NotInterested => 1
      | PM_Have _ => 1 + 4
      | PM_Bitfield index_field =>
          let len := bf_len index_field / 8 in
          let rem := bf_len index_field mod 8 in
          let len := if (0 <? rem)%nat then (len + 1)%nat else len in
          1 + len
      | PM_Request _ | PM_Cancel _ => 1 + 12
      | PM_Piece piece => 1 + 8 + length (piece_block piece)
      | PM_Handshake _ => 45 + 19
      | PM_Port _ => 1 + 4
      end%nat.

Definition write_u8 (z : Z) : list byte := [byte_of_Z z].

(** [as u32] of the length of something in memory. *)
Definition len_u32 (n : nat) : Z := wrap 32 (Z.of_nat n).

(** [PeerMessage::as_bytes]; writing to a [Vec<u8>] never fails. *)
Definition PeerMessage_as_bytes m : outcome (list byte) :=
  match m with
  | PM_KeepAlive => Ret (write_u32 0)
  | PM_Choke => Ret (write_u32 1 ++ write_u8 0)
  | PM_UnChoke => Ret (write_u32 1 ++ write_u8 1)
  | PM_Interested => Ret (write_u32 1 ++ write_u8 2)
  | PM_NotInterested => Ret (write_u32 1 ++ write_u8 3)
  | PM_Have index => Ret (write_u32 5 ++ write_u8 4 ++ write_u32 index)
  | PM_Bitfield index_field =>
      n ← checked 32 (1 + len_u32 (bf_len index_field));
      Ret (write_u32 n ++ write_u8 5 ++ bf_to_bytes index_field)
  | PM_Request r =>
      Ret (write_u32 13 ++ write_u8 6 ++ write_u32 (req_index r) ++
           write_u32 (req_begin r) ++ write_u32 (req_length r))
  | PM_Piece p =>
      n ← checked 32 (9 + len_u32 (length (piece_block p)));
      Ret (write_u32 n ++ write_u8 7 ++ write_u32 (piece_idx p) ++
           write_u32 (piece_begin p) ++ piece_block p)
  | PM_Cancel r =>
      Ret (write_u32 13 ++ write_u8 8 ++ write_u32 (req_index r) ++
           write_u32 (req_begin r) ++ write_u32 (req_length r))
  | PM_Port port => Ret (write_u32 3 ++ write_u8 9 ++ write_u16 port)
  | PM_Handshake h =>
      Ret ([byte_of_Z 19] ++ BITTORRENT_IDENTIFIER ++ reserved h ++
           hash (info_hash h) ++ hash (peer_id h))
  end.
End Message.

(** ** Lemmas *)

Section MessageLemmas.
Context `{BitVecLaws BV} `{ByteOrderLaws} `{Profile}.
Implicit Types m : PeerMessage BV.

Lemma length_write_u32 z : is_u32 z -> length (write_u32 z) = 4%nat.
Proof. intros Hz. by rewrite write_u32_be, length_be_split. Qed.

Lemma length_write_u16 z : is_u16 z -> length (write_u16 z) = 2%nat.
Proof. intros Hz. by rewrite write_u16_be, length_be_split. Qed.

Lemma len_u32_small n : is_u32 (Z.of_nat n) -> len_u32 n = Z.of_nat n.
Proof. apply wrap_small. Qed.

Lemma length_BITTORRENT_IDENTIFIER : length BITTORRENT_IDENTIFIER = 19%nat.
Proof. done. Qed.
End MessageLemmas.

#[export] Hint Rewrite @length_write_u32 @length_write_u16 using assumption : rust.
