(* ===== verification/Codec.v ===== *)
(** * The peer wire codec

    [PeerWireCodec] of src/src/proto/codec.rs: [decode] takes at most one
    message off the front of the receive buffer, [encode] appends one to the
    send buffer. *)

From S2P Require Import Prelude Crates Util Message.

(** ** Data and operations *)

Record PeerWireCodec := mkPeerWireCodec {
  (** maximum permitted number of bytes per frame *)
  max : Z;
}.

Definition PeerWireCodec_new_with_max_length (max : Z) : PeerWireCodec := {| max := max |}.

Definition PeerWireCodec_default : PeerWireCodec :=
  {| max := 4 + 1 + 8 + BLOCK_SIZE_MAX |}.

Definition show_u8 (z : Z) : string := pretty (Z.to_N z).

Section Codec.
Context `{BitVec BV} `{ByteOrder}.

(** A call of [decode]: the buffer it leaves and what it returns. *)
Definition decoded : Type := list byte * result (option (PeerMessage BV)) io_error.

(** The error branches and the branches that wait for more data leave the
    buffer as it is; [reserve] only changes its capacity. *)
Definition decode_err (src : list byte) (msg : string) : outcome decoded :=
  Ret (src, Err (io_Error InvalidData msg)).

Definition decode_wait (src : list byte) : outcome decoded := Ret (src, Ok None).

Definition decode_handshake (src : list byte) : outcome decoded :=
  if length src <? 68 then decode_wait src
  else
    ident ← slice src 1 20;
    if bool_decide (ident <> BITTORRENT_IDENTIFIER) then
      decode_err src "Unsupported Handshake Protocol identifier"
    else
      '(msg, src) ← split_to src 68;
      msg ← advance msg 20;
      reserved ← slice msg 0 8;
      info_hash ← slice msg 8 28;
      peer_id ← slice msg 28 48;
      match ShaHash_try_from info_hash, ShaHash_try_from peer_id with
      | Ok info_hash, Ok peer_id =>
          Ret (src, Ok (Some (PM_Handshake {| reserved := reserved;
                                              info_hash := info_hash;
                                              peer_id := peer_id |})))
      | _, _ => Panic
      end.

(** The arm of length 1: messages without a payload. *)
Definition decode_len1 (src : list byte) : outcome decoded :=
  if length src <? 5 then decode_wait src
  else
    id ← index src 4;
    let i := byte_to_Z id in
    let found (m : PeerMessage BV) :=
      src ← advance src 5;
      Ret (src, Ok (Some m)) in
    if (i =? CHOKE_ID)%Z then found PM_Choke
    else if (i =? UNCHOKE_ID)%Z then found PM_UnChoke
    else if (i =? INTERESTED_ID)%Z then found PM_Interested
    else if (i =? NOT_INTERESTED_ID)%Z then found PM_NotInterested
    else decode_err src
           ("Unexpected Peer Message with length 1 and id " +:+ show_u8 i).

(** The arm of length 5: [Have]. *)
Definition decode_len5 (src : list byte) : outcome decoded :=
  if length src <? 9 then decode_wait src
  else
    id ← index src 4;
    if (byte_to_Z id =? HAVE_ID)%Z then
      '(msg, src) ← split_to src 9;
      payload ← slice msg 5 9;
      index ← read_u32 payload;
      Ret (src, Ok (Some (PM_Have index)))
    else decode_err src
           ("Unexpected Peer Message with length 5 and id " +:+ show_u8 (byte_to_Z id)).

(** [BitField]: the length counts the bits, not the bytes. *)
Definition decode_bitfield (length_field : Z) (src : list byte) : outcome decoded :=
  let number_of_pieces := (length_field - 1)%Z in
  if (number_of_pieces =? 0)%Z then
    decode_err src "Empty BitField message not supported"
  else
    let bitfield_bytes_len := (number_of_pieces / 8)%Z in
    let rem := (number_of_pieces mod 8)%Z in
    let bitfield_bytes_len :=
      if (0 <? rem)%Z then (bitfield_bytes_len + 1)%Z else bitfield_bytes_len in
    let msg_bytes_length := (bitfield_bytes_len + 5)%Z in
    if (Z.of_nat (length src) <? msg_bytes_length)%Z then decode_wait src
    else
      '(msg, src) ← split_to src (Z.to_nat msg_bytes_length);
      payload ← slice msg 5 (length msg);
      let index_field := BitField_from_bytes payload in
      let index_field := bf_truncate index_field (Z.to_nat number_of_pieces) in
      Ret (src, Ok (Some (PM_Bitfield index_field))).

Definition read_request (msg : list byte) : outcome PeerRequest :=
  i ← slice msg 5 9; i ← read_u32 i;
  b ← slice msg 9 13; b ← read_u32 b;
  l ← slice msg 13 17; l ← read_u32 l;
  Ret {| req_index := i; req_begin := b; req_length := l |}.

(** The remaining messages, told apart by their id. *)
Definition decode_payload (length_field : Z) (id : Z) (src : list byte) : outcome decoded :=
  let msg_bytes_length := (4 + length_field)%Z in
  if (Z.of_nat (length src) <? msg_bytes_length)%Z then decode_wait src
  else
    let take_msg (parse : list byte -> outcome (PeerMessage BV)) :=
      '(msg, src) ← split_to src (Z.to_nat msg_bytes_length);
      m ← parse msg;
      Ret (src, Ok (Some m)) in
    if (id =? REQUEST_ID)%Z then
      take_msg (fun msg => r ← read_request msg; Ret (PM_Request r))
    else if (id =? PIECE_ID)%Z then
      take_msg (fun msg =>
        i ← slice msg 5 9; i ← read_u32 i;
        b ← slice msg 9 13; b ← read_u32 b;
        block ← slice msg 13 (length msg);
        Ret (PM_Piece {| piece_idx := i; piece_begin := b; piece_block := block |}))
    else if (id =? CANCEL_ID)%Z then
      take_msg (fun msg => r ← read_request msg; Ret (PM_Cancel r))
    else if (id =? PORT_ID)%Z then
      take_msg (fun msg =>
        p ← slice msg 5 (length msg); p ← read_u16 p;
        Ret (PM_Port p))
    else decode_err src
           ("Unexpected Peer Message with length 1 and id " +:+ show_u8 id).

(** [<PeerWireCodec as Decoder>::decode] *)
Definition decode (src : list byte) : outcome decoded :=
  if length src <? 4 then decode_wait src
  else
    first ← index src 0;
    if (byte_to_Z first =? HANDSHAKE_ID)%Z then decode_handshake src
    else
      prefix ← slice src 0 4;
      length_field ← read_u32 prefix;
      if (length_field =? 0)%Z then
        src ← advance src 4;
        Ret (src, Ok (Some PM_KeepAlive))
      else if (length_field =? 1)%Z then decode_len1 src
      else if (length_field =? 5)%Z then decode_len5 src
      else
        id ← index src 4;
        if (byte_to_Z id =? BITFIELD_ID)%Z then decode_bitfield length_field src
        else decode_payload length_field (byte_to_Z id) src.

(** [<PeerWireCodec as Encoder>::encode] *)
Definition encode `{Profile} (item : PeerMessage BV) (dst : list byte) : outcome (list byte) :=
  data ← PeerMessage_as_bytes item;
  Ret (dst ++ data).
End Codec.

(** ** Specification *)

(** The length prefixes that fit into four bytes, the first of which is not the
    byte that announces a handshake: all below 304 MiB, and those from 320 MiB
    to 4 GiB. *)
Definition FRAME_LIMIT : Z := 19 * 2 ^ 24.

Definition prefix_fits (L : Z) : Prop := (L < 2 ^ 32 /\ L / 2 ^ 24 <> HANDSHAKE_ID)%Z.

Definition PeerMessage_fits `{BitVec BV} (m : PeerMessage BV) : Prop :=
  match m with
  | PM_Bitfield f => prefix_fits (1 + Z.of_nat (bf_len f))
  | PM_Piece p => prefix_fits (9 + Z.of_nat (length (piece_block p)))
  | _ => True
  end.

(** The length of the frame fits into its prefix. *)
Definition PeerMessage_sized `{BitVec BV} (m : PeerMessage BV) : Prop :=
  match m with
  | PM_Bitfield f => (1 + Z.of_nat (bf_len f) < 2 ^ 32)%Z
  | PM_Piece p => (9 + Z.of_nat (length (piece_block p)) < 2 ^ 32)%Z
  | _ => True
  end.

(** A bit field of no piece and one of four pieces have the length prefix of
    other messages. *)
Definition bitfield_collides `{BitVec BV} (m : PeerMessage BV) : Prop :=
  match m with
  | PM_Bitfield f => bf_len f = 0 \/ bf_len f = 4
  | _ => False
  end.

(** The messages whose frame is told apart by the byte behind its length *)
Definition has_id {BV} (m : PeerMessage BV) : bool :=
  match m with
  | PM_Bitfield _ | PM_Request _ | PM_Cancel _ | PM_Piece _ | PM_Port _ => true
  | _ => false
  end.

(** Reading messages until bytes are missing: the bytes that are left, and the
    messages *)
Fixpoint decode_all `{BitVec BV} `{ByteOrder}
    (fuel : nat) (src : list byte) : outcome (list byte * list (PeerMessage BV)) :=
  match fuel with
  | 0 => Ret (src, [])
  | S fuel =>
      '(src, r) ← decode src;
      match r with
      | Ok (Some m) => '(src, ms) ← decode_all fuel src; Ret (src, m :: ms)
      | _ => Ret (src, [])
      end
  end.

(** A connection whose bytes arrive in chunks: the codec is called after each of
    them, until it waits. *)
Fixpoint decode_chunks `{BitVec BV} `{ByteOrder}
    (chunks : list (list byte)) (src : list byte) :
    outcome (list byte * list (PeerMessage BV)) :=
  match chunks with
  | [] => Ret (src, [])
  | chunk :: chunks =>
      let src := src ++ chunk in
      '(src, ms) ← decode_all (S (length src)) src;
      '(src, ms') ← decode_chunks chunks src;
      Ret (src, ms ++ ms')
  end.

(** The byte at the position [k] of the frames is the one behind the length
    prefix of a frame with an id and a payload. *)
Fixpoint behind_prefix {BV} (frames : list (PeerMessage BV * list byte)) (k : nat) : bool :=
  match frames with
  | [] => false
  | (m, bs) :: frames =>
      if k <? length bs then (k =? 4) && has_id m else behind_prefix frames (k - length bs)
  end.

(** The positions between the chunks, and the last one *)
Fixpoint borders (pos : nat) (chunks : list (list byte)) : list nat :=
  match chunks with
  | [] => []
  | chunk :: chunks => (pos + length chunk) :: borders (pos + length chunk) chunks
  end.

(** A message with its frame, which is read back *)
Definition frame_ok `{BitVec BV} `{ByteOrder} `{Profile} (e : PeerMessage BV * list byte) : Prop :=
  let '(m, bs) := e in
  PeerMessage_wf m /\ PeerMessage_fits m /\ ~ bitfield_collides m /\ PeerMessage_as_bytes m = Ret bs.

(** The bytes [q] are not a whole frame of those that are to come. *)
Definition unread {BV} (frames : list (PeerMessage BV * list byte)) (q : list byte) : Prop :=
  match frames with [] => q = [] | (_, bs) :: _ => length q < length bs end.

(** The payload of the frame is too short for the fields its id asks for. *)
Definition payload_too_short (L id : Z) : Prop :=
  (id = REQUEST_ID /\ L < 13 \/ id = CANCEL_ID /\ L < 13 \/
   id = PIECE_ID /\ L < 9 \/ id = PORT_ID /\ L < 3)%Z.

(** ** Lemmas *)

Section CodecLemmas.
Context `{BitVecLaws BV} `{ByteOrderLaws} `{Profile}.
Implicit Types m : PeerMessage BV.
Abbreviation decoded := (decoded (BV := BV)).

(** [r'] is what [r] becomes when [more] arrives behind the buffer: a call that
    waits may turn into anything, everything else stays the same. *)
Definition extends (more : list byte) (r r' : outcome decoded) : Prop :=
  match r with
  | Ret (_, Ok None) => True
  | Ret (rest, x) => r' = Ret (rest ++ more, x)
  | Panic => r' = Panic
  end.

(** What a call of [decode] does to the buffer. *)
Definition consumes (src : list byte) (r : outcome decoded) : Prop :=
  match r with
  | Ret (rest, Ok (Some _)) => exists frame, src = frame ++ rest /\ 4 <= length frame
  | Ret (rest, _) => rest = src
  | Panic => True
  end.

(** *** The arms of [decode], once enough bytes are there *)

Definition u32_at (msg : list byte) (k : nat) : Z := be_combine (take 4 (drop k msg)).

Lemma read_u32_at msg k :
  (i ← slice msg k (4 + k); read_u32 i) =
  if decide (4 + k <= length msg) then Ret (u32_at msg k) else Panic.
Proof.
  case_decide.
  - rewrite slice_ok by lia. rewrite bind_ret, Nat.add_sub.
    rewrite read_u32_be by (rewrite length_take, length_drop; lia).
    by rewrite take_take.
  - by rewrite slice_panic by lia.
Qed.

Lemma read_u32_bind {A} msg k j (f : Z -> outcome A) :
  j = 4 + k ->
  (i ← slice msg k j; i ← read_u32 i; f i) =
  if decide (j <= length msg) then f (u32_at msg k) else Panic.
Proof.
  intros ->. pose proof (read_u32_at msg k) as Hr.
  destruct (slice msg k (4 + k)) as [s|]; cbn [mbind outcome_bind] in Hr |- *.
  - rewrite Hr. by case_decide.
  - by case_decide.
Qed.

Lemma u32_at_range msg k : is_u32 (u32_at msg k).
Proof.
  unfold u32_at, in_range. pose proof (be_combine_range (take 4 (drop k msg))) as Hr.
  pose proof (length_take_le (drop k msg) 4) as Hl. split; [lia|].
  eapply Z.lt_le_trans; [apply Hr|]. change (2 ^ 32)%Z with (256 ^ 4)%Z.
  apply Z.pow_le_mono_r; [lia|]. rewrite length_take. lia.
Qed.

Lemma u32_at_app l z l' k :
  k = length l -> is_u32 z -> u32_at (l ++ be_split 4 z ++ l') k = z.
Proof.
  intros -> Hz. unfold u32_at. rewrite drop_app_length.
  rewrite take_app_length' by (by rewrite length_be_split).
  apply be_combine_split_small. apply Hz.
Qed.

Lemma u32_at_take n msg k : 4 + k <= n -> u32_at (take n msg) k = u32_at msg k.
Proof.
  intros Hn. unfold u32_at. rewrite skipn_firstn_comm, take_take. f_equal. f_equal. lia.
Qed.

Lemma u32_at_extend l l' k : 4 + k <= length l -> u32_at (l ++ l') k = u32_at l k.
Proof.
  intros Hk. unfold u32_at. rewrite drop_app_le by lia.
  rewrite take_app_le; [done|]. rewrite length_drop. lia.
Qed.

(** The messages without a payload. *)
Definition len1_msg (i : Z) : option (PeerMessage BV) :=
  if (i =? CHOKE_ID)%Z then Some PM_Choke
  else if (i =? UNCHOKE_ID)%Z then Some PM_UnChoke
  else if (i =? INTERESTED_ID)%Z then Some PM_Interested
  else if (i =? NOT_INTERESTED_ID)%Z then Some PM_NotInterested
  else None.

Lemma decode_len1_eq src b :
  src !! 4 = Some b ->
  decode_len1 (BV := BV) src =
  match len1_msg (byte_to_Z b) with
  | Some m => Ret (drop 5 src, Ok (Some m))
  | None => decode_err src
      ("Unexpected Peer Message with length 1 and id " +:+ show_u8 (byte_to_Z b))
  end.
Proof.
  intros Hb. pose proof (lookup_lt_Some _ _ _ Hb).
  unfold decode_len1, len1_msg, index. rewrite Hb.
  destruct (Nat.ltb_spec (length src) 5); [lia|]. rewrite bind_ret.
  rewrite advance_ok by lia. rewrite bind_ret. by repeat case_match.
Qed.

Lemma decode_len5_eq src b :
  9 <= length src -> src !! 4 = Some b ->
  decode_len5 (BV := BV) src =
  if (byte_to_Z b =? HAVE_ID)%Z then
    Ret (drop 9 src, Ok (Some (PM_Have (u32_at src 5))))
  else decode_err src
    ("Unexpected Peer Message with length 5 and id " +:+ show_u8 (byte_to_Z b)).
Proof.
  intros Hl Hb. unfold decode_len5, index. rewrite Hb.
  destruct (Nat.ltb_spec (length src) 9); [lia|]. rewrite bind_ret.
  case_match; [|done]. rewrite split_to_ok by lia. rewrite bind_ret.
  rewrite read_u32_bind by done.
  rewrite decide_True by (rewrite length_take; lia). by rewrite u32_at_take by lia.
Qed.

Lemma decode_handshake_eq src :
  68 <= length src ->
  decode_handshake (BV := BV) src =
  if bool_decide (take 19 (drop 1 src) <> BITTORRENT_IDENTIFIER) then
    decode_err src "Unsupported Handshake Protocol identifier"
  else
    Ret (drop 68 src, Ok (Some (PM_Handshake {|
      reserved := take 8 (drop 20 src);
      info_hash := {| hash := take 20 (drop 28 src) |};
      peer_id := {| hash := take 20 (drop 48 src) |} |}))).
Proof.
  intros Hl. unfold decode_handshake.
  destruct (Nat.ltb_spec (length src) 68); [lia|].
  rewrite slice_ok, bind_ret by lia. change (20 - 1) with 19. case_bool_decide; [done|].
  rewrite split_to_ok, bind_ret by lia.
  rewrite advance_ok, bind_ret by (rewrite length_take; lia).
  rewrite !slice_ok by (rewrite ?length_drop, ?length_take; lia).
  rewrite !bind_ret.
  rewrite !ShaHash_try_from_exact
    by (rewrite length_take, !length_drop, length_take; unfold SHA_HASH_LEN; lia).
  rewrite !skipn_firstn_comm, !drop_drop, !take_take. done.
Qed.

(** The number of bytes of the packed bits of a [Bitfield] message. *)
Definition bits_bytes (n : Z) : Z :=
  (n / 8 + (if 0 <? n mod 8 then 1 else 0))%Z.

Lemma bits_bytes_nonneg n : (0 <= n)%Z -> (0 <= bits_bytes n)%Z.
Proof. intros. unfold bits_bytes. case_match; div_lia. Qed.

Lemma bits_bytes_nat (n : nat) :
  Z.to_nat (bits_bytes (Z.of_nat n)) = n / 8 + (if 0 <? n mod 8 then 1 else 0).
Proof.
  unfold bits_bytes. change 8%Z with (Z.of_nat 8).
  rewrite <- Nat2Z.inj_div, <- Nat2Z.inj_mod.
  destruct (Z.ltb_spec 0 (Z.of_nat (n mod 8))), (Nat.ltb_spec 0 (n mod 8)); lia.
Qed.

Lemma decode_bitfield_eq L src :
  (2 <= L)%Z -> (bits_bytes (L - 1) + 5 <= Z.of_nat (length src))%Z ->
  let n := Z.to_nat (bits_bytes (L - 1)) in
  decode_bitfield (BV := BV) L src =
  Ret (drop (n + 5) src, Ok (Some (PM_Bitfield
    (bf_truncate (BitField_from_bytes (take n (drop 5 src))) (Z.to_nat (L - 1)))))).
Proof.
  intros HL Hl n. pose proof (bits_bytes_nonneg (L - 1) ltac:(lia)).
  unfold decode_bitfield.
  replace (if (0 <? (L - 1) mod 8)%Z then ((L - 1) / 8 + 1)%Z else ((L - 1) / 8)%Z)
    with (bits_bytes (L - 1)) by (unfold bits_bytes; case_match; lia).
  destruct (Z.eqb_spec (L - 1) 0); [lia|].
  destruct (Z.ltb_spec (Z.of_nat (length src)) (bits_bytes (L - 1) + 5)); [lia|].
  replace (Z.to_nat (bits_bytes (L - 1) + 5)) with (n + 5) by lia.
  rewrite split_to_ok, bind_ret by lia.
  rewrite slice_ok, bind_ret by (rewrite length_take; lia).
  rewrite skipn_firstn_comm, take_take, length_take.
  do 6 f_equal. f_equal. f_equal. lia.
Qed.

Definition request_at (msg : list byte) : PeerRequest :=
  {| req_index := u32_at msg 5; req_begin := u32_at msg 9; req_length := u32_at msg 13 |}.

Lemma read_request_eq msg :
  read_request msg = if decide (17 <= length msg) then Ret (request_at msg) else Panic.
Proof.
  unfold read_request. rewrite read_u32_bind by done.
  rewrite (read_u32_bind msg 9) by done. rewrite (read_u32_bind msg 13) by done.
  repeat case_decide; try done; lia.
Qed.

(** What [decode_payload] makes of a complete frame of [4 + L] bytes. *)
Definition payload_at (L id : Z) (src : list byte) : option (outcome (PeerMessage BV)) :=
  let guard n m := if (n <=? L)%Z then Ret m else Panic in
  if (id =? REQUEST_ID)%Z then Some (guard 13%Z (PM_Request (request_at src)))
  else if (id =? PIECE_ID)%Z then
    Some (guard 9%Z (PM_Piece {| piece_idx := u32_at src 5; piece_begin := u32_at src 9;
                                 piece_block := take (Z.to_nat L - 9) (drop 13 src) |}))
  else if (id =? CANCEL_ID)%Z then Some (guard 13%Z (PM_Cancel (request_at src)))
  else if (id =? PORT_ID)%Z then
    Some (guard 3%Z (PM_Port (be_combine (take 2 (drop 5 src)))))
  else None.

Lemma decode_payload_eq L id src :
  (2 <= L)%Z -> (4 + L <= Z.of_nat (length src))%Z ->
  decode_payload (BV := BV) L id src =
  match payload_at L id src with
  | Some (Ret m) => Ret (drop (4 + Z.to_nat L) src, Ok (Some m))
  | Some Panic => Panic
  | None => decode_err src
      ("Unexpected Peer Message with length 1 and id " +:+ show_u8 id)
  end.
Proof.
  intros HL Hl. unfold decode_payload, payload_at.
  destruct (Z.ltb_spec (Z.of_nat (length src)) (4 + L)); [lia|].
  replace (Z.to_nat (4 + L)) with (4 + Z.to_nat L) by lia.
  set (n := 4 + Z.to_nat L). rewrite split_to_ok, !bind_ret by lia.
  assert (length (take n src) = n) as Hn by (rewrite length_take; lia).
  repeat match goal with |- context [if (id =? ?k)%Z then _ else _] =>
    destruct (id =? k)%Z end.
  1,3: rewrite read_request_eq, Hn; destruct (Z.leb_spec 13 L); case_decide; try lia;
    try done; rewrite !bind_ret; unfold request_at; by rewrite !u32_at_take by lia.
  - rewrite read_u32_bind, (read_u32_bind _ 9) by done. rewrite Hn.
    destruct (Z.leb_spec 9 L).
    + rewrite !decide_True by lia. rewrite slice_ok by lia.
      rewrite !bind_ret, !u32_at_take, skipn_firstn_comm, take_take by lia.
      do 7 f_equal. lia.
    + case_decide; [|done]. by rewrite decide_False by lia.
  - destruct (Z.leb_spec 3 L).
    + rewrite slice_ok by lia. rewrite bind_ret.
      rewrite read_u16_be by (rewrite length_take, length_drop; lia).
      rewrite !bind_ret, skipn_firstn_comm, !take_take. do 8 f_equal. lia.
    + rewrite slice_ok by lia. rewrite bind_ret.
      by rewrite read_u16_short by (rewrite length_take, length_drop; lia).
  - done.
Qed.

(** A buffer that starts with a complete length prefix and an id. *)
Lemma decode_cons src b0 id :
  src !! 0 = Some b0 -> src !! 4 = Some id ->
  decode (BV := BV) src =
  if (byte_to_Z b0 =? HANDSHAKE_ID)%Z then decode_handshake src
  else if (u32_at src 0 =? 0)%Z then Ret (drop 4 src, Ok (Some PM_KeepAlive))
  else if (u32_at src 0 =? 1)%Z then decode_len1 src
  else if (u32_at src 0 =? 5)%Z then decode_len5 src
  else if (byte_to_Z id =? BITFIELD_ID)%Z then decode_bitfield (u32_at src 0) src
  else decode_payload (u32_at src 0) (byte_to_Z id) src.
Proof.
  intros Hb0 Hid. pose proof (lookup_lt_Some _ _ _ Hid). unfold decode, index.
  destruct (Nat.ltb_spec (length src) 4); [lia|]. rewrite Hb0, Hid, !bind_ret.
  case_match; [done|].
  rewrite read_u32_bind by done. rewrite decide_True by lia.
  case_match; [|done]. by rewrite advance_ok by lia.
Qed.

(** A buffer of exactly four bytes. *)
Lemma decode_four src b0 :
  length src = 4 -> src !! 0 = Some b0 ->
  decode (BV := BV) src =
  if (byte_to_Z b0 =? HANDSHAKE_ID)%Z then decode_wait src
  else if (u32_at src 0 =? 0)%Z then Ret ([], Ok (Some PM_KeepAlive))
  else if (u32_at src 0 =? 1)%Z then decode_wait src
  else if (u32_at src 0 =? 5)%Z then decode_wait src
  else Panic.
Proof.
  intros Hl Hb0. destruct src as [|c0 [|c1 [|c2 [|c3 [|c4 src]]]]]; try done.
  simplify_eq/=. unfold decode. simpl.
  case_match; [done|].
  rewrite read_u32_be by (simpl; lia). reflexivity.
Qed.

Lemma decode_short src : length src < 4 -> decode (BV := BV) src = decode_wait src.
Proof.
  intros Hl. unfold decode. destruct (Nat.ltb_spec (length src) 4); [done|lia].
Qed.

(** *** The arms of [decode], while bytes are missing *)

Lemma decode_handshake_short src :
  length src < 68 -> decode_handshake (BV := BV) src = decode_wait src.
Proof.
  intros. unfold decode_handshake. by destruct (Nat.ltb_spec (length src) 68); [|lia].
Qed.

Lemma decode_len5_short src :
  length src < 9 -> decode_len5 (BV := BV) src = decode_wait src.
Proof.
  intros. unfold decode_len5. by destruct (Nat.ltb_spec (length src) 9); [|lia].
Qed.

Lemma decode_bitfield_short L src :
  (2 <= L)%Z -> (Z.of_nat (length src) < bits_bytes (L - 1) + 5)%Z ->
  decode_bitfield (BV := BV) L src = decode_wait src.
Proof.
  intros HL Hl. unfold decode_bitfield.
  replace (if (0 <? (L - 1) mod 8)%Z then ((L - 1) / 8 + 1)%Z else ((L - 1) / 8)%Z)
    with (bits_bytes (L - 1)) by (unfold bits_bytes; case_match; lia).
  destruct (Z.eqb_spec (L - 1) 0); [lia|].
  by destruct (Z.ltb_spec (Z.of_nat (length src)) (bits_bytes (L - 1) + 5)); [|lia].
Qed.

Lemma decode_payload_short L id src :
  (Z.of_nat (length src) < 4 + L)%Z ->
  decode_payload (BV := BV) L id src = decode_wait src.
Proof.
  intros Hl. unfold decode_payload.
  by destruct (Z.ltb_spec (Z.of_nat (length src)) (4 + L)); [|lia].
Qed.

(** *** Reading [src] and reading [src ++ more] *)

Lemma extends_found src more n m :
  n <= length src ->
  extends more (Ret (drop n src, Ok (Some m))) (Ret (drop n (src ++ more), Ok (Some m))).
Proof. intros. simpl. by rewrite drop_app_le. Qed.

Lemma take_drop_extend (src more : list byte) n k :
  k + n <= length src -> take n (drop k (src ++ more)) = take n (drop k src).
Proof. intros. rewrite drop_app_le, take_app_le; [done| |lia]. rewrite length_drop. lia. Qed.

Lemma decode_handshake_extends src more :
  extends more (decode_handshake src) (decode_handshake (src ++ more)).
Proof.
  destruct (decide (length src < 68)); [by rewrite decode_handshake_short|].
  rewrite !decode_handshake_eq by (rewrite ?length_app; lia).
  rewrite !take_drop_extend by lia. case_bool_decide; [done|].
  apply extends_found. lia.
Qed.

Lemma decode_len1_extends src more b :
  src !! 4 = Some b -> extends more (decode_len1 src) (decode_len1 (src ++ more)).
Proof.
  intros Hb. rewrite (decode_len1_eq src b), (decode_len1_eq (src ++ more) b);
    [|by apply lookup_app_l_Some|done].
  case_match; [|done]. apply extends_found. apply lookup_lt_Some in Hb. lia.
Qed.

Lemma decode_len5_extends src more b :
  src !! 4 = Some b -> extends more (decode_len5 src) (decode_len5 (src ++ more)).
Proof.
  intros Hb. destruct (decide (length src < 9)); [by rewrite decode_len5_short|].
  rewrite (decode_len5_eq src b), (decode_len5_eq (src ++ more) b);
    [|rewrite length_app; lia|by apply lookup_app_l_Some|lia|done].
  rewrite u32_at_extend by lia. case_match; [|done]. apply extends_found. lia.
Qed.

Lemma decode_bitfield_extends L src more :
  (2 <= L)%Z -> extends more (decode_bitfield L src) (decode_bitfield L (src ++ more)).
Proof.
  intros HL. pose proof (bits_bytes_nonneg (L - 1) ltac:(lia)).
  destruct (decide (Z.of_nat (length src) < bits_bytes (L - 1) + 5)%Z);
    [by rewrite decode_bitfield_short|].
  rewrite !decode_bitfield_eq by (rewrite ?length_app; lia).
  rewrite take_drop_extend by lia. apply extends_found. lia.
Qed.

Lemma payload_at_extend L id src more :
  (2 <= L)%Z -> (4 + L <= Z.of_nat (length src))%Z ->
  payload_at L id (src ++ more) = payload_at L id src.
Proof.
  intros HL Hl. unfold payload_at, request_at.
  repeat (case_match; [done || f_equal|]); try done.
  all: destruct (Z.leb_spec 13 L); destruct (Z.leb_spec 9 L); destruct (Z.leb_spec 3 L);
    try lia; try done; by rewrite ?u32_at_extend, ?take_drop_extend by lia.
Qed.

Lemma decode_payload_extends L id src more :
  (2 <= L)%Z -> extends more (decode_payload L id src) (decode_payload L id (src ++ more)).
Proof.
  intros HL. destruct (decide (Z.of_nat (length src) < 4 + L)%Z);
    [by rewrite decode_payload_short|].
  rewrite !decode_payload_eq by (rewrite ?length_app; lia).
  rewrite payload_at_extend by lia. repeat case_match; try done.
  apply extends_found. lia.
Qed.

Lemma decode_extends src more :
  length src <> 4 -> extends more (decode src) (decode (src ++ more)).
Proof.
  intros Hne. destruct (decide (length src < 4)); [by rewrite decode_short|].
  destruct (lookup_lt_is_Some_2 src 0 ltac:(lia)) as [b0 Hb0].
  destruct (lookup_lt_is_Some_2 src 4 ltac:(lia)) as [b4 Hb4].
  rewrite (decode_cons src b0 b4), (decode_cons (src ++ more) b0 b4)
    by (done || by apply lookup_app_l_Some).
  rewrite u32_at_extend by lia. pose proof (u32_at_range src 0) as [HL _].
  repeat match goal with |- context [if ?b then _ else _] =>
    lazymatch b with (?x =? ?y)%Z => destruct (Z.eqb_spec x y) end end;
    eauto using decode_handshake_extends, extends_found, decode_len1_extends,
      decode_len5_extends with lia.
  - apply decode_bitfield_extends. lia.
  - apply decode_payload_extends. lia.
Qed.

Lemma decode_four_extends src more rest m :
  length src = 4 -> decode src = Ret (rest, Ok (Some m)) ->
  decode (src ++ more) = Ret (rest ++ more, Ok (Some m)).
Proof.
  intros Hl. destruct (lookup_lt_is_Some_2 src 0 ltac:(lia)) as [b0 Hb0].
  rewrite (decode_four src b0) by done. intros Hd.
  destruct more as [|c more].
  { rewrite !app_nil_r, (decode_four src b0) by done. done. }
  rewrite (decode_cons (src ++ c :: more) b0 c);
    [|by apply lookup_app_l_Some|by rewrite lookup_app_r, Hl by lia].
  rewrite u32_at_extend by lia.
  repeat (case_match; try done). simplify_eq/=.
  by rewrite drop_app_length' by done.
Qed.

Lemma decode_found_extends src more rest m :
  decode src = Ret (rest, Ok (Some m)) ->
  decode (src ++ more) = Ret (rest ++ more, Ok (Some m)).
Proof.
  intros Hd. destruct (decide (length src = 4)) as [Hl|Hl].
  - by apply decode_four_extends.
  - pose proof (decode_extends src more Hl) as He. by rewrite Hd in He.
Qed.

Lemma decode_err_extends src more rest e :
  decode src = Ret (rest, Err e) ->
  decode (src ++ more) = Ret (rest ++ more, Err e).
Proof.
  intros Hd. destruct (decide (length src = 4)) as [Hl|Hl].
  - destruct (lookup_lt_is_Some_2 src 0 ltac:(lia)) as [b0 Hb0].
    rewrite (decode_four src b0) in Hd by done. by repeat case_match.
  - pose proof (decode_extends src more Hl) as He. by rewrite Hd in He.
Qed.

(** *** The buffer after a call *)

Lemma consumes_found src n m :
  4 <= n -> n <= length src -> consumes src (Ret (drop n src, Ok (Some m))).
Proof.
  intros. exists (take n src). rewrite take_drop, length_take. split; [done|lia].
Qed.

Lemma decode_consumes' src : consumes src (decode src).
Proof.
  destruct (decide (length src < 4)); [by rewrite decode_short|].
  destruct (lookup_lt_is_Some_2 src 0 ltac:(lia)) as [b0 Hb0].
  destruct (decide (length src = 4)) as [Hl|Hl].
  { rewrite (decode_four src b0) by done. repeat (case_match; try done).
    exists src. rewrite app_nil_r. split; [done|lia]. }
  destruct (lookup_lt_is_Some_2 src 4 ltac:(lia)) as [b4 Hb4].
  rewrite (decode_cons src b0 b4) by done. pose proof (u32_at_range src 0) as [HL _].
  repeat match goal with |- context [if ?b then _ else _] =>
    lazymatch b with (?x =? ?y)%Z => destruct (Z.eqb_spec x y) end end.
  - destruct (decide (length src < 68)); [by rewrite decode_handshake_short|].
    rewrite decode_handshake_eq by lia. case_bool_decide; [done|].
    apply consumes_found; lia.
  - apply consumes_found; lia.
  - rewrite (decode_len1_eq src b4) by done. case_match; [|done].
    apply consumes_found; lia.
  - destruct (decide (length src < 9)); [by rewrite decode_len5_short|].
    rewrite (decode_len5_eq src b4) by (done || lia). case_match; [|done].
    apply consumes_found; lia.
  - pose proof (bits_bytes_nonneg (u32_at src 0 - 1) ltac:(lia)).
    destruct (decide (Z.of_nat (length src) < bits_bytes (u32_at src 0 - 1) + 5)%Z);
      [by rewrite decode_bitfield_short by lia|].
    rewrite decode_bitfield_eq by lia. apply consumes_found; lia.
  - destruct (decide (Z.of_nat (length src) < 4 + u32_at src 0)%Z);
      [by rewrite decode_payload_short|].
    rewrite decode_payload_eq by lia. repeat case_match; try done.
    apply consumes_found; lia.
Qed.

(** *** Panics *)

Lemma decode_four_panic src b0 :
  length src = 4 -> src !! 0 = Some b0 ->
  decode (BV := BV) src = Panic <->
  byte_to_Z b0 <> HANDSHAKE_ID /\ u32_at src 0 <> 0%Z /\ u32_at src 0 <> 1%Z /\
  u32_at src 0 <> 5%Z.
Proof.
  intros Hl Hb0. rewrite (decode_four src b0) by done.
  destruct (Z.eqb_spec (byte_to_Z b0) HANDSHAKE_ID), (Z.eqb_spec (u32_at src 0) 0),
    (Z.eqb_spec (u32_at src 0) 1), (Z.eqb_spec (u32_at src 0) 5); split;
    done || tauto.
Qed.

Lemma payload_at_panic L id src :
  payload_at L id src = Some Panic <-> payload_too_short L id.
Proof.
  unfold payload_at, payload_too_short.
  destruct (Z.eqb_spec id REQUEST_ID), (Z.eqb_spec id PIECE_ID),
    (Z.eqb_spec id CANCEL_ID), (Z.eqb_spec id PORT_ID);
  destruct (Z.leb_spec 13 L), (Z.leb_spec 9 L), (Z.leb_spec 3 L);
  unfold REQUEST_ID, PIECE_ID, CANCEL_ID, PORT_ID in *; split; done || lia.
Qed.

Lemma decode_cons_panic src b0 b4 :
  src !! 0 = Some b0 -> src !! 4 = Some b4 ->
  decode (BV := BV) src = Panic <->
  byte_to_Z b0 <> HANDSHAKE_ID /\ u32_at src 0 <> 0%Z /\ u32_at src 0 <> 1%Z /\
  u32_at src 0 <> 5%Z /\ (4 + u32_at src 0 <= Z.of_nat (length src))%Z /\
  payload_too_short (u32_at src 0) (byte_to_Z b4).
Proof.
  intros Hb0 Hb4. rewrite (decode_cons src b0 b4) by done.
  pose proof (u32_at_range src 0) as [HL _].
  assert (payload_too_short (u32_at src 0) (byte_to_Z b4) ->
          byte_to_Z b4 <> BITFIELD_ID) as Hnb
    by (unfold payload_too_short, REQUEST_ID, CANCEL_ID, PIECE_ID, PORT_ID, BITFIELD_ID; lia).
  repeat match goal with |- context [if ?b then _ else _] =>
    lazymatch b with (?x =? ?y)%Z => destruct (Z.eqb_spec x y) end end.
  - destruct (decide (length src < 68)); [by rewrite decode_handshake_short by done; split; [|tauto]|].
    rewrite decode_handshake_eq by lia. case_bool_decide; split; done || tauto.
  - split; done || tauto.
  - rewrite (decode_len1_eq src b4) by done. case_match; split; done || tauto.
  - destruct (decide (length src < 9)); [by rewrite decode_len5_short by done; split; [|tauto]|].
    rewrite (decode_len5_eq src b4) by (done || lia). case_match; split; done || tauto.
  - destruct (decide (Z.of_nat (length src) < bits_bytes (u32_at src 0 - 1) + 5)%Z);
      [by rewrite decode_bitfield_short by lia; split; [|tauto]|].
    rewrite decode_bitfield_eq by lia. split; done || tauto.
  - destruct (decide (Z.of_nat (length src) < 4 + u32_at src 0)%Z);
      [by rewrite decode_payload_short by done; split; [|lia]|].
    rewrite decode_payload_eq, <- (payload_at_panic _ _ src) by lia.
    destruct (payload_at _ _ src) as [[m|]|]; split; try done;
      [intros (_ & _ & _ & _ & _ & [=]) | | intros (_ & _ & _ & _ & _ & [=])].
    intros _. split_and!; done || lia.
Qed.

(** *** Frames built by [as_bytes] *)

Lemma be_split_4 L : exists l, be_split 4 L = byte_of_Z (L / 2 ^ 24) :: l /\ length l = 3.
Proof. eexists. split; [reflexivity|]. done. Qed.

Lemma prefix_fits_small L : (0 <= L < FRAME_LIMIT)%Z -> prefix_fits L.
Proof. unfold prefix_fits, FRAME_LIMIT, HANDSHAKE_ID. intros HL. split; [lia|div_lia]. Qed.

Lemma decode_frame L id payload :
  is_u32 L -> prefix_fits L -> is_u8 id ->
  let src := write_u32 L ++ write_u8 id ++ payload in
  u32_at src 0 = L /\ src !! 4 = Some (byte_of_Z id) /\
  decode (BV := BV) src =
  if (L =? 0)%Z then Ret (write_u8 id ++ payload, Ok (Some PM_KeepAlive))
  else if (L =? 1)%Z then decode_len1 src
  else if (L =? 5)%Z then decode_len5 src
  else if (id =? BITFIELD_ID)%Z then decode_bitfield L src
  else decode_payload L id src.
Proof.
  intros HL Hlim Hid src.
  assert (u32_at src 0 = L) as Hu.
  { unfold src. rewrite write_u32_be by done. by apply (u32_at_app []). }
  assert (src !! 4 = Some (byte_of_Z id)) as Hb4.
  { unfold src. rewrite lookup_app_r by (by rewrite length_write_u32).
    by rewrite length_write_u32. }
  split_and!; [done|done|].
  destruct (be_split_4 L) as (l & Hl & Hlen).
  assert (src !! 0 = Some (byte_of_Z (L / 2 ^ 24))) as Hb0.
  { unfold src. rewrite write_u32_be, Hl by done. done. }
  rewrite (decode_cons src _ _ Hb0 Hb4), Hu, !byte_to_of_Z, (wrap_small 8 id) by done.
  rewrite wrap_small by (unfold in_range in *; div_lia).
  destruct (Z.eqb_spec (L / 2 ^ 24) HANDSHAKE_ID); [by destruct Hlim|].
  case_match; [|done]. unfold src. by rewrite drop_app_length' by (by rewrite length_write_u32).
Qed.

Lemma u32_at_write l z l' k :
  is_u32 z -> k = length l -> u32_at (l ++ write_u32 z ++ l') k = z.
Proof. intros Hz ->. rewrite write_u32_be by done. by apply u32_at_app. Qed.

Lemma request_at_bytes p r :
  length p = 5 -> PeerRequest_wf r ->
  request_at (p ++ write_u32 (req_index r) ++ write_u32 (req_begin r) ++
              write_u32 (req_length r)) = r.
Proof.
  intros Hp (Hi & Hb & Hl). unfold request_at. destruct r as [i b l]. simpl in *. f_equal.
  - by apply u32_at_write.
  - rewrite (app_assoc p). apply u32_at_write; [done|].
    by rewrite length_app, length_write_u32, Hp.
  - rewrite (app_assoc p), (app_assoc _ (write_u32 b)), <- (app_nil_r (write_u32 l)).
    apply u32_at_write; [done|]. by rewrite !length_app, !length_write_u32, Hp.
Qed.

Lemma decode_as_bytes_len1 id m :
  is_u8 id -> len1_msg id = Some m ->
  decode (write_u32 1 ++ write_u8 id) = Ret ([], Ok (Some m)).
Proof.
  intros Hid Hm. rewrite <- (app_nil_r (write_u8 id)).
  destruct (decode_frame 1 id [] ltac:(done) ltac:(done) Hid) as (_ & Hb & ->).
  cbn [Z.eqb Pos.eqb]. rewrite (decode_len1_eq _ _ Hb), byte_to_of_Z, wrap_small, Hm by done.
  by rewrite drop_ge by (by rewrite !length_app, length_write_u32).
Qed.

Lemma decode_as_bytes_payload L id payload m :
  is_u32 L -> (2 <= L)%Z -> L <> 5%Z -> prefix_fits L -> is_u8 id -> id <> BITFIELD_ID ->
  (Z.of_nat (length payload) = L - 1)%Z ->
  payload_at L id (write_u32 L ++ write_u8 id ++ payload) = Some (Ret m) ->
  decode (write_u32 L ++ write_u8 id ++ payload) = Ret ([], Ok (Some m)).
Proof.
  intros HL HL2 HL5 Hlim Hid Hnb Hlen Hp.
  destruct (decode_frame L id payload HL Hlim Hid) as (_ & Hb & ->).
  destruct (Z.eqb_spec L 0), (Z.eqb_spec L 1), (Z.eqb_spec L 5),
    (Z.eqb_spec id BITFIELD_ID); try lia.
  rewrite decode_payload_eq, Hp
    by (rewrite ?length_app, ?length_write_u32; simpl; try done; lia).
  rewrite drop_ge; [done|]. rewrite !length_app, length_write_u32 by done. simpl. lia.
Qed.

Lemma decode_as_bytes_request L id r m :
  (id = REQUEST_ID /\ m = PM_Request r \/ id = CANCEL_ID /\ m = PM_Cancel r) ->
  L = 13%Z -> PeerRequest_wf r ->
  decode (write_u32 L ++ write_u8 id ++ write_u32 (req_index r) ++
          write_u32 (req_begin r) ++ write_u32 (req_length r)) = Ret ([], Ok (Some m)).
Proof.
  intros Hid -> Hwf. pose proof Hwf as (Hi & Hb & Hl).
  assert (is_u8 id /\ id <> BITFIELD_ID) as [Hu Hn]
    by (destruct Hid as [[-> _]|[-> _]]; done).
  apply decode_as_bytes_payload; try done.
  - by rewrite !length_app, !length_write_u32.
  - rewrite (app_assoc (write_u32 13)). unfold payload_at.
    rewrite request_at_bytes by (try done; by rewrite length_app, length_write_u32).
    by destruct Hid as [[-> ->]|[-> ->]].
Qed.

Lemma decode_as_bytes_piece p :
  PeerMessage_wf (PM_Piece p : PeerMessage BV) -> PeerMessage_fits (PM_Piece p : PeerMessage BV) ->
  let L := (9 + Z.of_nat (length (piece_block p)))%Z in
  decode (write_u32 L ++ write_u8 7 ++ write_u32 (piece_idx p) ++
          write_u32 (piece_begin p) ++ piece_block p) =
  Ret ([], Ok (Some (PM_Piece p))).
Proof.
  destruct p as [i b blk]. intros [Hi Hb] Hfit L. simpl in *.
  apply decode_as_bytes_payload; try done; unfold L, prefix_fits, in_range in *; try lia.
  - rewrite !length_app, !length_write_u32 by done. lia.
  - unfold payload_at. cbn [REQUEST_ID PIECE_ID Z.eqb Pos.eqb]. fold L.
    destruct (Z.leb_spec 9 L); [|lia]. do 4 f_equal.
    + rewrite (app_assoc (write_u32 L)). apply u32_at_write; [done|].
      rewrite length_app, length_write_u32; [done|]. unfold in_range; lia.
    + rewrite (app_assoc (write_u32 L)), (app_assoc _ (write_u32 i)).
      apply u32_at_write; [done|].
      rewrite !length_app, !length_write_u32; unfold in_range; done || lia.
    + rewrite !app_assoc, drop_app_length'
        by (rewrite !length_app, !length_write_u32; unfold in_range; done || lia).
      rewrite take_ge; [done|]. lia.
Qed.

Lemma decode_as_bytes_bitfield f :
  PeerMessage_fits (PM_Bitfield f) -> bf_len f <> 0 -> bf_len f <> 4 ->
  decode (write_u32 (1 + Z.of_nat (bf_len f)) ++ write_u8 5 ++ bf_to_bytes f) =
  Ret ([], Ok (Some (PM_Bitfield f))).
Proof.
  intros Hfit Hn0 Hn4. simpl in Hfit. set (L := (1 + Z.of_nat (bf_len f))%Z) in *.
  assert (is_u32 L) as HL by (unfold in_range, prefix_fits in *; lia).
  destruct (decode_frame L 5 (bf_to_bytes f) HL Hfit ltac:(done)) as (_ & Hb & ->).
  destruct (Z.eqb_spec L 0), (Z.eqb_spec L 1), (Z.eqb_spec L 5); try lia. cbn [BITFIELD_ID Z.eqb Pos.eqb].
  assert (Z.to_nat (bits_bytes (L - 1)) = length (bf_to_bytes f)) as Hbytes.
  { rewrite length_bf_to_bytes. unfold L. rewrite Z.add_simpl_l.
    apply bits_bytes_nat. }
  pose proof (bits_bytes_nonneg (L - 1) ltac:(lia)).
  assert (length (write_u32 L ++ write_u8 5 ++ bf_to_bytes f) =
          Z.to_nat (bits_bytes (L - 1)) + 5) as Hlen.
  { rewrite !length_app, length_write_u32 by done. simpl. lia. }
  rewrite decode_bitfield_eq by lia. rewrite drop_ge by lia.
  rewrite (app_assoc (write_u32 L)), drop_app_length'
    by (rewrite length_app, length_write_u32; done).
  rewrite take_ge by lia. replace (Z.to_nat (L - 1)) with (bf_len f) by lia.
  by rewrite bf_to_from_bytes.
Qed.

Lemma decode_as_bytes_handshake h :
  Handshake_wf h ->
  decode (BV := BV) ([byte_of_Z 19] ++ BITTORRENT_IDENTIFIER ++ reserved h ++
          hash (info_hash h) ++ hash (peer_id h)) = Ret ([], Ok (Some (PM_Handshake h))).
Proof.
  destruct h as [r [ih] [pid]]. intros (Hr & Hih & Hpid). unfold ShaHash_wf in *. simpl in Hr, Hih, Hpid.
  unfold SHA_HASH_LEN in *.
  set (src := [byte_of_Z 19] ++ BITTORRENT_IDENTIFIER ++ r ++ ih ++ pid).
  assert (length src = 68) as Hl.
  { unfold src. rewrite !length_app, length_BITTORRENT_IDENTIFIER, Hr, Hih, Hpid. done. }
  cbn [reserved info_hash peer_id hash]. fold src.
  destruct (lookup_lt_is_Some_2 src 4 ltac:(lia)) as [b4 Hb4].
  rewrite (decode_cons src (byte_of_Z 19) b4) by done.
  rewrite byte_to_of_Z, wrap_small by done. cbn [HANDSHAKE_ID Z.eqb Pos.eqb].
  rewrite decode_handshake_eq by lia.
  replace (take 19 (drop 1 src)) with BITTORRENT_IDENTIFIER by done.
  rewrite bool_decide_false by (intros Hx; by apply Hx).
  replace (drop 20 src) with (r ++ ih ++ pid) by done.
  replace (drop 28 src) with (ih ++ pid)
    by (change 28 with (20 + 8); rewrite <- drop_drop;
        by change (drop 20 src) with (r ++ ih ++ pid); rewrite drop_app_length').
  replace (drop 48 src) with pid
    by (change 48 with (20 + 28); rewrite <- drop_drop;
        change (drop 20 src) with (r ++ ih ++ pid);
        by rewrite app_assoc, drop_app_length' by (rewrite length_app; lia)).
  rewrite (drop_ge src) by lia. rewrite !take_app_length' by done.
  by rewrite take_ge by lia.
Qed.

(** Every message that fits is written without a panic. *)
Lemma as_bytes_total m : PeerMessage_fits m -> exists bs, PeerMessage_as_bytes m = Ret bs.
Proof.
  destruct m as [| | | | | |f|r|r|p|h|port]; simpl; intros Hf; try by eexists.
  all: rewrite len_u32_small by (unfold in_range, prefix_fits in *; lia);
    rewrite checked_in_range by (unfold in_range, prefix_fits in *; lia);
    by eexists.
Qed.

Lemma decode_as_bytes m bs :
  PeerMessage_wf m -> PeerMessage_fits m -> ~ bitfield_collides m ->
  PeerMessage_as_bytes m = Ret bs -> decode bs = Ret ([], Ok (Some m)).
Proof.
  intros Hwf Hfit Hcol.
  destruct m as [| | | | |i|f|r|r|p|h|port]; cbn [PeerMessage_as_bytes];
    simpl in Hwf, Hfit, Hcol; try (intros [= <-]).
  - rewrite <- (app_nil_r (write_u32 0)).
    assert (length (write_u32 0) = 4) as Hl by by apply length_write_u32.
    rewrite (decode_four _ (byte_of_Z 0));
      [|by rewrite app_nil_r | by rewrite write_u32_be].
    assert (u32_at (write_u32 0 ++ []) 0 = 0%Z) as -> by by apply (u32_at_write []).
    done.
  - by apply decode_as_bytes_len1.
  - by apply decode_as_bytes_len1.
  - by apply decode_as_bytes_len1.
  - by apply decode_as_bytes_len1.
  - rewrite <- (app_nil_r (write_u32 i)).
    change (byte_of_Z 4 :: ?l) with (write_u8 4 ++ l).
    destruct (decode_frame 5 4 (write_u32 i ++ []) ltac:(done) ltac:(done) ltac:(done))
      as (_ & Hb & ->). cbn [Z.eqb Pos.eqb].
    assert (length (write_u32 5 ++ write_u8 4 ++ write_u32 i ++ []) = 9) as Hl
      by by rewrite !length_app, !length_write_u32.
    rewrite (decode_len5_eq _ (byte_of_Z 4)) by (done || lia).
    rewrite byte_to_of_Z, wrap_small by done. cbn [HAVE_ID Z.eqb Pos.eqb].
    rewrite drop_ge by lia. rewrite (app_assoc (write_u32 5)), u32_at_write; [done|done|].
    by rewrite length_app, length_write_u32.
  - rewrite len_u32_small by (unfold in_range, prefix_fits in *; lia).
    rewrite checked_in_range by (unfold in_range, prefix_fits in *; lia).
    intros [= <-]. apply decode_as_bytes_bitfield; tauto.
  - apply (decode_as_bytes_request 13 6 r); auto.
  - apply (decode_as_bytes_request 13 8 r); auto.
  - rewrite len_u32_small by (unfold in_range, prefix_fits in *; lia).
    rewrite checked_in_range by (unfold in_range, prefix_fits in *; lia).
    intros [= <-]. by apply decode_as_bytes_piece.
  - by apply decode_as_bytes_handshake.
  - apply decode_as_bytes_payload; try done.
    + by rewrite length_write_u16.
    + unfold payload_at. cbn [REQUEST_ID PIECE_ID CANCEL_ID PORT_ID Z.eqb Z.leb Z.compare Pos.eqb Pos.compare Pos.compare_cont].
      do 3 f_equal.
      rewrite (app_assoc (write_u32 3)), drop_app_length'
        by (by rewrite length_app, length_write_u32).
      rewrite write_u16_be, take_ge by (done || by rewrite length_be_split).
      by apply be_combine_split_small.
Qed.

(** A frame whose first byte is the one of a handshake is read as a handshake. *)
Lemma decode_as_handshake L tl rest m :
  is_u32 L -> (L / 2 ^ 24)%Z = HANDSHAKE_ID -> 0 < length tl ->
  decode (write_u32 L ++ tl) = Ret (rest, Ok (Some m)) -> exists h, m = PM_Handshake h.
Proof.
  intros HL Hq Htl. destruct (be_split_4 L) as (l & Hl & Hlen).
  set (src := write_u32 L ++ tl).
  assert (src !! 0 = Some (byte_of_Z (L / 2 ^ 24))) as Hb0
    by (unfold src; by rewrite write_u32_be, Hl by done).
  destruct (lookup_lt_is_Some_2 src 4) as [b4 Hb4].
  { unfold src. rewrite length_app, length_write_u32 by done. lia. }
  rewrite (decode_cons src _ _ Hb0 Hb4), byte_to_of_Z, Hq, wrap_small by done. cbn [HANDSHAKE_ID Z.eqb Pos.eqb].
  unfold decode_handshake. destruct (_ <? _); [done|]. intros Hd. inv_bind Hd.
  case_bool_decide; [done|]. repeat (inv_bind Hd || case_match); try done.
  injection Hd as _ <-. by eexists.
Qed.

Lemma decode_needs_prefix m bs rest r :
  PeerMessage_sized m -> PeerMessage_as_bytes m = Ret bs ->
  decode (bs ++ rest) = Ret (r, Ok (Some m)) -> PeerMessage_fits m.
Proof.
  destruct m as [| | | | |i|f|q|q|p|h|port]; simpl; try done; intros Hsize Hbs Hd;
    (split; [done|]); intros Hq;
    rewrite len_u32_small, checked_in_range, bind_ret in Hbs by (unfold in_range; lia);
    injection Hbs as <-; rewrite <- app_assoc in Hd;
    (apply decode_as_handshake in Hd as [h [=]]; [unfold in_range; lia|done|simpl; lia]).
Qed.

(** A colliding bit field is read as a malformed or incomplete message. *)
Lemma decode_collides m bs rest r :
  bitfield_collides m -> PeerMessage_as_bytes m = Ret bs ->
  decode (bs ++ rest) <> Ret (r, Ok (Some m)).
Proof.
  destruct m as [| | | | |i|f|r'|r'|p|h|port]; simpl; try done. intros Hcol.
  rewrite len_u32_small by (unfold in_range; lia).
  rewrite checked_in_range by (unfold in_range; lia). intros [= <-].
  rewrite <- !app_assoc. change (byte_of_Z 5 :: ?l) with (write_u8 5 ++ l).
  rewrite <- !app_assoc.
  destruct (decode_frame (1 + Z.of_nat (bf_len f)) 5 (bf_to_bytes f ++ rest))
    as (_ & Hb & ->); [unfold in_range; lia | apply prefix_fits_small; unfold FRAME_LIMIT; lia | done |].
  destruct Hcol as [Hc|Hc]; rewrite Hc in Hb |- *;
    [change (1 + Z.of_nat 0)%Z with 1%Z in *|change (1 + Z.of_nat 4)%Z with 5%Z in *];
    cbn [Z.eqb Pos.eqb].
  - by rewrite (decode_len1_eq _ _ Hb).
  - destruct (decide (length (write_u32 5 ++ write_u8 5 ++ bf_to_bytes f ++ rest) < 9)).
    + by rewrite decode_len5_short.
    + by rewrite (decode_len5_eq _ (byte_of_Z 5)) by (done || lia).
Qed.
End CodecLemmas.

(** ** Properties *)

Section CodecProperties.
Context `{BitVecLaws BV} `{ByteOrderLaws} `{Profile}.
Implicit Types m : PeerMessage BV.

(** C3: [decode] reads back what [as_bytes] wrote, from the front of a buffer
    that may hold more, exactly for the messages that are not a [Bitfield] of
    zero or four pieces and whose length prefix does not start with the byte
    19, as that of a [Piece] or a [Bitfield] from 304 to 320 MiB does.  This
    is said of all messages with fields of the right sizes and frames of less
    than 4 GiB. *)
Theorem decode_encode_iff m bs rest :
  PeerMessage_wf m -> PeerMessage_sized m -> PeerMessage_as_bytes m = Ret bs ->
  decode (bs ++ rest) = Ret (rest, Ok (Some m)) <-> ~ bitfield_collides m /\ PeerMessage_fits m.
Proof.
  intros Hwf Hsize Hbs. split.
  - intros Hd. split; [intros Hcol; by apply (decode_collides m bs rest rest)|].
    by apply (decode_needs_prefix m bs rest rest).
  - intros [Hcol Hfit]. apply (decode_found_extends bs rest []). by apply decode_as_bytes.
Qed.

(** C18: What [decode] found does not depend on the bytes that arrive later: a
    message or an error that a buffer gives, the longer buffer gives too, and
    the bytes it leaves are followed by those that arrived later. *)
Theorem decode_stable src more rest :
  (forall m, decode src = Ret (rest, Ok (Some m)) ->
     decode (src ++ more) = Ret (rest ++ more, Ok (Some m))) /\
  (forall e, decode (BV := BV) src = Ret (rest, Err e) ->
     decode (BV := BV) (src ++ more) = Ret (rest ++ more, Err e)).
Proof.
  split; intros; [by apply decode_found_extends | by apply decode_err_extends].
Qed.

(** A call that finds a message takes its frame of at least four bytes off
    the front of the buffer; a call that waits or fails leaves the buffer. *)
Theorem decode_consumes src :
  consumes (BV := BV) src (decode src).
Proof. apply decode_consumes'. Qed.

(** A part of the frame of a message makes [decode] wait for the rest, when
    the part does not end right behind the length prefix. *)
Theorem decode_prefix_waits m bs p q :
  PeerMessage_wf m -> PeerMessage_fits m -> ~ bitfield_collides m ->
  PeerMessage_as_bytes m = Ret bs -> bs = p ++ q -> q <> [] -> length p <> 4 ->
  decode (BV := BV) p = Ret (p, Ok None).
Proof.
  intros Hwf Hfit Hcol Hbs -> Hq Hp.
  pose proof (decode_as_bytes m _ Hwf Hfit Hcol Hbs) as Hd.
  pose proof (decode_extends p q Hp) as He. pose proof (decode_consumes' p) as Hc.
  destruct (decode p) as [[rest [[m'|]|e]]|]; simpl in He, Hc; rewrite ?Hd in He.
  - injection He as Hr _. symmetry in Hr. by apply app_eq_nil in Hr as [_ ?].
  - by rewrite Hc.
  - done.
  - done.
Qed.

(** When the bytes of a valid message with an id and a payload arrive up to
    its length prefix, [decode] panics instead of waiting. *)
Theorem decode_length_prefix_panics m bs :
  PeerMessage_wf m -> PeerMessage_fits m -> ~ bitfield_collides m -> has_id m = true ->
  PeerMessage_as_bytes m = Ret bs -> decode (BV := BV) (take 4 bs) = Panic.
Proof.
  intros Hwf Hfit Hcol Hid Hbs.
  assert (exists L tl, bs = write_u32 L ++ tl /\ is_u32 L /\ prefix_fits L /\
            L <> 0%Z /\ L <> 1%Z /\ L <> 5%Z) as (L & tl & -> & HL & Hlim & Hn0 & Hn1 & Hn5).
  { destruct m as [| | | | |i|f|r|r|p|h|port]; cbn [PeerMessage_as_bytes] in Hbs;
      simpl in Hwf, Hfit, Hcol; try done.
    2,3,5: injection Hbs as <-; eexists _, _; split; [reflexivity|]; done.
    all: rewrite len_u32_small, checked_in_range, bind_ret in Hbs
      by (unfold in_range, prefix_fits in *; lia); injection Hbs as <-;
      eexists _, _; split; [reflexivity|]; unfold in_range, prefix_fits in *; lia. }
  rewrite take_app_length' by by rewrite length_write_u32.
  destruct (be_split_4 L) as (l & Hl & Hlen).
  rewrite (decode_four _ (byte_of_Z (L / 2 ^ 24)));
    [|by apply length_write_u32|by rewrite write_u32_be, Hl].
  rewrite <- (app_nil_r (write_u32 L)).
  assert (u32_at (write_u32 L ++ []) 0 = L) as -> by by apply (u32_at_write []).
  rewrite byte_to_of_Z, wrap_small by (unfold in_range in *; div_lia).
  destruct (Z.eqb_spec (L / 2 ^ 24) HANDSHAKE_ID); [by destruct Hlim|].
  by destruct (Z.eqb_spec L 0), (Z.eqb_spec L 1), (Z.eqb_spec L 5).
Qed.

(** A part of a frame makes [decode] wait, or panic right behind the length
    prefix of a message with an id and a payload. *)
Lemma decode_part m bs p q :
  PeerMessage_wf m -> PeerMessage_fits m -> ~ bitfield_collides m ->
  PeerMessage_as_bytes m = Ret bs -> bs = p ++ q -> q <> [] ->
  decode (BV := BV) p =
  if (length p =? 4) && has_id m then Panic else Ret (p, Ok None).
Proof.
  intros Hwf Hfit Hcol Hbs Hpq Hq. destruct (Nat.eqb_spec (length p) 4) as [Hl|Hl]; simpl.
  2: { by eapply decode_prefix_waits. }
  assert (p = take 4 bs) as Hp by by rewrite Hpq, <- Hl, take_app_length.
  destruct (has_id m) eqn:Hid; [rewrite Hp; by apply (decode_length_prefix_panics m)|].
  assert (forall L tl, (L = 1 \/ L = 5)%Z -> bs = write_u32 L ++ tl -> decode p = decode_wait p) as Hlen.
  { intros L tl HL ->. assert (is_u32 L) as Hu by (unfold in_range; lia).
    rewrite take_app_length' in Hp by by rewrite length_write_u32.
    rewrite (decode_four p (byte_of_Z 0)); [|done|rewrite Hp, write_u32_be by done; by destruct HL as [->| ->]].
    assert (u32_at p 0 = L) as -> by (rewrite Hp, <- (app_nil_r (write_u32 L)); by apply (u32_at_write [])).
    by destruct HL as [->| ->]. }
  destruct m as [| | | | |i|f|r|r|pc|h|port]; cbn [PeerMessage_as_bytes] in Hbs; try done;
    injection Hbs as Hbs; try (eapply Hlen; [|by rewrite <- Hbs]; lia).
  - rewrite Hpq in Hbs. apply (f_equal length) in Hbs.
    rewrite length_app, length_write_u32, Hl in Hbs by done. destruct q; simpl in Hbs; [done|lia].
  - rewrite (decode_four p (byte_of_Z 19)); [done|done|]. by rewrite Hp, <- Hbs.
Qed.

(** Reading what can be read of a stream: whole frames, and a part of the next
    one. *)
Lemma decode_all_part (frames : list (PeerMessage BV * list byte)) fuel p more :
  Forall frame_ok frames -> p ++ more = concat frames.*2 -> length p < fuel ->
  exists dn rest q, frames = dn ++ rest /\ p = concat dn.*2 ++ q /\ unread rest q /\
    decode_all fuel p = if behind_prefix rest (length q) then Panic else Ret (q, dn.*1).
Proof.
  intros Hok. revert fuel p. induction Hok as [|[m bs] frames Hm Hok IH]; intros [|fuel] p Hp Hf;
    try lia; simpl in Hp.
  - apply app_eq_nil in Hp as [-> ->]. by exists [], [], [].
  - pose proof Hm as (Hwf & Hfit & Hcol & Hbs).
    destruct (decide (length p < length bs)) as [Hlt|Hge].
    + exists [], ((m, bs) :: frames), p. split_and!; try done.
      assert (exists q, bs = p ++ q /\ q <> []) as (q & Hq & Hne).
      { exists (drop (length p) bs). apply (f_equal (take (length bs))) in Hp as Ht.
        rewrite take_app_length in Ht. split.
        - rewrite <- (take_drop (length p) bs) at 1. f_equal. rewrite <- Ht at 1.
          by rewrite take_take, Nat.min_l, take_app_length by lia.
        - intros Hn%(f_equal length). rewrite length_drop in Hn. simpl in Hn. lia. }
      cbn [decode_all behind_prefix fst snd]. rewrite (proj2 (Nat.ltb_lt _ _) Hlt).
      rewrite (decode_part m bs p q) by done. by case_match.
    + assert (exists p', p = bs ++ p' /\ p' ++ more = concat frames.*2) as (p' & -> & Hp').
      { exists (drop (length bs) p). apply (f_equal (take (length bs))) in Hp as Ht.
        rewrite take_app_length, take_app_le in Ht by lia. split.
        - rewrite <- Ht at 1. by rewrite take_drop.
        - apply (f_equal (drop (length bs))) in Hp. rewrite drop_app_length, drop_app_le in Hp by lia.
          done. }
      pose proof (decode_as_bytes m bs Hwf Hfit Hcol Hbs) as Hd.
      pose proof (decode_consumes' bs) as Hc. rewrite Hd in Hc. destruct Hc as (fr & Hfr & H4).
      rewrite app_nil_r in Hfr. subst fr. rewrite length_app in Hf.
      destruct (IH fuel p' Hp' ltac:(lia)) as (dn & rest & q & -> & -> & Hu & Hall).
      exists ((m, bs) :: dn), rest, q. split_and!; [done|simpl; by rewrite app_assoc|done|].
      cbn [decode_all]. rewrite (decode_found_extends bs _ [] m Hd), bind_ret. cbn [app].
      rewrite Hall. by destruct (behind_prefix rest (length q)).
Qed.

Lemma behind_prefix_app (dn rest : list (PeerMessage BV * list byte)) k :
  behind_prefix (dn ++ rest) (length (concat dn.*2) + k) = behind_prefix rest k.
Proof.
  induction dn as [|[m bs] dn IH]; csimpl; [done|]. rewrite length_app.
  destruct (Nat.ltb_spec (length bs + length (concat dn.*2) + k) (length bs)); [lia|].
  rewrite <- IH. f_equal. lia.
Qed.

Lemma borders_behind_prefix (dn rest : list (PeerMessage BV * list byte)) chunks k :
  existsb (behind_prefix (dn ++ rest)) (borders (length (concat dn.*2) + k) chunks) =
  existsb (behind_prefix rest) (borders k chunks).
Proof.
  revert k. induction chunks as [|c chunks IH]; intros k; simpl; [done|].
  by rewrite <- Nat.add_assoc, behind_prefix_app, IH.
Qed.

Lemma decode_chunks_rest (frames : list (PeerMessage BV * list byte)) chunks q :
  Forall frame_ok frames -> q ++ concat chunks = concat frames.*2 -> unread frames q ->
  decode_chunks chunks q =
  if existsb (behind_prefix frames) (borders (length q) chunks) then Panic
  else Ret ([], frames.*1).
Proof.
  revert frames q. induction chunks as [|c chunks IH]; intros frames q Hok Hq Hu.
  - simpl in Hq. rewrite app_nil_r in Hq. destruct frames as [|[m bs] frames]; simpl in *; [by subst|].
    subst. rewrite length_app in Hu. lia.
  - cbn [decode_chunks borders existsb concat] in *. rewrite app_assoc in Hq.
    destruct (decode_all_part frames (S (length (q ++ c))) (q ++ c) (concat chunks) Hok Hq ltac:(lia))
      as (dn & rest & q' & -> & Hqc & Hu' & Hall).
    rewrite Hall. rewrite Hqc, <- app_assoc, fmap_app, concat_app in Hq. apply app_inv_head in Hq.
    apply Forall_app in Hok as [_ Hok].
    rewrite <- length_app, Hqc, length_app, behind_prefix_app, borders_behind_prefix.
    destruct (behind_prefix rest (length q')); simpl; [done|].
    rewrite (IH rest q' Hok Hq Hu'). destruct (existsb _ _); simpl; [done|]. by rewrite fmap_app.
Qed.

(** C25: A stream of messages each of which can be read back on its own (fields of
    the right sizes, no [Bitfield] of zero or four pieces, no length prefix that
    starts with the byte 19, see [decode_encode_iff]) arrives in chunks.  It is
    read back in order and nothing is left over, however the bytes are cut; but
    when the border of two chunks is right behind the length prefix of a message
    with an id and a payload, [decode] panics. *)
Theorem chunks_decoded (frames : list (PeerMessage BV * list byte)) chunks :
  Forall frame_ok frames -> concat chunks = concat frames.*2 ->
  decode_chunks chunks [] =
  if existsb (behind_prefix frames) (borders 0 chunks) then Panic else Ret ([], frames.*1).
Proof.
  intros Hok Hc. apply (decode_chunks_rest frames chunks []); [done|done|].
  destruct Hok as [|[m bs] l (? & ? & ? & Hbs) _]; [done|].
  pose proof (decode_consumes' bs) as Hcs. rewrite (decode_as_bytes m) in Hcs by done.
  destruct Hcs as (fr & -> & ?). simpl. rewrite length_app. lia.
Qed.

(** C26: [decode] panics on exactly these buffers: no handshake, a length other
    than 0, 1 and 5, and either nothing behind the length or a complete frame
    whose payload is too short for its id. *)
Theorem decode_panics_iff src :
  decode (BV := BV) src = Panic <->
  exists b0, src !! 0 = Some b0 /\ byte_to_Z b0 <> HANDSHAKE_ID /\ 4 <= length src /\
    let L := u32_at src 0 in
    L <> 0%Z /\ L <> 1%Z /\ L <> 5%Z /\
    (length src = 4 \/
     (4 + L <= Z.of_nat (length src))%Z /\
     exists id, src !! 4 = Some id /\ payload_too_short L (byte_to_Z id)).
Proof.
  split.
  - intros Hd. destruct (decide (length src < 4)) as [Hs|Hs]; [by rewrite decode_short in Hd|].
    destruct (lookup_lt_is_Some_2 src 0 ltac:(lia)) as [b0 Hb0]. exists b0.
    destruct (decide (length src = 4)) as [Hl|Hl].
    + apply (decode_four_panic src b0 Hl Hb0) in Hd as (? & ? & ? & ?). cbv zeta. repeat (split; [done || lia|]). by left.
    + destruct (lookup_lt_is_Some_2 src 4 ltac:(lia)) as [b4 Hb4].
      apply (decode_cons_panic src b0 b4 Hb0 Hb4) in Hd as (? & ? & ? & ? & ? & ?).
      cbv zeta. repeat (split; [done || lia|]). right. split; [done|]. by exists b4.
  - intros (b0 & Hb0 & Hh & Hs & Hn0 & Hn1 & Hn5 & [Hl|(Hl & b4 & Hb4 & Hp)]).
    + by apply (decode_four_panic src b0).
    + by apply (decode_cons_panic src b0 b4).
Qed.

(** [as_bytes] writes as many bytes as [len] announces, except for [Port],
    whose frame is two bytes shorter. *)
Theorem as_bytes_length m bs :
  PeerMessage_wf m -> PeerMessage_fits m -> PeerMessage_as_bytes m = Ret bs ->
  length bs = match m with PM_Port _ => PeerMessage_len m - 2 | _ => PeerMessage_len m end.
Proof.
  intros Hwf Hfit Hbs.
  destruct m as [| | | | |i|f|r|r|p|h|port]; cbn [PeerMessage_as_bytes] in Hbs;
    simpl in Hwf, Hfit; unfold PeerMessage_len.
  7,10: rewrite len_u32_small, checked_in_range, bind_ret in Hbs
      by (unfold in_range, prefix_fits in *; lia).
  all: injection Hbs as <-; rewrite ?length_app, ?length_write_u32;
    try (unfold in_range, prefix_fits in *; done || lia).
  - simpl. by rewrite length_write_u32.
  - cbn [length app write_u8]. rewrite length_bf_to_bytes. case_match; lia.
  - destruct Hwf. simpl. rewrite !length_app, !length_write_u32 by done. lia.
  - destruct Hwf as (? & ? & ?). simpl. by rewrite !length_app, !length_write_u32.
  - destruct Hwf as (? & ? & ?). simpl. by rewrite !length_app, !length_write_u32.
  - destruct Hwf as (Hr & Hi & Hp). unfold ShaHash_wf, SHA_HASH_LEN in *.
    simpl. rewrite !length_app. lia.
  - simpl. by rewrite length_write_u16.
Qed.
End CodecProperties.

(** ** Witnesses *)

Section CodecWitnesses.
#[local] Existing Instances list_bitvec list_bitvec_laws std_byteorder std_byteorder_laws
  debug_build.

Definition ex_request : PeerMessage (list bool) :=
  PM_Request {| req_index := 1; req_begin := 16384; req_length := 16384 |}.
Definition ex_bitfield : PeerMessage (list bool) :=
  PM_Bitfield {| inner := [true; false; true; true; false; true] |}.
Definition ex_frame : list byte :=
  byte_of_Z <$> [0; 0; 0; 13; 6; 0; 0; 0; 1; 0; 0; 64; 0; 0; 0; 64; 0]%Z.

Lemma ex_request_ok :
  PeerMessage_wf ex_request /\ PeerMessage_fits ex_request /\ ~ bitfield_collides ex_request /\
  has_id ex_request = true /\ PeerMessage_as_bytes ex_request = Ret ex_frame.
Proof. split_and!; [done..| tauto | done | by vm_compute]. Qed.

Lemma decode_encode_iff_witness :
  decode (ex_frame ++ [Byte.x2a]) = Ret ([Byte.x2a], Ok (Some ex_request)) <->
  ~ bitfield_collides ex_request /\ PeerMessage_fits ex_request.
Proof. apply (decode_encode_iff ex_request ex_frame [Byte.x2a]); by vm_compute. Defined.

(** Two messages, in chunks that are cut inside and between the frames *)
Definition ex_frames : list (PeerMessage (list bool) * list byte) :=
  [(ex_request, ex_frame); (PM_Choke, byte_of_Z <$> [0; 0; 0; 1; 0]%Z); (ex_request, ex_frame)].
Definition ex_chunks : list (list byte) :=
  let l := concat ex_frames.*2 in [take 3 l; take 20 (drop 3 l); drop 23 l].

Lemma chunks_decoded_witness :
  decode_chunks ex_chunks [] = Ret ([], [ex_request; PM_Choke; ex_request]).
Proof.
  rewrite (chunks_decoded ex_frames ex_chunks); [by vm_compute| |by vm_compute].
  destruct ex_request_ok as (? & ? & ? & _ & ?).
  repeat apply Forall_cons_2; [| | |apply Forall_nil_2]; split_and!; try done; by vm_compute.
Defined.

Lemma decode_stable_witness :
  decode (ex_frame ++ [Byte.x2a]) = Ret ([Byte.x2a], Ok (Some ex_request)).
Proof. apply (decode_stable ex_frame [Byte.x2a] []). by vm_compute. Defined.

Lemma decode_consumes_witness : consumes (BV := list bool) ex_frame (decode ex_frame).
Proof. apply (decode_consumes ex_frame). Defined.

Lemma decode_prefix_waits_witness :
  decode (BV := list bool) (take 7 ex_frame) = Ret (take 7 ex_frame, Ok None).
Proof.
  apply (decode_prefix_waits ex_request ex_frame (take 7 ex_frame) (drop 7 ex_frame));
    by vm_compute.
Defined.

Lemma decode_length_prefix_panics_witness :
  decode (BV := list bool) (take 4 ex_frame) = Panic.
Proof. apply (decode_length_prefix_panics ex_request ex_frame); by vm_compute. Defined.

Lemma decode_panics_iff_witness :
  decode (BV := list bool) (byte_of_Z <$> [0; 0; 0; 2; 9; 7]%Z) = Panic.
Proof.
  apply (decode_panics_iff (byte_of_Z <$> [0; 0; 0; 2; 9; 7]%Z)).
  exists Byte.x00. cbv zeta. split_and!; try (by vm_compute); [simpl; lia|]. right.
  split; [by vm_compute|]. exists Byte.x09. split; [done|]. right; right; right. by vm_compute.
Defined.

Lemma as_bytes_length_witness : length ex_frame = PeerMessage_len ex_request.
Proof. apply (as_bytes_length ex_request ex_frame); by vm_compute. Defined.
End CodecWitnesses.
