(* ===== verification/MetaInfo.v ===== *)
(** * The contents of a torrent file

    [MetaInfo], [TorrentInfo] and their parts of src/src/torrent/mod.rs. *)

From S2P Require Import Prelude Crates Util.
Local Open Scope Z_scope.

(** ** Paths

    [std::path::Path] on Unix: a string; [join] starts over at an absolute
    path and separates the parts with a slash. *)
Abbreviation PathBuf := string (only parsing).

Definition path_join (a b : PathBuf) : PathBuf :=
  if String.prefix "/" b then b
  else if bool_decide (a = "") then b
  else if bool_decide (last (String.list_ascii_of_string a) = Some (Ascii.ascii_of_nat 47)) then a +:+ b
  else a +:+ "/" +:+ b.

(** ** Data *)

Record DhtNode := mkDhtNode { host : string; port : Z }.

Record SubFileInfo := mkSubFileInfo {
  (** The length of the file in bytes *)
  sub_length : Z;
  (** subdirectory names, the last of which is the actual file name *)
  paths : list string;
}.

Inductive InfoContent :=
| Single (length : Z)
| Multi (files : list SubFileInfo).

Record TorrentInfo := mkTorrentInfo {
  pieces : list ShaHash;
  (** number of bytes in each piece the file is split into *)
  piece_length : Z;
  content : InfoContent;
  name : string;
}.

(** [info_hash] is a [sha1::Sha1] hasher. *)
Record MetaInfo (Hasher : Type) := mkMetaInfo {
  announce : option string;
  announce_list : list string;
  encoding : option string;
  comment : option string;
  created_by : option string;
  creation_date : option Z;
  httpseeds : list string;
  webseeds : list string;
  info : TorrentInfo;
  nodes : list DhtNode;
  meta_info_hash : Hasher;
}.
Arguments mkMetaInfo {Hasher}.
Arguments announce {Hasher}.
Arguments announce_list {Hasher}.
Arguments encoding {Hasher}.
Arguments comment {Hasher}.
Arguments created_by {Hasher}.
Arguments creation_date {Hasher}.
Arguments httpseeds {Hasher}.
Arguments webseeds {Hasher}.
Arguments info {Hasher}.
Arguments nodes {Hasher}.
Arguments meta_info_hash {Hasher}.

(** ** Operations *)

Definition is_tracker_less {Hasher} (m : MetaInfo Hasher) : bool :=
  negb (bool_decide (nodes m = [])).

(** [impl From<Sha1> for ShaHash], of the hasher of the torrent *)
Definition MetaInfo_sha_hash `{Sha1 Hasher} (m : MetaInfo Hasher) : ShaHash :=
  {| hash := sha1_digest (meta_info_hash m) |}.

Definition InfoContent_is_file (c : InfoContent) : bool :=
  match c with Single _ => true | _ => false end.

Definition InfoContent_is_dir (c : InfoContent) : bool := negb (InfoContent_is_file c).

(** [files.iter().map(|f| f.length).sum()] *)
Fixpoint sum_lengths `{Profile} (acc : Z) (files : list SubFileInfo) : outcome Z :=
  match files with
  | [] => Ret acc
  | f :: files' => acc ← checked 64 (acc + sub_length f); sum_lengths acc files'
  end.

(** determines the overall length of the content *)
Definition InfoContent_length `{Profile} (c : InfoContent) : outcome Z :=
  match c with
  | Single length => Ret length
  | Multi files => sum_lengths 0 files
  end.

Definition TorrentInfo_is_file (i : TorrentInfo) : bool := InfoContent_is_file (content i).
Definition TorrentInfo_is_dir (i : TorrentInfo) : bool := InfoContent_is_dir (content i).

Definition last_piece_length `{Profile} (i : TorrentInfo) : outcome Z :=
  len ← InfoContent_length (content i);
  n ← checked 64 (Z.of_nat (length (pieces i)) - 1);
  m ← checked 64 (n * piece_length i);
  checked 64 (len - m).

(** A remainder by zero panics. *)
Definition last_piece_size `{Profile} (i : TorrentInfo) : outcome Z :=
  len ← InfoContent_length (content i);
  if piece_length i =? 0 then Panic else Ret (len mod piece_length i).

Definition file_name (f : SubFileInfo) : option string := last (paths f).

Definition relative_file_path (f : SubFileInfo) : PathBuf :=
  foldl (fun buf path => path_join buf path) "" (paths f).

(** all files contained in this torrent *)
Definition all_files (i : TorrentInfo) : list PathBuf :=
  match content i with
  | Multi files => relative_file_path <$> files
  | _ => [name i]
  end.

(** ** Specification *)

Definition content_total (c : InfoContent) : Z :=
  match c with
  | Single len => len
  | Multi files => foldr (fun f acc => sub_length f + acc) 0 files
  end.

(** The field types, and the sizes that a torrent of [content_total] bytes cut
    into pieces has. *)
Definition TorrentInfo_wf (i : TorrentInfo) : Prop :=
  0 < piece_length i /\ 0 < content_total (content i) /\
  is_u64 (content_total (content i)) /\
  match content i with Multi files => Forall (fun f => 0 <= sub_length f) files | _ => True end /\
  Z.of_nat (length (pieces i)) =
    (content_total (content i) + piece_length i - 1) / piece_length i.

(** ** Lemmas *)

Lemma sum_nonneg files :
  Forall (fun f => 0 <= sub_length f) files -> 0 <= foldr (fun f acc => sub_length f + acc) 0 files.
Proof. induction 1; simpl in *; lia. Qed.

Lemma sum_lengths_total `{Profile} files acc :
  0 <= acc -> Forall (fun f => 0 <= sub_length f) files ->
  is_u64 (acc + foldr (fun f acc => sub_length f + acc) 0 files) ->
  sum_lengths acc files = Ret (acc + foldr (fun f acc => sub_length f + acc) 0 files).
Proof.
  intros Ha Hall. revert acc Ha. induction Hall as [|f files Hf Hall IH]; intros acc Ha Hu; simpl.
  - by rewrite Z.add_0_r.
  - simpl in Hu. pose proof (sum_nonneg files Hall). unfold in_range in *.
    rewrite checked_in_range, bind_ret by (unfold in_range; lia).
    rewrite IH by lia. f_equal. lia.
Qed.

Lemma InfoContent_length_total `{Profile} i :
  TorrentInfo_wf i -> InfoContent_length (content i) = Ret (content_total (content i)).
Proof.
  intros (_ & _ & Hu & Hall & _). destruct (content i) as [len|files]; simpl in *; [done|].
  by rewrite sum_lengths_total.
Qed.

(** The number of pieces: all but the last are whole. *)
Lemma pieces_bounds i :
  TorrentInfo_wf i ->
  let n := Z.of_nat (length (pieces i)) in
  0 < n /\ (n - 1) * piece_length i < content_total (content i) <= n * piece_length i.
Proof.
  intros (Hp & Hl & _ & _ & Hn). cbv zeta. rewrite Hn.
  pose proof (Z.div_mod (content_total (content i) + piece_length i - 1) (piece_length i)
    ltac:(lia)) as Hd.
  pose proof (Z.mod_pos_bound (content_total (content i) + piece_length i - 1)
    (piece_length i) ltac:(lia)). nia.
Qed.

(** ** Properties *)

(** For a torrent whose sizes agree, [last_piece_length] does not
    overflow: it is what the whole pieces leave of the content, at least one
    byte and at most a piece. *)
Theorem last_piece_length_spec `{Profile} i :
  TorrentInfo_wf i ->
  exists v, last_piece_length i = Ret v /\ 0 < v <= piece_length i /\
    (Z.of_nat (length (pieces i)) - 1) * piece_length i + v = content_total (content i).
Proof.
  intros Hwf. pose proof (pieces_bounds i Hwf) as [Hn Hb].
  pose proof Hwf as (Hp & Hl & [_ Hu] & _ & _).
  unfold last_piece_length. rewrite InfoContent_length_total, bind_ret by done.
  assert (Z.of_nat (length (pieces i)) - 1 <=
          (Z.of_nat (length (pieces i)) - 1) * piece_length i) as Hle by nia.
  rewrite checked_in_range, bind_ret by (unfold in_range; lia).
  rewrite checked_in_range, bind_ret by (unfold in_range; lia).
  rewrite checked_in_range by (unfold in_range; lia).
  eexists. split; [done|]. lia.
Qed.

(** ** Witnesses *)

Definition ex_hash (z : Z) : ShaHash := {| hash := replicate 20 (byte_of_Z z) |}.

(** Two files of 40000 bytes in pieces of 32768 bytes. *)
Definition ex_info : TorrentInfo :=
  {| pieces := [ex_hash 1; ex_hash 2; ex_hash 3];
     piece_length := 32768;
     content := Multi [{| sub_length := 40000; paths := ["a"; "b"] |};
                       {| sub_length := 40000; paths := ["c"] |}];
     name := "dir" |}.

Lemma ex_info_wf : TorrentInfo_wf ex_info.
Proof.
  split_and!; try done. cbn [content ex_info]. repeat constructor; simpl; lia.
Qed.

Lemma last_piece_length_spec_witness :
  exists v, last_piece_length (H := debug_build) ex_info = Ret v /\ 0 < v <= 32768 /\
    (3 - 1) * 32768 + v = 80000.
Proof. apply (last_piece_length_spec (H := debug_build) ex_info ex_info_wf). Defined.
