(* ===== verification/Block.v ===== *)
(** * Blocks of a piece

    [BlockMetadata], [Block] and [BlockMut] of src/src/disk/block.rs. *)

From S2P Require Import Prelude Crates Util Message.
Local Open Scope Z_scope.

(** ** Data *)

(** Metadata associated with a block of memory: two [u64] and a [usize]. *)
Record BlockMetadata := mkBlockMetadata {
  bm_piece_index : Z;
  bm_block_offset : Z;
  bm_block_length : Z;
}.

#[export] Instance BlockMetadata_eq_dec : EqDecision BlockMetadata.
Proof. solve_decision. Defined.

(** Block of immutable memory. *)
Record Block := mkBlock {
  block_metadata : BlockMetadata;
  block_data : list byte;
}.

#[export] Instance Block_eq_dec : EqDecision Block.
Proof. solve_decision. Defined.

(** Block of mutable memory. *)
Record BlockMut := mkBlockMut {
  bmut_metadata : BlockMetadata;
  bmut_data : list byte;
}.

#[export] Instance BlockMut_eq_dec : EqDecision BlockMut.
Proof. solve_decision. Defined.

(** ** Operations *)

Definition BlockMetadata_new (piece_index block_offset block_length : Z) : BlockMetadata :=
  {| bm_piece_index := piece_index;
     bm_block_offset := block_offset;
     bm_block_length := block_length |}.

Definition BlockMetadata_default : BlockMetadata := BlockMetadata_new 0 0 0.

(** [impl From<PeerRequest> for BlockMetadata]: widening casts. *)
Definition BlockMetadata_from_request (request : PeerRequest) : BlockMetadata :=
  {| bm_piece_index := req_index request;
     bm_block_offset := req_begin request;
     bm_block_length := req_length request |}.

(** [impl Into<PeerRequest> for BlockMetadata]: truncating casts. *)
Definition BlockMetadata_into_request (m : BlockMetadata) : PeerRequest :=
  {| req_index := wrap 32 (bm_piece_index m);
     req_begin := wrap 32 (bm_block_offset m);
     req_length := wrap 32 (bm_block_length m) |}.

Definition Block_new (metadata : BlockMetadata) (data : list byte) : Block :=
  {| block_metadata := metadata; block_data := data |}.

Definition Block_into_bytes (b : Block) : list byte := block_data b.

Definition Block_into_parts (b : Block) : BlockMetadata * list byte :=
  (block_metadata b, block_data b).

Definition Block_is_correct_len (b : Block) : bool :=
  Z.of_nat (length (block_data b)) =? bm_block_length (block_metadata b).

Definition Block_is_valid_len (b : Block) : bool :=
  bm_block_length (block_metadata b) =? Z.of_nat (length (block_data b)).

(** [impl From<BlockMut> for Block] *)
Definition Block_from_mut (b : BlockMut) : Block := Block_new (bmut_metadata b) (bmut_data b).

(** [impl From<Piece> for Block] *)
Definition Block_from_piece (piece : Piece) : Block :=
  {| block_metadata :=
       BlockMetadata_new (piece_idx piece) (piece_begin piece)
         (Z.of_nat (length (piece_block piece)));
     block_data := piece_block piece |}.

(** [impl Into<Piece> for Block] *)
Definition Block_into_piece (b : Block) : Piece :=
  {| piece_idx := wrap 32 (bm_piece_index (block_metadata b));
     piece_begin := wrap 32 (bm_block_offset (block_metadata b));
     piece_block := block_data b |}.

Definition BlockMut_new (metadata : BlockMetadata) (data : list byte) : BlockMut :=
  {| bmut_metadata := metadata; bmut_data := data |}.

(** A buffer with the capacity, and no byte yet. *)
Definition BlockMut_empty_for_metadata (metadata : BlockMetadata) : BlockMut :=
  {| bmut_data := []; bmut_metadata := metadata |}.

Definition BlockMut_is_valid_len (b : BlockMut) : bool :=
  bm_block_length (bmut_metadata b) =? Z.of_nat (length (bmut_data b)).

Definition BlockMut_split_into (b : BlockMut) : BlockMetadata * list byte :=
  (bmut_metadata b, bmut_data b).

Definition BlockMut_into_piece (b : BlockMut) : Piece := Block_into_piece (Block_from_mut b).

(** ** Lemmas *)

Lemma Block_from_piece_correct_len p : Block_is_correct_len (Block_from_piece p) = true.
Proof. apply Z.eqb_refl. Qed.

Lemma Block_from_into_piece p :
  is_u32 (piece_idx p) -> is_u32 (piece_begin p) ->
  Block_into_piece (Block_from_piece p) = p.
Proof.
  intros Hi Hb. unfold Block_into_piece, Block_from_piece. simpl.
  rewrite !wrap_small by done. by destruct p.
Qed.

Lemma BlockMetadata_into_from_request r :
  PeerRequest_wf r -> BlockMetadata_into_request (BlockMetadata_from_request r) = r.
Proof.
  intros (Hi & Hb & Hl). unfold BlockMetadata_into_request. simpl.
  rewrite !wrap_small by done. by destruct r.
Qed.

Lemma Block_correct_len_length b :
  Block_is_correct_len b = true ->
  Z.of_nat (length (block_data b)) = bm_block_length (block_metadata b).
Proof. apply Z.eqb_eq. Qed.
