(* ===== verification/Peer.v ===== *)
(** * The state of a remote peer

    [BitTorrentPeer] of src/src/peer/mod.rs. *)

From S2P Require Import Prelude Crates Util.

(** ** Data *)

Inductive ChokeType := Choked | UnChoked.
Inductive InterestType := NotInterested | Interested.

#[export] Instance ChokeType_eq_dec : EqDecision ChokeType.
Proof. solve_decision. Defined.
#[export] Instance InterestType_eq_dec : EqDecision InterestType.
Proof. solve_decision. Defined.

Definition ChokeType_default : ChokeType := Choked.
Definition InterestType_default : InterestType := NotInterested.

Record PeerStats := mkPeerStats {
  received_good_blocks : Z;
  received_bad_blocks : Z;
  send_blocks : Z;
}.

#[export] Instance PeerStats_eq_dec : EqDecision PeerStats.
Proof. solve_decision. Defined.

Definition PeerStats_default : PeerStats :=
  {| received_good_blocks := 0; received_bad_blocks := 0; send_blocks := 0 |}.

Record BitTorrentPeer (BV Instant : Type) := mkBitTorrentPeer {
  bittorrent_id : ShaHash;
  bitfield : option (BitField BV);
  stats : PeerStats;
  (** how the remote treats requests made by the client *)
  remote_choke : ChokeType;
  remote_interest : InterestType;
  (** how the client treats requests from the remote *)
  client_choke : ChokeType;
  client_interest : InterestType;
  remote_heartbeat : Instant;
  client_heartbeat : Instant;
}.
Arguments mkBitTorrentPeer {BV Instant}.
Arguments bittorrent_id {BV Instant}.
Arguments bitfield {BV Instant}.
Arguments stats {BV Instant}.
Arguments remote_choke {BV Instant}.
Arguments remote_interest {BV Instant}.
Arguments client_choke {BV Instant}.
Arguments client_interest {BV Instant}.
Arguments remote_heartbeat {BV Instant}.
Arguments client_heartbeat {BV Instant}.

#[export] Instance BitTorrentPeer_eq_dec {BV Instant} `{EqDecision BV, EqDecision Instant} :
  EqDecision (BitTorrentPeer BV Instant).
Proof. solve_decision. Defined.

(** ** Assignments to one field *)

Section Fields.
Context {BV Instant : Type}.
Implicit Types p : BitTorrentPeer BV Instant.

Definition with_bitfield f p : BitTorrentPeer BV Instant :=
  mkBitTorrentPeer (bittorrent_id p) f (stats p) (remote_choke p) (remote_interest p)
    (client_choke p) (client_interest p) (remote_heartbeat p) (client_heartbeat p).
Definition with_remote_choke c p : BitTorrentPeer BV Instant :=
  mkBitTorrentPeer (bittorrent_id p) (bitfield p) (stats p) c (remote_interest p)
    (client_choke p) (client_interest p) (remote_heartbeat p) (client_heartbeat p).
Definition with_remote_interest i p : BitTorrentPeer BV Instant :=
  mkBitTorrentPeer (bittorrent_id p) (bitfield p) (stats p) (remote_choke p) i
    (client_choke p) (client_interest p) (remote_heartbeat p) (client_heartbeat p).
Definition with_client_choke c p : BitTorrentPeer BV Instant :=
  mkBitTorrentPeer (bittorrent_id p) (bitfield p) (stats p) (remote_choke p)
    (remote_interest p) c (client_interest p) (remote_heartbeat p) (client_heartbeat p).
Definition with_client_interest i p : BitTorrentPeer BV Instant :=
  mkBitTorrentPeer (bittorrent_id p) (bitfield p) (stats p) (remote_choke p)
    (remote_interest p) (client_choke p) i (remote_heartbeat p) (client_heartbeat p).
Definition with_remote_heartbeat t p : BitTorrentPeer BV Instant :=
  mkBitTorrentPeer (bittorrent_id p) (bitfield p) (stats p) (remote_choke p)
    (remote_interest p) (client_choke p) (client_interest p) t (client_heartbeat p).
Definition with_client_heartbeat t p : BitTorrentPeer BV Instant :=
  mkBitTorrentPeer (bittorrent_id p) (bitfield p) (stats p) (remote_choke p)
    (remote_interest p) (client_choke p) (client_interest p) (remote_heartbeat p) t.
End Fields.

(** ** Operations *)

Section Peer.
Context `{BitVec BV} `{Clock Instant}.
Implicit Types p : BitTorrentPeer BV Instant.

(** [BitTorrentPeer::new]; [Instant::now()] is read once per heartbeat. *)
Definition BitTorrentPeer_new (peer_btt_id : ShaHash) (now1 now2 : Instant) :
    BitTorrentPeer BV Instant :=
  {| bitfield := None;
     bittorrent_id := peer_btt_id;
     stats := PeerStats_default;
     remote_choke := ChokeType_default;
     remote_interest := InterestType_default;
     client_choke := ChokeType_default;
     client_interest := InterestType_default;
     remote_heartbeat := now1;
     client_heartbeat := now2 |}.

Definition BitTorrentPeer_new_with_bitfield (peer_btt_id : ShaHash) (piece_field : BitField BV)
    (now1 now2 : Instant) : BitTorrentPeer BV Instant :=
  {| bitfield := Some piece_field;
     bittorrent_id := peer_btt_id;
     stats := PeerStats_default;
     remote_choke := ChokeType_default;
     remote_interest := InterestType_default;
     client_choke := ChokeType_default;
     client_interest := InterestType_default;
     remote_heartbeat := now1;
     client_heartbeat := now2 |}.

Definition is_remote_timeout p (timestamp : Instant) : bool :=
  if (120 <? duration_since_secs timestamp (remote_heartbeat p))%Z then true else false.

Definition is_client_timeout p (timestamp : Instant) : bool :=
  if (120 <? duration_since_secs timestamp (client_heartbeat p))%Z then true else false.

(** The loop of [is_having_missing_pieces_for], from index [i] on. *)
Fixpoint missing_pieces_loop (other : BitField BV) (i : nat) (bits : list bool) : outcome bool :=
  match bits with
  | [] => Ret false
  | bit :: bits' =>
      if bit then
        o ← unwrap (bf_get other i);
        if negb o then Ret true else missing_pieces_loop other (S i) bits'
      else missing_pieces_loop other (S i) bits'
  end.

(** Whether this peer has pieces that the other bitfield is lacking. *)
Definition is_having_missing_pieces_for p (other : BitField BV) : outcome bool :=
  match bitfield p with
  | Some bitfield =>
      if negb (bf_len bitfield =? bf_len other) then Ret false
      else missing_pieces_loop other 0 (bf_iter bitfield)
  | None => Ret false
  end.

(** Whether the peer already sent its bitfield *)
Definition has_bitfield p : bool := match bitfield p with Some _ => true | None => false end.

(** Whether the piece is owned by the peer *)
Definition has_piece p (piece_index : nat) : option bool :=
  match bitfield p with
  | Some field => bf_get field piece_index
  | None => None
  end.

Definition is_remote_interested p : bool := bool_decide (remote_interest p = Interested).
Definition is_remote_not_interested p : bool := bool_decide (remote_interest p = Interested).
Definition is_client_choked_on_remote p : bool := bool_decide (remote_choke p = Choked).
Definition is_client_unchoked_on_remote p : bool := bool_decide (remote_choke p = UnChoked).
Definition is_client_interested p : bool := bool_decide (client_interest p = Interested).
Definition is_client_not_interested p : bool := bool_decide (client_interest p = Interested).
Definition is_remote_choked_on_client p : bool := bool_decide (client_choke p = Choked).
Definition is_remote_unchoked_on_client p : bool := bool_decide (client_choke p = UnChoked).

(** Whether or not requests sent by the client are answered by the remote *)
Definition remote_can_seed p : bool :=
  is_client_unchoked_on_remote p && is_client_interested p && has_bitfield p.

(** Whether or not requests by the remote are answered by the client *)
Definition remote_can_leech p : bool :=
  is_remote_unchoked_on_client p && is_remote_interested p.

Definition remote_can_seed_piece p (piece_index : nat) : bool :=
  remote_can_seed p && default false (has_piece p piece_index).

(** Set the piece at the index to owned. *)
Definition add_piece p (piece_index : nat) : BitTorrentPeer BV Instant * option bool :=
  match bitfield p with
  | Some have =>
      if piece_index <? bf_len have
      then (with_bitfield (Some (bf_set have piece_index true)) p, Some true)
      else (p, Some false)
  | None => (p, None)
  end.

(** Sets the peer's bitfield and returns the one that was set. *)
Definition set_bitfield p (f : BitField BV) : BitTorrentPeer BV Instant * option (BitField BV) :=
  (with_bitfield (Some f) p, bitfield p).

(** Set the piece at the index to missing. *)
Definition remove_piece p (piece_index : nat) :
    BitTorrentPeer BV Instant * option (result unit unit) :=
  match bitfield p with
  | Some have =>
      if piece_index <? bf_len have
      then (with_bitfield (Some (bf_set have piece_index false)) p, Some (Ok tt))
      else (p, Some (Err tt))
  | None => (p, None)
  end.
End Peer.

(** ** Lemmas *)

Section PeerLemmas.
Context `{BitVecLaws BV} `{Clock Instant}.
Implicit Types p : BitTorrentPeer BV Instant.

Lemma missing_pieces_loop_spec (other : BitField BV) i bits :
  i + length bits <= bf_len other ->
  exists b, missing_pieces_loop other i bits = Ret b /\
  (b = true <-> exists k, bits !! k = Some true /\ bf_get other (i + k) = Some false).
Proof.
  revert i. induction bits as [|bit bits IH]; intros i Hl; simpl in *.
  - exists false. split; [done|]. split; [done|]. intros (k & Hk & _).
    by rewrite lookup_nil in Hk.
  - destruct (IH (S i) ltac:(lia)) as (b & Hb & Hspec).
    assert (Hstep : forall x, bf_get other i = Some x -> ~ (bit = true /\ x = false) ->
      (b = true <-> exists k, (bit :: bits) !! k = Some true /\
                              bf_get other (i + k) = Some false)).
    { intros x Hx Hn. rewrite Hspec. split.
      - intros (k & Hk & Ho). exists (S k). by rewrite Nat.add_succ_r.
      - intros ([|k] & Hk & Ho).
        + rewrite Nat.add_0_r, Hx in Ho. destruct Hn. simplify_eq/=. done.
        + exists k. by rewrite Nat.add_succ_r in Ho. }
    destruct (lookup_lt_is_Some_2 (bf_iter other) i) as [o Ho].
    { rewrite <- bf_len_iter. lia. }
    rewrite <- bf_get_iter in Ho. destruct bit; simpl.
    + rewrite Ho. simpl. destruct o; simpl.
      * exists b. split; [done|]. apply (Hstep true); [done|]. by intros [_ ?].
      * exists true. split; [done|]. split; [|done]. intros _. exists 0.
        by rewrite Nat.add_0_r.
    + exists b. split; [done|]. apply (Hstep o); [done|]. by intros [? _].
Qed.

Lemma remote_can_seed_true p :
  remote_can_seed p = true <->
  remote_choke p = UnChoked /\ client_interest p = Interested /\ is_Some (bitfield p).
Proof.
  unfold remote_can_seed, is_client_unchoked_on_remote, is_client_interested, has_bitfield.
  rewrite !andb_true_iff, !bool_decide_eq_true. destruct (bitfield p).
  - split; [intros [[??] _] | intros (? & ? & _)]; split_and!; done.
  - split; [intros [_ [=]] | intros (_ & _ & [? [=]])].
Qed.

Lemma remote_can_seed_piece_true p i :
  remote_can_seed_piece p i = true <-> remote_can_seed p = true /\ has_piece p i = Some true.
Proof.
  unfold remote_can_seed_piece. rewrite andb_true_iff.
  destruct (has_piece p i) as [[|]|]; simpl; split; intros [? ?]; done.
Qed.

Lemma remote_can_leech_true p :
  remote_can_leech p = true <-> client_choke p = UnChoked /\ remote_interest p = Interested.
Proof.
  unfold remote_can_leech, is_remote_unchoked_on_client, is_remote_interested.
  by rewrite andb_true_iff, !bool_decide_eq_true.
Qed.

Lemma add_piece_has_piece p i p' r :
  add_piece p i = (p', r) ->
  forall j, has_piece p' j =
    if decide (r = Some true /\ i = j) then Some true else has_piece p j.
Proof.
  unfold add_piece, has_piece. destruct (bitfield p) as [f|] eqn:Ef.
  - destruct (Nat.ltb_spec i (bf_len f)); intros [= <- <-] j; [cbn [bitfield with_bitfield]|].
    + rewrite bf_get_set by done. destruct (decide (i = j)) as [->|Hij].
      * by rewrite decide_True.
      * by rewrite decide_False by tauto.
    + by rewrite Ef, decide_False by (intros [? _]; done).
  - intros [= <- <-] j. by rewrite Ef, decide_False by (intros [? _]; done).
Qed.
End PeerLemmas.

(** ** Properties *)

Section PeerProperties.
Context `{BitVecLaws BV} `{Clock Instant}.
Implicit Types p : BitTorrentPeer BV Instant.

(** [is_having_missing_pieces_for] never panics, and it holds exactly when
    the peer has a bit field of the length of the other one and owns a piece
    the other one lacks. *)
Theorem is_having_missing_pieces_for_iff p (other : BitField BV) :
  exists b, is_having_missing_pieces_for p other = Ret b /\
  (b = true <-> exists f i, bitfield p = Some f /\ bf_len f = bf_len other /\
     bf_get f i = Some true /\ bf_get other i = Some false).
Proof.
  unfold is_having_missing_pieces_for. destruct (bitfield p) as [f|].
  2: { exists false. split; [done|]. split; [done|]. by intros (? & ? & [=] & _). }
  destruct (Nat.eqb_spec (bf_len f) (bf_len other)) as [Hl|Hl]; simpl.
  2: { exists false. split; [done|]. split; [done|].
       by intros (f' & i & [= <-] & Hl' & _). }
  destruct (missing_pieces_loop_spec other 0 (bf_iter f)) as (b & Hb & Hspec).
  { by rewrite <- Hl, bf_len_iter. }
  exists b. split; [done|]. rewrite Hspec. setoid_rewrite <- bf_get_iter. simpl. split.
  - intros (k & Hf & Ho). by exists f, k.
  - intros (f' & k & [= <-] & _ & Hf & Ho). by exists k.
Qed.
End PeerProperties.

(** ** Witnesses *)

(** A clock that counts seconds. *)
Definition seconds : Clock Z := fun t u => (t - u)%Z.

Definition ex_peer : BitTorrentPeer (list bool) Z :=
  BitTorrentPeer_new_with_bitfield {| hash := [] |} {| inner := [true; false; true] |} 0%Z 0%Z.

Lemma is_having_missing_pieces_for_iff_witness :
  exists b, is_having_missing_pieces_for (H := list_bitvec) ex_peer {| inner := [true; true; false] |}
      = Ret b /\
  (b = true <-> exists f i, bitfield ex_peer = Some f /\ bf_len (H := list_bitvec) f = 3 /\
     bf_get (H := list_bitvec) f i = Some true /\
     bf_get (H := list_bitvec) {| inner := [true; true; false] |} i = Some false).
Proof.
  apply (is_having_missing_pieces_for_iff (H := list_bitvec) (H0 := list_bitvec_laws)
    ex_peer {| inner := [true; true; false] |}).
Defined.
