(* ===== verification/DiskError.v ===== *)
(** * Errors of the torrent and disk components

    [TorrentError] of src/src/disk/error.rs, and the identifiers of torrents
    and blocks the components exchange. *)

From S2P Require Import Prelude Crates Util MetaInfo Block.

(** [pub struct TorrentId(pub usize)] of src/src/peer/torrent.rs *)
Abbreviation TorrentId := Z (only parsing).

(** [BitTorrentRequestId] of src/src/handler.rs: a [UniqueConnecId(u64)] *)
Abbreviation BitTorrentRequestId := Z (only parsing).

Inductive TorrentError (Hasher : Type) :=
| TE_Io (err : io_error)
| TE_ExistingFileSizeCheck (file_path : PathBuf) (expected_size actual_size : Z)
| TE_ExistingTorrent (meta : MetaInfo Hasher)
| TE_BadBlock (meta : BlockMetadata)
| TE_BadPiece (index : Z)
| TE_TorrentNotFound (id : TorrentId)
| TE_MismatchedHashes (got expected : ShaHash).
Arguments TE_Io {Hasher}.
Arguments TE_ExistingFileSizeCheck {Hasher}.
Arguments TE_ExistingTorrent {Hasher}.
Arguments TE_BadBlock {Hasher}.
Arguments TE_BadPiece {Hasher}.
Arguments TE_TorrentNotFound {Hasher}.
Arguments TE_MismatchedHashes {Hasher}.

(** [BlockErr] of src/src/behavior.rs *)
Inductive BlockErr (PeerId : Type) :=
| BE_NotRequested (peer : PeerId) (block : Block)
| BE_InvalidBlock (peer : PeerId) (expected : BlockMetadata) (block : Block).
Arguments BE_NotRequested {PeerId}.
Arguments BE_InvalidBlock {PeerId}.
