(* ===== verification/PieceBuffer.v ===== *)
(** * The buffer that drives one piece to completion

    [PieceBuffer] of src/src/peer/piece.rs. *)

From S2P Require Import Prelude Crates Util MetaInfo Block DiskError.
Local Open Scope Z_scope.

(** ** Data *)

Record NextBlock (PeerId : Type) := mkNextBlock {
  nb_torrent_id : TorrentId;
  nb_block_metadata : BlockMetadata;
  nb_peer_id : PeerId;
}.
Arguments mkNextBlock {PeerId}.
Arguments nb_torrent_id {PeerId}.
Arguments nb_block_metadata {PeerId}.
Arguments nb_peer_id {PeerId}.

Record PieceBuffer (PeerId : Type) `{Countable PeerId} := mkPieceBuffer {
  pb_torrent_id : TorrentId;
  (** All the blocks that still need to be downloaded. *)
  missing_blocks : list BlockMetadata;
  (** Blocks currently waited for. *)
  pending_blocks : gmap PeerId BlockMetadata;
  (** The piece currently tracked. *)
  pb_piece_index : Z;
  (** All the single blocks sorted by offset *)
  pb_blocks : list (Z * Block);
  (** The idle peers that have the piece *)
  pb_peers : list PeerId;
  (** The length of the piece all blocks belong to *)
  pb_piece_length : Z;
  (** The amount of blocks in the piece *)
  total_blocks : Z;
  (** The size of the last block in the piece that might be truncated. *)
  last_block_size : Z;
}.
Arguments mkPieceBuffer {PeerId _ _}.
Arguments pb_torrent_id {PeerId _ _}.
Arguments missing_blocks {PeerId _ _}.
Arguments pending_blocks {PeerId _ _}.
Arguments pb_piece_index {PeerId _ _}.
Arguments pb_blocks {PeerId _ _}.
Arguments pb_peers {PeerId _ _}.
Arguments pb_piece_length {PeerId _ _}.
Arguments total_blocks {PeerId _ _}.
Arguments last_block_size {PeerId _ _}.

(** 2^14 16kb per block *)
Definition BLOCK_SIZE : Z := 16384.

Section PieceBuffer.
Context `{Countable PeerId}.
Implicit Types b : PieceBuffer PeerId.

(** Assignments to the fields that change *)
Definition with_missing_pending missing pending b : PieceBuffer PeerId :=
  mkPieceBuffer (pb_torrent_id b) missing pending (pb_piece_index b) (pb_blocks b)
    (pb_peers b) (pb_piece_length b) (total_blocks b) (last_block_size b).
Definition with_blocks blocks b : PieceBuffer PeerId :=
  mkPieceBuffer (pb_torrent_id b) (missing_blocks b) (pending_blocks b) (pb_piece_index b)
    blocks (pb_peers b) (pb_piece_length b) (total_blocks b) (last_block_size b).
Definition with_peers peers b : PieceBuffer PeerId :=
  mkPieceBuffer (pb_torrent_id b) (missing_blocks b) (pending_blocks b) (pb_piece_index b)
    (pb_blocks b) peers (pb_piece_length b) (total_blocks b) (last_block_size b).

(** ** Operations *)

(** [buffer.peers.push(id)] *)
Definition PieceBuffer_push_peer b (id : PeerId) : PieceBuffer PeerId :=
  with_peers (pb_peers b ++ [id]) b.

(** The loop of [PieceBuffer::new] that pushes the full blocks.  Its products
    are at most [piece_length] and do not overflow. *)
Definition full_blocks (piece_index num_full_blocks : Z) : list BlockMetadata :=
  foldl (fun blocks index =>
      blocks ++ [BlockMetadata_new piece_index (index * BLOCK_SIZE) BLOCK_SIZE])
    [] (seqZ 0 num_full_blocks).

(** [PieceBuffer::new] *)
Definition PieceBuffer_new (piece_index piece_length : Z) (torrent_id : TorrentId)
    (peers : list PeerId) : PieceBuffer PeerId :=
  let num_full_blocks := piece_length / BLOCK_SIZE in
  let last_block_size := piece_length mod BLOCK_SIZE in
  let missing_blocks := full_blocks piece_index num_full_blocks in
  let missing_blocks :=
    if 0 <? last_block_size
    then missing_blocks ++
           [BlockMetadata_new piece_index (piece_length - last_block_size) last_block_size]
    else missing_blocks in
  {| pb_torrent_id := torrent_id;
     pending_blocks := ∅;
     total_blocks := Z.of_nat (length missing_blocks);
     missing_blocks := missing_blocks;
     pb_piece_index := piece_index;
     pb_blocks := [];
     pb_piece_length := piece_length;
     pb_peers := peers;
     last_block_size := last_block_size |}.

(** [PieceBuffer::next] *)
Definition PieceBuffer_next b : PieceBuffer PeerId * option (NextBlock PeerId) :=
  match vec_pop (pb_peers b) with
  | Some (peer, peers) =>
      let b := with_peers peers b in
      match vec_pop (missing_blocks b) with
      | Some (block, missing) =>
          let b := with_missing_pending missing (<[peer := block]> (pending_blocks b)) b in
          (b, Some {| nb_torrent_id := pb_torrent_id b;
                      nb_peer_id := peer;
                      nb_block_metadata := block |})
      | None => (with_peers (pb_peers b ++ [peer]) b, None)
      end
  | None => (b, None)
  end.

(** [PieceBuffer::remove_peer] *)
Definition PieceBuffer_remove_peer b (peer : PeerId) : PieceBuffer PeerId * option PeerId :=
  let pos := position (fun x => bool_decide (x = peer)) (pb_peers b) in
  match pos with
  | Some pos => (with_peers (delete pos (pb_peers b)) b, pb_peers b !! pos)
  | None =>
      match pending_blocks b !! peer with
      | Some block =>
          (with_missing_pending (missing_blocks b ++ [block])
             (delete peer (pending_blocks b)) b, Some peer)
      | None => (b, None)
      end
  end.

(** [PieceBuffer::is_full_piece] *)
Definition is_full_piece b : bool :=
  Z.of_nat (length (pb_blocks b)) =? total_blocks b.

(** [PieceBuffer::add_block] *)
Definition PieceBuffer_add_block b (peer : PeerId) (block : Block) :
    PieceBuffer PeerId * result BlockMetadata (BlockErr PeerId) :=
  match pending_blocks b !! peer with
  | Some expected =>
      let b := with_missing_pending (missing_blocks b) (delete peer (pending_blocks b)) b in
      if bool_decide (block_metadata block = expected) then
        let b := with_blocks
          (btree_insert (bm_block_offset (block_metadata block)) block (pb_blocks b)) b in
        (PieceBuffer_push_peer b peer, Ok expected)
      else
        let b := with_missing_pending (missing_blocks b ++ [expected]) (pending_blocks b) b in
        (PieceBuffer_push_peer b peer, Err (BE_InvalidBlock peer expected block))
  | None => (b, Err (BE_NotRequested peer block))
  end.

(** The loop of [try_finalize_piece] over [blocks.values()]. *)
Fixpoint finalize_loop (buffer : list byte) (values : list Block) : option (list byte) :=
  match values with
  | [] => Some buffer
  | block :: values' =>
      if Block_is_correct_len block
      then finalize_loop (buffer ++ block_data block) values'
      else None
  end.

(** [PieceBuffer::try_finalize_piece] *)
Definition try_finalize_piece {Hasher} b : result Block (TorrentError Hasher) :=
  match finalize_loop [] (pb_blocks b).*2 with
  | Some buffer =>
      Ok (Block_new (BlockMetadata_new (pb_piece_index b) 0 (pb_piece_length b)) buffer)
  | None => Err (TE_BadPiece (pb_piece_index b))
  end.
End PieceBuffer.

(** ** Specification *)

(** The blocks of a piece: the [k]-th one starts at [k * BLOCK_SIZE] and is
    cut off at the end of the piece. *)
Definition piece_block_at (piece_index piece_length k : Z) : BlockMetadata :=
  BlockMetadata_new piece_index (k * BLOCK_SIZE)
    (Z.min BLOCK_SIZE (piece_length - k * BLOCK_SIZE)).

Definition piece_blocks (piece_index piece_length : Z) : list BlockMetadata :=
  piece_block_at piece_index piece_length <$>
    seqZ 0 ((piece_length + BLOCK_SIZE - 1) / BLOCK_SIZE).

(** The bytes of the piece [D] that a block stands for. *)
Definition block_slice (D : list byte) (m : BlockMetadata) : list byte :=
  take (Z.to_nat (bm_block_length m)) (drop (Z.to_nat (bm_block_offset m)) D).

(** The block with the data it has in the piece [D]. *)
Definition block_of (D : list byte) (m : BlockMetadata) : Block :=
  {| block_metadata := m; block_data := block_slice D m |}.

Section Spec.
Context `{Countable PeerId}.
Implicit Types b : PieceBuffer PeerId.

(** The blocks that arrived. *)
Definition received b : list BlockMetadata := block_metadata <$> (pb_blocks b).*2.

(** The blocks that are waited for, in some order. *)
Definition pending_list b : list BlockMetadata := (map_to_list (pending_blocks b)).*2.

Definition peer_known b (p : PeerId) : Prop :=
  p ∈ pb_peers b \/ is_Some (pending_blocks b !! p).

(** Every block of the piece is missing, waited for or received, just once;
    a peer is idle or busy with one block, and is tracked once. *)
Record PieceBuffer_inv b : Prop := {
  inv_conserved :
    missing_blocks b ++ pending_list b ++ received b
      ≡ₚ piece_blocks (pb_piece_index b) (pb_piece_length b);
  inv_total :
    total_blocks b = Z.of_nat (length (piece_blocks (pb_piece_index b) (pb_piece_length b)));
  inv_sorted : btree_sorted (pb_blocks b);
  inv_keys : Forall (fun e => e.1 = bm_block_offset (block_metadata e.2)) (pb_blocks b);
  inv_peers : NoDup (pb_peers b);
  inv_idle : forall p, p ∈ pb_peers b -> pending_blocks b !! p = None;
  inv_length : 0 <= pb_piece_length b;
}.

(** The same when the peers of [C] may be tracked more than once: no block is
    there twice, and blocks are lost only if there is such a peer. *)
Definition buffer_blocks b : list BlockMetadata :=
  missing_blocks b ++ pending_list b ++ received b.

Record buffer_accounts (C : PeerId -> Prop) b : Prop := {
  acc_blocks : buffer_blocks b ⊆+ piece_blocks (pb_piece_index b) (pb_piece_length b);
  acc_all : (forall p, ~ C p) ->
    buffer_blocks b ≡ₚ piece_blocks (pb_piece_index b) (pb_piece_length b);
  acc_total :
    total_blocks b = Z.of_nat (length (piece_blocks (pb_piece_index b) (pb_piece_length b)));
  acc_sorted : btree_sorted (pb_blocks b);
  acc_keys : Forall (fun e => e.1 = bm_block_offset (block_metadata e.2)) (pb_blocks b);
  acc_once : forall p, ~ C p -> once p (pb_peers b);
  acc_idle : forall p, ~ C p -> p ∈ pb_peers b -> pending_blocks b !! p = None;
  acc_length : 0 <= pb_piece_length b;
}.

(** What the handler of the torrent does with the buffer, when it pushes no peer
    that is tracked, other than those of [C] *)
Inductive buffer_step (C : PeerId -> Prop) : PieceBuffer PeerId -> PieceBuffer PeerId -> Prop :=
| step_next b : buffer_step C b (PieceBuffer_next b).1
| step_add_block b p blk : buffer_step C b (PieceBuffer_add_block b p blk).1
| step_remove_peer b p : buffer_step C b (PieceBuffer_remove_peer b p).1
| step_push_peer b p :
    (~ C p -> ~ peer_known b p) -> buffer_step C b (PieceBuffer_push_peer b p).

(** The buffers that a fresh one turns into. *)
Definition buffer_reachable b : Prop :=
  exists piece_index piece_length torrent_id peers,
    0 <= piece_length /\ NoDup peers /\
    rtc (buffer_step nobody) (PieceBuffer_new piece_index piece_length torrent_id peers) b.

(** Rounds in which an idle peer gets a block to deliver and delivers it. *)
Fixpoint drive (D : list byte) (n : nat) b : PieceBuffer PeerId :=
  match n with
  | O => b
  | S n' =>
      match PieceBuffer_next b with
      | (b', Some nb) =>
          drive D n' (PieceBuffer_add_block b' (nb_peer_id nb)
                        (block_of D (nb_block_metadata nb))).1
      | (b', None) => b'
      end
  end.
End Spec.

(** ** Lemmas *)

Lemma full_blocks_eq idx n :
  full_blocks idx n = (fun k => BlockMetadata_new idx (k * BLOCK_SIZE) BLOCK_SIZE) <$> seqZ 0 n.
Proof. apply (foldl_push (fun k => BlockMetadata_new idx (k * BLOCK_SIZE) BLOCK_SIZE)). Qed.

Lemma length_piece_blocks idx len :
  0 <= len ->
  Z.of_nat (length (piece_blocks idx len)) = (len + BLOCK_SIZE - 1) / BLOCK_SIZE.
Proof.
  intros Hl. unfold piece_blocks, BLOCK_SIZE. rewrite length_fmap, length_seqZ. div_lia.
Qed.

Lemma piece_blocks_lookup idx len k m :
  piece_blocks idx len !! k = Some m -> m = piece_block_at idx len (Z.of_nat k) /\
    Z.of_nat k < (len + BLOCK_SIZE - 1) / BLOCK_SIZE.
Proof.
  unfold piece_blocks. rewrite list_lookup_fmap_Some.
  intros (z & -> & [-> Hz]%lookup_seqZ). by rewrite Z.add_0_l.
Qed.

(** The loop and the last block of [new] give the blocks of the piece. *)
Lemma new_missing_blocks `{Countable PeerId} idx len tid (peers : list PeerId) :
  0 <= len -> missing_blocks (PieceBuffer_new idx len tid peers) = piece_blocks idx len.
Proof.
  intros Hl. unfold PieceBuffer_new, piece_blocks. cbn [missing_blocks].
  rewrite full_blocks_eq. unfold BLOCK_SIZE at 1 3.
  assert (Hfull : forall n, n <= len / BLOCK_SIZE ->
    (fun k => BlockMetadata_new idx (k * BLOCK_SIZE) BLOCK_SIZE) <$> seqZ 0 n =
    piece_block_at idx len <$> seqZ 0 n).
  { intros n Hn. apply list_fmap_ext. intros i x [-> Hx]%lookup_seqZ.
    unfold piece_block_at. f_equal. unfold BLOCK_SIZE in *. div_lia. }
  destruct (Z.ltb_spec 0 (len mod 16384)).
  - replace ((len + BLOCK_SIZE - 1) / BLOCK_SIZE) with (len / 16384 + 1)
      by (unfold BLOCK_SIZE; div_lia).
    rewrite seqZ_snoc, fmap_app by div_lia. rewrite Hfull by (unfold BLOCK_SIZE; lia).
    f_equal. simpl. unfold piece_block_at, BLOCK_SIZE. f_equal. f_equal; div_lia.
  - replace ((len + BLOCK_SIZE - 1) / BLOCK_SIZE) with (len / 16384)
      by (unfold BLOCK_SIZE; div_lia).
    apply Hfull. unfold BLOCK_SIZE. lia.
Qed.

Lemma piece_blocks_offset_inj idx len m m' :
  m ∈ piece_blocks idx len -> m' ∈ piece_blocks idx len ->
  bm_block_offset m = bm_block_offset m' -> m = m'.
Proof.
  intros [k Hk]%list_elem_of_lookup [k' Hk']%list_elem_of_lookup Ho.
  apply piece_blocks_lookup in Hk as [-> _]. apply piece_blocks_lookup in Hk' as [-> _].
  simpl in Ho. unfold BLOCK_SIZE in Ho. f_equal. lia.
Qed.

Lemma piece_blocks_NoDup idx len : NoDup (piece_blocks idx len).
Proof.
  apply NoDup_fmap_2_strong; [|apply NoDup_seqZ].
  intros x y _ _ [=]. unfold BLOCK_SIZE in *. lia.
Qed.

Section BufferLemmas.
Context `{Countable PeerId}.
Implicit Types b : PieceBuffer PeerId.

(** The invariant is the one in which no peer is tracked more than once. *)
Lemma inv_accounts b : PieceBuffer_inv b <-> buffer_accounts nobody b.
Proof.
  split.
  - intros [Hc Ht Hs Hk Hn Hi Hl]. split; try done.
    + unfold buffer_blocks. by rewrite Hc.
    + intros p _. by apply NoDup_once.
    + intros p _. apply Hi.
  - intros [Hb Ha Ht Hs Hk Ho Hi Hl]. split; try done.
    + apply Ha. apply not_nobody.
    + apply NoDup_once. intros p. by apply Ho.
    + intros p. by apply Hi.
Qed.

Lemma new_accounts C idx len tid (peers : list PeerId) :
  0 <= len -> NoDup peers -> buffer_accounts C (PieceBuffer_new idx len tid peers).
Proof.
  intros Hl Hp. pose proof (new_missing_blocks idx len tid peers Hl) as Hm.
  assert (buffer_blocks (PieceBuffer_new idx len tid peers) = piece_blocks idx len) as Hb.
  { unfold buffer_blocks, pending_list, received. rewrite Hm.
    cbn [pending_blocks pb_blocks PieceBuffer_new].
    rewrite map_to_list_empty. by rewrite !app_nil_r. }
  split; try done.
  - by rewrite Hb.
  - by rewrite Hb.
  - change (Z.of_nat (length (missing_blocks (PieceBuffer_new idx len tid peers))) =
      Z.of_nat (length (piece_blocks idx len))). by rewrite Hm.
  - constructor.
  - intros p _. by apply NoDup_once.
Qed.

Lemma new_inv idx len tid (peers : list PeerId) :
  0 <= len -> NoDup peers -> PieceBuffer_inv (PieceBuffer_new idx len tid peers).
Proof. intros Hl Hp. by apply inv_accounts, new_accounts. Qed.

(** The parts of a buffer as one list without duplicates. *)
Lemma accounts_NoDup C b : buffer_accounts C b -> NoDup (buffer_blocks b).
Proof.
  intros Hb. apply NoDup_once. intros m. eapply once_submseteq; [apply (acc_blocks C b Hb)|].
  apply NoDup_once, piece_blocks_NoDup.
Qed.

Lemma inv_NoDup b :
  PieceBuffer_inv b -> NoDup (missing_blocks b ++ pending_list b ++ received b).
Proof. intros Hi%inv_accounts. by apply accounts_NoDup in Hi. Qed.

Lemma accounts_in_piece C b m :
  buffer_accounts C b -> m ∈ buffer_blocks b ->
  m ∈ piece_blocks (pb_piece_index b) (pb_piece_length b).
Proof. intros Hb Hm. eapply elem_of_submseteq; [exact Hm|]. apply (acc_blocks C b Hb). Qed.

Lemma inv_in_piece b m :
  PieceBuffer_inv b ->
  m ∈ missing_blocks b \/ m ∈ pending_list b \/ m ∈ received b ->
  m ∈ piece_blocks (pb_piece_index b) (pb_piece_length b).
Proof.
  intros Hi%inv_accounts Hm. apply (accounts_in_piece nobody b m Hi).
  unfold buffer_blocks. by rewrite !elem_of_app.
Qed.

Lemma pending_list_elem b m :
  m ∈ pending_list b <-> exists p, pending_blocks b !! p = Some m.
Proof. apply map_values_elem. Qed.

Lemma pending_not_received C b p m :
  buffer_accounts C b -> pending_blocks b !! p = Some m -> m ∉ received b.
Proof.
  intros Hi Hp Hr. pose proof (accounts_NoDup C b Hi) as Hn.
  apply NoDup_app in Hn as (_ & _ & Hn). apply NoDup_app in Hn as (_ & Hn & _).
  apply (Hn m); [|done]. apply pending_list_elem. by exists p.
Qed.

(** Nothing was received at the offset of a block that is waited for. *)
Lemma pending_offset_unused C b p m :
  buffer_accounts C b -> pending_blocks b !! p = Some m ->
  bm_block_offset m ∉ (pb_blocks b).*1.
Proof.
  intros Hi Hp Hk. apply list_elem_of_fmap in Hk as ([k blk] & Ho & Hin).
  pose proof (acc_keys C b Hi) as Hkeys. rewrite Forall_forall in Hkeys.
  specialize (Hkeys _ Hin). simpl in Ho, Hkeys.
  assert (block_metadata blk ∈ received b) as Hr.
  { unfold received. rewrite list_elem_of_fmap. exists blk. split; [done|].
    rewrite list_elem_of_fmap. by exists (k, blk). }
  apply (pending_not_received C b p m Hi Hp).
  replace m with (block_metadata blk); [done|].
  eapply piece_blocks_offset_inj.
  - apply (accounts_in_piece C b); [done|]. unfold buffer_blocks. rewrite !elem_of_app. by do 2 right.
  - apply (accounts_in_piece C b); [done|]. unfold buffer_blocks. rewrite !elem_of_app.
    right; left. apply pending_list_elem. by exists p.
  - congruence.
Qed.

Lemma pending_offset_fresh b p m :
  PieceBuffer_inv b -> pending_blocks b !! p = Some m ->
  bm_block_offset m ∉ (pb_blocks b).*1.
Proof. intros Hi%inv_accounts. by apply (pending_offset_unused nobody). Qed.

(** What [next] does when it hands out a block. *)
Lemma next_Some b b' nb :
  PieceBuffer_next b = (b', Some nb) ->
  exists peers missing,
    pb_peers b = peers ++ [nb_peer_id nb] /\
    missing_blocks b = missing ++ [nb_block_metadata nb] /\
    nb_torrent_id nb = pb_torrent_id b /\
    b' = with_missing_pending missing
           (<[nb_peer_id nb := nb_block_metadata nb]> (pending_blocks b)) (with_peers peers b).
Proof.
  unfold PieceBuffer_next. destruct (vec_pop (pb_peers b)) as [[peer peers]|] eqn:Ep; [|done].
  cbn [missing_blocks with_peers].
  destruct (vec_pop (missing_blocks b)) as [[blk missing]|] eqn:Em; [|done].
  intros [= <- <-]. apply vec_pop_Some in Ep, Em. by exists peers, missing.
Qed.

(** [next] without a block leaves the buffer as it was. *)
Lemma next_None b b' :
  PieceBuffer_next b = (b', None) -> b' = b /\ (pb_peers b = [] \/ missing_blocks b = []).
Proof.
  unfold PieceBuffer_next. destruct (vec_pop (pb_peers b)) as [[peer peers]|] eqn:Ep.
  - cbn [missing_blocks with_peers].
    destruct (vec_pop (missing_blocks b)) as [[blk missing]|] eqn:Em; [done|].
    intros [= <-]. apply vec_pop_Some in Ep. apply vec_pop_None in Em.
    split; [|by right]. destruct b. simpl in *. unfold with_peers; simpl. by rewrite Ep.
  - intros [= <-]. apply vec_pop_None in Ep. split; [done|by left].
Qed.

(** A buffer for the same piece whose blocks are those of [b], or fewer when a
    peer is tracked more than once *)
Lemma accounts_same C b b' :
  buffer_accounts C b -> buffer_blocks b' ⊆+ buffer_blocks b ->
  ((forall p, ~ C p) -> buffer_blocks b' ≡ₚ buffer_blocks b) ->
  total_blocks b' = total_blocks b -> pb_piece_index b' = pb_piece_index b ->
  pb_piece_length b' = pb_piece_length b -> btree_sorted (pb_blocks b') ->
  Forall (fun e => e.1 = bm_block_offset (block_metadata e.2)) (pb_blocks b') ->
  (forall p, ~ C p ->
     once p (pb_peers b') /\ (p ∈ pb_peers b' -> pending_blocks b' !! p = None)) ->
  buffer_accounts C b'.
Proof.
  intros [Hb Ha Ht _ _ _ _ Hl] Hs Hp Ht' Hi' Hl' Hs' Hk' Hpe.
  split; rewrite ?Ht', ?Hi', ?Hl'; try done.
  - by etrans.
  - intros Hc. by rewrite Hp, Ha.
  - intros p Hc. by apply Hpe.
  - intros p Hc. by apply Hpe.
Qed.

Lemma next_accounts C b : buffer_accounts C b -> buffer_accounts C (PieceBuffer_next b).1.
Proof.
  intros Hi. destruct (PieceBuffer_next b) as [b' [nb|]] eqn:En; simpl.
  2: { apply next_None in En as [-> _]. done. }
  apply next_Some in En as (peers & missing & Hp & Hm & _ & ->).
  set (q := nb_peer_id nb) in *. set (m := nb_block_metadata nb) in *.
  assert (forall p, ~ C p -> p = q -> p ∉ peers) as Hq.
  { intros p Hc ->. apply once_cons_elem. eapply once_submseteq; [|apply (acc_once C b Hi q Hc)].
    by rewrite Hp, Permutation_app_comm. }
  assert (buffer_blocks (with_missing_pending missing (<[q := m]> (pending_blocks b))
      (with_peers peers b)) ≡ₚ
    missing ++ (m :: (map_to_list (delete q (pending_blocks b))).*2) ++ received b) as Hbl.
  { unfold buffer_blocks, pending_list, received. simpl.
    rewrite <- insert_delete_eq, map_values_insert by apply lookup_delete_eq. done. }
  assert (Hold : buffer_blocks b ≡ₚ option_list (pending_blocks b !! q) ++
    missing ++ (m :: (map_to_list (delete q (pending_blocks b))).*2) ++ received b).
  { unfold buffer_blocks. rewrite Hm. destruct (pending_blocks b !! q) as [m0|] eqn:E; simpl.
    - unfold pending_list. rewrite (map_values_delete _ _ _ E). solve_Permutation.
    - rewrite delete_id by done. unfold pending_list. solve_Permutation. }
  apply (accounts_same C b); try done; try (by apply Hi).
  - rewrite Hbl, Hold. apply submseteq_inserts_l. done.
  - intros Hc. rewrite Hbl, Hold, (acc_idle C b Hi q (Hc q)); [done|].
    rewrite Hp. apply elem_of_app. right; left.
  - intros p Hc. simpl. split.
    + eapply once_submseteq; [|apply (acc_once C b Hi p Hc)]. rewrite Hp. by apply submseteq_inserts_r.
    + intros Hin. rewrite lookup_insert_ne by (intros He; by apply (Hq p Hc)).
      apply (acc_idle C b Hi p Hc). rewrite Hp. apply elem_of_app. by left.
Qed.

Lemma push_peer_accounts C b p :
  buffer_accounts C b -> (~ C p -> ~ peer_known b p) ->
  buffer_accounts C (PieceBuffer_push_peer b p).
Proof.
  intros Hi Hp. apply (accounts_same C b); try done; try (by apply Hi).
  intros q Hc. simpl. split.
  - apply once_snoc; [by apply Hi|]. intros <- Hin. apply (Hp Hc). by left.
  - intros [Hx| ->%list_elem_of_singleton]%elem_of_app; [by apply (acc_idle C b Hi)|].
    apply eq_None_not_Some. intros Hx. apply (Hp Hc). by right.
Qed.

(** The buffer once the pending block of a peer is taken back. *)
Lemma pending_removed b p m :
  pending_blocks b !! p = Some m ->
  pending_list b ≡ₚ m :: (map_to_list (delete p (pending_blocks b))).*2.
Proof. apply map_values_delete. Qed.

(** Fewer blocks are waited for, and the peers are the same. *)
Lemma delete_pending_idle C b p q :
  buffer_accounts C b -> ~ C q ->
  once q (pb_peers b) /\ (q ∈ pb_peers b -> delete p (pending_blocks b) !! q = None).
Proof.
  intros Hi Hc. split; [by apply Hi|]. intros Hin. rewrite lookup_delete_None. right.
  by apply (acc_idle C b Hi).
Qed.

(** Taking back the block of a busy peer. *)
Lemma take_back_accounts C b p m :
  buffer_accounts C b -> pending_blocks b !! p = Some m ->
  buffer_accounts C
    (with_missing_pending (missing_blocks b ++ [m]) (delete p (pending_blocks b)) b).
Proof.
  intros Hi Hp. pose proof (pending_removed b p m Hp) as Hperm.
  assert (buffer_blocks (with_missing_pending (missing_blocks b ++ [m])
    (delete p (pending_blocks b)) b) ≡ₚ buffer_blocks b) as Hb.
  { unfold buffer_blocks. rewrite Hperm. unfold pending_list, received. simpl. solve_Permutation. }
  apply (accounts_same C b); try done; try (by apply Hi).
  - by rewrite Hb.
  - intros q Hc. exact (delete_pending_idle C b p q Hi Hc).
Qed.

Lemma remove_peer_accounts C b p :
  buffer_accounts C b -> buffer_accounts C (PieceBuffer_remove_peer b p).1.
Proof.
  intros Hi. unfold PieceBuffer_remove_peer.
  destruct (position _ _) as [pos|]; simpl.
  - apply (accounts_same C b); try done; try (by apply Hi).
    assert (delete pos (pb_peers b) ⊆+ pb_peers b) as Hs
      by apply sublist_submseteq, sublist_delete.
    intros q Hc. simpl. split.
    + eapply once_submseteq; [exact Hs|]. by apply Hi.
    + intros Hx. apply (acc_idle C b Hi); [done|]. by eapply elem_of_submseteq.
  - destruct (pending_blocks b !! p) as [m|] eqn:Em; simpl; [|done]. by apply take_back_accounts.
Qed.

Lemma add_block_accounts C b p blk :
  buffer_accounts C b -> buffer_accounts C (PieceBuffer_add_block b p blk).1.
Proof.
  intros Hi. unfold PieceBuffer_add_block.
  destruct (pending_blocks b !! p) as [m|] eqn:Em; [|done].
  pose proof (pending_removed b p m Em) as Hperm.
  assert (Hnk : forall b', pb_peers b' = pb_peers b ->
    pending_blocks b' = delete p (pending_blocks b) -> ~ C p -> ~ peer_known b' p).
  { intros b' Hp' Hd Hc [Hin|Hs].
    - rewrite Hp' in Hin. by rewrite (acc_idle C b Hi p Hc Hin) in Em.
    - rewrite Hd, lookup_delete_eq in Hs. by destruct Hs. }
  case_bool_decide as Hm; simpl; (apply push_peer_accounts; [|by apply Hnk]).
  - subst m. pose proof (pending_offset_unused C b p _ Hi Em) as Hf.
    pose proof (btree_insert_fresh _ blk _ Hf) as Hfresh.
    match goal with |- buffer_accounts C ?x => set (b' := x) end.
    assert (buffer_blocks b' ≡ₚ buffer_blocks b) as Hb.
    { unfold buffer_blocks. rewrite Hperm. unfold pending_list, received. simpl. rewrite Hfresh.
      simpl. solve_Permutation. }
    apply (accounts_same C b); try done; try (by apply Hi); simpl.
    + by rewrite Hb.
    + by apply btree_insert_sorted, Hi.
    + rewrite Hfresh. constructor; [done|]. apply Hi.
    + intros q Hc. exact (delete_pending_idle C b p q Hi Hc).
  - exact (take_back_accounts C b p m Hi Em).
Qed.

Lemma buffer_step_accounts C b b' : buffer_step C b b' -> buffer_accounts C b -> buffer_accounts C b'.
Proof.
  intros Hs Hi.
  destruct Hs; auto using next_accounts, add_block_accounts, remove_peer_accounts, push_peer_accounts.
Qed.

(** A full buffer has each block of the piece. *)
Lemma full_blocks_arrived C b :
  buffer_accounts C b -> is_full_piece b = true ->
  received b ≡ₚ piece_blocks (pb_piece_index b) (pb_piece_length b).
Proof.
  intros Hi Hf%Z.eqb_eq. apply submseteq_length_Permutation.
  - etrans; [|apply (acc_blocks C b Hi)]. unfold buffer_blocks.
    apply submseteq_inserts_l, submseteq_inserts_l. done.
  - rewrite (acc_total C b Hi) in Hf. unfold received. rewrite !length_fmap. lia.
Qed.

(** When no peer is tracked more than once, the invariant itself is kept. *)
Lemma next_inv b : PieceBuffer_inv b -> PieceBuffer_inv (PieceBuffer_next b).1.
Proof. rewrite !inv_accounts. apply next_accounts. Qed.

Lemma push_peer_inv b p :
  PieceBuffer_inv b -> ~ peer_known b p -> PieceBuffer_inv (PieceBuffer_push_peer b p).
Proof. rewrite !inv_accounts. intros Hi Hp. by apply push_peer_accounts. Qed.

Lemma add_block_inv b p blk : PieceBuffer_inv b -> PieceBuffer_inv (PieceBuffer_add_block b p blk).1.
Proof. rewrite !inv_accounts. apply add_block_accounts. Qed.

Lemma buffer_reachable_inv b : buffer_reachable b -> PieceBuffer_inv b.
Proof.
  intros (idx & len & tid & peers & Hl & Hn & Hr). apply inv_accounts.
  pose proof (new_accounts nobody idx len tid peers Hl Hn) as Hi.
  revert Hi. induction Hr as [|b1 b2 b3 Hs Hr IH]; [done|]. intros Hi. apply IH.
  by apply (buffer_step_accounts nobody b1).
Qed.
End BufferLemmas.

(** *** The data of the blocks *)

Lemma concat_block_slices D idx n :
  0 <= n ->
  concat (block_slice D <$>
    (piece_block_at idx (Z.of_nat (length D)) <$> seqZ 0 n)) =
  take (Z.to_nat (n * BLOCK_SIZE)) D.
Proof.
  revert n. apply natlike_ind; [done|]. intros n Hn IH.
  rewrite <- Z.add_1_r, seqZ_snoc, !fmap_app, concat_app, IH by done. simpl.
  rewrite app_nil_r. unfold block_slice, piece_block_at. simpl.
  destruct (Z.le_gt_cases (Z.of_nat (length D)) ((n + 1) * BLOCK_SIZE)) as [Hle|Hgt].
  - rewrite (take_ge (drop _ _)) by (rewrite length_drop; unfold BLOCK_SIZE in *; lia).
    rewrite take_drop, take_ge; [done|]. unfold BLOCK_SIZE in *; lia.
  - rewrite take_take_drop. f_equal. unfold BLOCK_SIZE in *; lia.
Qed.

(** The slices of its blocks make up the piece. *)
Lemma concat_piece_blocks D idx len :
  Z.of_nat (length D) = len -> concat (block_slice D <$> piece_blocks idx len) = D.
Proof.
  intros <-. unfold piece_blocks. rewrite concat_block_slices by (unfold BLOCK_SIZE; div_lia).
  apply take_ge. unfold BLOCK_SIZE. div_lia.
Qed.

(** The blocks of a piece in the order of their offsets. *)
Definition offset_lt (m m' : BlockMetadata) : Prop := bm_block_offset m < bm_block_offset m'.

#[export] Instance offset_lt_antisymm : AntiSymm (=) offset_lt.
Proof. unfold offset_lt. intros m m' ??. lia. Qed.

Lemma StronglySorted_fmap_inv {A B} (f : A -> B) (R : B -> B -> Prop) l :
  StronglySorted R (f <$> l) -> StronglySorted (fun x y => R (f x) (f y)) l.
Proof.
  induction l as [|x l IH]; simpl; intros Hs; [constructor|].
  inversion_clear Hs as [|? ? Hl Hall]. constructor; [by apply IH|].
  by rewrite Forall_fmap in Hall.
Qed.

Lemma seqZ_sorted n : StronglySorted Z.lt (seqZ 0 n).
Proof.
  destruct (Z.le_gt_cases n 0) as [Hn|Hn]; [rewrite seqZ_nil by lia; constructor|].
  rewrite <- (Z2Nat.id n) by lia. generalize (Z.to_nat n). clear n Hn.
  induction n as [|n IH]; [constructor|].
  rewrite Nat2Z.inj_succ, <- Z.add_1_r, seqZ_snoc by lia. apply StronglySorted_app_2.
  - intros x y [? ?]%elem_of_seqZ ->%list_elem_of_singleton. lia.
  - done.
  - repeat constructor.
Qed.

Lemma piece_blocks_sorted idx len : StronglySorted offset_lt (piece_blocks idx len).
Proof.
  unfold piece_blocks.
  generalize (seqZ_sorted ((len + BLOCK_SIZE - 1) / BLOCK_SIZE)).
  induction 1 as [|x l Hl IH Hall]; [constructor|]. constructor; [done|].
  apply Forall_fmap. eapply Forall_impl; [exact Hall|]. intros y Hy.
  unfold offset_lt. simpl. unfold BLOCK_SIZE. lia.
Qed.

Section FinalizeLemmas.
Context `{Countable PeerId}.
Implicit Types b : PieceBuffer PeerId.

(** The blocks that arrived are sorted as their keys are. *)
Lemma keys_received_sorted b :
  btree_sorted (pb_blocks b) ->
  Forall (fun e => e.1 = bm_block_offset (block_metadata e.2)) (pb_blocks b) ->
  StronglySorted offset_lt (received b).
Proof.
  unfold btree_sorted, received. intros Hs Hk. induction Hk as [|[k blk] l Hkb Hk IH]; [constructor|].
  simpl in *. inversion_clear Hs as [|? ? Hl Hall]. constructor; [by apply IH|].
  rewrite !Forall_fmap in *. rewrite Forall_forall in *. intros [k' blk'] Hin.
  specialize (Hall _ Hin). specialize (Hk _ Hin). unfold offset_lt. simpl in *. lia.
Qed.

Lemma received_sorted b : PieceBuffer_inv b -> StronglySorted offset_lt (received b).
Proof. intros Hi. by apply keys_received_sorted; apply Hi. Qed.

(** A full buffer waits for nothing, and the other way round. *)
Lemma is_full_piece_iff b :
  PieceBuffer_inv b ->
  is_full_piece b = true <-> missing_blocks b = [] /\ pending_blocks b = ∅.
Proof.
  intros Hi. unfold is_full_piece. rewrite (inv_total b Hi), Z.eqb_eq.
  rewrite <- (inv_conserved b Hi), !length_app. unfold received.
  rewrite !length_fmap. split.
  - intros Hl. assert (length (missing_blocks b) = 0%nat) as ->%nil_length_inv by lia.
    assert (length (pending_list b) = 0%nat) as Hp by lia. split; [done|].
    unfold pending_list in Hp. rewrite length_fmap in Hp.
    apply nil_length_inv, map_to_list_empty_iff in Hp. done.
  - intros [-> Hp]. unfold pending_list. rewrite Hp, map_to_list_empty. simpl. done.
Qed.

(** The blocks of a full buffer are those of the piece, in order. *)
Lemma full_received b :
  PieceBuffer_inv b -> is_full_piece b = true ->
  received b = piece_blocks (pb_piece_index b) (pb_piece_length b).
Proof.
  intros Hi [Hm Hp]%(is_full_piece_iff b Hi).
  pose proof (inv_conserved b Hi) as Hc. rewrite Hm in Hc. unfold pending_list in Hc.
  rewrite Hp, map_to_list_empty in Hc. simpl in Hc.
  apply (StronglySorted_unique offset_lt); [by apply received_sorted| |done].
  apply piece_blocks_sorted.
Qed.

Lemma finalize_loop_eq buffer values :
  finalize_loop buffer values =
  if forallb Block_is_correct_len values then Some (buffer ++ concat (block_data <$> values))
  else None.
Proof.
  revert buffer. induction values as [|blk values IH]; intros buffer; simpl.
  - by rewrite app_nil_r.
  - destruct (Block_is_correct_len blk); simpl; [|done]. by rewrite IH, app_assoc.
Qed.

Lemma length_concat_correct values :
  forallb Block_is_correct_len values = true ->
  Z.of_nat (length (concat (block_data <$> values))) =
  foldr (fun m acc => bm_block_length m + acc) 0 (block_metadata <$> values).
Proof.
  induction values as [|blk values IH]; [done|].
  rewrite !fmap_cons. cbn [concat foldr forallb].
  intros [Hb Hv]%andb_prop. rewrite length_app, Nat2Z.inj_add, IH by done.
  f_equal. by apply Block_correct_len_length.
Qed.

Lemma block_of_correct_len D idx len m :
  Z.of_nat (length D) = len -> m ∈ piece_blocks idx len ->
  Block_is_correct_len (block_of D m) = true.
Proof.
  intros Hl [k Hk]%list_elem_of_lookup. apply piece_blocks_lookup in Hk as [-> Hk].
  apply Z.eqb_eq. unfold block_of, block_slice, piece_block_at. simpl.
  rewrite length_take, length_drop. unfold BLOCK_SIZE in *. div_lia.
Qed.

(** The sum of the lengths of the blocks of a piece is its length. *)
Lemma piece_blocks_total idx len :
  0 <= len -> foldr (fun m acc => bm_block_length m + acc) 0 (piece_blocks idx len) = len.
Proof.
  intros Hl. set (D := replicate (Z.to_nat len) Byte.x00).
  assert (Z.of_nat (length D) = len) as HD by (unfold D; rewrite length_replicate; lia).
  pose proof (length_concat_correct (block_of D <$> piece_blocks idx len)) as Hc.
  rewrite <- !list_fmap_compose in Hc.
  change (block_data ∘ block_of D) with (block_slice D) in Hc.
  rewrite (concat_piece_blocks D idx len HD), HD in Hc.
  etrans; [|symmetry; apply Hc].
  - f_equal. symmetry. apply list_fmap_id.
  - apply Is_true_true, forallb_True, Forall_fmap, Forall_forall. intros m Hm. simpl.
    by rewrite (block_of_correct_len D idx len).
Qed.
End FinalizeLemmas.

(** *** Rounds of requests and answers *)

Section DriveLemmas.
Context `{Countable PeerId}.
Implicit Types b : PieceBuffer PeerId.

(** Every block that arrived has the data of [D]. *)
Definition received_from (D : list byte) b : Prop :=
  Forall (fun blk => blk = block_of D (block_metadata blk)) (pb_blocks b).*2.

Lemma received_from_blocks D b :
  received_from D b -> (pb_blocks b).*2 = block_of D <$> received b.
Proof.
  unfold received_from, received. induction 1 as [|blk l Hb Hl IH]; [done|].
  rewrite !fmap_cons. congruence.
Qed.

Lemma btree_insert_Forall {V} (P : V -> Prop) k v (t : list (Z * V)) :
  P v -> Forall P t.*2 -> Forall P (btree_insert k v t).*2.
Proof.
  rewrite !Forall_fmap, !Forall_forall. intros Hv Ht e [->|He]%btree_insert_elem; [done|].
  by apply Ht.
Qed.

(** One round: the block of an idle peer moves from missing to received. *)
Lemma drive_round D b b' nb :
  pending_blocks b = ∅ -> received_from D b -> PieceBuffer_next b = (b', Some nb) ->
  let b'' := (PieceBuffer_add_block b' (nb_peer_id nb) (block_of D (nb_block_metadata nb))).1 in
  pending_blocks b'' = ∅ /\ received_from D b'' /\ pb_peers b'' <> [] /\
  length (missing_blocks b) = S (length (missing_blocks b'')) /\
  pb_piece_index b'' = pb_piece_index b /\ pb_piece_length b'' = pb_piece_length b.
Proof.
  intros Hp HD (peers & missing & Hpeers & Hm & _ & ->)%next_Some. cbv zeta.
  unfold PieceBuffer_add_block. cbn [pending_blocks with_missing_pending with_peers].
  rewrite lookup_insert_eq. cbn [block_metadata block_of].
  rewrite bool_decide_true by done. cbn. rewrite Hp, Hm. split_and!; try done.
  - by rewrite delete_insert_eq, delete_empty.
  - by apply btree_insert_Forall.
  - by destruct peers.
  - rewrite length_app. simpl. lia.
Qed.

Lemma drive_full D n b :
  PieceBuffer_inv b -> pending_blocks b = ∅ -> received_from D b -> pb_peers b <> [] ->
  length (missing_blocks b) = n ->
  let b' := drive D n b in
  PieceBuffer_inv b' /\ is_full_piece b' = true /\ received_from D b' /\
  pb_piece_index b' = pb_piece_index b /\ pb_piece_length b' = pb_piece_length b.
Proof.
  revert b. induction n as [|n IH]; intros b Hi Hp HD Hpeers Hn; cbv zeta; simpl.
  - split_and!; try done. apply is_full_piece_iff; [done|]. by apply nil_length_inv in Hn.
  - destruct (PieceBuffer_next b) as [b' [nb|]] eqn:En.
    + pose proof (drive_round D b b' nb Hp HD En) as (Hp' & HD' & Hne & Hl & Hidx & Hlen).
      pose proof (next_inv b Hi) as Hi'. rewrite En in Hi'.
      pose proof (add_block_inv b' (nb_peer_id nb) (block_of D (nb_block_metadata nb)) Hi')
        as Hi''.
      destruct (IH _ Hi'' Hp' HD' Hne ltac:(lia)) as (? & ? & ? & Hx & Hy).
      split_and!; [done..| |]; congruence.
    + apply next_None in En as [-> [?|Hm]]; [done|]. by rewrite Hm in Hn.
Qed.

Lemma finalize_full {Hasher} b D :
  PieceBuffer_inv b -> is_full_piece b = true -> received_from D b ->
  Z.of_nat (length D) = pb_piece_length b ->
  try_finalize_piece (Hasher := Hasher) b =
  Ok (Block_new (BlockMetadata_new (pb_piece_index b) 0 (pb_piece_length b)) D).
Proof.
  intros Hi Hf HD Hl. unfold try_finalize_piece. rewrite finalize_loop_eq.
  rewrite (received_from_blocks D b HD), (full_received b Hi Hf).
  rewrite <- list_fmap_compose. change (block_data ∘ block_of D) with (block_slice D).
  rewrite concat_piece_blocks by done.
  replace (forallb _ _) with true; [done|]. symmetry.
  apply Is_true_true, forallb_True, Forall_fmap, Forall_forall. intros m Hm. simpl.
  by rewrite (block_of_correct_len D (pb_piece_index b) (pb_piece_length b)).
Qed.

Lemma drive_reachable D n b :
  buffer_reachable b -> buffer_reachable (drive D n b).
Proof.
  revert b. induction n as [|n IH]; intros b Hb; simpl; [done|].
  assert (Hstep : forall b1 b2 : PieceBuffer PeerId,
    buffer_reachable b1 -> buffer_step nobody b1 b2 -> buffer_reachable b2).
  { intros b1 b2 (idx & len & tid & peers & Hl & Hn & Hr) Hs.
    exists idx, len, tid, peers. split_and!; [done..|]. by eapply rtc_r. }
  pose proof (step_next nobody b) as Hs. destruct (PieceBuffer_next b) as [b' [nb|]]; simpl in Hs.
  - apply IH. eapply Hstep; [eapply Hstep; [exact Hb | exact Hs] | apply step_add_block].
  - by eapply Hstep.
Qed.

End DriveLemmas.

(** *** What the operations leave alone *)

Section FrameLemmas.
Context `{Countable PeerId}.
Implicit Types b : PieceBuffer PeerId.

(** The two buffers are of the same piece. *)
Definition same_piece b b' : Prop :=
  pb_piece_index b' = pb_piece_index b /\ pb_piece_length b' = pb_piece_length b /\
  pb_torrent_id b' = pb_torrent_id b /\ total_blocks b' = total_blocks b.

Lemma buffer_step_same_piece C b b' : buffer_step C b b' -> same_piece b b'.
Proof.
  intros [? | ? p blk | ? p | ? p _]; unfold PieceBuffer_next, PieceBuffer_add_block,
    PieceBuffer_remove_peer; repeat case_match; done.
Qed.

Lemma push_peer_known b q p : peer_known (PieceBuffer_push_peer b q) p <-> p = q \/ peer_known b p.
Proof.
  unfold peer_known. simpl. rewrite elem_of_app, list_elem_of_singleton. tauto.
Qed.

Lemma next_known b p : peer_known (PieceBuffer_next b).1 p -> peer_known b p.
Proof.
  destruct (PieceBuffer_next b) as [b' [nb|]] eqn:En; simpl.
  - apply next_Some in En as (ps & ms & Hp & _ & _ & ->). unfold peer_known. simpl. rewrite Hp.
    intros [Hin|Hs].
    + left. apply elem_of_app. by left.
    + destruct (decide (p = nb_peer_id nb)) as [->|Hne].
      * left. apply elem_of_app. right. left.
      * right. by rewrite lookup_insert_ne in Hs by done.
  - by apply next_None in En as [-> _].
Qed.

Lemma delete_pending_known b p q m :
  peer_known (with_missing_pending m (delete q (pending_blocks b)) b) p -> peer_known b p.
Proof.
  intros [Hin|Hs]; [by left|right]. simpl in Hs. destruct (decide (p = q)) as [->|Hne].
  - rewrite lookup_delete_eq in Hs. by destruct Hs.
  - by rewrite lookup_delete_ne in Hs.
Qed.

Lemma add_block_known b q blk p :
  peer_known (PieceBuffer_add_block b q blk).1 p -> peer_known b p.
Proof.
  unfold PieceBuffer_add_block. destruct (pending_blocks b !! q) as [m|] eqn:Em; [|done].
  assert (peer_known b q) as Hq by (right; by exists m).
  case_bool_decide; simpl; rewrite push_peer_known; (intros [->|Hk]; [done|]).
  - by apply (delete_pending_known b p q (missing_blocks b)).
  - by apply (delete_pending_known b p q (missing_blocks b ++ [m])).
Qed.

(** A removed peer is not known any more, when it was tracked once. *)
Lemma remove_peer_known C b q p :
  buffer_accounts C b ->
  peer_known (PieceBuffer_remove_peer b q).1 p -> peer_known b p /\ (~ C q -> p <> q).
Proof.
  intros Hi. unfold PieceBuffer_remove_peer.
  destruct (position _ _) as [pos|] eqn:Epos; simpl.
  - apply position_Some in Epos as (x & Hx & Hxq & _). apply bool_decide_eq_true in Hxq as ->.
    intros [Hin|Hs]; simpl in *.
    + split.
      * left. eapply elem_of_submseteq; [exact Hin|]. apply sublist_submseteq, sublist_delete.
      * intros Hc ->. pose proof (acc_once C b Hi q Hc) as Ho.
        apply (once_submseteq _ (q :: delete pos (pb_peers b))) in Ho; [|by rewrite <- delete_Permutation].
        by apply once_cons_elem in Ho.
    + split; [by right|]. intros Hc ->.
      rewrite (acc_idle C b Hi q Hc) in Hs by by eapply list_elem_of_lookup_2. by destruct Hs.
  - rewrite position_None in Epos. intros Hk.
    assert (q ∉ pb_peers b) as Hni.
    { intros Hin. specialize (Epos q Hin). by rewrite bool_decide_true in Epos. }
    destruct (pending_blocks b !! q) as [m|] eqn:Em; simpl in Hk.
    + split; [by apply (delete_pending_known b p q (missing_blocks b ++ [m]))|].
      intros _ ->. destruct Hk as [Hin|Hs]; simpl in *; [done|].
      rewrite lookup_delete_eq in Hs. by destruct Hs.
    + split; [done|]. intros _ ->. destruct Hk as [Hin|Hs]; [done|].
      rewrite Em in Hs. by destruct Hs.
Qed.
End FrameLemmas.

(** ** Properties *)

Section PieceBufferProperties.
Context `{Countable PeerId}.
Implicit Types b : PieceBuffer PeerId.

(** C9: The buffer of a piece never loses, duplicates or invents a block: in
    every state that [next], [add_block], [remove_peer] and new idle peers lead
    to, the missing blocks, the blocks waited for and the received ones are
    together the blocks of the piece, each once, and no peer that is idle is
    waited for. *)
Theorem buffer_conserves_blocks b :
  buffer_reachable b ->
  missing_blocks b ++ pending_list b ++ received b
    ≡ₚ piece_blocks (pb_piece_index b) (pb_piece_length b) /\
  NoDup (missing_blocks b ++ pending_list b ++ received b) /\
  NoDup (pb_peers b) /\ (forall p, p ∈ pb_peers b -> pending_blocks b !! p = None).
Proof.
  intros Hi%buffer_reachable_inv.
  split_and!; [by apply inv_conserved | by apply inv_NoDup | by apply inv_peers | by apply inv_idle].
Qed.

(** [new] cuts the piece into blocks of one to [BLOCK_SIZE] bytes that cover
    every byte of the piece once, in order. *)
Theorem new_tiles_piece idx len tid (peers : list PeerId) D :
  Z.of_nat (length D) = len ->
  let b := PieceBuffer_new idx len tid peers in
  concat (block_slice D <$> missing_blocks b) = D /\
  Forall (fun m => bm_piece_index m = idx /\ 0 < bm_block_length m <= BLOCK_SIZE /\
                   bm_block_offset m + bm_block_length m <= len) (missing_blocks b) /\
  total_blocks b = (len + BLOCK_SIZE - 1) / BLOCK_SIZE.
Proof.
  intros Hl b. subst b. rewrite new_missing_blocks by lia. split_and!.
  - by apply concat_piece_blocks.
  - apply Forall_forall. intros m [k Hk]%list_elem_of_lookup.
    apply piece_blocks_lookup in Hk as [-> Hk]. simpl. unfold BLOCK_SIZE in *. div_lia.
  - rewrite <- length_piece_blocks with (idx := idx) by lia.
    rewrite <- (new_missing_blocks idx len tid peers) by lia. done.
Qed.

(** C10: In every state of a buffer that satisfies its invariant, so that no peer
    is in it twice, [next] hands out a block of the piece that has not arrived
    and that no peer was asked for, to a peer that is idle, who is asked for it
    and not idle from then on; it hands out none only when no peer is idle or no
    block is missing, and leaves the buffer then. *)
Theorem next_request b :
  PieceBuffer_inv b ->
  match PieceBuffer_next b with
  | (b', Some nb) =>
      nb_block_metadata nb ∈ piece_blocks (pb_piece_index b) (pb_piece_length b) /\
      (nb_block_metadata nb ∉ received b) /\
      (forall p, pending_blocks b !! p <> Some (nb_block_metadata nb)) /\
      nb_peer_id nb ∈ pb_peers b /\ (nb_peer_id nb ∉ pb_peers b') /\
      pending_blocks b' = <[nb_peer_id nb := nb_block_metadata nb]> (pending_blocks b)
  | (b', None) => b' = b /\ (pb_peers b = [] \/ missing_blocks b = [])
  end.
Proof.
  intros Hi. destruct (PieceBuffer_next b) as [b' [nb|]] eqn:En; [|by apply next_None].
  apply next_Some in En as (peers & missing & Hp & Hm & _ & ->).
  pose proof (inv_NoDup b Hi) as Hn. apply NoDup_app in Hn as (_ & Hd & _).
  assert (nb_block_metadata nb ∈ missing_blocks b) as Hin
    by (rewrite Hm, elem_of_app; right; left).
  specialize (Hd _ Hin). rewrite not_elem_of_app, pending_list_elem in Hd.
  destruct Hd as [Hd1 Hd2].
  pose proof (inv_peers b Hi) as Hnp. rewrite Hp in Hnp. apply NoDup_app in Hnp as (_ & Hnp & _).
  split_and!; [apply inv_in_piece; tauto | done | | | | done].
  - intros p Hpm. apply Hd1. by exists p.
  - rewrite Hp, elem_of_app. right; left.
  - simpl. intros Hx. apply (Hnp _ Hx). left.
Qed.

(** [add_block] takes a block exactly when it is the one its sender was
    asked for; otherwise the block goes back to the caller in the error, and a
    block the sender was asked for is missing again. *)
Theorem add_block_spec b peer blk :
  PieceBuffer_inv b ->
  let '(b', r) := PieceBuffer_add_block b peer blk in
  match pending_blocks b !! peer with
  | None => r = Err (BE_NotRequested peer blk) /\ b' = b
  | Some expected =>
      pending_blocks b' = delete peer (pending_blocks b) /\ peer ∈ pb_peers b' /\
      (if bool_decide (block_metadata blk = expected) then
         r = Ok expected /\ missing_blocks b' = missing_blocks b /\
         (pb_blocks b').*2 ≡ₚ blk :: (pb_blocks b).*2
       else
         r = Err (BE_InvalidBlock peer expected blk) /\
         missing_blocks b' = missing_blocks b ++ [expected] /\ pb_blocks b' = pb_blocks b)
  end.
Proof.
  intros Hi. unfold PieceBuffer_add_block.
  destruct (pending_blocks b !! peer) as [m|] eqn:Em; [|done].
  case_bool_decide as Hm; simpl; (split; [done|]);
    (split; [apply elem_of_app; right; left|]); split_and!; try done.
  subst m. by rewrite btree_insert_fresh by by apply (pending_offset_fresh b peer).
Qed.

(** A buffer is full exactly when no block is missing and none is waited
    for. *)
Theorem full_iff_nothing_left b :
  buffer_reachable b ->
  is_full_piece b = true <-> missing_blocks b = [] /\ pending_blocks b = ∅.
Proof. intros Hi%buffer_reachable_inv. by apply is_full_piece_iff. Qed.


(** C24: A piece with at least one peer that answers is downloaded: after as many
    rounds of [next] and [add_block] as it has blocks the buffer is full, and
    what it turns into is the piece. *)
Theorem drive_completes {Hasher} idx len tid (peers : list PeerId) D :
  Z.of_nat (length D) = len -> NoDup peers -> peers <> [] ->
  let b := drive D (Z.to_nat ((len + BLOCK_SIZE - 1) / BLOCK_SIZE))
             (PieceBuffer_new idx len tid peers) in
  is_full_piece b = true /\
  try_finalize_piece (Hasher := Hasher) b = Ok (Block_new (BlockMetadata_new idx 0 len) D).
Proof.
  intros Hl Hn Hp. cbv zeta.
  pose proof (length_piece_blocks idx len ltac:(lia)) as Hlen.
  destruct (drive_full D (Z.to_nat ((len + BLOCK_SIZE - 1) / BLOCK_SIZE))
    (PieceBuffer_new idx len tid peers)) as (Hi & Hf & HD & Hidx & Hpl); try done.
  - apply new_inv; [lia|done].
  - constructor.
  - rewrite new_missing_blocks by lia. lia.
  - split; [done|]. rewrite (finalize_full _ D) by (done || by rewrite Hpl).
    by rewrite Hidx, Hpl.
Qed.
End PieceBufferProperties.

(** ** Witnesses *)

Section PieceBufferWitnesses.

(** A piece of 20000 bytes, two blocks, and two peers. *)
Definition ex_D : list byte := replicate (Z.to_nat 20000) Byte.x2a.
Definition ex_buffer : PieceBuffer Z := PieceBuffer_new 3 20000 0 [7; 8].
Definition ex_one : PieceBuffer Z := drive ex_D 1 ex_buffer.
Definition ex_two : PieceBuffer Z := drive ex_D 2 ex_buffer.

Lemma ex_NoDup : NoDup [7; 8].
Proof. apply (bool_decide_unpack _). by vm_compute. Qed.

Lemma ex_buffer_inv : PieceBuffer_inv ex_buffer.
Proof. apply new_inv; [done | apply ex_NoDup]. Qed.

Lemma ex_reachable n : buffer_reachable (drive ex_D n ex_buffer).
Proof.
  apply drive_reachable. exists 3, 20000, 0, [7; 8].
  split_and!; [done | apply ex_NoDup | apply rtc_refl].
Qed.

Lemma buffer_conserves_blocks_witness :
  missing_blocks ex_one ++ pending_list ex_one ++ received ex_one
    ≡ₚ piece_blocks (pb_piece_index ex_one) (pb_piece_length ex_one).
Proof. apply (buffer_conserves_blocks ex_one (ex_reachable 1)). Defined.

Lemma new_tiles_piece_witness :
  concat (block_slice ex_D <$> missing_blocks ex_buffer) = ex_D.
Proof. apply (new_tiles_piece 3 20000 0 [7; 8] ex_D). unfold ex_D. by rewrite length_replicate. Defined.

Lemma next_request_witness :
  match PieceBuffer_next ex_buffer with
  | (b', Some nb) =>
      nb_block_metadata nb ∈ piece_blocks 3 20000 /\
      (nb_block_metadata nb ∉ received ex_buffer) /\
      (forall p, pending_blocks ex_buffer !! p <> Some (nb_block_metadata nb)) /\
      nb_peer_id nb ∈ [7; 8] /\ (nb_peer_id nb ∉ pb_peers b') /\
      pending_blocks b' = <[nb_peer_id nb := nb_block_metadata nb]> ∅
  | (b', None) => b' = ex_buffer /\ ([7; 8] = [] \/ missing_blocks ex_buffer = [])
  end.
Proof. exact (next_request ex_buffer ex_buffer_inv). Defined.

Lemma add_block_spec_witness :
  (PieceBuffer_add_block ex_buffer 7 (block_of ex_D (piece_block_at 3 20000 0))).2 =
  Err (BE_NotRequested 7 (block_of ex_D (piece_block_at 3 20000 0))).
Proof.
  pose proof (add_block_spec ex_buffer 7 (block_of ex_D (piece_block_at 3 20000 0))
    ex_buffer_inv) as Hs. exact (proj1 Hs).
Defined.

Lemma full_iff_nothing_left_witness :
  is_full_piece ex_two = true <-> missing_blocks ex_two = [] /\ pending_blocks ex_two = ∅.
Proof. apply (full_iff_nothing_left ex_two (ex_reachable 2)). Defined.

Lemma ex_two_full : is_full_piece ex_two = true.
Proof. by vm_compute. Qed.

Lemma ex_two_received : received_from ex_D ex_two.
Proof.
  apply Forall_forall. intros blk Hb. apply dec_stable. intros Hn.
  assert (forallb (fun blk => bool_decide (blk = block_of ex_D (block_metadata blk)))
            (pb_blocks ex_two).*2 = true) as Hall by by vm_compute.
  rewrite forallb_forall in Hall.
  apply list_elem_of_In, Hall, bool_decide_eq_true in Hb. done.
Qed.


Lemma drive_completes_witness :
  try_finalize_piece (Hasher := list byte) ex_two =
  Ok (Block_new (BlockMetadata_new 3 0 20000) ex_D).
Proof.
  apply (drive_completes 3 20000 0 [7; 8] ex_D);
    [unfold ex_D; by rewrite length_replicate | apply ex_NoDup | done].
Defined.
End PieceBufferWitnesses.
