(* ===== verification/Events.v ===== *)
(** * What the components tell each other and the user

    The results and the configuration of src/src/behavior.rs, the states of
    torrents and of their pool, and the messages of the disk manager. *)

From S2P Require Import Prelude Crates Util Message MetaInfo Block Peer DiskError PieceBuffer.

(** ** src/src/behavior.rs *)

Inductive SeedLeechConfig := SeedOnly | LeechOnly | SeedAndLeech.

#[export] Instance SeedLeechConfig_eq_dec : EqDecision SeedLeechConfig.
Proof. solve_decision. Defined.

Definition is_seed_only (c : SeedLeechConfig) : bool :=
  match c with SeedOnly => true | _ => false end.
Definition is_leech_only (c : SeedLeechConfig) : bool :=
  match c with LeechOnly => true | _ => false end.
Definition is_seed_and_leech (c : SeedLeechConfig) : bool :=
  match c with SeedAndLeech => true | _ => false end.
Definition is_seeding (c : SeedLeechConfig) : bool := negb (is_leech_only c).
Definition is_leeching (c : SeedLeechConfig) : bool := negb (is_seed_only c).
Definition SeedLeechConfig_default : SeedLeechConfig := SeedAndLeech.

(** The results that name a peer *)
Section Results.
Context (PeerId : Type) (Instant : Type).

Definition HandshakeOk : Type := PeerId.

Inductive HandshakeError :=
| HE_InfoHashMismatch (peer : PeerId) (torrent : option TorrentId)
| HE_InfoHashNotFound (peer : PeerId) (info_hash : ShaHash)
| HE_InvalidPeer (peer : PeerId) (torrent : option TorrentId)
| HE_Timeout (peer : PeerId).

Record BitfieldOk := mkBitfieldOk { bfo_torrent : TorrentId; bfo_peer : PeerId }.

Record ChokeOk := mkChokeOk {
  cho_torrent : TorrentId;
  cho_peer : PeerId;
  old_choke_ty : ChokeType;
  new_choke_ty : ChokeType;
}.

Inductive KeepAliveOk :=
| KA_Remote (torrent : TorrentId) (peer : PeerId) (old_heartbeat new_heartbeat : Instant)
| KA_Client (torrent : TorrentId) (peer : PeerId) (old_heartbeat new_heartbeat : Instant).

Inductive PeerError := PE_NotFound (peer : PeerId).

Inductive InterestOk := IO_Interested (peer : PeerId) | IO_NotInterested (peer : PeerId).

Record HaveOk := mkHaveOk { ho_peer : PeerId; ho_piece : Z }.

Inductive HaveErr := HV_NotFound (peer : PeerId) | HV_InvalidIndex (index : Z).

Record BlockOk := mkBlockOk {
  bo_peer : PeerId;
  bo_block_metadata : BlockMetadata;
  bo_torrent : TorrentId;
}.

Inductive SeedBlockOk :=
| SBO_Ok (ok : BlockOk)
| SBO_CancelledByRemote (peer : PeerId) (block_metadata : BlockMetadata).

Inductive SeedBlockErr :=
| SBE_RemoteNotAllowed (peer : PeerId) (block_metadata : BlockMetadata)
| SBE_NotFound (peer : PeerId).
End Results.
Arguments HE_InfoHashMismatch {PeerId}.
Arguments HE_InfoHashNotFound {PeerId}.
Arguments HE_InvalidPeer {PeerId}.
Arguments HE_Timeout {PeerId}.
Arguments mkBitfieldOk {PeerId}.
Arguments mkChokeOk {PeerId}.
Arguments KA_Remote {PeerId Instant}.
Arguments KA_Client {PeerId Instant}.
Arguments PE_NotFound {PeerId}.
Arguments IO_Interested {PeerId}.
Arguments IO_NotInterested {PeerId}.
Arguments mkHaveOk {PeerId}.
Arguments HV_NotFound {PeerId}.
Arguments HV_InvalidIndex {PeerId}.
Arguments mkBlockOk {PeerId}.
Arguments SBO_Ok {PeerId}.
Arguments SBO_CancelledByRemote {PeerId}.
Arguments SBE_RemoteNotAllowed {PeerId}.
Arguments SBE_NotFound {PeerId}.

(** ** [TorrentState] of src/src/peer/torrent.rs *)

Inductive TorrentState := Active | Paused | Stopped.

#[export] Instance TorrentState_eq_dec : EqDecision TorrentState.
Proof. solve_decision. Defined.

Definition TorrentState_is_active (s : TorrentState) : bool :=
  match s with Active => true | _ => false end.
Definition TorrentState_is_paused (s : TorrentState) : bool :=
  match s with Paused => true | _ => false end.
Definition TorrentState_is_stopped (s : TorrentState) : bool :=
  match s with Stopped => true | _ => false end.
Definition TorrentState_default : TorrentState := Paused.

Inductive TorrentAddedOk :=
| TA_NewSeed (torrent : TorrentId) (state : TorrentState)
| TA_NewLeech (torrent : TorrentId) (state : TorrentState).

Inductive TorrentAddedErr (Hasher : Type) :=
| TA_AlreadyExist (info_hash : ShaHash) (meta_info : MetaInfo Hasher).
Arguments TA_AlreadyExist {Hasher}.

(** ** [TorrentSeed] of src/src/disk/torrent.rs *)

Record TorrentSeed (Hasher : Type) := mkTorrentSeed {
  seed_path : PathBuf;
  seed_torrent : MetaInfo Hasher;
}.
Arguments mkTorrentSeed {Hasher}.
Arguments seed_path {Hasher}.
Arguments seed_torrent {Hasher}.

(** ** The configuration of the behaviour *)

Record BitTorrentConfig (Hasher : Type) := mkBitTorrentConfig {
  cfg_max_simultaneous_downloads : option Z;
  cfg_max_active_torrents : option Z;
  cfg_move_completed_downloads : option PathBuf;
  resume_leech : option (list PathBuf);
  files_to_seed : option (list (TorrentSeed Hasher));
  initial_piece_selection : option PieceSelection;
  peer_hash : option ShaHash;
}.
Arguments mkBitTorrentConfig {Hasher}.
Arguments cfg_max_simultaneous_downloads {Hasher}.
Arguments cfg_max_active_torrents {Hasher}.
Arguments cfg_move_completed_downloads {Hasher}.
Arguments resume_leech {Hasher}.
Arguments files_to_seed {Hasher}.
Arguments initial_piece_selection {Hasher}.
Arguments peer_hash {Hasher}.

Definition MAX_ACTIVE_TORRENTS : Z := 5.

Definition BitTorrentConfig_default {Hasher} : BitTorrentConfig Hasher :=
  {| cfg_max_simultaneous_downloads := Some MAX_ACTIVE_TORRENTS;
     cfg_max_active_torrents := Some MAX_ACTIVE_TORRENTS;
     initial_piece_selection := Some PieceSelection_default;
     cfg_move_completed_downloads := None;
     resume_leech := None;
     files_to_seed := None;
     peer_hash := None |}.

(** ** src/src/disk/message.rs *)

Inductive DiskMessageIn (Hasher : Type) :=
| DI_AddTorrent (id : TorrentId) (meta : MetaInfo Hasher)
| DI_RemoveTorrent (id : TorrentId)
| DI_MoveTorrent (id : TorrentId) (dest : PathBuf)
| DI_SyncTorrent (id : TorrentId)
| DI_ReadBlock (id : TorrentId) (metadata : BlockMetadata)
| DI_WriteBlock (id : TorrentId) (block : Block).
Arguments DI_AddTorrent {Hasher}.
Arguments DI_RemoveTorrent {Hasher}.
Arguments DI_MoveTorrent {Hasher}.
Arguments DI_SyncTorrent {Hasher}.
Arguments DI_ReadBlock {Hasher}.
Arguments DI_WriteBlock {Hasher}.

Inductive DiskMessageOut (Hasher : Type) :=
| DO_TorrentAdded (id : TorrentId)
| DO_TorrentRemoved (id : TorrentId) (meta : MetaInfo Hasher)
| DO_MovedTorrent (id : TorrentId) (dest : PathBuf)
| DO_TorrentSynced (id : TorrentId)
| DO_BlockRead (id : TorrentId) (block : BlockMut)
| DO_PieceWritten (id : TorrentId) (block : Block)
| DO_TorrentError (id : TorrentId) (err : TorrentError Hasher)
| DO_ReadBlockError (id : TorrentId) (err : TorrentError Hasher)
| DO_WriteBlockError (id : TorrentId) (err : TorrentError Hasher).
Arguments DO_TorrentAdded {Hasher}.
Arguments DO_TorrentRemoved {Hasher}.
Arguments DO_MovedTorrent {Hasher}.
Arguments DO_TorrentSynced {Hasher}.
Arguments DO_BlockRead {Hasher}.
Arguments DO_PieceWritten {Hasher}.
Arguments DO_TorrentError {Hasher}.
Arguments DO_ReadBlockError {Hasher}.
Arguments DO_WriteBlockError {Hasher}.
