(* ===== verification/TorrentFile.v ===== *)
(** * Torrent files

    The bencoded form of the metadata: the [ToBencode] and [FromBencode] parts
    of src/src/torrent/mod.rs, reading and writing torrent files, and the
    errors of src/src/error.rs that come up there. *)

From S2P Require Import Prelude Crates Strings Bencode BencodeText Util MetaInfo DiskError Events.
Local Open Scope Z_scope.

(** ** Encoding *)

#[export] Instance String_ToBencode : ToBencode string := {| MAX_DEPTH := 0; encode := BStr |}.

Definition encode_strings (l : list string) : bvalue := BList (BStr <$> l).

Definition DhtNode_encode (n : DhtNode) : bvalue := BList [BStr (host n); BInt (port n)].
#[export] Instance DhtNode_ToBencode : ToBencode DhtNode :=
  {| MAX_DEPTH := 1; encode := DhtNode_encode |}.

Definition SubFileInfo_encode (f : SubFileInfo) : bvalue :=
  BDict [(bytes_of "length", BInt (sub_length f)); (bytes_of "path", encode_strings (paths f))].
#[export] Instance SubFileInfo_ToBencode : ToBencode SubFileInfo :=
  {| MAX_DEPTH := 2; encode := SubFileInfo_encode |}.

Definition TorrentInfo_encode (i : TorrentInfo) : bvalue :=
  let content :=
    match content i with
    | Single length => (bytes_of "length", BInt length)
    | Multi files => (bytes_of "files", BList (SubFileInfo_encode <$> files))
    end in
  let data := pieces i ≫= hash in
  BDict [content; (bytes_of "name", BStr (name i)); (bytes_of "piece length", BInt (piece_length i));
         (bytes_of "pieces", BBytes data)].
#[export] Instance TorrentInfo_ToBencode : ToBencode TorrentInfo :=
  {| MAX_DEPTH := 3; encode := TorrentInfo_encode |}.

(** [if let Some(x) = x { e.emit_pair(key, x)? }] *)
Definition emit_some {A} (key : string) (enc : A -> bvalue) (o : option A) :
    list (list byte * bvalue) :=
  match o with Some a => [(bytes_of key, enc a)] | None => [] end.

(** [if !l.is_empty() { e.emit_pair(key, &l)? }] *)
Definition emit_list {A} (key : string) (enc : A -> bvalue) (l : list A) :
    list (list byte * bvalue) :=
  match l with [] => [] | _ => [(bytes_of key, BList (enc <$> l))] end.

Definition MetaInfo_encode {Hasher} (m : MetaInfo Hasher) : bvalue :=
  BDict (emit_some "announce" BStr (announce m) ++
         emit_list "announce list" BStr (announce_list m) ++
         emit_some "comment" BStr (comment m) ++
         emit_some "creation date" BInt (creation_date m) ++
         emit_some "encoding" BStr (encoding m) ++
         emit_list "httpseeds" BStr (httpseeds m) ++
         emit_list "nodes" DhtNode_encode (nodes m) ++
         emit_list "url-list" BStr (webseeds m) ++
         [(bytes_of "info", TorrentInfo_encode (info m))]).
#[export] Instance MetaInfo_ToBencode {Hasher} : ToBencode (MetaInfo Hasher) :=
  {| MAX_DEPTH := 3; encode := MetaInfo_encode |}.

(** ** Errors of the crate *)

Inductive Error (Hasher DecodingError EncodingError : Type) :=
| BendecodingError (err : DecodingError)
| BencodingError (err : EncodingError)
| E_Io (err : io_error)
| E_Torrent (err : TorrentError Hasher)
| E_Message (msg : string).
Arguments BendecodingError {Hasher DecodingError EncodingError}.
Arguments BencodingError {Hasher DecodingError EncodingError}.
Arguments E_Io {Hasher DecodingError EncodingError}.
Arguments E_Torrent {Hasher DecodingError EncodingError}.
Arguments E_Message {Hasher DecodingError EncodingError}.

(** [Error::message] *)
Definition Error_message {Hasher DecodingError EncodingError} (msg : string) :
    Error Hasher DecodingError EncodingError := E_Message msg.

(** [?] on a result with another error, by [From] *)
Definition map_err {A E F} (f : E -> F) (r : result A E) : result A F :=
  match r with Ok a => Ok a | Err e => Err (f e) end.

(** [std::fs]: what a program sees of the files. [std_read] is
    [File::open] and [read_to_end]; [std_create] truncates the file. *)
Class StdFs (S : Type) := {
  std_read : S -> PathBuf -> result (list byte) io_error;
  std_create : S -> PathBuf -> S * result unit io_error;
  std_write_all : S -> PathBuf -> list byte -> S * result unit io_error;
}.

Class StdFsLaws (S : Type) `{StdFs S} : Prop := {
  std_read_written s path s1 bytes s2 :
    std_create s path = (s1, Ok tt) -> std_write_all s1 path bytes = (s2, Ok tt) ->
    std_read s2 path = Ok bytes;
}.

(** ** Decoding *)

Section Decode.
Context `{Bendy DecodingError EncodingError} `{Sha1 Hasher}.
#[local] Abbreviation Obj := (Object DecodingError).
#[local] Abbreviation Res A := (result A DecodingError).

Definition decode_u32 : Obj -> Res Z := decode_int 0 (2 ^ 32).
Definition decode_u64 : Obj -> Res Z := decode_int 0 (2 ^ 64).
Definition decode_i64 : Obj -> Res Z := decode_int (- 2 ^ 63) (2 ^ 63).

Definition DhtNode_decode (object : Obj) : Res DhtNode :=
  '(list, err) ⇐ try_into_list object;
  '(host, list) ⇐ next_object list err;
  host ⇐ ok_or host (missing_field "host");
  host ⇐ decode_string host;
  '(port, list) ⇐ next_object list err;
  port ⇐ ok_or port (missing_field "port");
  port ⇐ decode_u32 port;
  Ok {| host := host; port := port |}.
#[export] Instance DhtNode_FromBencode : FromBencode DhtNode DecodingError :=
  {| EXPECTED_RECURSION_DEPTH := 1; decode_bencode_object := DhtNode_decode |}.

(** One round of the loop of [SubFileInfo::decode_bencode_object], on its
    variables [length] and [paths] *)
Definition SubFileInfo_field (vars : option Z * option (list string)) (pair : list byte * Obj) :
    Res (option Z * option (list string)) :=
  let '(len, ps) := vars in
  let '(key, value) := pair in
  if is_key key "length" then len ⇐ context "length" (decode_u64 value); Ok (Some len, ps)
  else if is_key key "path" then ps ⇐ decode_list decode_string [] value; Ok (len, Some ps)
  else Err (unexpected_field (from_utf8_lossy key)).

Definition SubFileInfo_decode (object : Obj) : Res SubFileInfo :=
  '(dict, err) ⇐ try_into_dictionary object;
  '(len, ps) ⇐ for_each SubFileInfo_field (None, None) dict err;
  len ⇐ ok_or len (missing_field "length");
  ps ⇐ ok_or ps (missing_field "paths");
  Ok {| sub_length := len; paths := ps |}.
#[export] Instance SubFileInfo_FromBencode : FromBencode SubFileInfo DecodingError :=
  {| EXPECTED_RECURSION_DEPTH := 2; decode_bencode_object := SubFileInfo_decode |}.

(** The variables of [TorrentInfo::decode_bencode_object] *)
Record InfoVars := mkInfoVars {
  v_name : option string;
  v_pieces : option (list ShaHash);
  v_piece_length : option Z;
  v_files : option (list SubFileInfo);
  v_length : option Z;
}.

(** [.chunks(SHA_HASH_LEN).map(TryInto::try_into).collect()] *)
Fixpoint collect_hashes (l : list (list byte)) : result (list ShaHash) unit :=
  match l with
  | [] => Ok []
  | chunk :: l' => h ⇐ ShaHash_try_from chunk; hs ⇐ collect_hashes l'; Ok (h :: hs)
  end.

Definition TorrentInfo_field (v : InfoVars) (pair : list byte * Obj) : Res InfoVars :=
  let '(key, value) := pair in
  let '(mkInfoVars name pieces piece_length files length) := v in
  if is_key key "name" || is_key key "name.utf-8" then
    name ⇐ context "name" (decode_string value);
    Ok (mkInfoVars (Some name) pieces piece_length files length)
  else if is_key key "piece length" then
    piece_length ⇐ context "piece length" (decode_u64 value);
    Ok (mkInfoVars name pieces (Some piece_length) files length)
  else if is_key key "pieces" then
    bytes ⇐ try_into_bytes value;
    pieces ⇐ map_err (fun _ => unexpected_field "malformed pieces chunks")
      (collect_hashes (chunks SHA_HASH_LEN bytes));
    Ok (mkInfoVars name (Some pieces) piece_length files length)
  else if is_key key "files" then
    if bool_decide (is_Some length) then Err (unexpected_field "files")
    else
      sub_files ⇐ decode_list SubFileInfo_decode [] value;
      Ok (mkInfoVars name pieces piece_length (Some sub_files) length)
  else if is_key key "length" then
    if bool_decide (is_Some files) then Err (unexpected_field "length")
    else
      length ⇐ context "length" (decode_u64 value);
      Ok (mkInfoVars name pieces piece_length files (Some length))
  else Ok v.

Definition TorrentInfo_decode (object : Obj) : Res TorrentInfo :=
  '(dict, err) ⇐ try_into_dictionary object;
  v ⇐ for_each TorrentInfo_field (mkInfoVars None None None None None) dict err;
  let content :=
    match v_length v, v_files v with
    | Some length, _ => Some (Single length)
    | None, Some files => Some (Multi files)
    | None, None => None
    end in
  name ⇐ ok_or (v_name v) (missing_field "name");
  piece_length ⇐ ok_or (v_piece_length v) (missing_field "pieces length");
  pieces ⇐ ok_or (v_pieces v) (missing_field "pieces");
  content ⇐ ok_or content (missing_field "length or files");
  Ok {| name := name; piece_length := piece_length; pieces := pieces; content := content |}.
#[export] Instance TorrentInfo_FromBencode : FromBencode TorrentInfo DecodingError :=
  {| EXPECTED_RECURSION_DEPTH := 3; decode_bencode_object := TorrentInfo_decode |}.

(** The variables of [MetaInfo::decode_bencode_object] *)
Record MetaVars := mkMetaVars {
  v_announce : option string;
  v_announce_list : list string;
  v_webseeds : list string;
  v_httpseeds : list string;
  v_encoding : option string;
  v_comment : option string;
  v_created_by : option string;
  v_creation_date : option Z;
  v_info : option TorrentInfo;
  v_info_hash : option Hasher;
  v_nodes : list DhtNode;
}.

Definition MetaInfo_field (v : MetaVars) (pair : list byte * Obj) : Res MetaVars :=
  let '(key, value) := pair in
  let '(mkMetaVars announce announce_list webseeds httpseeds encoding comment created_by
          creation_date info info_hash nodes) := v in
  if is_key key "announce" then
    announce ⇐ context "announce" (decode_string value);
    Ok (mkMetaVars (Some announce) announce_list webseeds httpseeds encoding comment created_by
          creation_date info info_hash nodes)
  else if is_key key "announce_list" then
    announce_list ⇐ decode_list decode_string announce_list value;
    Ok (mkMetaVars announce announce_list webseeds httpseeds encoding comment created_by
          creation_date info info_hash nodes)
  else if is_key key "url-list" then
    webseeds ⇐ decode_list decode_string webseeds value;
    Ok (mkMetaVars announce announce_list webseeds httpseeds encoding comment created_by
          creation_date info info_hash nodes)
  else if is_key key "httpseeds" then
    httpseeds ⇐ decode_list decode_string httpseeds value;
    Ok (mkMetaVars announce announce_list webseeds httpseeds encoding comment created_by
          creation_date info info_hash nodes)
  else if is_key key "nodes" then
    nodes ⇐ decode_list DhtNode_decode nodes value;
    Ok (mkMetaVars announce announce_list webseeds httpseeds encoding comment created_by
          creation_date info info_hash nodes)
  else if is_key key "comment" || is_key key "comment.utf-8" then
    comment ⇐ context "comment" (decode_string value);
    Ok (mkMetaVars announce announce_list webseeds httpseeds encoding (Some comment) created_by
          creation_date info info_hash nodes)
  else if is_key key "creation date" then
    creation_date ⇐ context "creation date" (decode_i64 value);
    Ok (mkMetaVars announce announce_list webseeds httpseeds encoding comment created_by
          (Some creation_date) info info_hash nodes)
  else if is_key key "encoding" then
    encoding ⇐ context "encoding" (decode_string value);
    Ok (mkMetaVars announce announce_list webseeds httpseeds (Some encoding) comment created_by
          creation_date info info_hash nodes)
  else if is_key key "created by" || is_key key "created by.utf-8" then
    created_by ⇐ context "created by" (decode_string value);
    Ok (mkMetaVars announce announce_list webseeds httpseeds encoding comment (Some created_by)
          creation_date info info_hash nodes)
  else if is_key key "info" then
    '(dict, err) ⇐ try_into_dictionary value;
    data ⇐ bendy_into_raw dict err;
    let info_hash := sha1_from data in
    info ⇐ context "info" (from_bencode data);
    Ok (mkMetaVars announce announce_list webseeds httpseeds encoding comment created_by
          creation_date (Some info) (Some info_hash) nodes)
  else Ok v.

Definition MetaInfo_decode (object : Obj) : Res (MetaInfo Hasher) :=
  '(dict, err) ⇐ try_into_dictionary object;
  v ⇐ for_each MetaInfo_field (mkMetaVars None [] [] [] None None None None None None []) dict err;
  info ⇐ ok_or (v_info v) (missing_field "info");
  info_hash ⇐ ok_or (v_info_hash v) (missing_field "info");
  Ok {| announce := v_announce v; announce_list := v_announce_list v; webseeds := v_webseeds v;
        httpseeds := v_httpseeds v; encoding := v_encoding v; comment := v_comment v;
        creation_date := v_creation_date v; created_by := v_created_by v; info := info;
        meta_info_hash := info_hash; nodes := v_nodes v |}.
#[export] Instance MetaInfo_FromBencode : FromBencode (MetaInfo Hasher) DecodingError :=
  {| EXPECTED_RECURSION_DEPTH := DEFAULT_MAX_DEPTH; decode_bencode_object := MetaInfo_decode |}.

(** ** Torrent files *)

(** [sha1_hash]: the hash of the bencoded form *)
Definition TorrentInfo_sha1_hash (i : TorrentInfo) :
    result Hasher (Error Hasher DecodingError EncodingError) :=
  data ⇐ map_err BencodingError (to_bencode i);
  Ok (sha1_from data).

Context `{StdFs Files}.

(** [from_torrent_file] *)
Definition from_torrent_file (fs : Files) (path : PathBuf) :
    result (MetaInfo Hasher) (Error Hasher DecodingError EncodingError) :=
  data ⇐ map_err E_Io (std_read fs path);
  map_err BendecodingError (from_bencode data).

(** [write_torrent_file] *)
Definition write_torrent_file (fs : Files) (m : MetaInfo Hasher) (path : PathBuf) :
    Files * result (list byte) (Error Hasher DecodingError EncodingError) :=
  match to_bencode m with
  | Err e => (fs, Err (BencodingError e))
  | Ok data =>
      let '(fs, created) := std_create fs path in
      match created with
      | Err e => (fs, Err (E_Io e))
      | Ok _ =>
          let '(fs, written) := std_write_all fs path data in
          match written with
          | Err e => (fs, Err (E_Io e))
          | Ok _ => (fs, Ok data)
          end
      end
  end.

(** [TorrentSeed::new] and [TorrentSeed::from_paths] of src/src/disk/torrent.rs *)
Definition TorrentSeed_new (path : PathBuf) (torrent : MetaInfo Hasher) : TorrentSeed Hasher :=
  {| seed_path := path; seed_torrent := torrent |}.

Definition TorrentSeed_from_paths (fs : Files) (path torrent : PathBuf) :
    result (TorrentSeed Hasher) (Error Hasher DecodingError EncodingError) :=
  meta ⇐ from_torrent_file fs torrent;
  Ok {| seed_path := path; seed_torrent := meta |}.
End Decode.

(** ** Specification *)

Definition is_some {A} (o : option A) : bool := match o with Some _ => true | None => false end.
Definition non_empty {A} (l : list A) : bool := match l with [] => false | _ => true end.

(** The values the types of the fields can hold *)
Definition DhtNode_typed (n : DhtNode) : Prop := is_str (host n) /\ is_u32 (port n).
Definition SubFileInfo_typed (f : SubFileInfo) : Prop :=
  is_u64 (sub_length f) /\ Forall is_str (paths f).
Definition TorrentInfo_typed (i : TorrentInfo) : Prop :=
  Forall ShaHash_wf (pieces i) /\ is_u64 (piece_length i) /\ is_str (name i) /\
  match content i with
  | Single length => is_u64 length
  | Multi files => Forall SubFileInfo_typed files
  end.
Definition MetaInfo_typed {Hasher} (m : MetaInfo Hasher) : Prop :=
  (forall s, announce m = Some s -> is_str s) /\ Forall is_str (announce_list m) /\
  (forall s, encoding m = Some s -> is_str s) /\ (forall s, comment m = Some s -> is_str s) /\
  (forall s, created_by m = Some s -> is_str s) /\
  (forall z, creation_date m = Some z -> - 2 ^ 63 <= z < 2 ^ 63) /\
  Forall is_str (httpseeds m) /\ Forall is_str (webseeds m) /\
  TorrentInfo_typed (info m) /\ Forall DhtNode_typed (nodes m).

(** What a torrent file keeps of the metadata *)
Definition stored {Hasher} (m : MetaInfo Hasher) (info_hash : Hasher) : MetaInfo Hasher :=
  {| announce := announce m; announce_list := []; encoding := encoding m; comment := comment m;
     created_by := None; creation_date := creation_date m; httpseeds := httpseeds m;
     webseeds := webseeds m; info := info m; nodes := nodes m; meta_info_hash := info_hash |}.

(** ** Lemmas *)

(** Decides which key of a pattern a key is. *)
Ltac keys :=
  repeat match goal with
  | |- context [is_key ?k ?s] =>
      let b := eval vm_compute in (is_key k s) in
      replace (is_key k s) with b by (vm_compute; reflexivity)
  end; cbn [orb].

Section TorrentFileLemmas.
Context `{BendyLaws DecodingError EncodingError} `{Sha1Laws Hasher}.
#[local] Abbreviation Obj := (Object DecodingError).
Implicit Types i : TorrentInfo.

Lemma DhtNode_roundtrip n :
  DhtNode_typed n -> DhtNode_decode (object_of (DhtNode_encode n) : Obj) = Ok n.
Proof.
  intros [Hs Hp]. unfold DhtNode_decode, DhtNode_encode. cbn [object_of BStr fmap list_fmap].
  cbn [try_into_list result_bind next_object ok_or].
  rewrite (decode_string_str _ Hs). cbn [result_bind next_object ok_or].
  unfold decode_u32. rewrite decode_int_ok by exact Hp. by destruct n.
Qed.

Lemma strings_roundtrip l acc :
  Forall is_str l ->
  decode_list decode_string acc (OList (object_of <$> (BStr <$> l)) None : Obj) = Ok (acc ++ l).
Proof.
  intros Hl. apply decode_list_ok. eapply Forall_impl; [exact Hl|]. apply decode_string_str.
Qed.

Lemma SubFileInfo_roundtrip f :
  SubFileInfo_typed f -> SubFileInfo_decode (object_of (SubFileInfo_encode f) : Obj) = Ok f.
Proof.
  intros [Hl Hp]. unfold SubFileInfo_decode, SubFileInfo_encode, encode_strings.
  cbn [object_of BStr fmap list_fmap try_into_dictionary result_bind for_each fst snd].
  unfold SubFileInfo_field at 1. keys. unfold decode_u64. rewrite decode_int_ok by exact Hl.
  cbn [context result_bind]. unfold SubFileInfo_field. keys.
  rewrite (strings_roundtrip _ [] Hp). by destruct f.
Qed.

Lemma collect_hashes_ok hs :
  Forall ShaHash_wf hs -> collect_hashes (hash <$> hs) = Ok hs.
Proof.
  induction 1 as [|h hs Hh _ IH]; [done|]. rewrite fmap_cons. cbn [collect_hashes].
  rewrite ShaHash_try_from_exact by done. cbn [result_bind]. rewrite IH. by destruct h.
Qed.

Lemma pieces_roundtrip hs :
  Forall ShaHash_wf hs -> collect_hashes (chunks SHA_HASH_LEN (hs ≫= hash)) = Ok hs.
Proof.
  intros Hhs. replace (hs ≫= hash) with (concat (hash <$> hs)).
  - rewrite chunks_concat; [by apply collect_hashes_ok|unfold SHA_HASH_LEN; lia|].
    by apply Forall_fmap.
  - clear Hhs. induction hs as [|h hs IH]; [done|]. rewrite fmap_cons, bind_cons. simpl. by rewrite IH.
Qed.

(** The pairs after the content *)
Lemma TorrentInfo_fields_roundtrip i files len :
  TorrentInfo_typed i ->
  for_each TorrentInfo_field (mkInfoVars None None None files len)
    ((fun kv => (kv.1, object_of kv.2 : Obj)) <$>
      [(bytes_of "name", BStr (name i)); (bytes_of "piece length", BInt (piece_length i));
       (bytes_of "pieces", BBytes (pieces i ≫= hash))]) None =
  Ok (mkInfoVars (Some (name i)) (Some (pieces i)) (Some (piece_length i)) files len).
Proof.
  intros (Hh & Hl & Hn & _). cbn [fmap list_fmap for_each fst snd object_of BStr].
  unfold TorrentInfo_field at 1. keys. rewrite (decode_string_str _ Hn).
  cbn [context result_bind]. unfold TorrentInfo_field at 1. keys. unfold decode_u64.
  rewrite decode_int_ok by exact Hl. cbn [context result_bind]. unfold TorrentInfo_field. keys.
  cbn [object_of BStr try_into_bytes result_bind]. by rewrite pieces_roundtrip.
Qed.

Lemma TorrentInfo_object_roundtrip i :
  TorrentInfo_typed i -> TorrentInfo_decode (object_of (TorrentInfo_encode i) : Obj) = Ok i.
Proof.
  intros Hi. pose proof (TorrentInfo_fields_roundtrip i) as Hf.
  pose proof Hi as (_ & _ & _ & Hc). unfold TorrentInfo_decode, TorrentInfo_encode.
  cbn [object_of]. rewrite fmap_cons. cbn [try_into_dictionary result_bind for_each].
  destruct i as [ps pl [len|files] nm]; cbn [content] in *; cbn [fst snd object_of].
  - unfold TorrentInfo_field at 1. keys. unfold decode_u64. rewrite decode_int_ok by exact Hc.
    rewrite bool_decide_false by (by intros []). cbn [context result_bind].
    by rewrite Hf.
  - unfold TorrentInfo_field at 1. keys. rewrite bool_decide_false by (by intros []).
    rewrite (decode_list_ok SubFileInfo_decode SubFileInfo_encode [] files).
    + cbn [result_bind app]. by rewrite Hf.
    + eapply Forall_impl; [exact Hc|]. apply SubFileInfo_roundtrip.
Qed.

(** *** The fields of [MetaInfo] *)

#[local] Abbreviation pairs l := ((fun kv => (kv.1, object_of kv.2 : Obj)) <$> l).

Ltac field :=
  cbn [emit_some emit_list fmap list_fmap for_each fst snd object_of BStr];
  unfold MetaInfo_field; keys; cbn [result_bind].

Lemma field_announce x al w h e c cb cd (i : option TorrentInfo) (ih : option Hasher) n :
  (forall s, x = Some s -> is_str s) ->
  for_each MetaInfo_field (mkMetaVars None al w h e c cb cd i ih n)
    (pairs (emit_some "announce" BStr x)) None = Ok (mkMetaVars x al w h e c cb cd i ih n).
Proof. intros Hx. destruct x; [|done]. field. by rewrite decode_string_str by auto. Qed.

Lemma field_announce_list x (v : MetaVars (Hasher := Hasher)) :
  for_each MetaInfo_field v (pairs (emit_list "announce list" BStr x)) None = Ok v.
Proof. destruct x; [done|]. destruct v. by field. Qed.

Lemma field_comment x a al w h e cb cd (i : option TorrentInfo) (ih : option Hasher) n :
  (forall s, x = Some s -> is_str s) ->
  for_each MetaInfo_field (mkMetaVars a al w h e None cb cd i ih n)
    (pairs (emit_some "comment" BStr x)) None = Ok (mkMetaVars a al w h e x cb cd i ih n).
Proof. intros Hx. destruct x; [|done]. field. by rewrite decode_string_str by auto. Qed.

Lemma field_creation_date x a al w h e c cb (i : option TorrentInfo) (ih : option Hasher) n :
  (forall z, x = Some z -> - 2 ^ 63 <= z < 2 ^ 63) ->
  for_each MetaInfo_field (mkMetaVars a al w h e c cb None i ih n)
    (pairs (emit_some "creation date" BInt x)) None = Ok (mkMetaVars a al w h e c cb x i ih n).
Proof.
  intros Hx. destruct x; [|done]. field. unfold decode_i64. by rewrite decode_int_ok by auto.
Qed.

Lemma field_encoding x a al w h c cb cd (i : option TorrentInfo) (ih : option Hasher) n :
  (forall s, x = Some s -> is_str s) ->
  for_each MetaInfo_field (mkMetaVars a al w h None c cb cd i ih n)
    (pairs (emit_some "encoding" BStr x)) None = Ok (mkMetaVars a al w h x c cb cd i ih n).
Proof. intros Hx. destruct x; [|done]. field. by rewrite decode_string_str by auto. Qed.

Lemma field_httpseeds x a al w e c cb cd (i : option TorrentInfo) (ih : option Hasher) n :
  Forall is_str x ->
  for_each MetaInfo_field (mkMetaVars a al w [] e c cb cd i ih n)
    (pairs (emit_list "httpseeds" BStr x)) None = Ok (mkMetaVars a al w x e c cb cd i ih n).
Proof.
  intros Hx. destruct x as [|s x]; [done|]. remember (s :: x) as l eqn:Hl.
  replace (emit_list "httpseeds" BStr l) with [(bytes_of "httpseeds", BList (BStr <$> l))]
    by (by subst l).
  field. by rewrite (strings_roundtrip l []) by done.
Qed.

(** The bytes of the info dictionary are read again, with their own depth. *)
Lemma field_info x data a al w h e c cb cd (i : option TorrentInfo) (ih : option Hasher) n :
  TorrentInfo_typed x -> to_bencode x = Ok data ->
  for_each MetaInfo_field (mkMetaVars a al w h e c cb cd i ih n)
    (pairs [(bytes_of "info", TorrentInfo_encode x)]) None =
  Ok (mkMetaVars a al w h e c cb cd (Some x) (Some (sha1_from data)) n).
Proof.
  intros Hx Hd. rewrite fmap_cons. cbn [for_each fst snd fmap list_fmap].
  unfold MetaInfo_field. keys.
  change (bendy_encode 3 (TorrentInfo_encode x) = Ok data) in Hd.
  pose proof Hd as Hraw. unfold TorrentInfo_encode at 1 in Hraw.
  apply bendy_into_raw_encoded in Hraw.
  unfold TorrentInfo_encode at 1. cbn [object_of try_into_dictionary result_bind].
  rewrite Hraw. cbn [result_bind]. unfold from_bencode.
  rewrite (bendy_decode_encode _ _ _ _ Hd).
  - cbn [result_bind].
    assert (decode_bencode_object (object_of (TorrentInfo_encode x) : Obj) = Ok x) as ->
      by exact (TorrentInfo_object_roundtrip x Hx).
    done.
  - apply (bendy_encode_ok 3 (TorrentInfo_encode x)).
    by rewrite Hd.
Qed.
End TorrentFileLemmas.

(** *** Depth and order of what is emitted *)

Lemma strings_depth l : (depth (encode_strings l) <= 1)%nat.
Proof. apply depth_list, Forall_fmap, Forall_forall. simpl. lia. Qed.

Lemma strings_sorted l : sorted (BList (BStr <$> l)) = true.
Proof. apply sorted_list, Forall_fmap, Forall_forall. done. Qed.

Lemma TorrentInfo_sorted i : sorted (TorrentInfo_encode i) = true.
Proof.
  apply sorted_dict. split; [by destruct (content i)|].
  repeat (constructor; [|]); try done. destruct (content i) as [|files]; [done|].
  apply sorted_list, Forall_fmap, Forall_forall. intros f _. apply sorted_dict.
  split; [done|]. repeat constructor. apply strings_sorted.
Qed.

(** Files have paths, so a torrent that has files is nested four deep. *)
Definition single (c : InfoContent) : bool :=
  match c with Multi (_ :: _) => false | _ => true end.

Lemma TorrentInfo_depth i :
  if single (content i) then (depth (TorrentInfo_encode i) <= 2)%nat
  else depth (TorrentInfo_encode i) = 4%nat.
Proof.
  assert (forall fs, (depth (BList (SubFileInfo_encode <$> fs)) <= 3)%nat) as Hf.
  { intros fs. apply depth_list, Forall_fmap, Forall_forall. intros f _.
    apply depth_dict. constructor; [simpl; lia|]. constructor; [apply strings_depth|constructor]. }
  unfold TorrentInfo_encode. destruct (content i) as [len|[|f fs]]; simpl single; [simpl; lia..|].
  apply Nat.le_antisymm.
  - apply depth_dict. constructor; [apply Hf|]. repeat (constructor; [simpl; lia|]). constructor.
  - cbn [depth foldr snd fmap list_fmap SubFileInfo_encode encode_strings]. lia.
Qed.

Lemma Forall_emit_some {A} (P : list byte * bvalue -> Prop) key (enc : A -> bvalue) o :
  (forall a, P (bytes_of key, enc a)) -> Forall P (emit_some key enc o).
Proof. intros HP. destruct o; simpl; [by constructor|constructor]. Qed.

Lemma Forall_emit_list {A} (P : list byte * bvalue -> Prop) key (enc : A -> bvalue) l :
  P (bytes_of key, BList (enc <$> l)) -> Forall P (emit_list key enc l).
Proof. intros HP. destruct l; simpl; [constructor|by constructor]. Qed.

Lemma emit_some_keys {A} key (enc : A -> bvalue) o :
  (emit_some key enc o).*1 = if is_some o then [bytes_of key] else [].
Proof. by destruct o. Qed.

Lemma emit_list_keys {A} key (enc : A -> bvalue) l :
  (emit_list key enc l).*1 = if non_empty l then [bytes_of key] else [].
Proof. by destruct l. Qed.

Lemma MetaInfo_keys {Hasher} (m : MetaInfo Hasher) :
  increasing (match MetaInfo_encode m with BDict l => l.*1 | _ => [] end) =
  negb (non_empty (nodes m)) && negb (non_empty (webseeds m)).
Proof.
  unfold MetaInfo_encode. rewrite !fmap_app, !emit_some_keys, !emit_list_keys.
  destruct (is_some (announce m)), (non_empty (announce_list m)), (is_some (comment m)),
    (is_some (creation_date m)), (is_some (encoding m)), (non_empty (httpseeds m)),
    (non_empty (nodes m)), (non_empty (webseeds m)); vm_compute; reflexivity.
Qed.

Section MetaInfoLemmas.
Context `{BendyLaws DecodingError EncodingError} `{Sha1Laws Hasher}.
Implicit Types m : MetaInfo Hasher.

Lemma MetaInfo_sorted m :
  nodes m = [] -> webseeds m = [] -> sorted (MetaInfo_encode m) = true.
Proof.
  intros Hn Hw. apply sorted_dict. split.
  - pose proof (MetaInfo_keys m) as Hk. rewrite Hn, Hw in Hk. exact Hk.
  - rewrite Hn, Hw. repeat apply Forall_app_2;
      try (by apply Forall_emit_some); try (apply Forall_emit_list, strings_sorted); try done.
    constructor; [apply TorrentInfo_sorted|constructor].
Qed.

Lemma MetaInfo_depth m :
  (depth (MetaInfo_encode m) <= 3)%nat <-> single (content (info m)) = true.
Proof.
  unfold MetaInfo_encode. rewrite depth_dict. pose proof (TorrentInfo_depth (info m)) as Hi. split.
  - rewrite !Forall_app, Forall_singleton. intros Hd.
    destruct (single _); [done|]. simpl snd in Hd. lia.
  - intros Hs. rewrite Hs in Hi.
    assert (forall l, depth (BList (BStr <$> l)) <= 2)%nat as Hl
      by (intros l; etrans; [apply strings_depth|lia]).
    repeat apply Forall_app_2;
      try (apply Forall_emit_some; simpl; lia); try (apply Forall_emit_list, Hl).
    + apply Forall_emit_list. apply depth_list, Forall_fmap, Forall_forall. simpl. lia.
    + by constructor.
Qed.

(** When the metadata is encoded, up to [MAX_DEPTH] and in the order of the keys *)
Lemma MetaInfo_encodes m :
  is_ok (to_bencode m) = true <->
  nodes m = [] /\ webseeds m = [] /\ single (content (info m)) = true.
Proof.
  change (to_bencode m) with (bendy_encode 3 (MetaInfo_encode m)).
  rewrite bendy_encode_ok, MetaInfo_depth. split.
  - intros [Hs Ho]. apply sorted_dict in Ho as [Hk _].
    pose proof (MetaInfo_keys m) as Hm. unfold MetaInfo_encode in Hm. rewrite Hk in Hm.
    destruct (nodes m), (webseeds m); done.
  - intros (Hn & Hw & Hs). split; [done|]. by apply MetaInfo_sorted.
Qed.

Lemma TorrentInfo_encodes i :
  single (content i) = true -> exists data, to_bencode i = Ok data.
Proof.
  intros Hs. destruct (to_bencode i) as [data|e] eqn:E; [by exists data|].
  change (bendy_encode 3 (TorrentInfo_encode i) = Err e) in E.
  assert (is_ok (bendy_encode 3 (TorrentInfo_encode i)) = true) as Hok; [|by rewrite E in Hok].
  apply bendy_encode_ok. pose proof (TorrentInfo_depth i) as Hd. rewrite Hs in Hd.
  split; [lia|apply TorrentInfo_sorted].
Qed.

(** What is read back of the metadata that were written *)
Lemma MetaInfo_roundtrip m b :
  MetaInfo_typed m -> to_bencode m = Ok b ->
  exists data, to_bencode (info m) = Ok data /\
    from_bencode b = Ok (stored m (sha1_from data)).
Proof.
  intros (Ha & _ & He & Hc & _ & Hd & Hh & _ & Hi & _) Hb.
  assert (is_ok (to_bencode m) = true) as Hok by (by rewrite Hb).
  apply MetaInfo_encodes in Hok as (Hn & Hw & Hs).
  destruct (TorrentInfo_encodes _ Hs) as [data Hdata]. exists data. split; [done|].
  unfold from_bencode. change (bendy_encode 3 (MetaInfo_encode m) = Ok b) in Hb.
  rewrite (bendy_decode_encode _ _ _ _ Hb); last first.
  { apply MetaInfo_depth in Hs. change (depth (MetaInfo_encode m) <= DEFAULT_MAX_DEPTH)%nat.
    rewrite bendy_default_depth. lia. }
  cbn [result_bind].
  change (MetaInfo_decode (object_of (MetaInfo_encode m)) = Ok (stored m (sha1_from data))).
  unfold MetaInfo_decode, MetaInfo_encode. rewrite Hn, Hw. cbn [object_of].
  cbn [try_into_dictionary result_bind]. rewrite !fmap_app.
  rewrite (for_each_app _ _ _ _ _ _ (field_announce _ _ _ _ _ _ _ _ _ _ _ Ha)).
  rewrite (for_each_app _ _ _ _ _ _ (field_announce_list _ _)).
  rewrite (for_each_app _ _ _ _ _ _ (field_comment _ _ _ _ _ _ _ _ _ _ _ Hc)).
  rewrite (for_each_app _ _ _ _ _ _ (field_creation_date _ _ _ _ _ _ _ _ _ _ _ Hd)).
  rewrite (for_each_app _ _ _ _ _ _ (field_encoding _ _ _ _ _ _ _ _ _ _ _ He)).
  rewrite (for_each_app _ _ _ _ _ _ (field_httpseeds _ _ _ _ _ _ _ _ _ _ _ Hh)).
  cbn [emit_list]. rewrite !fmap_nil, !app_nil_l.
  rewrite (field_info (info m) data) by done.
  cbn [result_bind v_info v_info_hash ok_or]. unfold stored. by rewrite Hn, Hw.
Qed.

(** The same through a file *)
Lemma torrent_file_read_back `{StdFsLaws Files} fs fs' m path data :
  MetaInfo_typed m ->
  write_torrent_file (EncodingError := EncodingError) fs m path = (fs', Ok data) ->
  exists d, to_bencode (info m) = Ok d /\
    from_torrent_file (EncodingError := EncodingError) fs' path = Ok (stored m (sha1_from d)).
Proof.
  intros Hm Hw. unfold write_torrent_file in Hw.
  destruct (to_bencode m) as [b|e] eqn:Eb; [|done].
  destruct (std_create fs path) as [fs1 [[]|e]] eqn:Ec; [|done].
  destruct (std_write_all fs1 path b) as [fs2 [[]|e]] eqn:Ew; [|done].
  injection Hw as -> ->. destruct (MetaInfo_roundtrip m data Hm Eb) as (d & Hd & Hr).
  exists d. split; [done|]. unfold from_torrent_file.
  rewrite (std_read_written _ _ _ _ _ Ec Ew). cbn [map_err result_bind]. by rewrite Hr.
Qed.

(** A seed is made from a torrent file that was written before. *)
Lemma seed_of_written_file `{StdFsLaws Files} fs fs' m path file data :
  MetaInfo_typed m ->
  write_torrent_file (EncodingError := EncodingError) fs m file = (fs', Ok data) ->
  exists d, to_bencode (info m) = Ok d /\
    TorrentSeed_from_paths (EncodingError := EncodingError) fs' path file =
      Ok (TorrentSeed_new path (stored m (sha1_from d))).
Proof.
  intros Hm Hw. destruct (torrent_file_read_back fs fs' m file data Hm Hw) as (d & Hd & Hr).
  exists d. split; [done|]. unfold TorrentSeed_from_paths. by rewrite Hr.
Qed.

(** Reading an object to its end means that all of it is there. *)
Lemma MetaInfo_decode_end o m : MetaInfo_decode o = Ok m -> exists l, o = ODict l None.
Proof.
  unfold MetaInfo_decode. intros Hm. inv_try Hm. destruct a as [l err]. inv_try Hm.
  apply for_each_no_err in Ha0 as ->. exists l. destruct o; try done. by injection Ha as -> ->.
Qed.

Lemma TorrentInfo_decode_end o i : TorrentInfo_decode o = Ok i -> exists l, o = ODict l None.
Proof.
  unfold TorrentInfo_decode. intros Hm. inv_try Hm. destruct a as [l err]. inv_try Hm.
  apply for_each_no_err in Ha0 as ->. exists l. destruct o; try done. by injection Ha as -> ->.
Qed.

(** An info dictionary that is deeper than the decoder of [TorrentInfo] goes is
    not read. *)
Lemma deep_info_fails d (li : list (list byte * bvalue)) data :
  bendy_encode d (BDict li) = Ok data -> (3 < depth (BDict li))%nat ->
  is_ok (from_bencode data : result TorrentInfo DecodingError) = false.
Proof.
  intros Hd Hdep. unfold from_bencode. destruct (bendy_decode _ data) as [o|e] eqn:Eo; [|done].
  cbn [result_bind]. destruct (decode_bencode_object o) as [i'|e] eqn:Ei; [|done].
  change (TorrentInfo_decode o = Ok i') in Ei. apply TorrentInfo_decode_end in Ei as [l ->].
  pose proof (bendy_decode_latched _ _ _ Eo) as Hc. simpl in Hc.
  apply (bendy_decode_deep _ _ _ _ _ Hd) in Eo; [|exact Hdep]. simpl in Eo. congruence.
Qed.

Lemma MetaInfo_field_deep_info v (li : list (list byte * bvalue)) :
  sorted (BDict li) = true -> (3 < depth (BDict li))%nat ->
  is_ok (MetaInfo_field v (bytes_of "info", object_of (BDict li))) = false.
Proof.
  intros Hs Hdep. destruct (bendy_encode (depth (BDict li)) (BDict li)) as [data|e] eqn:Ed; last first.
  { pose proof (proj2 (bendy_encode_ok (depth (BDict li)) (BDict li)) (conj (le_n _) Hs)) as Hok.
    by rewrite Ed in Hok. }
  destruct v. unfold MetaInfo_field. keys. cbn [object_of try_into_dictionary result_bind].
  rewrite (bendy_into_raw_encoded _ _ _ Ed). cbn [result_bind].
  pose proof (deep_info_fails _ _ _ Ed Hdep) as Hf. by destruct (from_bencode data).
Qed.

(** A torrent file with a deep info dictionary is not read: either the depth
    of the file is allowed, and the field "info" fails, or it is not, and the
    decoder does not come to the end. *)
Lemma deep_info_never_read d l li b :
  bendy_encode d (BDict l) = Ok b -> (bytes_of "info", BDict li) ∈ l ->
  (3 < depth (BDict li))%nat ->
  is_ok (from_bencode b : result (MetaInfo Hasher) DecodingError) = false.
Proof.
  intros Hb Hin Hdep. unfold from_bencode. destruct (bendy_decode _ b) as [o|e] eqn:Eo; [|done].
  cbn [result_bind]. destruct (decode_bencode_object o) as [m|e] eqn:Em; [exfalso|done].
  change (MetaInfo_decode o = Ok m) in Em.
  destruct (Nat.le_gt_cases (depth (BDict l)) DEFAULT_MAX_DEPTH) as [Hle|Hgt].
  - change (bendy_decode DEFAULT_MAX_DEPTH b = Ok o) in Eo.
    rewrite (bendy_decode_encode _ _ _ _ Hb Hle) in Eo. injection Eo as <-.
    unfold MetaInfo_decode in Em. cbn [object_of try_into_dictionary result_bind] in Em. inv_try Em.
    eapply for_each_elem with (x := (bytes_of "info", object_of (BDict li))) in Ha
      as (v1 & v2 & Hv); [|apply list_elem_of_fmap; by exists (bytes_of "info", BDict li)].
    assert (sorted (BDict l) = true) as [_ Hs]%sorted_dict
      by (apply (bendy_encode_ok d); by rewrite Hb).
    rewrite Forall_forall in Hs. specialize (Hs _ Hin).
    pose proof (MetaInfo_field_deep_info v1 li Hs Hdep) as Hf. by rewrite Hv in Hf.
  - apply MetaInfo_decode_end in Em as [lo ->].
    pose proof (bendy_decode_latched _ _ _ Eo) as Hc. simpl in Hc.
    apply (bendy_decode_deep _ _ _ _ _ Hb) in Eo; [|exact Hgt]. simpl in Eo. congruence.
Qed.
End MetaInfoLemmas.

(** ** Properties *)

Section TorrentFileProperties.
Context `{BendyLaws DecodingError EncodingError} `{Sha1Laws Hasher} `{StdFsLaws Files}.
Implicit Types m : MetaInfo Hasher.
#[local] Abbreviation Err_t := (Error Hasher DecodingError EncodingError).

(** C16: A torrent file that was written is read back: the metadata with the
    hash of the bencoded info as info hash. The list of trackers and the
    creator are lost: the encoder writes the list under another key than the
    decoder looks for, and does not write the creator at all. *)
Theorem torrent_file_roundtrip fs fs' m path data :
  MetaInfo_typed m -> write_torrent_file fs m path = (fs', Ok data) ->
  exists info_hash, TorrentInfo_sha1_hash (info m) = Ok info_hash :> result Hasher Err_t /\
    from_torrent_file fs' path = Ok (stored m info_hash) :> result _ Err_t.
Proof.
  intros Hm Hw. destruct (torrent_file_read_back fs fs' m path data Hm Hw) as (d & Hd & Hr).
  exists (sha1_from d). split; [|exact Hr]. unfold TorrentInfo_sha1_hash. by rewrite Hd.
Qed.

(** C39: Torrents with files in a directory, with DHT nodes or with web seeds are
    never written: their metadata are nested deeper than [MAX_DEPTH], or the
    keys "nodes" and "url-list" are emitted before "info".  All others are
    encoded. *)
Theorem encoding_fails_iff fs m path :
  (exists data, to_bencode m = Ok data) /\ nodes m = [] /\ webseeds m = [] /\
    single (content (info m)) = true \/
  (exists e, write_torrent_file fs m path = (fs, Err (BencodingError e) : result _ Err_t)) /\
    (nodes m <> [] \/ webseeds m <> [] \/ single (content (info m)) = false).
Proof.
  pose proof (MetaInfo_encodes m) as Hok. unfold write_torrent_file.
  destruct (to_bencode m) as [data|e] eqn:E; simpl in Hok.
  - left. split; [by exists data|]. by apply Hok.
  - right. split; [by exists e|]. destruct (nodes m) as [|n ns]; [|by left].
    destruct (webseeds m) as [|w ws]; [|by right; left]. right. right.
    destruct (single _); [|done]. by destruct Hok as [_ Hok]; discriminate Hok.
Qed.

(** C38: No torrent file with a file in a directory is read, whoever wrote it
    and whatever other keys it has: when its info dictionary lists, under
    "files", a dictionary with a list of names under "path", [from_bencode]
    fails, because the info dictionary is decoded up to the depth 3 and these
    names are in depth 4. The file is any that can be written in bencode with
    the keys of its dictionaries in order, with any depth. *)
Theorem multi_file_never_read d l li fl el pl b :
  bendy_encode d (BDict l) = Ok b ->
  (bytes_of "info", BDict li) ∈ l -> (bytes_of "files", BList fl) ∈ li ->
  BDict el ∈ fl -> (bytes_of "path", BList pl) ∈ el ->
  exists e, from_bencode b = Err e :> result (MetaInfo Hasher) DecodingError.
Proof.
  intros Hb Hi Hf He Hp. pose proof (deep_info_never_read d l li b Hb Hi) as Hr.
  destruct (from_bencode b) as [m|e]; [|by exists e]. exfalso.
  pose proof (depth_in_dict _ _ _ Hf). pose proof (depth_in_list _ _ He).
  pose proof (depth_in_dict _ _ _ Hp).
  assert (1 <= depth (BList pl))%nat by (simpl; lia). discriminate Hr. lia.
Qed.
End TorrentFileProperties.

(** ** Witnesses *)

(** Files in memory *)
Definition memory_files : StdFs (gmap string (list byte)) := {|
  std_read fs path := ok_or (fs !! path) (io_Error Other "not found");
  std_create fs path := (<[path := []]> fs, Ok tt);
  std_write_all fs path bytes := (<[path := default [] (fs !! path) ++ bytes]> fs, Ok tt);
|}.

Lemma memory_files_laws : StdFsLaws (H := memory_files) (gmap string (list byte)).
Proof.
  split. intros s path s1 bytes s2 [= <-] [= <-]. simpl.
  by rewrite lookup_insert_eq, lookup_insert_eq.
Qed.

Section TorrentFileWitnesses.
#[local] Existing Instances text_bendy text_bendy_laws toy_sha1 toy_sha1_laws memory_files memory_files_laws.

Definition ex_file_info : TorrentInfo :=
  {| pieces := [ex_hash 1; ex_hash 2]; piece_length := 32768; content := Single 40000;
     name := "file" |}.
Definition ex_file_meta : MetaInfo (list byte) :=
  {| announce := Some "http://a"; announce_list := ["http://b"]; encoding := None;
     comment := Some "c"; created_by := Some "me"; creation_date := Some 1520682848;
     httpseeds := ["http://s"]; webseeds := []; info := ex_file_info; nodes := [];
     meta_info_hash := [] |}.

Lemma ex_file_meta_typed : MetaInfo_typed ex_file_meta.
Proof.
  split_and!; simpl; try (by intros ? [= <-]); try done; try (by repeat constructor).
Qed.

Definition ex_written : gmap string (list byte) :=
  (write_torrent_file (EncodingError := string) ∅ ex_file_meta "f").1.

Lemma torrent_file_roundtrip_witness :
  exists info_hash,
    from_torrent_file (Hasher := list byte) ex_written "f" =
      Ok (stored ex_file_meta info_hash) :> result _ (Error _ string string).
Proof.
  destruct (torrent_file_roundtrip (Files := gmap string (list byte)) ∅ ex_written ex_file_meta "f"
    (print (encode ex_file_meta)) ex_file_meta_typed) as (h & _ & Hr).
  - vm_compute. reflexivity.
  - by exists h.
Defined.

(** Metadata with a DHT node *)
Definition ex_node_meta : MetaInfo (list byte) :=
  {| announce := None; announce_list := []; encoding := None; comment := None; created_by := None;
     creation_date := None; httpseeds := []; webseeds := []; info := ex_file_info;
     nodes := [{| host := "h"; port := 6881 |}]; meta_info_hash := [] |}.

Lemma encoding_fails_iff_witness :
  exists e, write_torrent_file (∅ : gmap string (list byte)) ex_node_meta "f" =
    (∅, Err (BencodingError e) : result _ (Error _ string string)).
Proof.
  destruct (encoding_fails_iff (Files := gmap string (list byte)) ∅ ex_node_meta "f")
    as [(_ & Hn & _)|[He _]]; [discriminate Hn|exact He].
Defined.

(** A directory with one file, written by another program, with keys of its own *)
Definition ex_dir_file : list (list byte * bvalue) :=
  [(bytes_of "length", BInt 40000); (bytes_of "md5sum", BStr "0123");
   (bytes_of "path", BList [BStr "a"; BStr "b"])].
Definition ex_dir_info : list (list byte * bvalue) :=
  [(bytes_of "files", BList [BDict ex_dir_file]); (bytes_of "name", BStr "dir");
   (bytes_of "piece length", BInt 32768); (bytes_of "pieces", BBytes (hash (ex_hash 1)));
   (bytes_of "private", BInt 1)].
Definition ex_dir_pairs : list (list byte * bvalue) :=
  [(bytes_of "announce", BStr "http://a"); (bytes_of "info", BDict ex_dir_info)].

Lemma multi_file_never_read_witness :
  exists e, from_bencode (print (BDict ex_dir_pairs)) =
    Err e :> result (MetaInfo (list byte)) string.
Proof.
  eapply (multi_file_never_read 5 ex_dir_pairs ex_dir_info [BDict ex_dir_file] ex_dir_file
    [BStr "a"; BStr "b"]).
  - vm_compute. reflexivity.
  - right. left.
  - left.
  - left.
  - right. right. left.
Defined.
End TorrentFileWitnesses.
