(* ===== verification/Tracker.v ===== *)
(** * Announcing to a tracker

    The requests and responses of src/src/tracker.rs, their bencoded form, and
    the messages of src/src/proto/tracker.rs. *)

From S2P Require Import Prelude Crates Strings Bencode BencodeText Util MetaInfo DiskError.
From S2P Require Import TorrentFile Peer.
Local Open Scope Z_scope.

(** ** Data *)

(** [libp2p_core::PeerId]: its bytes, and what is parsed from a text *)
Class PeerIdText (PeerId : Type) := {
  peer_id_bytes : PeerId -> list byte;
  peer_id_parse : string -> result PeerId string;
}.

Inductive PeerEvent := Started | Completed | Stopped.

Definition PeerEvent_as_str (e : PeerEvent) : string :=
  match e with Started => "started" | Completed => "completed" | Stopped => "stopped" end.

Record PeerResponse (PeerId : Type) := mkPeerResponse {
  pr_identifier : ShaHash;
  pr_peer_id : PeerId;
}.

Inductive TrackerResponse (PeerId : Type) :=
| TR_Success (interval : Z) (peers : list (PeerResponse PeerId))
| TR_Failure (reason : string).

Record TrackerRequest (PeerId : Type) := mkTrackerRequest {
  tr_info_hash : ShaHash;
  tr_bittorrent_peer_id : ShaHash;
  tr_libp2p_peer_id : PeerId;
  tr_uploaded : Z;
  tr_downloaded : Z;
  tr_left : Z;
  tr_event : option PeerEvent;
}.
Arguments mkTrackerRequest {PeerId}.
Arguments tr_info_hash {PeerId}.
Arguments tr_bittorrent_peer_id {PeerId}.
Arguments tr_libp2p_peer_id {PeerId}.
Arguments tr_uploaded {PeerId}.
Arguments tr_downloaded {PeerId}.
Arguments tr_left {PeerId}.
Arguments tr_event {PeerId}.

Record TrackerRequestBuilder (PeerId : Type) := mkTrackerRequestBuilder {
  trb_info_hash : option ShaHash;
  trb_bittorrent_peer_id : option ShaHash;
  trb_libp2p_peer_id : option PeerId;
  trb_uploaded : option Z;
  trb_downloaded : option Z;
  trb_left : option Z;
  trb_event : option PeerEvent;
}.
Arguments mkTrackerRequestBuilder {PeerId}.
Arguments trb_info_hash {PeerId}.
Arguments trb_bittorrent_peer_id {PeerId}.
Arguments trb_libp2p_peer_id {PeerId}.
Arguments trb_uploaded {PeerId}.
Arguments trb_downloaded {PeerId}.
Arguments trb_left {PeerId}.
Arguments trb_event {PeerId}.

(** *** proto/tracker.rs *)

Inductive EventType := ET_Started | ET_Completed | ET_Stopped.

(** [event as isize] *)
Definition EventType_code (e : EventType) : Z :=
  match e with ET_Started => 1 | ET_Completed => 2 | ET_Stopped => 3 end.

Record TrackerRequestMsg (BV Instant : Type) := mkTrackerRequestMsg {
  trm_info_hash : ShaHash;
  trm_peer : BitTorrentPeer BV Instant;
  trm_uploaded : Z;
  trm_downloaded : Z;
  trm_left : Z;
  trm_numwant : Z;
  trm_event : option EventType;
}.

Inductive TrackerResponseMsg (BV Instant Duration : Type) :=
| TRM_Failure (reason : string)
| TRM_Success (complete incomplete : Z) (interval : Instant) (min_interval : option Duration)
    (peers : list (BitTorrentPeer BV Instant)).

Inductive PeerInfoFormat := NotCompact | Compact.

(** ** Operations *)

Section Tracker.
Context `{PeerIdText PeerId}.
#[local] Abbreviation Builder := (TrackerRequestBuilder PeerId).
#[local] Abbreviation Request := (TrackerRequest PeerId).
Implicit Types b : Builder.

(** [TrackerRequest::new] *)
Definition TrackerRequest_new (info_hash bittorrent_peer_id : ShaHash) (libp2p_peer_id : PeerId)
    (left : Z) : Request :=
  mkTrackerRequest info_hash bittorrent_peer_id libp2p_peer_id 0 0 left None.

Definition TrackerRequestBuilder_default : Builder :=
  mkTrackerRequestBuilder None None None None None None None.

(** [TrackerRequest::builder] *)
Definition TrackerRequest_builder : Builder := TrackerRequestBuilder_default.

Definition trb_set_info_hash (x : ShaHash) b : Builder :=
  mkTrackerRequestBuilder (Some x) (trb_bittorrent_peer_id b) (trb_libp2p_peer_id b)
    (trb_uploaded b) (trb_downloaded b) (trb_left b) (trb_event b).
Definition trb_set_bittorrent_peer_id (x : ShaHash) b : Builder :=
  mkTrackerRequestBuilder (trb_info_hash b) (Some x) (trb_libp2p_peer_id b)
    (trb_uploaded b) (trb_downloaded b) (trb_left b) (trb_event b).
Definition trb_set_libp2p_peer_id (x : PeerId) b : Builder :=
  mkTrackerRequestBuilder (trb_info_hash b) (trb_bittorrent_peer_id b) (Some x)
    (trb_uploaded b) (trb_downloaded b) (trb_left b) (trb_event b).
Definition trb_set_uploaded (x : Z) b : Builder :=
  mkTrackerRequestBuilder (trb_info_hash b) (trb_bittorrent_peer_id b) (trb_libp2p_peer_id b)
    (Some x) (trb_downloaded b) (trb_left b) (trb_event b).
Definition trb_set_downloaded (x : Z) b : Builder :=
  mkTrackerRequestBuilder (trb_info_hash b) (trb_bittorrent_peer_id b) (trb_libp2p_peer_id b)
    (trb_uploaded b) (Some x) (trb_left b) (trb_event b).
Definition trb_set_left (x : Z) b : Builder :=
  mkTrackerRequestBuilder (trb_info_hash b) (trb_bittorrent_peer_id b) (trb_libp2p_peer_id b)
    (trb_uploaded b) (trb_downloaded b) (Some x) (trb_event b).
Definition trb_set_event (x : PeerEvent) b : Builder :=
  mkTrackerRequestBuilder (trb_info_hash b) (trb_bittorrent_peer_id b) (trb_libp2p_peer_id b)
    (trb_uploaded b) (trb_downloaded b) (trb_left b) (Some x).

(** [build] *)
Definition TrackerRequest_build b : result Request string :=
  info_hash ⇐ ok_or (trb_info_hash b) "info_hash must be initialized.";
  bittorrent_peer_id ⇐
    ok_or (trb_bittorrent_peer_id b) "bittorrent_peer_id must be initialized.";
  libp2p_peer_id ⇐ ok_or (trb_libp2p_peer_id b) "libp2p_peer_id must be initialized.";
  uploaded ⇐ ok_or (trb_uploaded b) "uploaded must be initialized.";
  downloaded ⇐ ok_or (trb_downloaded b) "downloaded must be initialized.";
  left ⇐ ok_or (trb_downloaded b) "left must be initialized.";
  Ok (mkTrackerRequest info_hash bittorrent_peer_id libp2p_peer_id uploaded downloaded left
        (trb_event b)).

(** [encode]; the results of the pairs are dropped, but the errors of an
    encoder stay. *)
Definition TrackerRequest_encode (r : Request) : bvalue :=
  BDict [(bytes_of "info_hash", BBytes (hash (tr_info_hash r)));
         (bytes_of "peer_id", BBytes (hash (tr_bittorrent_peer_id r)));
         (bytes_of "libp2p_peer_ip", BBytes (peer_id_bytes (tr_libp2p_peer_id r)));
         (bytes_of "uploaded", BInt (tr_uploaded r));
         (bytes_of "downloaded", BInt (tr_downloaded r));
         (bytes_of "left", BInt (tr_downloaded r));
         (bytes_of "event", BStr (match tr_event r with Some e => PeerEvent_as_str e | None => "empty" end))].
#[export] Instance TrackerRequest_ToBencode : ToBencode Request :=
  {| MAX_DEPTH := 1; encode := TrackerRequest_encode |}.

Context `{Bendy DecodingError EncodingError}.
#[local] Abbreviation Obj := (Object DecodingError).

(** One round of the loop of [decode_bencode_object] *)
Definition TrackerRequest_field (b : Builder) (pair : list byte * Obj) :
    result Builder DecodingError :=
  let '(key, value) := pair in
  if is_key key "info_hash" then
    bytes ⇐ try_into_bytes value;
    info_hash ⇐ map_err (fun _ => unexpected_field "malformed info_hash") (ShaHash_try_from bytes);
    Ok (trb_set_info_hash info_hash b)
  else if is_key key "bittorrent_peer_id" then
    bytes ⇐ try_into_bytes value;
    id ⇐ map_err (fun _ => unexpected_field "malformed info_hash") (ShaHash_try_from bytes);
    Ok (trb_set_bittorrent_peer_id id b)
  else if is_key key "libp2p_peer_ip" then
    text ⇐ context "libp2p_peer_ip" (decode_string value);
    peer_id ⇐ map_err missing_field (peer_id_parse text);
    Ok (trb_set_libp2p_peer_id peer_id b)
  else if is_key key "uploaded" then
    n ⇐ context "uploaded" (decode_u64 value); Ok (trb_set_uploaded n b)
  else if is_key key "downloaded" then
    n ⇐ context "downloaded" (decode_u64 value); Ok (trb_set_downloaded n b)
  else if is_key key "left" then
    n ⇐ context "left" (decode_u64 value); Ok (trb_set_left n b)
  else
    match from_utf8 key with
    | Some s => Err (unexpected_field s)
    | None => Err (unexpected_field (utf8_error_text key))
    end.

Definition TrackerRequest_decode (object : Obj) : result Request DecodingError :=
  '(dict, err) ⇐ try_into_dictionary object;
  b ⇐ for_each TrackerRequest_field TrackerRequestBuilder_default dict err;
  map_err missing_field (TrackerRequest_build b).
#[export] Instance TrackerRequest_FromBencode : FromBencode Request DecodingError :=
  {| EXPECTED_RECURSION_DEPTH := 1; decode_bencode_object := TrackerRequest_decode |}.
End Tracker.

(** ** Lemmas *)

Lemma TrackerRequest_build_left {PeerId} (b : TrackerRequestBuilder PeerId) r :
  TrackerRequest_build b = Ok r ->
  tr_left r = tr_downloaded r /\ trb_downloaded b = Some (tr_downloaded r) /\
  tr_event r = trb_event b.
Proof.
  destruct b as [[i|] [j|] [p|] [u|] [d|] l e]; unfold TrackerRequest_build; simpl; try done.
  by intros [= <-].
Qed.

(** ** Properties *)

Section TrackerProperties.
Context `{PeerIdText PeerId} `{BendyLaws DecodingError EncodingError}.

(** C40: No announcement is ever sent: the encoder emits "libp2p_peer_ip" behind
    "peer_id", which is out of order, so every request fails to encode. *)
Theorem announcements_never_encoded (r : TrackerRequest PeerId) :
  exists e, to_bencode r = Err e :> result _ EncodingError.
Proof.
  destruct (to_bencode r) as [b|e] eqn:E; [|by exists e].
  assert (is_ok (bendy_encode 1 (TrackerRequest_encode r)) = true) as Hok
    by (change (bendy_encode 1 (TrackerRequest_encode r) = Ok b) in E; by rewrite E).
  apply bendy_encode_ok in Hok as [_ Hs]. by apply sorted_dict in Hs as [Hs _].
Qed.

(** And no decoder of the crate takes the pairs the encoder emits: it
    does not know the key "peer_id". *)
Theorem announcements_never_decoded (r : TrackerRequest PeerId) :
  ShaHash_wf (tr_info_hash r) ->
  TrackerRequest_decode (object_of (TrackerRequest_encode r) : Object DecodingError) =
  Err (unexpected_field "peer_id").
Proof.
  intros Hr. unfold TrackerRequest_decode, TrackerRequest_encode.
  cbn [object_of fmap list_fmap try_into_dictionary result_bind for_each fst snd].
  unfold TrackerRequest_field at 1. keys. cbn [try_into_bytes result_bind].
  rewrite ShaHash_try_from_exact by done. cbn [map_err result_bind].
  unfold TrackerRequest_field at 1. keys. by vm_compute (from_utf8 _).
Qed.

(** Whatever a remote announces to be left, the request that is decoded says
    that as much is left as was downloaded, and it never names an event. *)
Theorem left_is_downloaded o (r : TrackerRequest PeerId) :
  TrackerRequest_decode (o : Object DecodingError) = Ok r ->
  tr_left r = tr_downloaded r /\ tr_event r = None.
Proof.
  unfold TrackerRequest_decode. intros Hr. inv_try Hr. destruct a as [dict err]. inv_try Hr.
  destruct (TrackerRequest_build a) as [r'|e] eqn:Eb; [|done]. injection Hr as ->.
  apply TrackerRequest_build_left in Eb as (Hl & _ & He). split; [done|]. rewrite He.
  clear -Ha0. revert Ha0.
  assert (trb_event (TrackerRequestBuilder_default (PeerId := PeerId)) = None) as Hd by done.
  revert Hd. generalize (TrackerRequestBuilder_default (PeerId := PeerId)).
  induction dict as [|[k v] dict IH]; intros b Hb; cbn [for_each].
  - destruct err; [done|]. by intros [= ->].
  - intros (b1 & Hb1 & Hf)%result_bind_Ok. eapply IH; [|exact Hf]. revert Hb1. unfold TrackerRequest_field.
    repeat (case_match; try done); intros Hs; repeat (inv_try Hs); by injection Hs as <-.
Qed.
End TrackerProperties.

(** ** Witnesses *)

Section TrackerWitnesses.
#[local] Existing Instances text_bendy text_bendy_laws.

(** Peers that are named by any text *)
#[local] Instance text_peer : PeerIdText string :=
  {| peer_id_bytes := bytes_of; peer_id_parse s := Ok s |}.

Definition ex_request : TrackerRequest string :=
  TrackerRequest_new (ex_hash 1) (ex_hash 2) "peer" 40000.

Lemma announcements_never_encoded_witness : exists e, to_bencode ex_request = Err e.
Proof. apply announcements_never_encoded. Defined.

Lemma announcements_never_decoded_witness :
  TrackerRequest_decode (object_of (TrackerRequest_encode ex_request) : Object string) =
  Err (unexpected_field "peer_id").
Proof.
  apply (announcements_never_decoded (DecodingError := string) (EncodingError := string) ex_request).
  reflexivity.
Defined.

(** A request with the keys the decoder knows, that says 40000 bytes are left *)
Definition ex_announcement : Object string :=
  ODict [(bytes_of "info_hash", OBytes (hash (ex_hash 1)));
         (bytes_of "bittorrent_peer_id", OBytes (hash (ex_hash 2)));
         (bytes_of "libp2p_peer_ip", OBytes (bytes_of "peer"));
         (bytes_of "uploaded", OInteger 5); (bytes_of "downloaded", OInteger 7);
         (bytes_of "left", OInteger 40000)] None.

Lemma left_is_downloaded_witness :
  tr_left (mkTrackerRequest (ex_hash 1) (ex_hash 2) "peer" 5 7 7 None) = 7.
Proof.
  apply (left_is_downloaded ex_announcement (mkTrackerRequest (ex_hash 1) (ex_hash 2) "peer" 5 7 7 None)).
  vm_compute. reflexivity.
Defined.
End TrackerWitnesses.
