(* ===== verification/Builder.v ===== *)
(** * Building metadata

    [TorrentBuilder] of src/src/torrent/builder.rs: the metadata of a file or of
    a directory, with the hashes of its pieces. *)

From S2P Require Import Prelude Crates Strings Bencode BencodeText Util Message MetaInfo.
From S2P Require Import DiskError TorrentFile.
Local Open Scope Z_scope.

(** ** The files of the system *)

(** [walkdir::DirEntry]; a name that is no text is none. *)
Record DirEntry := mkDirEntry {
  de_path : PathBuf;
  de_file_name : option string;
  de_is_file : bool;
}.

(** An open file: the bytes that are left, and the error behind them, if it is
    not the end of the file *)
Definition OpenFile : Type := list byte * option io_error.

(** [std::fs] as far as it is read here, and [walkdir]: [walk root keep] is
    what [WalkDir::new(root).into_iter().filter_entry(keep)] yields. *)
Class FileTree := {
  (** [path.metadata()?.len()] *)
  path_len : PathBuf -> result Z io_error;
  path_is_dir : PathBuf -> bool;
  open_file : PathBuf -> result OpenFile io_error;
  walk : PathBuf -> (DirEntry -> bool) -> list (result DirEntry io_error);
  (** [entry.metadata()?.len()] *)
  entry_len : DirEntry -> result Z io_error;
}.

(** [filter_entry] does not descend into a directory that is not kept, the
    first one included. *)
Class FileTreeLaws `{FileTree} : Prop := {
  walk_root root keep :
    path_is_dir root = true ->
    (forall e, de_path e = root -> de_is_file e = false -> keep e = false) ->
    walk root keep = [];
}.

(** [file.read_exact(buf)] for a buffer of [n] bytes *)
Definition read_exact (n : Z) (f : OpenFile) : result (list byte * OpenFile) io_error :=
  let n := Z.to_nat n in
  if bool_decide (n <= length f.1)%nat then Ok (take n f.1, (drop n f.1, f.2))
  else Err (default (io_Error UnexpectedEof "failed to fill whole buffer") f.2).

(** [file.read_to_end(&mut buf)], what is put into the buffer *)
Definition read_to_end (f : OpenFile) : result (list byte) io_error :=
  match f.2 with None => Ok f.1 | Some e => Err e end.

(** *** [std::path::Path] *)

(** The parts between the slashes *)
Fixpoint split_slash (p : list Ascii.ascii) : list (list Ascii.ascii) :=
  match p with
  | [] => [[]]
  | c :: p' =>
      if bool_decide (c = Ascii.ascii_of_nat 47) then [] :: split_slash p'
      else match split_slash p' with part :: parts => (c :: part) :: parts | [] => [[c]] end
  end.

(** [path.components()]: the root, and the names; a dot only counts as the
    beginning of a relative path. *)
Definition components (p : PathBuf) : list string :=
  let parts := String.string_of_list_ascii <$> split_slash (String.list_ascii_of_string p) in
  let names := List.filter (fun s => negb (bool_decide (s = "" \/ s = "."))) parts in
  match parts with
  | "" :: _ :: _ => "/" :: names
  | "." :: _ => "." :: names
  | _ => names
  end.

(** [path.strip_prefix(base)], as its components *)
Fixpoint strip_components (base path : list string) : option (list string) :=
  match base, path with
  | [], _ => Some path
  | b :: base', p :: path' => if bool_decide (b = p) then strip_components base' path' else None
  | _, _ => None
  end.

(** [path.file_name()] *)
Definition path_file_name (p : PathBuf) : option string :=
  match last (components p) with
  | Some s => if bool_decide (s = "/" \/ s = "." \/ s = "..") then None else Some s
  | None => None
  end.

(** ** Data *)

Record TorrentBuilder := mkTorrentBuilder {
  tb_announce : option string;
  tb_announce_list : option (list string);
  tb_webseeds : option (list string);
  tb_httpseeds : option (list string);
  tb_name : option string;
  tb_encoding : option string;
  tb_comment : option string;
  tb_created_by : option string;
  tb_creation_date : option Z;
  tb_content_root : PathBuf;
  tb_piece_length : option Z;
  tb_nodes : option (list DhtNode);
}.

(** ** Setting the fields *)

Section Setters.
Implicit Types b : TorrentBuilder.

(** [TorrentBuilder::new] *)
Definition TorrentBuilder_new (file : PathBuf) : TorrentBuilder :=
  mkTorrentBuilder None None None None None None None None None file None None.

Definition tb_set_name (s : string) b : TorrentBuilder :=
  mkTorrentBuilder (tb_announce b) (tb_announce_list b) (tb_webseeds b) (tb_httpseeds b)
    (Some s) (tb_encoding b) (tb_comment b) (tb_created_by b) (tb_creation_date b)
    (tb_content_root b) (tb_piece_length b) (tb_nodes b).
Definition tb_set_encoding (s : string) b : TorrentBuilder :=
  mkTorrentBuilder (tb_announce b) (tb_announce_list b) (tb_webseeds b) (tb_httpseeds b)
    (tb_name b) (Some s) (tb_comment b) (tb_created_by b) (tb_creation_date b)
    (tb_content_root b) (tb_piece_length b) (tb_nodes b).
Definition tb_set_comment (s : string) b : TorrentBuilder :=
  mkTorrentBuilder (tb_announce b) (tb_announce_list b) (tb_webseeds b) (tb_httpseeds b)
    (tb_name b) (tb_encoding b) (Some s) (tb_created_by b) (tb_creation_date b)
    (tb_content_root b) (tb_piece_length b) (tb_nodes b).
Definition tb_set_created_by (s : string) b : TorrentBuilder :=
  mkTorrentBuilder (tb_announce b) (tb_announce_list b) (tb_webseeds b) (tb_httpseeds b)
    (tb_name b) (tb_encoding b) (tb_comment b) (Some s) (tb_creation_date b) (tb_content_root b)
    (tb_piece_length b) (tb_nodes b).
(** [creation_date], of the timestamp of the date *)
Definition tb_set_creation_date (timestamp : Z) b : TorrentBuilder :=
  mkTorrentBuilder (tb_announce b) (tb_announce_list b) (tb_webseeds b) (tb_httpseeds b)
    (tb_name b) (tb_encoding b) (tb_comment b) (tb_created_by b) (Some timestamp)
    (tb_content_root b) (tb_piece_length b) (tb_nodes b).
(** [creation_now] *)
Definition tb_set_creation_now (now : Z) b : TorrentBuilder := tb_set_creation_date now b.
(** [piece_length]: a length out of bounds gives the builder back as an error. *)
Definition tb_set_piece_length (piece_length : Z) b : result TorrentBuilder TorrentBuilder :=
  if (piece_length >=? BLOCK_SIZE_MIN) && (piece_length <=? BLOCK_SIZE_MAX) then
    Ok (mkTorrentBuilder (tb_announce b) (tb_announce_list b) (tb_webseeds b) (tb_httpseeds b)
        (tb_name b) (tb_encoding b) (tb_comment b) (tb_created_by b) (tb_creation_date b)
        (tb_content_root b) (Some piece_length) (tb_nodes b))
  else Err b.
Definition tb_set_announce (s : string) b : TorrentBuilder :=
  mkTorrentBuilder (Some s) (tb_announce_list b) (tb_webseeds b) (tb_httpseeds b) (tb_name b)
    (tb_encoding b) (tb_comment b) (tb_created_by b) (tb_creation_date b) (tb_content_root b)
    (tb_piece_length b) (tb_nodes b).
(** [if let Some(ref mut list) = list { list.push(x) } else { list = Some(vec![x]) }] *)
Definition push_or_new {A} (x : A) (l : option (list A)) : option (list A) :=
  match l with Some l => Some (l ++ [x]) | None => Some [x] end.

Definition tb_add_announce_list (s : string) b : TorrentBuilder :=
  mkTorrentBuilder (tb_announce b) (push_or_new s (tb_announce_list b)) (tb_webseeds b)
    (tb_httpseeds b) (tb_name b) (tb_encoding b) (tb_comment b) (tb_created_by b)
    (tb_creation_date b) (tb_content_root b) (tb_piece_length b) (tb_nodes b).
Definition tb_set_announce_list (l : list string) b : TorrentBuilder :=
  mkTorrentBuilder (tb_announce b) (Some l) (tb_webseeds b) (tb_httpseeds b) (tb_name b)
    (tb_encoding b) (tb_comment b) (tb_created_by b) (tb_creation_date b) (tb_content_root b)
    (tb_piece_length b) (tb_nodes b).
Definition tb_add_webseed (s : string) b : TorrentBuilder :=
  mkTorrentBuilder (tb_announce b) (tb_announce_list b) (push_or_new s (tb_webseeds b))
    (tb_httpseeds b) (tb_name b) (tb_encoding b) (tb_comment b) (tb_created_by b)
    (tb_creation_date b) (tb_content_root b) (tb_piece_length b) (tb_nodes b).
Definition tb_set_webseeds (l : list string) b : TorrentBuilder :=
  mkTorrentBuilder (tb_announce b) (tb_announce_list b) (Some l) (tb_httpseeds b) (tb_name b)
    (tb_encoding b) (tb_comment b) (tb_created_by b) (tb_creation_date b) (tb_content_root b)
    (tb_piece_length b) (tb_nodes b).
Definition tb_add_httpseed (s : string) b : TorrentBuilder :=
  mkTorrentBuilder (tb_announce b) (tb_announce_list b) (tb_webseeds b)
    (push_or_new s (tb_httpseeds b)) (tb_name b) (tb_encoding b) (tb_comment b)
    (tb_created_by b) (tb_creation_date b) (tb_content_root b) (tb_piece_length b) (tb_nodes b).
Definition tb_set_httpseeds (l : list string) b : TorrentBuilder :=
  mkTorrentBuilder (tb_announce b) (tb_announce_list b) (tb_webseeds b) (Some l) (tb_name b)
    (tb_encoding b) (tb_comment b) (tb_created_by b) (tb_creation_date b) (tb_content_root b)
    (tb_piece_length b) (tb_nodes b).
Definition tb_add_node (node : DhtNode) b : TorrentBuilder :=
  mkTorrentBuilder (tb_announce b) (tb_announce_list b) (tb_webseeds b) (tb_httpseeds b)
    (tb_name b) (tb_encoding b) (tb_comment b) (tb_created_by b) (tb_creation_date b)
    (tb_content_root b) (tb_piece_length b) (push_or_new node (tb_nodes b)).
Definition tb_set_nodes (l : list DhtNode) b : TorrentBuilder :=
  mkTorrentBuilder (tb_announce b) (tb_announce_list b) (tb_webseeds b) (tb_httpseeds b)
    (tb_name b) (tb_encoding b) (tb_comment b) (tb_created_by b) (tb_creation_date b)
    (tb_content_root b) (tb_piece_length b) (Some l).
End Setters.

(** ** Reading the content *)

(** [?] in code that may also panic *)
Definition try_bind {A B E} (m : outcome (result A E)) (f : A -> outcome (result B E)) :
    outcome (result B E) :=
  r ← m; match r with Ok a => f a | Err e => Ret (Err e) end.
Notation "x '⇐!' m ; f" := (try_bind m (fun x => f))
  (at level 20, m at level 100, f at level 200, only parsing) : stdpp_scope.
Notation "' x '⇐!' m ; f" := (try_bind m (fun x => f))
  (at level 20, x pattern, m at level 100, f at level 200, only parsing) : stdpp_scope.

(** [is_hidden] *)
Definition is_hidden (entry : DirEntry) : bool :=
  match de_file_name entry with Some s => String.prefix "." s | None => false end.

(** The filter both walks use *)
Definition keep_entry (e : DirEntry) : bool := negb (is_hidden e) && de_is_file e.

Section Reading.
Context `{FileTree} `{Sha1 Hasher} `{Profile}.
Implicit Types b : TorrentBuilder.

(** The sum of the lengths in [compute_piece_length] *)
Fixpoint sum_entries (size : Z) (entries : list (result DirEntry io_error)) :
    outcome (result Z io_error) :=
  match entries with
  | [] => Ret (Ok size)
  | entry :: entries' =>
      entry ⇐! Ret entry;
      len ⇐! Ret (entry_len entry);
      size ← checked 64 (size + len);
      sum_entries size entries'
  end.

(** [(size as f64 / d).log2().ceil().max(0.) as usize]: the divisors and sizes
    are far from the precision of an [f64], so the rounded logarithm is that
    of the exact quotient, and 0 for a quotient below 1. *)
Definition ceil_log2_quotient (size d : Z) : Z := Z.log2_up ((size + d - 1) / d).

Definition piece_length_for (size : Z) : Z :=
  let two_pow_30 := 1073741824 in
  let of_pieces d := Z.max (Z.shiftl 1 (ceil_log2_quotient size d)) (16 * 1024) in
  if size <=? two_pow_30 then of_pieces 1024
  else if size <=? 4 * two_pow_30 then of_pieces 2048
  else if size <=? 6 * two_pow_30 then of_pieces 3072
  else if size <=? 8 * two_pow_30 then of_pieces 2048
  else if size <=? 16 * two_pow_30 then of_pieces 2048
  else if size <=? 32 * two_pow_30 then of_pieces 4096
  else if size <=? 64 * two_pow_30 then of_pieces 8192
  else if size <=? 80 * two_pow_30 then of_pieces 10000
  else BLOCK_SIZE_MAX.

(** [compute_piece_length] *)
Definition compute_piece_length b : outcome (result Z io_error) :=
  size ⇐! sum_entries 0 (walk (tb_content_root b) keep_entry);
  Ret (Ok (piece_length_for size)).

(** [file_info_paths] *)
Definition file_info_paths b (path : PathBuf) : result (list string) io_error :=
  ok_or (strip_components (components (tb_content_root b)) (components path))
    (io_Error InvalidInput "prefix not found").

(** The loop of [read_file]: the pieces it adds, and what the last piece leaves;
    none when [fuel] rounds are not enough *)
Fixpoint read_pieces (fuel : nat) (piece_length length total_read : Z) (file : OpenFile)
    (pieces : list Hasher) :
    outcome (option (result (list Hasher * option (Z * Hasher)) io_error)) :=
  match fuel with
  | O => Ret None
  | S fuel =>
      left ← checked 64 (length - total_read);
      if left =? 0 then Ret (Some (Ok (pieces, None)))
      else if left <? piece_length then
        match read_exact left file with
        | Err e => Ret (Some (Err e))
        | Ok (buf, _) => Ret (Some (Ok (pieces, Some (left, sha1_from buf))))
        end
      else
        match read_exact piece_length file with
        | Err e => Ret (Some (Err e))
        | Ok (buf, file) =>
            total_read ← checked 64 (total_read + piece_length);
            read_pieces fuel piece_length length total_read file (pieces ++ [sha1_from buf])
        end
  end.

(** [read_file]; an unfinished loop counts as a panic. *)
Definition read_file b (path : PathBuf) (piece_length : Z) (overlap : option (Z * Hasher)) :
    outcome (result (SubFileInfo * list Hasher * option (Z * Hasher)) io_error) :=
  length ⇐! Ret (path_len path);
  paths ⇐! Ret (file_info_paths b path);
  let file_info := {| sub_length := length; paths := paths |} in
  file ⇐! Ret (open_file path);
  if piece_length =? 0 then Panic
  else
    let rest total_read file pieces :=
      loop ← read_pieces (S (Z.to_nat (length / piece_length + 1))) piece_length length total_read
        file pieces;
      match loop with
      | None => Panic
      | Some (Err e) => Ret (Err e)
      | Some (Ok (pieces, piece_overlap)) => Ret (Ok (file_info, pieces, piece_overlap))
      end in
    match overlap with
    | None => rest 0 file []
    | Some (previous_read, hasher) =>
        left ← checked 64 (piece_length - previous_read);
        if left <=? length then
          '(buf, file) ⇐! Ret (read_exact left file);
          rest left file [sha1_update hasher buf]
        else
          buf ⇐! Ret (read_to_end file);
          if negb (Z.of_nat (List.length buf) =? length) then
            Ret (Err (io_Error InvalidData
              ("Expected to read " +:+ pretty length +:+ " from file " +:+
               pretty (List.length buf) +:+ ", but got " +:+ path)))
          else
            previous_read ← checked 64 (previous_read + Z.of_nat (List.length buf));
            Ret (Ok (file_info, [], Some (previous_read, sha1_update hasher buf)))
    end.

(** The loop of [read_dir] *)
Fixpoint read_entries b (piece_length : Z) (entries : list (result DirEntry io_error))
    (overlap : option (Z * Hasher)) (all_files : list SubFileInfo) (all_hashes : list Hasher) :
    outcome (result (list SubFileInfo * list Hasher) io_error) :=
  match entries with
  | [] =>
      match overlap with
      | Some (_, hash) => Ret (Ok (all_files, all_hashes ++ [hash]))
      | None => Ret (Ok (all_files, all_hashes))
      end
  | entry :: entries' =>
      entry ⇐! Ret entry;
      '(file, file_hashes, file_overlap) ⇐! read_file b (de_path entry) piece_length overlap;
      read_entries b piece_length entries' file_overlap (all_files ++ [file])
        (all_hashes ++ file_hashes)
  end.

(** [read_dir] *)
Definition read_dir b (piece_length : Z) :
    outcome (result (list SubFileInfo * list Hasher) io_error) :=
  read_entries b piece_length (walk (tb_content_root b) keep_entry) None [] [].

(** [read_content] *)
Definition read_content b (piece_length : Z) :
    outcome (result (InfoContent * list Hasher) io_error) :=
  if path_is_dir (tb_content_root b) then
    '(files, pieces) ⇐! read_dir b piece_length;
    Ret (Ok (Multi files, pieces))
  else
    '(info, pieces, overlap) ⇐! read_file b (tb_content_root b) piece_length None;
    let pieces := match overlap with Some (_, hash) => pieces ++ [hash] | None => pieces end in
    Ret (Ok (Single (sub_length info), pieces)).

Context `{Bendy DecodingError EncodingError}.

(** [build] *)
Definition tb_build b : outcome (result (MetaInfo Hasher) (Error Hasher DecodingError EncodingError)) :=
  computed ← compute_piece_length b;
  computed ⇐! Ret (map_err E_Io computed);
  let piece_length := default computed (tb_piece_length b) in
  content ← read_content b piece_length;
  '(content, pieces) ⇐! Ret (map_err E_Io content);
  file_name ⇐! Ret (map_err E_Io
    (ok_or (path_file_name (tb_content_root b)) (io_Error InvalidInput "Invalid target filename")));
  let info := {| pieces := (fun h => {| hash := sha1_digest h |}) <$> pieces;
                 piece_length := piece_length; content := content;
                 name := default file_name (tb_name b) |} in
  info_hash ⇐! Ret (TorrentInfo_sha1_hash info);
  Ret (Ok {| announce := tb_announce b; announce_list := default [] (tb_announce_list b);
             encoding := tb_encoding b; comment := tb_comment b; created_by := tb_created_by b;
             creation_date := tb_creation_date b; webseeds := default [] (tb_webseeds b);
             httpseeds := default [] (tb_httpseeds b); nodes := default [] (tb_nodes b);
             meta_info_hash := info_hash; info := info |}).
End Reading.

(** ** Specification *)

Section BuilderSpec.
Context `{FileTree} `{Sha1 Hasher}.

(** A hasher that has seen these bytes *)
Definition has_seen (h : Hasher) (bytes : list byte) : Prop :=
  exists parts, h = foldl sha1_update sha1_new parts /\ concat parts = bytes.

(** What is known between two files: the bytes so far are those of the hashed
    pieces, and of the piece that has begun *)
Definition pieces_so_far (n : nat) (bytes : list byte) (hs : list Hasher)
    (overlap : option (Z * Hasher)) : Prop :=
  exists full tail,
    bytes = concat full ++ tail /\ Forall (fun c => length c = n) full /\
    sha1_digest <$> hs = sha1 <$> full /\ (length tail < n)%nat /\
    match overlap with
    | None => tail = []
    | Some (k, h) => tail <> [] /\ k = Z.of_nat (length tail) /\ has_seen h tail
    end.

(** A file with this content, that has a name below the root of the builder *)
Definition readable (b : TorrentBuilder) (path : PathBuf) (bytes : list byte) : Prop :=
  path_len path = Ok (Z.of_nat (length bytes)) /\ is_u64 (Z.of_nat (length bytes)) /\
  (exists paths, file_info_paths b path = Ok paths) /\ open_file path = Ok (bytes, None).
End BuilderSpec.

(** ** Lemmas *)

Section BuilderLemmas.
Context `{FileTreeLaws} `{Sha1Laws Hasher} `{Profile}.
Implicit Types b : TorrentBuilder.

Lemma has_seen_digest (h : Hasher) bytes : has_seen h bytes -> sha1_digest h = sha1 bytes.
Proof. intros (parts & -> & <-). apply sha1_digest_spec. Qed.

Lemma has_seen_from bytes : has_seen (Hasher := Hasher) (sha1_from bytes) bytes.
Proof. exists [bytes]. split; [done|]. simpl. apply app_nil_r. Qed.

Lemma has_seen_update (h : Hasher) bytes more :
  has_seen h bytes -> has_seen (sha1_update h more) (bytes ++ more).
Proof.
  intros (parts & -> & <-). exists (parts ++ [more]). rewrite foldl_app, concat_app. simpl.
  by rewrite app_nil_r.
Qed.

Lemma digest_from (l : list (list byte)) :
  sha1_digest <$> (sha1_from (Hasher := Hasher) <$> l) = sha1 <$> l.
Proof.
  rewrite <- list_fmap_compose. apply list_fmap_ext. intros i c _. simpl.
  apply has_seen_digest, has_seen_from.
Qed.

(** At the end, the pieces are those of all the bytes. *)
Lemma pieces_so_far_end n bytes (hs : list Hasher) overlap :
  (0 < n)%nat -> pieces_so_far n bytes hs overlap ->
  sha1_digest <$> (hs ++ match overlap with Some (_, h) => [h] | None => [] end) =
  sha1 <$> chunks n bytes.
Proof.
  intros Hn (full & tail & -> & Hf & Hh & Ht & Ho).
  assert (chunks n (concat full ++ tail) = full ++ chunks n tail) as ->.
  { clear -Hn Hf. induction Hf as [|c full Hc _ IH]; [done|]. simpl.
    by rewrite <- app_assoc, chunks_app, IH. }
  rewrite !fmap_app, Hh. f_equal. destruct overlap as [[k h]|].
  - destruct Ho as (Hne & _ & Hs). rewrite chunks_short by (done || lia). simpl.
    by rewrite (has_seen_digest _ _ Hs).
  - by rewrite Ho.
Qed.

Lemma read_exact_ok (k : nat) bytes err :
  (k <= length bytes)%nat ->
  read_exact (Z.of_nat k) (bytes, err) = Ok (take k bytes, (drop k bytes, err)).
Proof. intros Hk. unfold read_exact. rewrite Nat2Z.id. simpl. by rewrite bool_decide_true. Qed.

(** The loop cuts what is left of a file into pieces. *)
Lemma read_pieces_ok fuel n len total bytes (pieces : list Hasher) :
  (0 < n)%nat -> is_u64 len -> 0 <= total -> len = total + Z.of_nat (length bytes) ->
  (length bytes / n + 1 < fuel)%nat ->
  exists full tail,
    bytes = concat full ++ tail /\ Forall (fun c => length c = n) full /\ (length tail < n)%nat /\
    read_pieces fuel (Z.of_nat n) len total (bytes, None) pieces =
    Ret (Some (Ok (pieces ++ (sha1_from <$> full),
      match tail with [] => None | _ => Some (Z.of_nat (length tail), sha1_from tail) end))).
Proof.
  intros Hn Hlen. revert total bytes pieces.
  induction fuel as [|fuel IH]; intros total bytes pieces Ht Hl Hf; [lia|].
  cbn [read_pieces]. rewrite (checked_in_range _ (len - total)) by (unfold in_range in *; lia).
  rewrite bind_ret. replace (len - total) with (Z.of_nat (length bytes)) by lia.
  destruct (Z.eqb_spec (Z.of_nat (length bytes)) 0) as [Hz|Hz].
  { destruct bytes; [|simpl in Hz; lia]. exists [], []. simpl. rewrite app_nil_r. auto. }
  destruct (Z.ltb_spec (Z.of_nat (length bytes)) (Z.of_nat n)) as [Hs|Hs].
  { rewrite read_exact_ok, take_ge by lia. exists [], bytes. simpl. rewrite app_nil_r.
    split_and!; [done|constructor|lia|]. by destruct bytes. }
  rewrite read_exact_ok by lia.
  rewrite checked_in_range, bind_ret by (unfold in_range in *; lia).
  destruct (IH (total + Z.of_nat n) (drop n bytes) (pieces ++ [sha1_from (take n bytes)]))
    as (full & tail & Hb & Hall & Htl & ->); [lia|rewrite length_drop; lia| |].
  { rewrite length_drop. pose proof (Nat.div_add (length bytes - n) 1 n ltac:(lia)) as Hd.
    replace (length bytes - n + 1 * n)%nat with (length bytes) in Hd by lia. lia. }
  exists (take n bytes :: full), tail. split_and!.
  - simpl. by rewrite <- app_assoc, <- Hb, take_drop.
  - constructor; [rewrite length_take; lia|done].
  - done.
  - by rewrite fmap_cons, <- app_assoc.
Qed.

Lemma try_bind_ok {A B E} (a : A) (f : A -> outcome (result B E)) :
  try_bind (Ret (Ok a)) f = f a.
Proof. done. Qed.

(** The whole file, when no piece has begun *)
Lemma read_pieces_file n bytes total len (pieces : list Hasher) :
  (0 < n)%nat -> is_u64 len -> 0 <= total -> len = total + Z.of_nat (length bytes) ->
  exists full tail,
    bytes = concat full ++ tail /\ Forall (fun c => length c = n) full /\ (length tail < n)%nat /\
    read_pieces (S (Z.to_nat (len / Z.of_nat n + 1))) (Z.of_nat n) len total (bytes, None) pieces =
    Ret (Some (Ok (pieces ++ (sha1_from <$> full),
      match tail with [] => None | _ => Some (Z.of_nat (length tail), sha1_from tail) end))).
Proof.
  intros Hn Hu Ht Hl. apply read_pieces_ok; try done.
  assert (Z.of_nat (length bytes) / Z.of_nat n <= len / Z.of_nat n) as Hd
    by (apply Z.div_le_mono; lia).
  rewrite <- Nat2Z.inj_div in Hd.
  assert (0 <= len / Z.of_nat n) by (apply Z.div_pos; lia). lia.
Qed.

Lemma pieces_so_far_tail n bytes (hs : list Hasher) full tail :
  bytes = concat full ++ tail -> Forall (fun c => length c = n) full ->
  sha1_digest <$> hs = sha1 <$> full -> (length tail < n)%nat ->
  pieces_so_far n bytes hs
    (match tail with [] => None | _ => Some (Z.of_nat (length tail), sha1_from tail) end).
Proof.
  intros -> Hf Hh Ht. exists full, tail. split_and!; try done.
  destruct tail; [done|]. split_and!; [done|done|apply has_seen_from].
Qed.

(** Reading a file goes on with the piece that has begun. *)
Lemma read_file_ok b path n bytes all (hs : list Hasher) overlap :
  (0 < n)%nat -> is_u64 (Z.of_nat n) -> readable b path bytes -> pieces_so_far n all hs overlap ->
  exists paths hs' overlap',
    read_file b path (Z.of_nat n) overlap =
      Ret (Ok ({| sub_length := Z.of_nat (length bytes); paths := paths |}, hs', overlap')) /\
    pieces_so_far n (all ++ bytes) (hs ++ hs') overlap'.
Proof.
  intros Hn Hun (Hlen & Hu & [paths Hpaths] & Hopen) (full & tail & Hall & Hf & Hh & Ht & Ho).
  exists paths. unfold read_file. rewrite Hlen. unfold try_bind. rewrite bind_ret, Hpaths, bind_ret.
  rewrite Hopen, bind_ret. rewrite (proj2 (Z.eqb_neq _ _)) by lia.
  destruct overlap as [[k h]|].
  - destruct Ho as (Hne & -> & Hs). rewrite (checked_in_range _ (_ - _)), bind_ret
      by (unfold in_range in *; lia).
    replace (Z.of_nat n - Z.of_nat (length tail)) with (Z.of_nat (n - length tail)) by lia.
    destruct (Z.leb_spec (Z.of_nat (n - length tail)) (Z.of_nat (length bytes))) as [Hle|Hle].
    + rewrite read_exact_ok, bind_ret by lia.
      destruct (read_pieces_file n (drop (n - length tail) bytes) (Z.of_nat (n - length tail))
        (Z.of_nat (length bytes)) [sha1_update h (take (n - length tail) bytes)])
        as (full' & tail' & Hb & Hf' & Ht' & ->);
        [done|done|lia|rewrite length_drop; lia|].
      rewrite bind_ret. eexists _, _. split; [done|].
      apply (pieces_so_far_tail _ _ _ (full ++ (tail ++ take (n - length tail) bytes) :: full')).
      * rewrite Hall, concat_app. simpl. rewrite <- !app_assoc. do 2 f_equal.
        rewrite <- Hb. by rewrite take_drop.
      * apply Forall_app_2; [done|]. constructor; [|done]. rewrite length_app, length_take. lia.
      * rewrite !fmap_app, Hh, !fmap_cons, fmap_nil. simpl. f_equal.
        rewrite (has_seen_digest _ _ (has_seen_update _ _ _ Hs)). f_equal.
        apply digest_from.
      * done.
    + unfold read_to_end. simpl. rewrite Z.eqb_refl. simpl.
      rewrite (checked_in_range _ (_ + _)), bind_ret by (unfold in_range in *; lia).
      eexists _, _. split; [done|]. exists full, (tail ++ bytes). rewrite app_nil_r. split_and!.
      * by rewrite Hall, <- app_assoc.
      * done.
      * done.
      * rewrite length_app. lia.
      * by destruct tail.
      * rewrite length_app. lia.
      * by apply has_seen_update.
  - subst tail. destruct (read_pieces_file n bytes 0 (Z.of_nat (length bytes)) (@nil Hasher))
      as (full' & tail' & Hb & Hf' & Ht' & ->); [done|done|lia|lia|].
    rewrite bind_ret. eexists _, _. split; [done|].
    apply (pieces_so_far_tail _ _ _ (full ++ full')).
    + rewrite Hall, concat_app, app_nil_r, <- app_assoc. by rewrite Hb.
    + by apply Forall_app_2.
    + by rewrite app_nil_l, !fmap_app, Hh, digest_from.
    + done.
Qed.

Lemma read_entries_ok b n entries contents all (hs : list Hasher) overlap files :
  (0 < n)%nat -> is_u64 (Z.of_nat n) ->
  Forall2 (fun e => readable b (de_path e)) entries contents ->
  pieces_so_far n all hs overlap ->
  exists files' hs',
    read_entries b (Z.of_nat n) (Ok <$> entries) overlap files hs = Ret (Ok (files ++ files', hs')) /\
    sub_length <$> files' = (fun c => Z.of_nat (length c)) <$> contents /\
    sha1_digest <$> hs' = sha1 <$> chunks n (all ++ concat contents).
Proof.
  intros Hn Hun Hr. revert all hs overlap files.
  induction Hr as [|e c entries contents He _ IH]; intros all hs overlap files Hp.
  - pose proof (pieces_so_far_end n all hs overlap Hn Hp) as Hend.
    simpl. rewrite app_nil_r. exists []. rewrite app_nil_r.
    destruct overlap as [[k h]|]; [by exists (hs ++ [h])|].
    exists hs. by rewrite app_nil_r in Hend.
  - destruct (read_file_ok b (de_path e) n c all hs overlap Hn Hun He Hp)
      as (paths & hs' & overlap' & Hrf & Hp').
    destruct (IH _ _ _ (files ++ [{| sub_length := Z.of_nat (length c); paths := paths |}]) Hp')
      as (files' & hs'' & Hre & Hl & Hd).
    rewrite fmap_cons. cbn [read_entries]. unfold try_bind at 1. rewrite bind_ret.
    unfold try_bind at 1. rewrite Hrf, bind_ret, Hre.
    eexists (_ :: files'), hs''. split; [by rewrite <- app_assoc|].
    rewrite fmap_cons, Hl. split; [done|]. simpl concat. by rewrite Hd, <- app_assoc.
Qed.
End BuilderLemmas.

(** *** The length of pieces *)

Lemma ceil_log2_quotient_bounds size d k :
  0 <= size -> 0 < d -> 0 <= k -> size <= d * 2 ^ k ->
  0 <= ceil_log2_quotient size d <= k.
Proof.
  intros Hs Hd Hk Hb. unfold ceil_log2_quotient. split; [apply Z.log2_up_nonneg|].
  rewrite <- (Z.log2_up_pow2 k) by done. apply Z.log2_up_le_mono.
  apply Z.lt_succ_r. apply Z.div_lt_upper_bound; lia.
Qed.

Lemma ceil_log2_quotient_enough size d :
  0 <= size -> 0 < d -> size <= d * 2 ^ ceil_log2_quotient size d.
Proof.
  intros Hs Hd. unfold ceil_log2_quotient. set (q := (size + d - 1) / d).
  assert (size <= d * q) as Hq.
  { pose proof (Z.div_mod (size + d - 1) d ltac:(lia)) as Hm. fold q in Hm.
    pose proof (Z.mod_pos_bound (size + d - 1) d Hd). lia. }
  assert (q <= 2 ^ Z.log2_up q) as Hl; [|nia].
  destruct (Z.le_gt_cases q 1) as [Hle|Hgt].
  - pose proof (Z.pow_pos_nonneg 2 (Z.log2_up q) ltac:(lia) (Z.log2_up_nonneg q)). lia.
  - by apply Z.log2_up_spec.
Qed.

(** One case of the table *)
Lemma of_pieces_bounds size d k :
  0 <= size -> 0 < d -> 14 <= k -> size <= d * 2 ^ k ->
  let v := Z.max (Z.shiftl 1 (ceil_log2_quotient size d)) (16 * 1024) in
  (exists k, 0 <= k /\ v = 2 ^ k) /\ 16384 <= v <= 2 ^ k /\ size <= d * v.
Proof.
  intros Hs Hd Hk Hb v.
  pose proof (ceil_log2_quotient_bounds size d k Hs Hd ltac:(lia) Hb) as Hc.
  pose proof (ceil_log2_quotient_enough size d Hs Hd) as He. unfold v. rewrite Z.shiftl_1_l.
  pose proof (Z.pow_le_mono_r 2 (ceil_log2_quotient size d) k ltac:(lia) ltac:(lia)).
  pose proof (Z.pow_le_mono_r 2 14 k ltac:(lia) Hk) as H14. change (2 ^ 14) with 16384 in H14.
  split_and!; [|lia|lia|nia].
  destruct (Z.max_spec (2 ^ ceil_log2_quotient size d) (16 * 1024)) as [[_ ->]|[_ ->]].
  - by exists 14.
  - exists (ceil_log2_quotient size d). lia.
Qed.

Lemma piece_length_for_range size :
  0 <= size ->
  let n := piece_length_for size in
  (exists k, 0 <= k /\ n = 2 ^ k) /\ 16384 <= n <= 16777216 /\
  (size <= 2 ^ 30 -> size <= 1024 * n) /\ (size <= 78 * 2 ^ 30 -> n <= 8388608).
Proof.
  intros Hs n. unfold n, piece_length_for.
  pose proof (of_pieces_bounds size) as Hv.
  repeat match goal with |- context [size <=? ?x] => destruct (Z.leb_spec size x) end.
  - destruct (Hv 1024 20) as (? & ? & ?); try lia. split; [done|]. lia.
  - destruct (Hv 2048 21) as (? & ? & ?); try lia. split; [done|]. lia.
  - destruct (Hv 3072 21) as (? & ? & ?); try lia. split; [done|]. lia.
  - destruct (Hv 2048 22) as (? & ? & ?); try lia. split; [done|]. lia.
  - destruct (Hv 2048 23) as (? & ? & ?); try lia. split; [done|]. lia.
  - destruct (Hv 4096 23) as (? & ? & ?); try lia. split; [done|]. lia.
  - destruct (Hv 8192 23) as (? & ? & ?); try lia. split; [done|]. lia.
  - destruct (Hv 10000 24) as (? & ? & ?); try lia. split; [done|]. split; [lia|].
    split; [lia|]. intros H78. destruct (Hv 10000 23) as (? & ? & ?); lia.
  - split; [by exists 24|]. unfold BLOCK_SIZE_MAX. lia.
Qed.

Section BuiltLemmas.
Context `{FileTreeLaws} `{Sha1Laws Hasher} `{Profile}.
Context `{BendyLaws DecodingError EncodingError} `{StdFsLaws Files}.
Implicit Types b : TorrentBuilder.

(** The metadata of a file *)
Lemma built_single b bytes c nm :
  let n := default c (tb_piece_length b) in
  let root := tb_content_root b in
  path_is_dir root = false -> readable b root bytes -> path_file_name root = Some nm ->
  compute_piece_length b = Ret (Ok c) -> 0 < n -> is_u64 n ->
  is_str (default nm (tb_name b)) -> (forall s, tb_announce b = Some s -> is_str s) ->
  (forall s, tb_encoding b = Some s -> is_str s) -> (forall s, tb_comment b = Some s -> is_str s) ->
  (forall z, tb_creation_date b = Some z -> - 2 ^ 63 <= z < 2 ^ 63) ->
  Forall is_str (default [] (tb_httpseeds b)) ->
  tb_announce_list b = None -> tb_created_by b = None -> tb_nodes b = None ->
  tb_webseeds b = None ->
  exists m : MetaInfo Hasher,
    tb_build (EncodingError := EncodingError) b = Ret (Ok m) /\
    content (info m) = Single (Z.of_nat (length bytes)) /\
    hash <$> pieces (info m) = sha1 <$> chunks (Z.to_nat n) bytes /\
    piece_length (info m) = n /\ name (info m) = default nm (tb_name b) /\
    ShaHash_wf (MetaInfo_sha_hash m) /\
    forall fs fs' path data,
      write_torrent_file (EncodingError := EncodingError) fs m path = (fs', Ok data) ->
      from_torrent_file (EncodingError := EncodingError) fs' path = Ok m.
Proof.
  intros n root Hdir Hr Hnm Hc Hn Hu Hs1 Ha He Hco Hd Hh Hal Hcb Hno Hw.
  assert (n = Z.of_nat (Z.to_nat n)) as Hnn by lia.
  destruct (read_file_ok (Hasher := Hasher) b root (Z.to_nat n) bytes [] [] None)
    as (paths & hs & overlap & Hrf & Hp); [lia|by rewrite <- Hnn|done|..].
  { exists [], []. split_and!; try done. simpl. lia. }
  apply pieces_so_far_end in Hp; [|lia]. cbn [app] in Hp.
  set (hs' := match overlap with Some (_, h) => hs ++ [h] | None => hs end).
  assert (sha1_digest <$> hs' = sha1 <$> chunks (Z.to_nat n) bytes) as Hp'.
  { rewrite <- Hp. unfold hs'. simpl. destruct overlap as [[k h]|]; [done|by rewrite app_nil_r]. }
  set (i := {| pieces := (fun h => {| hash := sha1_digest h |}) <$> hs'; piece_length := n;
               content := Single (Z.of_nat (length bytes)); name := default nm (tb_name b) |}).
  destruct (TorrentInfo_encodes (DecodingError := DecodingError) (EncodingError := EncodingError) i
    eq_refl) as [d Hd'].
  set (m := {| announce := tb_announce b; announce_list := []; encoding := tb_encoding b;
               comment := tb_comment b; created_by := None; creation_date := tb_creation_date b;
               webseeds := []; httpseeds := default [] (tb_httpseeds b); nodes := [];
               meta_info_hash := sha1_from d; info := i |}).
  assert (hash <$> pieces i = sha1 <$> chunks (Z.to_nat n) bytes) as Hpieces.
  { unfold i. cbn [pieces]. rewrite <- list_fmap_compose. exact Hp'. }
  exists m. split_and!; [|done|exact Hpieces|done|done| |].
  - unfold tb_build. rewrite Hc, bind_ret. cbn [map_err]. rewrite try_bind_ok.
    unfold read_content. fold n root. rewrite Hdir, Hnn, Hrf, <- Hnn.
    rewrite try_bind_ok, bind_ret. cbn [map_err]. rewrite try_bind_ok. rewrite Hnm.
    cbn [ok_or map_err sub_length app]. rewrite try_bind_ok. fold hs'. fold i.
    unfold TorrentInfo_sha1_hash. rewrite Hd'. cbn [map_err result_bind].
    by rewrite try_bind_ok, Hal, Hcb, Hno, Hw.
  - unfold ShaHash_wf, MetaInfo_sha_hash. simpl. rewrite sha1_from_digest. apply sha1_length.
  - intros fs fs' path data Hwr.
    destruct (torrent_file_read_back fs fs' m path data) as (d2 & Hd2 & Hrb); [|exact Hwr|].
    + split_and!; try done. split_and!; try done; [|by destruct Hr as (_ & ? & _)].
      apply Forall_fmap, Forall_forall. intros h Hin. unfold ShaHash_wf. simpl.
      apply (list_elem_of_fmap_2 sha1_digest) in Hin. rewrite Hp' in Hin.
      apply list_elem_of_fmap in Hin as (x & -> & _). apply sha1_length.
    + rewrite Hrb. change (info m) with i in Hd2. rewrite Hd' in Hd2. by injection Hd2 as <-.
Qed.
End BuiltLemmas.

(** *** Names *)

Lemma split_slash_nil p : split_slash p <> [].
Proof. destruct p as [|a p]; [done|]. simpl. case_bool_decide; [done|]. by destruct (split_slash p). Qed.

Lemma split_slash_app p q :
  split_slash (p ++ Ascii.ascii_of_nat 47 :: q) = split_slash p ++ split_slash q.
Proof.
  induction p as [|a p IH]; simpl; [done|]. case_bool_decide; [by rewrite IH|].
  rewrite IH. pose proof (split_slash_nil p). by destruct (split_slash p).
Qed.

Lemma split_slash_name s : Ascii.ascii_of_nat 47 ∉ s -> split_slash s = [s].
Proof.
  induction s as [|a s IH]; intros Hs; simpl; [done|]. apply not_elem_of_cons in Hs as [Ha Hs].
  rewrite bool_decide_false by congruence. by rewrite IH.
Qed.

Lemma ascii_of_string_app (s s' : string) :
  String.list_ascii_of_string (s +:+ s') = String.list_ascii_of_string s ++ String.list_ascii_of_string s'.
Proof. induction s as [|a s IH]; [done|]. simpl. by rewrite IH. Qed.

(** The last part of a path *)
Lemma components_last p parts s :
  String.string_of_list_ascii <$> split_slash (String.list_ascii_of_string p) = parts ++ [s] ->
  s <> "" -> s <> "." -> last (components p) = Some s.
Proof.
  intros Hp H1 H2. unfold components. rewrite Hp, List.filter_app. simpl.
  rewrite bool_decide_false by by intros []. simpl. set (names := List.filter _ parts).
  assert (forall x, last (x :: names ++ [s]) = Some s) as Hlast.
  { intros x. by rewrite app_comm_cons, last_snoc. }
  pose proof (last_snoc s names) as Hs. by repeat case_match; rewrite ?Hlast.
Qed.

(** The name of a file in a directory *)
Lemma path_file_name_join a s :
  Ascii.ascii_of_nat 47 ∉ String.list_ascii_of_string s ->
  s <> "" -> s <> "." -> s <> ".." -> s <> "/" -> String.prefix "/" s = false ->
  path_file_name (path_join a s) = Some s.
Proof.
  intros Hs H1 H2 H3 H4 Hpre. unfold path_file_name.
  assert (exists parts, String.string_of_list_ascii <$>
    split_slash (String.list_ascii_of_string (path_join a s)) = parts ++ [s]) as [parts Hp].
  { unfold path_join. rewrite Hpre. case_bool_decide; [|case_bool_decide as Hl].
    - exists []. rewrite split_slash_name by done. simpl. by rewrite String.string_of_list_ascii_of_string.
    - apply last_Some in Hl as [l Hl]. exists (String.string_of_list_ascii <$> split_slash l).
      rewrite ascii_of_string_app, Hl, <- app_assoc. simpl.
      rewrite split_slash_app, fmap_app, (split_slash_name (String.list_ascii_of_string s)) by done. simpl.
      by rewrite String.string_of_list_ascii_of_string.
    - exists (String.string_of_list_ascii <$> split_slash (String.list_ascii_of_string a)).
      rewrite !ascii_of_string_app. simpl.
      rewrite split_slash_app, fmap_app, (split_slash_name (String.list_ascii_of_string s)) by done. simpl.
      by rewrite String.string_of_list_ascii_of_string. }
  rewrite (components_last _ _ _ Hp) by done. by rewrite bool_decide_false by by intros [|[]].
Qed.

Lemma strip_components_self l : strip_components l l = Some [].
Proof. induction l as [|s l IH]; simpl; [done|]. by rewrite bool_decide_true. Qed.

(** ** Properties *)

(** C34: The length that is computed for the pieces is a power of two that the
    builder itself would accept, and it makes at most 1024 pieces of a content
    of up to 1 GiB. Up to 78 GiB it is at most 8 MiB; the comment of the code
    says so up to 80 GiB, where it is 16 MiB. *)
Theorem piece_length_for_bounds size :
  0 <= size ->
  let n := piece_length_for size in
  (exists k, 0 <= k /\ n = 2 ^ k) /\ BLOCK_SIZE_MIN <= n <= BLOCK_SIZE_MAX /\
  (size <= 2 ^ 30 -> size <= 1024 * n) /\
  (size <= 78 * 2 ^ 30 -> n <= 8388608) /\ piece_length_for (80 * 2 ^ 30) = 16777216.
Proof.
  intros Hs n.
  destruct (piece_length_for_range size Hs) as (? & Hb & ? & ?). split_and!; done || apply Hb.
Qed.

Section BuilderProperties.
Context `{FileTreeLaws} `{Sha1Laws Hasher} `{Profile}.
Context `{BendyLaws DecodingError EncodingError} `{StdFsLaws Files}.
Implicit Types b : TorrentBuilder.

(** C17: The hashes of the pieces of several files are those of their bytes put
    together and cut into pieces, although every file is read on its own and a
    piece may begin in one file and end in another. *)
Theorem pieces_of_files b n entries contents :
  (0 < n)%nat -> is_u64 (Z.of_nat n) ->
  Forall2 (fun e => readable b (de_path e)) entries contents ->
  exists files hs,
    read_entries (Hasher := Hasher) b (Z.of_nat n) (Ok <$> entries) None [] [] =
      Ret (Ok (files, hs)) /\
    sub_length <$> files = (fun c => Z.of_nat (length c)) <$> contents /\
    sha1_digest <$> hs = sha1 <$> chunks n (concat contents).
Proof.
  intros Hn Hu Hr.
  destruct (read_entries_ok (Hasher := Hasher) b n entries contents [] [] None [] Hn Hu Hr)
    as (files & hs & He & Hl & Hd).
  - exists [], []. split_and!; done.
  - by exists files, hs.
Qed.

(** C19: The metadata that are built for a file name its length and the hashes
    of its pieces, and when they are written to a torrent file, exactly they
    are read from it, provided that the builder was given no list of trackers
    and no creator. *)
Theorem built_torrent_is_read_back b bytes c nm :
  let n := default c (tb_piece_length b) in
  let root := tb_content_root b in
  path_is_dir root = false -> readable b root bytes -> path_file_name root = Some nm ->
  compute_piece_length b = Ret (Ok c) -> 0 < n -> is_u64 n ->
  is_str (default nm (tb_name b)) -> (forall s, tb_announce b = Some s -> is_str s) ->
  (forall s, tb_encoding b = Some s -> is_str s) -> (forall s, tb_comment b = Some s -> is_str s) ->
  (forall z, tb_creation_date b = Some z -> - 2 ^ 63 <= z < 2 ^ 63) ->
  Forall is_str (default [] (tb_httpseeds b)) ->
  tb_announce_list b = None -> tb_created_by b = None -> tb_nodes b = None ->
  tb_webseeds b = None ->
  exists m : MetaInfo Hasher,
    tb_build (EncodingError := EncodingError) b = Ret (Ok m) /\
    content (info m) = Single (Z.of_nat (length bytes)) /\
    hash <$> pieces (info m) = sha1 <$> chunks (Z.to_nat n) bytes /\
    forall fs fs' path data,
      write_torrent_file (EncodingError := EncodingError) fs m path = (fs', Ok data) ->
      from_torrent_file (EncodingError := EncodingError) fs' path = Ok m.
Proof.
  intros n root Hdir Hr Hnm Hc Hn Hu Hs1 Ha He Hco Hd Hh Hal Hcb Hno Hw.
  destruct (built_single b bytes c nm) as (m & Hb & Hm & Hp & _ & _ & _ & Hback); try done.
  by exists m.
Qed.

(** The torrent of a directory has no file and no piece: the filter of the
    walk keeps files only, and so does not even enter the directory. *)
Theorem directory_torrent_is_empty b m :
  path_is_dir (tb_content_root b) = true ->
  tb_build (Hasher := Hasher) (EncodingError := EncodingError) b = Ret (Ok m) ->
  content (info m) = Multi [] /\ pieces (info m) = [].
Proof.
  intros Hdir Hb. unfold tb_build in Hb.
  inv_bind Hb. destruct a as [c|e]; [|done]. cbn [map_err] in Hb. rewrite try_bind_ok in Hb.
  unfold read_content, read_dir in Hb. rewrite Hdir, walk_root in Hb; [|done|].
  - cbn [read_entries] in Hb. rewrite try_bind_ok, bind_ret in Hb. cbn [map_err] in Hb.
    rewrite try_bind_ok in Hb. destruct (path_file_name _) as [nm|]; [|done].
    cbn [ok_or map_err] in Hb. rewrite try_bind_ok in Hb.
    destruct (TorrentInfo_sha1_hash _) as [h|e]; [|done].
    rewrite try_bind_ok in Hb. by injection Hb as <-.
  - intros e _ He. unfold keep_entry. rewrite He. apply andb_false_r.
Qed.
End BuilderProperties.

(** ** Witnesses *)

(** A directory "d" with two files, and a file "f" *)
Definition ex_tree_files : list (PathBuf * list byte) :=
  [("d/a", byte_of_Z <$> [1; 2; 3; 4; 5]); ("d/b", byte_of_Z <$> [6; 7; 8; 9; 10; 11; 12]);
   ("f", byte_of_Z <$> [1; 2; 3; 4; 5; 6; 7; 8; 9; 10])].
Definition ex_content (path : PathBuf) : result (list byte) io_error :=
  ok_or (snd <$> find (fun e => bool_decide (e.1 = path)) ex_tree_files)
    (io_Error Other "not found").
Definition ex_entry (path name : string) : DirEntry := mkDirEntry path (Some name) true.
Definition ex_entries : list DirEntry := [ex_entry "d/a" "a"; ex_entry "d/b" "b"].

Definition ex_tree : FileTree := {|
  path_len path := result_map (fun b => Z.of_nat (length b)) (ex_content path);
  path_is_dir path := bool_decide (path = "d");
  open_file path := result_map (fun b => (b, None)) (ex_content path);
  walk root keep :=
    if bool_decide (root = "d") then
      if keep (mkDirEntry root (Some "d") false) then Ok <$> List.filter keep ex_entries else []
    else Ok <$> List.filter keep [ex_entry root root];
  entry_len e := result_map (fun b => Z.of_nat (length b)) (ex_content (de_path e));
|}.

Lemma ex_tree_laws : FileTreeLaws (H := ex_tree).
Proof.
  split. intros root keep Hdir Hk. simpl in *. rewrite Hdir.
  by rewrite (Hk (mkDirEntry root (Some "d") false)).
Qed.

Section BuilderWitnesses.
#[local] Existing Instances ex_tree ex_tree_laws toy_sha1 toy_sha1_laws debug_build text_bendy
  text_bendy_laws memory_files memory_files_laws.

Lemma ex_readable b path bytes paths :
  ex_content path = Ok bytes -> is_u64 (Z.of_nat (length bytes)) ->
  file_info_paths b path = Ok paths -> readable b path bytes.
Proof.
  intros Hc Hu Hp. split; [simpl; by rewrite Hc|]. split; [done|].
  split; [by exists paths|]. simpl. by rewrite Hc.
Qed.

(** Pieces of four bytes over two files *)
Lemma pieces_of_files_witness :
  exists files (hs : list (list byte)),
    read_entries (TorrentBuilder_new "d") 4 (Ok <$> ex_entries) None [] [] = Ret (Ok (files, hs)) /\
    sub_length <$> files = [5; 7] /\
    sha1_digest <$> hs =
      sha1 <$> (fmap byte_of_Z <$> [[1; 2; 3; 4]; [5; 6; 7; 8]; [9; 10; 11; 12]]).
Proof.
  destruct (pieces_of_files (Hasher := list byte) (TorrentBuilder_new "d") 4 ex_entries
    [byte_of_Z <$> [1; 2; 3; 4; 5]; byte_of_Z <$> [6; 7; 8; 9; 10; 11; 12]])
    as (files & hs & He & Hl & Hd).
  - lia.
  - vm_compute. split; [discriminate|reflexivity].
  - constructor; [|constructor; [|constructor]].
    + apply (ex_readable _ _ _ ["a"]); vm_compute; try reflexivity; split; [discriminate|reflexivity].
    + apply (ex_readable _ _ _ ["b"]); vm_compute; try reflexivity; split; [discriminate|reflexivity].
  - exists files, hs. split; [exact He|]. rewrite Hl, Hd. split; vm_compute; reflexivity.
Defined.

Definition ex_file_builder : TorrentBuilder :=
  tb_set_announce "http://a" (tb_set_comment "c" (TorrentBuilder_new "f")).

Lemma built_torrent_is_read_back_witness :
  exists m : MetaInfo (list byte),
    tb_build (EncodingError := string) ex_file_builder = Ret (Ok m) /\
    content (info m) = Single 10.
Proof.
  destruct (built_torrent_is_read_back (Hasher := list byte) (EncodingError := string)
    (Files := gmap string (list byte)) ex_file_builder (byte_of_Z <$> [1; 2; 3; 4; 5; 6; 7; 8; 9; 10])
    16384 "f") as (m & Hb & Hc & _).
  - vm_compute. reflexivity.
  - apply (ex_readable _ _ _ []); vm_compute; try reflexivity; split; [discriminate|reflexivity].
  - vm_compute. reflexivity.
  - vm_compute. reflexivity.
  - vm_compute. reflexivity.
  - vm_compute. split; [discriminate|reflexivity].
  - vm_compute. reflexivity.
  - intros s [= <-]. vm_compute. reflexivity.
  - discriminate.
  - intros s [= <-]. vm_compute. reflexivity.
  - discriminate.
  - constructor.
  - reflexivity.
  - reflexivity.
  - reflexivity.
  - reflexivity.
  - exact (ex_intro _ m (conj Hb Hc)).
Defined.

Definition ex_dir_built : MetaInfo (list byte) :=
  match tb_build (EncodingError := string) (TorrentBuilder_new "d") with
  | Ret (Ok m) => m
  | _ => ex_file_meta
  end.

Lemma directory_torrent_is_empty_witness :
  content (info ex_dir_built) = Multi [] /\ pieces (info ex_dir_built) = [].
Proof.
  apply (directory_torrent_is_empty (EncodingError := string) (TorrentBuilder_new "d")).
  - vm_compute. reflexivity.
  - vm_compute. reflexivity.
Defined.

Lemma piece_length_for_bounds_witness :
  BLOCK_SIZE_MIN <= piece_length_for 5000000 <= BLOCK_SIZE_MAX.
Proof. apply (piece_length_for_bounds 5000000). discriminate. Defined.
End BuilderWitnesses.
