(* ===== verification/PieceHandler.v ===== *)
(** * The pieces and peers of one torrent

    [TorrentPieceHandler] of src/src/peer/piece.rs. *)

From S2P Require Import Prelude Crates Util Message MetaInfo Block Peer DiskError PieceBuffer.
Local Open Scope Z_scope.
Local Open Scope rust_scope.

(** ** Data *)

(** Tracks the progress of the handler *)
Inductive TorrentPieceHandlerState (PeerId Hasher : Type) :=
| TPH_WaitingPeers
| TPH_LeechBlock (next : option (NextBlock PeerId))
| TPH_PieceFinished (res : result Block (TorrentError Hasher))
| TPH_Finished
| TPH_Endgame
| TPH_Seed.
Arguments TPH_WaitingPeers {PeerId Hasher}.
Arguments TPH_LeechBlock {PeerId Hasher}.
Arguments TPH_PieceFinished {PeerId Hasher}.
Arguments TPH_Finished {PeerId Hasher}.
Arguments TPH_Endgame {PeerId Hasher}.
Arguments TPH_Seed {PeerId Hasher}.

Record TorrentPieceHandler (PeerId BV Instant : Type) `{Countable PeerId} :=
  mkTorrentPieceHandler {
  th_id : TorrentId;
  (** How the next piece is selected *)
  selection_strategy : PieceSelection;
  (** Tracks the state of the currently downloaded piece *)
  piece_buffer : option (PieceBuffer PeerId);
  (** Pending read requests *)
  pending_seed_blocks : list (PeerId * BitTorrentRequestId * BlockMetadata);
  (** Which pieces the client owns and lacks *)
  th_bitfield : BitField BV;
  (** length for a piece in the torrent *)
  th_piece_length : Z;
  (** the length of the last piece that might by truncated at the end *)
  th_last_piece_length : Z;
  (** All the peers related to the torrent. *)
  peers : gmap PeerId (BitTorrentPeer BV Instant);
  (** Whether client is in endgame mode *)
  endgame : bool;
  (** Every piece is available. *)
  finished : bool;
}.
Arguments mkTorrentPieceHandler {PeerId BV Instant _ _}.
Arguments th_id {PeerId BV Instant _ _}.
Arguments selection_strategy {PeerId BV Instant _ _}.
Arguments piece_buffer {PeerId BV Instant _ _}.
Arguments pending_seed_blocks {PeerId BV Instant _ _}.
Arguments th_bitfield {PeerId BV Instant _ _}.
Arguments th_piece_length {PeerId BV Instant _ _}.
Arguments th_last_piece_length {PeerId BV Instant _ _}.
Arguments peers {PeerId BV Instant _ _}.
Arguments endgame {PeerId BV Instant _ _}.
Arguments finished {PeerId BV Instant _ _}.

Section HandlerFields.
Context `{Countable PeerId} {BV Instant : Type}.
Implicit Types h : TorrentPieceHandler PeerId BV Instant.

(** Assignments to one field *)
Definition with_piece_buffer x h : TorrentPieceHandler PeerId BV Instant :=
  mkTorrentPieceHandler (th_id h) (selection_strategy h) x (pending_seed_blocks h)
    (th_bitfield h) (th_piece_length h) (th_last_piece_length h) (peers h) (endgame h)
    (finished h).
Definition with_pending_seed_blocks x h : TorrentPieceHandler PeerId BV Instant :=
  mkTorrentPieceHandler (th_id h) (selection_strategy h) (piece_buffer h) x
    (th_bitfield h) (th_piece_length h) (th_last_piece_length h) (peers h) (endgame h)
    (finished h).
Definition with_th_bitfield x h : TorrentPieceHandler PeerId BV Instant :=
  mkTorrentPieceHandler (th_id h) (selection_strategy h) (piece_buffer h)
    (pending_seed_blocks h) x (th_piece_length h) (th_last_piece_length h) (peers h)
    (endgame h) (finished h).
Definition with_th_peers x h : TorrentPieceHandler PeerId BV Instant :=
  mkTorrentPieceHandler (th_id h) (selection_strategy h) (piece_buffer h)
    (pending_seed_blocks h) (th_bitfield h) (th_piece_length h) (th_last_piece_length h) x
    (endgame h) (finished h).
Definition with_finished x h : TorrentPieceHandler PeerId BV Instant :=
  mkTorrentPieceHandler (th_id h) (selection_strategy h) (piece_buffer h)
    (pending_seed_blocks h) (th_bitfield h) (th_piece_length h) (th_last_piece_length h)
    (peers h) (endgame h) x.

(** [self.peers.get_mut(id)] and an assignment to the peer *)
Definition set_peer (id : PeerId) (peer : BitTorrentPeer BV Instant) h :
    TorrentPieceHandler PeerId BV Instant :=
  with_th_peers (<[id := peer]> (peers h)) h.
End HandlerFields.

(** ** Operations *)

Section PieceHandler.
Context `{Countable PeerId} `{BitVec BV} `{Clock Instant} `{Profile}.
Context `{!MapOrder PeerId (BitTorrentPeer BV Instant)}.
Implicit Types h : TorrentPieceHandler PeerId BV Instant.

(** [TorrentPieceHandler::new] *)
Definition TorrentPieceHandler_new (id : TorrentId) (selection_strategy : PieceSelection)
    (bitfield : BitField BV) (piece_length last_piece_length : Z) :
    TorrentPieceHandler PeerId BV Instant :=
  let finished := bf_all bitfield in
  {| th_id := id;
     selection_strategy := selection_strategy;
     piece_buffer := None;
     pending_seed_blocks := [];
     th_bitfield := bitfield;
     th_piece_length := piece_length;
     th_last_piece_length := last_piece_length;
     peers := ∅;
     endgame := false;
     finished := finished |}.

(** [insert_peer] *)
Definition insert_peer h (id : PeerId) (peer : BitTorrentPeer BV Instant) :
    TorrentPieceHandler PeerId BV Instant * option (BitTorrentPeer BV Instant) :=
  let h :=
    match piece_buffer h with
    | Some buffer =>
        if remote_can_seed_piece peer (Z.to_nat (pb_piece_index buffer)) then
          if bool_decide (peers h !! id = None)
          then with_piece_buffer (Some (PieceBuffer_push_peer buffer id)) h
          else h
        else h
    | None => h
    end in
  (set_peer id peer h, peers h !! id).

(** [set_client_choke_for_peer] *)
Definition set_client_choke_for_peer h (peer_id : PeerId) (choke : ChokeType) :
    TorrentPieceHandler PeerId BV Instant * option ChokeType :=
  match peers h !! peer_id with
  | Some peer => (set_peer peer_id (with_client_choke choke peer) h, Some (client_choke peer))
  | None => (h, None)
  end.

(** [set_client_interest] *)
Definition set_client_interest h (peer_id : PeerId) (interest : InterestType) :
    TorrentPieceHandler PeerId BV Instant * option InterestType :=
  match peers h !! peer_id with
  | Some peer =>
      (set_peer peer_id (with_client_interest interest peer) h, Some (client_interest peer))
  | None => (h, None)
  end.

(** [set_choke_on_remote] *)
Definition set_choke_on_remote h (peer_id : PeerId) (choke : ChokeType) :
    TorrentPieceHandler PeerId BV Instant * option ChokeType :=
  match peers h !! peer_id with
  | Some peer =>
      let old := Some (remote_choke peer) in
      let peer := with_remote_choke choke peer in
      let h := set_peer peer_id peer h in
      match piece_buffer h with
      | Some buffer =>
          match choke with
          | Choked =>
              (with_piece_buffer (Some (PieceBuffer_remove_peer buffer peer_id).1) h, old)
          | UnChoked =>
              if remote_can_seed_piece peer (Z.to_nat (pb_piece_index buffer))
              then (with_piece_buffer (Some (PieceBuffer_push_peer buffer peer_id)) h, old)
              else (h, old)
          end
      | None => (h, old)
      end
  | None => (h, None)
  end.

(** [set_interest_on_remote] *)
Definition set_interest_on_remote h (peer_id : PeerId) (interest : InterestType) :
    TorrentPieceHandler PeerId BV Instant * option InterestType :=
  match peers h !! peer_id with
  | Some peer =>
      (set_peer peer_id (with_remote_interest interest peer) h, Some (remote_interest peer))
  | None => (h, None)
  end.

(** [has_piece] *)
Definition th_has_piece h (piece_index : nat) : bool :=
  default false (bf_get (th_bitfield h) piece_index).

(** [remove_peer] *)
Definition th_remove_peer h (id : PeerId) :
    TorrentPieceHandler PeerId BV Instant * option (BitTorrentPeer BV Instant) :=
  let peer := peers h !! id in
  let h := with_th_peers (delete id (peers h)) h in
  match peer, piece_buffer h with
  | Some _, Some buffer =>
      (with_piece_buffer (Some (PieceBuffer_remove_peer buffer id).1) h, peer)
  | _, _ => (h, peer)
  end.

(** [is_ready_to_seed_block] *)
Definition is_ready_to_seed_block h (peer : PeerId) : bool :=
  negb (existsb (fun '(p, _, _) => bool_decide (p = peer)) (pending_seed_blocks h)).

(** [insert_block_seed] *)
Definition insert_block_seed h (peer_id : PeerId) (block : BlockMetadata)
    (request_id : BitTorrentRequestId) : TorrentPieceHandler PeerId BV Instant :=
  with_pending_seed_blocks (pending_seed_blocks h ++ [(peer_id, request_id, block)]) h.

(** [get_peer] *)
Definition get_peer h (id : PeerId) : option (BitTorrentPeer BV Instant) := peers h !! id.

(** [clear_buffer] *)
Definition clear_buffer h :
    TorrentPieceHandler PeerId BV Instant * option (PieceBuffer PeerId) :=
  (with_piece_buffer None h, piece_buffer h).

(** [remove_pending_seed_by_request] *)
Definition remove_pending_seed_by_request h (req_id : BitTorrentRequestId) :
    TorrentPieceHandler PeerId BV Instant * option (PeerId * BlockMetadata) :=
  let pos := position (fun '(_, id, _) => bool_decide (req_id = id)) (pending_seed_blocks h) in
  match pos with
  | Some pos =>
      (with_pending_seed_blocks (delete pos (pending_seed_blocks h)) h,
       (fun '(peer, _, block) => (peer, block)) <$> pending_seed_blocks h !! pos)
  | None => (h, None)
  end.

(** [clear_pending_seed_block] *)
Definition clear_pending_seed_block h (block : BlockMetadata) :
    TorrentPieceHandler PeerId BV Instant * option (PeerId * BitTorrentRequestId) :=
  let pos := position (fun '(_, _, meta) => bool_decide (meta = block)) (pending_seed_blocks h) in
  match pos with
  | Some pos =>
      (with_pending_seed_blocks (delete pos (pending_seed_blocks h)) h,
       (fun '(peer, id, _) => (peer, id)) <$> pending_seed_blocks h !! pos)
  | None => (h, None)
  end.

(** [set_peer_piece] *)
Definition set_peer_piece h (peer_id : PeerId) (piece_index : nat) :
    TorrentPieceHandler PeerId BV Instant * option bool :=
  match peers h !! peer_id with
  | Some peer =>
      if has_bitfield peer then
        let '(peer, r) := add_piece peer piece_index in (set_peer peer_id peer h, r)
      else if (piece_index <? bf_len (th_bitfield h))%nat then
        let field := th_bitfield h in
        let field := bf_clear field in
        let field := bf_set field piece_index true in
        let '(peer, _) := set_bitfield peer field in
        (set_peer peer_id peer h, Some true)
      else (h, Some false)
  | None => (h, None)
  end.

(** [set_piece] *)
Definition set_piece h (piece_index : nat) :
    TorrentPieceHandler PeerId BV Instant * result unit unit :=
  if (piece_index <? bf_len (th_bitfield h))%nat
  then (with_th_bitfield (bf_set (th_bitfield h) piece_index true) h, Ok tt)
  else (h, Err tt).

(** [clear_piece] *)
Definition clear_piece h (piece_index : nat) :
    TorrentPieceHandler PeerId BV Instant * result unit unit :=
  if (piece_index <? bf_len (th_bitfield h))%nat
  then (with_th_bitfield (bf_set (th_bitfield h) piece_index false) h, Ok tt)
  else (h, Err tt).

(** [add_block] *)
Definition th_add_block h (peer : PeerId) (block : Block) :
    TorrentPieceHandler PeerId BV Instant * result BlockMetadata (BlockErr PeerId) :=
  match piece_buffer h with
  | Some buffer =>
      let '(buffer, r) := PieceBuffer_add_block buffer peer block in
      (with_piece_buffer (Some buffer) h, r)
  | None => (h, Err (BE_NotRequested peer block))
  end.

(** The index of each clear bit, except the one of the current piece. *)
Fixpoint missing_from (current : option Z) (index : nat) (bits : list bool) : list nat :=
  match bits with
  | [] => []
  | bit :: bits' =>
      if negb bit && negb (bool_decide (Some (Z.of_nat index) = current))
      then index :: missing_from current (S index) bits'
      else missing_from current (S index) bits'
  end.

(** [missing_piece_indices] *)
Definition missing_piece_indices h : list nat :=
  let current_piece := pb_piece_index <$> piece_buffer h in
  missing_from current_piece 0 (bf_iter (th_bitfield h)).

(** [piece_length] *)
Definition th_piece_length_at h (piece_index : nat) : outcome Z :=
  n ← Z.of_nat (bf_len (th_bitfield h)) -! 1;
  if Z.of_nat piece_index =? n then Ret (th_last_piece_length h)
  else Ret (th_piece_length h).

(** The [collect] into an [Option<Vec<_>>]: the ids of the peers when every one
    of them can seed the piece. *)
Definition peers_with_piece h (piece_index : nat) : option (list PeerId) :=
  mapM (fun '(id, peer) => if remote_can_seed_piece peer piece_index then Some id else None)
    (map_iter (peers h)).

(** [PieceBuffer::new] for a piece of the torrent *)
Definition buffer_for h (piece_index : nat) (ids : list PeerId) :
    outcome (option (PieceBuffer PeerId)) :=
  len ← th_piece_length_at h piece_index;
  Ret (Some (PieceBuffer_new (Z.of_nat piece_index) len (th_id h) ids)).

Fixpoint random_piece_loop h (missing : list nat) : outcome (option (PieceBuffer PeerId)) :=
  match missing with
  | [] => Ret None
  | piece_index :: missing' =>
      match peers_with_piece h piece_index with
      | Some ids => buffer_for h piece_index ids
      | None => random_piece_loop h missing'
      end
  end.

(** [next_random_piece]; [shuffle] is what the random generator makes of the
    indices. *)
Definition next_random_piece (shuffle : list nat -> list nat) h :
    outcome (option (PieceBuffer PeerId)) :=
  random_piece_loop h (shuffle (missing_piece_indices h)).

Fixpoint least_common_loop h (missing : list nat) (rarest_peers : option (list PeerId))
    (rarest_piece : nat) : outcome (option (PieceBuffer PeerId)) :=
  match missing with
  | [] =>
      match rarest_peers with
      | Some ids => buffer_for h rarest_piece ids
      | None => Ret None
      end
  | piece_index :: missing' =>
      match peers_with_piece h piece_index with
      | Some ids =>
          if (length ids =? 1)%nat then buffer_for h piece_index ids
          else
            match rarest_peers with
            | Some rare_peer =>
                if (length ids <? length rare_peer)%nat
                then least_common_loop h missing' (Some ids) piece_index
                else least_common_loop h missing' rarest_peers rarest_piece
            | None => least_common_loop h missing' (Some ids) piece_index
            end
      | None => least_common_loop h missing' rarest_peers rarest_piece
      end
  end.

(** [next_least_common_piece] *)
Definition next_least_common_piece (shuffle : list nat -> list nat) h :
    outcome (option (PieceBuffer PeerId)) :=
  if negb (existsb (fun '(_, peer) => remote_can_seed peer) (map_iter (peers h)))
  then Ret None
  else least_common_loop h (shuffle (missing_piece_indices h)) None 0.

(** [next_piece_buffer] *)
Definition next_piece_buffer (shuffle : list nat -> list nat) h :
    outcome (option (PieceBuffer PeerId)) :=
  match selection_strategy h with
  | Random => next_random_piece shuffle h
  | Rarest => next_least_common_piece shuffle h
  end.

(** [poll] *)
Definition th_poll {Hasher} (shuffle : list nat -> list nat) h :
    outcome (TorrentPieceHandler PeerId BV Instant * TorrentPieceHandlerState PeerId Hasher) :=
  match piece_buffer h with
  | Some buffer =>
      let h := with_piece_buffer None h in
      if is_full_piece buffer then
        match try_finalize_piece buffer with
        | Ok block =>
            let '(h, _) := set_piece h (Z.to_nat (bm_piece_index (block_metadata block))) in
            Ret (h, TPH_PieceFinished (Ok block))
        | Err e => Ret (h, TPH_PieceFinished (Err e))
        end
      else
        let '(buffer, next_block) := PieceBuffer_next buffer in
        Ret (with_piece_buffer (Some buffer) h, TPH_LeechBlock next_block)
  | None =>
      if finished h then Ret (h, TPH_Seed)
      else if bf_all (th_bitfield h) then Ret (with_finished true h, TPH_Finished)
      else
        o ← next_piece_buffer shuffle h;
        match o with
        | Some buffer =>
            let '(buffer, next_block) := PieceBuffer_next buffer in
            Ret (with_piece_buffer (Some buffer) h, TPH_LeechBlock next_block)
        | None => Ret (h, TPH_WaitingPeers)
        end
  end.
End PieceHandler.

(** ** Specification *)

Section HandlerSpec.
Context `{Countable PeerId} `{BitVec BV} `{Clock Instant} `{Profile}.
Context `{!MapOrder PeerId (BitTorrentPeer BV Instant)}.
Implicit Types h : TorrentPieceHandler PeerId BV Instant.

(** The length of a piece: the last one may be shorter. *)
Definition piece_len h (i : nat) : Z :=
  if (S i =? bf_len (th_bitfield h))%nat then th_last_piece_length h else th_piece_length h.

(** Every peer of the torrent can seed the piece. *)
Definition all_can_seed h (i : nat) : bool :=
  forallb (fun e => remote_can_seed_piece e.2 i) (map_iter (peers h)).

(** The piece that is downloaded is one the client lacks, cut into its blocks;
    the peers of its buffer, other than those of [C], are peers of the torrent
    that have the client unchoked. *)
Record buffer_fits (C : PeerId -> Prop) h (b : PieceBuffer PeerId) : Prop := {
  fits_accounts : buffer_accounts C b;
  fits_missing : exists i, pb_piece_index b = Z.of_nat i /\
    bf_get (th_bitfield h) i = Some false /\ pb_piece_length b = piece_len h i;
  fits_peers : forall p, ~ C p -> peer_known b p ->
    exists peer, peers h !! p = Some peer /\ remote_choke peer = UnChoked;
}.

Record handler_inv (C : PeerId -> Prop) h : Prop := {
  hinv_buffer : forall b, piece_buffer h = Some b -> buffer_fits C h b;
  hinv_lengths : 0 <= th_piece_length h /\ 0 <= th_last_piece_length h;
  hinv_field : is_u64 (Z.of_nat (bf_len (th_bitfield h)));
}.

(** What the torrent does with the handler.  The peers of [C] are those that join
    the torrent although it tracks them already, or unchoke the client although
    they have it unchoked already.  One step has a condition: the piece that
    is downloaded is not set from outside. *)
Inductive handler_step (C : PeerId -> Prop) : TorrentPieceHandler PeerId BV Instant ->
    TorrentPieceHandler PeerId BV Instant -> Prop :=
| hstep_insert_peer h id peer :
    (~ C id -> peers h !! id = None) -> handler_step C h (insert_peer h id peer).1
| hstep_set_client_choke h id c : handler_step C h (set_client_choke_for_peer h id c).1
| hstep_set_client_interest h id i : handler_step C h (set_client_interest h id i).1
| hstep_choked h id : handler_step C h (set_choke_on_remote h id Choked).1
| hstep_unchoked h id :
    (~ C id -> forall peer, peers h !! id = Some peer -> remote_choke peer = Choked) ->
    handler_step C h (set_choke_on_remote h id UnChoked).1
| hstep_set_interest h id i : handler_step C h (set_interest_on_remote h id i).1
| hstep_remove_peer h id : handler_step C h (th_remove_peer h id).1
| hstep_update_peer h id peer peer' :
    peers h !! id = Some peer -> remote_choke peer' = remote_choke peer ->
    handler_step C h (set_peer id peer' h)
| hstep_seed h seeds : handler_step C h (with_pending_seed_blocks seeds h)
| hstep_clear_buffer h : handler_step C h (clear_buffer h).1
| hstep_set_peer_piece h id i : handler_step C h (set_peer_piece h id i).1
| hstep_set_piece h i :
    (forall b, piece_buffer h = Some b -> pb_piece_index b <> Z.of_nat i) ->
    handler_step C h (set_piece h i).1
| hstep_clear_piece h i : handler_step C h (clear_piece h i).1
| hstep_add_block h id blk : handler_step C h (th_add_block h id blk).1
| hstep_poll Hasher shuffle h h' (s : TorrentPieceHandlerState PeerId Hasher) :
    (forall l, shuffle l ≡ₚ l) -> th_poll shuffle h = Ret (h', s) -> handler_step C h h'.

Definition handler_reachable (C : PeerId -> Prop) h : Prop :=
  exists id strategy bitfield piece_length last_piece_length,
    0 <= piece_length /\ 0 <= last_piece_length /\ is_u64 (Z.of_nat (bf_len bitfield)) /\
    rtc (handler_step C) (TorrentPieceHandler_new id strategy bitfield piece_length
                        last_piece_length) h.
End HandlerSpec.

(** ** Lemmas *)

(** Collecting into an option: all or nothing. *)
Lemma mapM_filter_all {K V} (f : V -> bool) (l : list (K * V)) :
  mapM (fun '(k, v) => if f v then Some k else None) l =
  if forallb (fun e => f e.2) l then Some l.*1 else None.
Proof.
  induction l as [|[k v] l IH]; [done|]. cbn [mapM forallb snd].
  destruct (f v); simpl; [|done]. rewrite IH. by case_match.
Qed.

Lemma missing_from_elem current k bits i :
  i ∈ missing_from current k bits <->
  exists j, i = (k + j)%nat /\ bits !! j = Some false /\ Some (Z.of_nat i) <> current.
Proof.
  revert k. induction bits as [|bit bits IH]; intros k; simpl.
  - split; [intros Hi; by apply not_elem_of_nil in Hi|]. intros (j & _ & Hj & _).
    by rewrite lookup_nil in Hj.
  - assert (Hcons : (i ∈ missing_from current (S k) bits \/
        (i = k /\ bit = false /\ Some (Z.of_nat i) <> current)) <->
      exists j, i = (k + j)%nat /\ (bit :: bits) !! j = Some false /\
        Some (Z.of_nat i) <> current).
    { rewrite IH. split.
      - intros [(j & -> & Hj & Hc)|(-> & -> & Hc)].
        + exists (S j). split_and!; [lia|done|done].
        + exists 0%nat. split_and!; [lia|done|done].
      - intros ([|j] & -> & Hj & Hc); simpl in Hj.
        + right. rewrite Nat.add_0_r in *. split_and!; [done|congruence|done].
        + left. exists j. split_and!; [lia|done|]. done. }
    rewrite <- Hcons. destruct bit; simpl.
    + split; [by left|]. intros [?|(_ & [=] & _)]; done.
    + case_bool_decide as Hc; simpl.
      * split; [by left|]. intros [?|(-> & _ & Hn)]; [done|]. by destruct Hn.
      * rewrite elem_of_cons. split; [|tauto].
        intros [->|?]; [right|by left]. done.
Qed.

Section HandlerLemmas.
Context `{Countable PeerId} `{BitVecLaws BV} `{Clock Instant} `{Profile}.
Context `{!MapOrder PeerId (BitTorrentPeer BV Instant)}.
Implicit Types h : TorrentPieceHandler PeerId BV Instant.

Lemma missing_piece_indices_elem h i :
  i ∈ missing_piece_indices h <->
  bf_get (th_bitfield h) i = Some false /\ Some (Z.of_nat i) <> (pb_piece_index <$> piece_buffer h).
Proof.
  unfold missing_piece_indices. rewrite missing_from_elem, bf_get_iter. split.
  - intros (j & -> & ? & ?). done.
  - intros [? ?]. by exists i.
Qed.

Lemma peers_with_piece_eq h i :
  peers_with_piece h i = if all_can_seed h i then Some (map_iter (peers h)).*1 else None.
Proof. apply (mapM_filter_all (fun peer => remote_can_seed_piece peer i)). Qed.

Lemma all_can_seed_true h i :
  all_can_seed h i = true <->
  forall p peer, peers h !! p = Some peer -> remote_can_seed_piece peer i = true.
Proof.
  unfold all_can_seed. rewrite forallb_forall. split.
  - intros Ha p peer Hp. apply (Ha (p, peer)). by apply list_elem_of_In, map_iter_elem.
  - intros Ha [p peer] Hin%list_elem_of_In%map_iter_elem. by apply (Ha p).
Qed.

Lemma random_piece_loop_eq h missing :
  random_piece_loop h missing =
  match find (all_can_seed h) missing with
  | Some i => buffer_for h i (map_iter (peers h)).*1
  | None => Ret None
  end.
Proof.
  induction missing as [|i missing IH]; simpl; [done|]. rewrite peers_with_piece_eq.
  by destruct (all_can_seed h i).
Qed.

(** Once a piece is chosen, no other is rarer: the same peers have it. *)
Lemma least_common_loop_chosen h missing i :
  length (map_iter (peers h)) <> 1%nat ->
  least_common_loop h missing (Some (map_iter (peers h)).*1) i =
  buffer_for h i (map_iter (peers h)).*1.
Proof.
  intros Hl. induction missing as [|j missing IH]; simpl; [done|]. rewrite peers_with_piece_eq.
  destruct (all_can_seed h j); [|done]. rewrite length_fmap.
  destruct (Nat.eqb_spec (length (map_iter (peers h))) 1); [done|].
  by rewrite Nat.ltb_irrefl.
Qed.

Lemma least_common_loop_eq h missing :
  least_common_loop h missing None 0 = random_piece_loop h missing.
Proof.
  induction missing as [|i missing IH]; simpl; [done|]. rewrite peers_with_piece_eq.
  destruct (all_can_seed h i); [|done]. rewrite length_fmap.
  destruct (Nat.eqb_spec (length (map_iter (peers h))) 1); [done|].
  by apply least_common_loop_chosen.
Qed.

Lemma th_piece_length_at_eq h i :
  (i < bf_len (th_bitfield h))%nat ->
  is_u64 (Z.of_nat (bf_len (th_bitfield h))) ->
  th_piece_length_at h i = Ret (piece_len h i).
Proof.
  intros Hi Hr. unfold th_piece_length_at, piece_len, in_range in *.
  rewrite checked_in_range, bind_ret by (unfold in_range; lia).
  destruct (Z.eqb_spec (Z.of_nat i) (Z.of_nat (bf_len (th_bitfield h)) - 1)),
    (Nat.eqb_spec (S i) (bf_len (th_bitfield h))); done || lia.
Qed.

(** What the choice of the next piece comes to. *)
Lemma next_piece_buffer_cases (shuffle : list nat -> list nat) h :
  (forall l, shuffle l ≡ₚ l) -> is_u64 (Z.of_nat (bf_len (th_bitfield h))) ->
  (exists i, i ∈ missing_piece_indices h /\ all_can_seed h i = true /\
     next_piece_buffer shuffle h =
     Ret (Some (PieceBuffer_new (Z.of_nat i) (piece_len h i) (th_id h) (map_iter (peers h)).*1))) \/
  next_piece_buffer shuffle h = Ret None /\
  (selection_strategy h = Rarest /\ existsb (fun '(_, p) => remote_can_seed p) (map_iter (peers h)) = false
   \/ forall i, i ∈ missing_piece_indices h -> all_can_seed h i = false).
Proof.
  intros Hs Hu. set (l := shuffle (missing_piece_indices h)).
  assert (Hloop : (exists i, i ∈ missing_piece_indices h /\ all_can_seed h i = true /\
     random_piece_loop h l =
     Ret (Some (PieceBuffer_new (Z.of_nat i) (piece_len h i) (th_id h) (map_iter (peers h)).*1))) \/
    random_piece_loop h l = Ret None /\
    forall i, i ∈ missing_piece_indices h -> all_can_seed h i = false).
  { rewrite random_piece_loop_eq. destruct (find (all_can_seed h) l) as [i|] eqn:Ef.
    - apply find_some in Ef as [Hin Ha]. apply list_elem_of_In in Hin. unfold l in Hin.
      rewrite Hs in Hin. left. exists i. split_and!; [done..|]. unfold buffer_for.
      apply missing_piece_indices_elem in Hin as [Hget _].
      by rewrite th_piece_length_at_eq by (done || by eapply bf_get_Some).
    - right. split; [done|]. intros i Hi. eapply find_none in Ef; [exact Ef|].
      apply list_elem_of_In. unfold l. by rewrite Hs. }
  unfold next_piece_buffer, next_random_piece, next_least_common_piece. fold l.
  destruct (selection_strategy h).
  - destruct Hloop as [?|[? ?]]; [by left|]. right. split; [done|by right].
  - destruct (existsb _ _) eqn:Ee; simpl.
    + rewrite least_common_loop_eq. destruct Hloop as [?|[? ?]]; [by left|].
      right. split; [done|by right].
    + right. split; [done|by left].
Qed.

(** A fresh buffer fits the handler it was made for. *)
Lemma new_buffer_fits C h i :
  handler_inv C h -> i ∈ missing_piece_indices h -> all_can_seed h i = true ->
  buffer_fits C h (PieceBuffer_new (Z.of_nat i) (piece_len h i) (th_id h) (map_iter (peers h)).*1).
Proof.
  intros Hi [Hget _]%missing_piece_indices_elem Ha.
  assert (0 <= piece_len h i).
  { unfold piece_len. pose proof (hinv_lengths C h Hi). case_match; lia. }
  split.
  - apply new_accounts; [done|]. rewrite map_iter_perm. apply NoDup_fst_map_to_list.
  - by exists i.
  - intros p _ [Hin|[? Hs]]; simpl in *; [|done].
    apply list_elem_of_fmap in Hin as ([p' peer] & -> & Hin%map_iter_elem). exists peer.
    split; [done|]. rewrite all_can_seed_true in Ha. specialize (Ha _ _ Hin).
    apply remote_can_seed_piece_true in Ha as [Ha _]. by apply remote_can_seed_true in Ha as [? _].
Qed.

(** Steps of the buffer that involve no new peer keep it fitting. *)
Lemma buffer_step_fits C h h' b b' :
  buffer_step C b b' -> buffer_fits C h b ->
  th_bitfield h' = th_bitfield h -> th_piece_length h' = th_piece_length h ->
  th_last_piece_length h' = th_last_piece_length h ->
  (forall p, ~ C p -> peer_known b' p ->
    exists peer, peers h' !! p = Some peer /\ remote_choke peer = UnChoked) ->
  buffer_fits C h' b'.
Proof.
  intros Hs [Hi (i & Hidx & Hget & Hlen) _] Hbf Hpl Hll Hk.
  destruct (buffer_step_same_piece C b b' Hs) as (Hidx' & Hlen' & _).
  split; [by eapply buffer_step_accounts | | done].
  exists i. rewrite Hidx', Hlen', Hbf. split_and!; [done..|].
  unfold piece_len. by rewrite Hpl, Hll, Hbf.
Qed.

(** Updates of a peer that keep how it treats the client keep the buffer
    fitting. *)
Lemma update_peer_inv C h id peer peer' :
  handler_inv C h -> peers h !! id = Some peer -> remote_choke peer' = remote_choke peer ->
  handler_inv C (set_peer id peer' h).
Proof.
  intros [Hb Hl Hf] Hp Hc. split; [|done|done]. intros b Hb'. simpl in Hb'.
  destruct (Hb b Hb') as [Hi Hm Hk]. split; [done..|]. intros p HC Hkn.
  destruct (Hk p HC Hkn) as (q & Hq & Hqc). simpl.
  destruct (decide (id = p)) as [->|Hne].
  - exists peer'. rewrite lookup_insert_eq. split; [done|]. congruence.
  - exists q. by rewrite lookup_insert_ne.
Qed.

(** The fields that the invariant reads besides the buffer and the peers. *)
Definition same_torrent h h' : Prop :=
  th_bitfield h' = th_bitfield h /\ th_piece_length h' = th_piece_length h /\
  th_last_piece_length h' = th_last_piece_length h.

(** A handler that has the old buffer still, or one a step further. *)
Lemma inv_buffer C h h' :
  handler_inv C h -> same_torrent h h' ->
  (forall b', piece_buffer h' = Some b' -> exists b, piece_buffer h = Some b /\
     (b' = b \/ buffer_step C b b') /\
     forall p, ~ C p -> peer_known b' p ->
       exists peer, peers h' !! p = Some peer /\ remote_choke peer = UnChoked) ->
  handler_inv C h'.
Proof.
  intros [Hb Hl Hf] (Hbf & Hpl & Hll) Hst. split; [|by rewrite Hpl, Hll | by rewrite Hbf].
  intros b' Hb'. destruct (Hst b' Hb') as (b & Hbb & [->|Hs] & Hk).
  - destruct (Hb b Hbb) as [Hi (i & Hidx & Hget & Hlen) _]. split; [done| |done].
    exists i. rewrite Hbf. unfold piece_len in *. by rewrite Hpl, Hll, Hbf.
  - eapply buffer_step_fits; [exact Hs | by apply Hb | done..].
Qed.

Lemma known_tracked C h b p :
  handler_inv C h -> piece_buffer h = Some b -> ~ C p -> peer_known b p ->
  exists peer, peers h !! p = Some peer /\ remote_choke peer = UnChoked.
Proof. intros Hi Hb. apply (fits_peers C h b (hinv_buffer C h Hi b Hb)). Qed.

Lemma insert_peer_inv C h id peer :
  handler_inv C h -> (~ C id -> peers h !! id = None) -> handler_inv C (insert_peer h id peer).1.
Proof.
  intros Hi Hid. assert (Hne : forall b p, piece_buffer h = Some b -> ~ C p -> peer_known b p ->
    exists q, <[id := peer]> (peers h) !! p = Some q /\ remote_choke q = UnChoked).
  { intros b p Hb Hc Hk. destruct (known_tracked C h b p Hi Hb Hc Hk) as (q & Hq & Hqc).
    exists q. split; [|done]. rewrite lookup_insert_ne; [done|]. intros ->.
    by rewrite (Hid Hc) in Hq. }
  unfold insert_peer. destruct (piece_buffer h) as [b|] eqn:Eb.
  2: { apply (inv_buffer C h); [done..|]. intros b' Hb'. simpl in Hb'. congruence. }
  assert (handler_inv C (set_peer id peer h)) as Hsame.
  { apply (inv_buffer C h); [done..|]. intros b' Hb'. exists b. simpl in Hb'.
    assert (b' = b) as -> by congruence. split; [done|]. split; [by left|].
    intros p Hc Hk. simpl. by eapply Hne. }
  destruct (remote_can_seed_piece _ _) eqn:Ec; [|done].
  case_bool_decide as Hnew; [|done].
  apply (inv_buffer C h); [done..|]. intros b' [= <-]. exists b. split; [done|]. split.
  - right. apply step_push_peer. intros Hc Hk.
    destruct (known_tracked C h b id Hi Eb Hc Hk) as (q & Hq & _). congruence.
  - intros p Hc [->|Hk]%push_peer_known; simpl; [|by eapply Hne].
    exists peer. rewrite lookup_insert_eq. split; [done|].
    apply remote_can_seed_piece_true in Ec as [Ec _].
    by apply remote_can_seed_true in Ec as [? _].
Qed.

Lemma set_choke_inv C h id c :
  handler_inv C h ->
  (c = UnChoked -> ~ C id -> forall peer, peers h !! id = Some peer -> remote_choke peer = Choked) ->
  handler_inv C (set_choke_on_remote h id c).1.
Proof.
  intros Hi Hc. unfold set_choke_on_remote. destruct (peers h !! id) as [peer|] eqn:Ep; [|done].
  cbn [piece_buffer set_peer with_th_peers].
  destruct (piece_buffer h) as [b|] eqn:Eb.
  2: { apply (inv_buffer C h); [done..|]. intros b' Hb'. simpl in Hb'. congruence. }
  assert (Hne : forall p, ~ C p -> peer_known b p -> p <> id ->
    exists q, <[id := with_remote_choke c peer]> (peers h) !! p = Some q /\
      remote_choke q = UnChoked).
  { intros p HC Hk Hp. destruct (known_tracked C h b p Hi Eb HC Hk) as (q & Hq & Hqc).
    exists q. by rewrite lookup_insert_ne. }
  pose proof (fits_accounts C h b (hinv_buffer C h Hi b Eb)) as Hbi. destruct c.
  - apply (inv_buffer C h); [done..|]. intros b' [= <-]. exists b.
    split; [done|]. split; [right; apply step_remove_peer|].
    intros p HC [Hk Hp]%(remove_peer_known C); [|done]. apply Hne; [done..|].
    intros ->. by apply (Hp HC).
  - assert (Hnk : ~ C id -> ~ peer_known b id).
    { intros HC Hk. destruct (known_tracked C h b id Hi Eb HC Hk) as (q & Hq & Hqc).
      rewrite Ep in Hq. injection Hq as <-. specialize (Hc eq_refl HC _ eq_refl). congruence. }
    destruct (remote_can_seed_piece _ _).
    + apply (inv_buffer C h); [done..|]. intros b' [= <-]. exists b.
      split; [done|]. split; [right; by apply step_push_peer|].
      intros p HC [->|Hk]%push_peer_known; simpl.
      * eexists. by rewrite lookup_insert_eq.
      * destruct (decide (p = id)) as [->|Hp]; [by destruct (Hnk HC)|by apply Hne].
    + apply (inv_buffer C h); [done..|]. intros b' Hb'. simpl in Hb'.
      assert (b' = b) as -> by congruence. exists b. split; [done|]. split; [by left|].
      intros p HC Hk. apply Hne; [done..|]. intros ->. by destruct (Hnk HC).
Qed.

Lemma th_remove_peer_inv C h id : handler_inv C h -> handler_inv C (th_remove_peer h id).1.
Proof.
  intros Hi. unfold th_remove_peer. cbn [piece_buffer with_th_peers].
  assert (Hne : forall b p, piece_buffer h = Some b -> ~ C p -> peer_known b p -> p <> id ->
    exists q, delete id (peers h) !! p = Some q /\ remote_choke q = UnChoked).
  { intros b p Hb HC Hk Hp. destruct (known_tracked C h b p Hi Hb HC Hk) as (q & Hq & Hqc).
    exists q. by rewrite lookup_delete_ne. }
  destruct (peers h !! id) as [peer|] eqn:Ep; destruct (piece_buffer h) as [b|] eqn:Eb;
    (apply (inv_buffer C h); [done..|]); intros b' Hb'; simpl in Hb';
    try (rewrite Eb in Hb'; discriminate Hb').
  - injection Hb' as <-. exists b. split; [done|]. split; [right; apply step_remove_peer|].
    intros p HC [Hk Hp]%(remove_peer_known C).
    + apply (Hne b); [done..|]. intros ->. by apply (Hp HC).
    + by apply (fits_accounts C h), (hinv_buffer C h Hi).
  - assert (b' = b) as -> by congruence. exists b. split; [done|]. split; [by left|].
    intros p HC Hk. apply (Hne b); [done..|]. intros ->.
    destruct (known_tracked C h b id Hi Eb HC Hk) as (q & Hq & _). congruence.
Qed.

Lemma set_bit_inv C h i v :
  handler_inv C h -> (i < bf_len (th_bitfield h))%nat ->
  (v = true -> forall b, piece_buffer h = Some b -> pb_piece_index b <> Z.of_nat i) ->
  handler_inv C (with_th_bitfield (bf_set (th_bitfield h) i v) h).
Proof.
  intros [Hb Hl Hf] Hlt Hv. split; simpl; [|done|by rewrite bf_len_set].
  intros b Hb'. destruct (Hb b Hb') as [Hi (j & Hidx & Hget & Hlen) Hk].
  split; [done| |done]. exists j. simpl. split; [done|]. split.
  - rewrite bf_get_set by done. destruct (decide (i = j)) as [->|Hne]; [|done].
    destruct v; [|done]. by destruct (Hv eq_refl b Hb').
  - unfold piece_len. simpl. by rewrite bf_len_set.
Qed.

Lemma set_piece_inv C h i :
  handler_inv C h -> (forall b, piece_buffer h = Some b -> pb_piece_index b <> Z.of_nat i) ->
  handler_inv C (set_piece h i).1.
Proof.
  intros Hi Hne. unfold set_piece. destruct (Nat.ltb_spec i (bf_len (th_bitfield h))); [|done].
  by apply set_bit_inv.
Qed.

Lemma th_add_block_inv C h id blk : handler_inv C h -> handler_inv C (th_add_block h id blk).1.
Proof.
  intros Hi. unfold th_add_block. destruct (piece_buffer h) as [b|] eqn:Eb; [|done].
  pose proof (step_add_block C b id blk) as Hs. pose proof (add_block_known b id blk) as Hk.
  destruct (PieceBuffer_add_block b id blk) as [b' r]. simpl in *.
  apply (inv_buffer C h); [done..|]. intros b'' [= <-]. exists b.
  split; [done|]. split; [by right|]. intros p HC Hp.
  exact (known_tracked C h b p Hi Eb HC (Hk p Hp)).
Qed.

Lemma next_fits C h b :
  buffer_fits C h b -> buffer_fits C h (PieceBuffer_next b).1.
Proof.
  intros Hf. eapply buffer_step_fits; [apply step_next | exact Hf | done..|].
  intros p HC Hp%next_known. by apply (fits_peers C h b Hf).
Qed.

Lemma th_poll_inv {Hasher} C shuffle h h' (s : TorrentPieceHandlerState PeerId Hasher) :
  (forall l, shuffle l ≡ₚ l) -> handler_inv C h -> th_poll shuffle h = Ret (h', s) ->
  handler_inv C h'.
Proof.
  intros Hsh Hi. pose proof Hi as [Hb Hl Hf]. unfold th_poll.
  destruct (piece_buffer h) as [b|] eqn:Eb.
  - destruct (is_full_piece b).
    + assert (handler_inv C (with_piece_buffer None h)) as Hi' by by split.
      destruct (try_finalize_piece b) as [blk|e]; [|by intros [= <- <-]].
      pose proof (set_piece_inv C _ (Z.to_nat (bm_piece_index (block_metadata blk))) Hi'
        ltac:(done)) as Hsp.
      destruct (set_piece _ _) as [h1 r]. by intros [= <- <-].
    + pose proof (next_fits C h b (Hb b eq_refl)) as Hn.
      destruct (PieceBuffer_next b) as [b' nb]. intros [= <- <-]. split; [|done|done].
      intros b'' [= <-]. destruct Hn as [? Hm ?]. by split.
  - destruct (finished h); [by intros [= <- <-]|].
    destruct (bf_all (th_bitfield h)); [intros [= <- <-]; split; simpl; try done; congruence|].
    destruct (next_piece_buffer_cases shuffle h Hsh Hf) as [(i & Hin & Ha & ->)|[-> _]].
    + rewrite bind_ret. cbn beta iota.
      pose proof (next_fits C h _ (new_buffer_fits C h i Hi Hin Ha)) as Hn.
      destruct (PieceBuffer_next _) as [b' nb]. intros [= <- <-]. split; [|done|done].
      intros b'' [= <-]. destruct Hn as [? Hm ?]. by split.
    + rewrite bind_ret. by intros [= <- <-].
Qed.

Lemma handler_step_inv C h h' : handler_step C h h' -> handler_inv C h -> handler_inv C h'.
Proof.
  assert (Hupd : forall h id f (r : TorrentPieceHandler PeerId BV Instant),
    handler_inv C h -> (forall q : BitTorrentPeer BV Instant, remote_choke (f q) = remote_choke q) ->
    match peers h !! id with Some q => r = set_peer id (f q) h | None => r = h end ->
    handler_inv C r).
  { intros h0 id f r Hi Hf Hr. destruct (peers h0 !! id) as [q|] eqn:E; subst r; [|done].
    by eapply update_peer_inv. }
  intros Hs Hi. destruct Hs.
  - by apply insert_peer_inv.
  - apply (Hupd h id (with_client_choke c) _ Hi); [done|]. unfold set_client_choke_for_peer.
    by case_match.
  - apply (Hupd h id (with_client_interest i) _ Hi); [done|]. unfold set_client_interest.
    by case_match.
  - by apply set_choke_inv.
  - by apply set_choke_inv.
  - apply (Hupd h id (with_remote_interest i) _ Hi); [done|]. unfold set_interest_on_remote.
    by case_match.
  - by apply th_remove_peer_inv.
  - by eapply update_peer_inv.
  - destruct Hi as [Hb Hl Hf]. split; [|done|done]. intros b Hb'. destruct (Hb b Hb'). by split.
  - destruct Hi as [Hb Hl Hf]. by split.
  - unfold set_peer_piece. destruct (peers h !! id) as [q|] eqn:E; [|done].
    destruct (has_bitfield q).
    + destruct (add_piece q i) as [q' r] eqn:Ea. eapply update_peer_inv; [done..|].
      unfold add_piece in Ea. case_all Ea; by injection Ea as <- <-.
    + case_match; [|done]. by eapply update_peer_inv.
  - by apply set_piece_inv.
  - unfold clear_piece. destruct (Nat.ltb_spec i (bf_len (th_bitfield h))); [|done].
    by apply set_bit_inv.
  - by apply th_add_block_inv.
  - by eapply th_poll_inv.
Qed.

Lemma handler_reachable_inv C h : handler_reachable C h -> handler_inv C h.
Proof.
  intros (id & st & bf & pl & lpl & Hp & Hlp & Hu & Hr).
  assert (handler_inv C (TorrentPieceHandler_new (PeerId := PeerId) (Instant := Instant)
    id st bf pl lpl)) as Hi by by split.
  revert Hi. induction Hr as [|h1 h2 h3 Hs Hr IH]; [done|]. intros Hi. apply IH.
  by apply (handler_step_inv C h1).
Qed.
End HandlerLemmas.

(** ** Lost blocks *)

Section LostBlocks.
Context `{Countable PeerId}.
Implicit Types b : PieceBuffer PeerId.

(** The blocks a buffer still knows of. *)
Definition tracked_blocks b : nat :=
  (length (missing_blocks b) + size (pending_blocks b) + length (pb_blocks b))%nat.

(** Every operation on the buffer, a peer that is pushed twice included. *)
Inductive any_step : PieceBuffer PeerId -> PieceBuffer PeerId -> Prop :=
| any_next b : any_step b (PieceBuffer_next b).1
| any_add_block b p blk : any_step b (PieceBuffer_add_block b p blk).1
| any_remove_peer b p : any_step b (PieceBuffer_remove_peer b p).1
| any_push_peer b p : any_step b (PieceBuffer_push_peer b p).

Lemma length_btree_insert {V} k (v : V) t : (length (btree_insert k v t) <= S (length t))%nat.
Proof.
  induction t as [|[k' v'] t IH]; simpl; [lia|].
  destruct (k <? k'); [simpl; lia|]. destruct (k =? k'); simpl; lia.
Qed.

Lemma size_insert_le (m : gmap PeerId BlockMetadata) k v :
  (size (<[k := v]> m) <= S (size m))%nat.
Proof. rewrite map_size_insert. case_match; unfold id; lia. Qed.

Lemma any_step_tracked b b' :
  any_step b b' -> (tracked_blocks b' <= tracked_blocks b)%nat /\ total_blocks b' = total_blocks b.
Proof.
  assert (Hdel : forall m : gmap PeerId BlockMetadata, forall k v, m !! k = Some v ->
    size m = S (size (delete k m))).
  { intros m k v Hk. rewrite map_size_delete_Some by by eexists.
    assert (size m <> 0%nat); [|lia]. intros Hz%map_size_empty_inv. by rewrite Hz in Hk. }
  intros [b0 | b0 p blk | b0 p | b0 p]; unfold tracked_blocks.
  - destruct (PieceBuffer_next b0) as [b1 [nb|]] eqn:En.
    + apply next_Some in En as (ps & ms & _ & Hm & _ & ->). simpl. rewrite Hm, length_app.
      pose proof (size_insert_le (pending_blocks b0) (nb_peer_id nb) (nb_block_metadata nb)).
      simpl. split; [lia|done].
    + apply next_None in En as [-> _]. done.
  - unfold PieceBuffer_add_block. destruct (pending_blocks b0 !! p) as [m|] eqn:Em; [|done].
    pose proof (Hdel _ _ _ Em). case_bool_decide; simpl.
    + pose proof (length_btree_insert (bm_block_offset (block_metadata blk)) blk (pb_blocks b0)).
      split; [lia|done].
    + rewrite length_app. simpl. split; [lia|done].
  - unfold PieceBuffer_remove_peer. destruct (position _ _); [done|].
    destruct (pending_blocks b0 !! p) as [m|] eqn:Em; [|done].
    pose proof (Hdel _ _ _ Em). simpl. rewrite length_app. simpl. split; [lia|done].
  - done.
Qed.

(** A buffer that lost a block is never full again. *)
Lemma lost_block_never_full b b' :
  Z.of_nat (tracked_blocks b) < total_blocks b -> rtc any_step b b' -> is_full_piece b' = false.
Proof.
  intros Hl Hr. induction Hr as [b|b1 b2 b3 Hs Hr IH].
  - apply Z.eqb_neq. unfold tracked_blocks in Hl. lia.
  - apply any_step_tracked in Hs as [Ht Htot]. apply IH. lia.
Qed.

Lemma inv_tracked b : PieceBuffer_inv b -> Z.of_nat (tracked_blocks b) = total_blocks b.
Proof.
  intros Hi. rewrite (inv_total b Hi), <- (inv_conserved b Hi), !length_app.
  unfold tracked_blocks, pending_list, received. rewrite !length_fmap, length_map_to_list. lia.
Qed.
End LostBlocks.

(** ** Properties *)

Section HandlerProperties.
Context `{Countable PeerId} `{BitVecLaws BV} `{Clock Instant} `{Profile}.
Context `{!MapOrder PeerId (BitTorrentPeer BV Instant)}.
Implicit Types h : TorrentPieceHandler PeerId BV Instant.

(** C14: In every state of a torrent, the piece that is downloaded is one the
    client lacks, and its buffer has no block twice and none that is not of the
    piece: the missing blocks, the blocks waited for and the received ones are
    among the blocks of the piece, and the piece counts as complete only when
    each of them was received.  While no peer joins a torrent that tracks it
    or unchokes the client a second time, no block is lost either.  Whoever is
    asked for a block, or next to be, is a tracked peer that has the client
    unchoked, unless it did one of these two things.  The piece that is
    downloaded is not marked as owned from outside. *)
Theorem handler_invariant C h b :
  handler_reachable C h -> piece_buffer h = Some b ->
  (exists i, pb_piece_index b = Z.of_nat i /\ bf_get (th_bitfield h) i = Some false /\
     let blocks := piece_blocks (Z.of_nat i) (piece_len h i) in
     missing_blocks b ++ pending_list b ++ received b ⊆+ blocks /\
     (is_full_piece b = true -> received b ≡ₚ blocks) /\
     ((forall p, ~ C p) -> missing_blocks b ++ pending_list b ++ received b ≡ₚ blocks)) /\
  (forall p, ~ C p -> peer_known b p ->
     exists peer, peers h !! p = Some peer /\ remote_choke peer = UnChoked).
Proof.
  intros Hi%handler_reachable_inv Hb. destruct (hinv_buffer C h Hi b Hb) as [Hbi Hm Hk].
  split; [|done]. destruct Hm as (i & Hidx & Hget & Hlen). exists i.
  cbv zeta. rewrite <- Hidx, <- Hlen.
  split_and!; [done|done|apply (acc_blocks C b Hbi)| |apply (acc_all C b Hbi)].
  by apply (full_blocks_arrived C).
Qed.


(** The rarest-first selection selects what the random one selects: both
    consider only the pieces that every peer of the torrent can seed, among
    which none is rarer than another. *)
Theorem rarest_is_random (shuffle : list nat -> list nat) h :
  next_least_common_piece shuffle h =
  if existsb (fun '(_, peer) => remote_can_seed peer) (map_iter (peers h))
  then next_random_piece shuffle h else Ret None.
Proof.
  unfold next_least_common_piece, next_random_piece.
  destruct (existsb _ _); simpl; [|done]. apply least_common_loop_eq.
Qed.

(** A peer that unchokes the client a second time is listed twice, and gets
    two blocks to deliver of which the buffer forgets one: the piece is never
    finished, whatever happens afterwards. *)
Theorem double_unchoke_stalls h b p peer ps ms m1 m2 b' :
  piece_buffer h = Some b -> PieceBuffer_inv b ->
  peers h !! p = Some peer -> remote_choke peer = UnChoked ->
  remote_can_seed_piece peer (Z.to_nat (pb_piece_index b)) = true ->
  pb_peers b = ps ++ [p] -> missing_blocks b = ms ++ [m2; m1] ->
  exists b2, piece_buffer (set_choke_on_remote h p UnChoked).1 = Some b2 /\
    (rtc any_step (PieceBuffer_next (PieceBuffer_next b2).1).1 b' -> is_full_piece b' = false).
Proof.
  intros Hb Hi Hp Hc Hcan Hps Hms. exists (PieceBuffer_push_peer b p).
  assert (with_remote_choke UnChoked peer = peer) as Hsame
    by (destruct peer; simpl in *; by rewrite Hc).
  unfold set_choke_on_remote. rewrite Hp, Hsame. simpl. rewrite Hb, Hcan. split; [done|].
  pose proof (inv_tracked b Hi) as Ht. apply lost_block_never_full.
  assert (PieceBuffer_next (PieceBuffer_push_peer b p) =
    (with_missing_pending (ms ++ [m2]) (<[p := m1]> (pending_blocks b)) b,
     Some {| nb_torrent_id := pb_torrent_id b; nb_peer_id := p; nb_block_metadata := m1 |})) as ->.
  { unfold PieceBuffer_next. simpl. rewrite vec_pop_snoc. simpl. rewrite Hms.
    change [m2; m1] with ([m2] ++ [m1]). rewrite app_assoc, vec_pop_snoc. by destruct b. }
  cbn [fst]. unfold PieceBuffer_next.
  cbn [fst pb_peers missing_blocks with_missing_pending with_peers].
  rewrite Hps, vec_pop_snoc. cbn [missing_blocks with_missing_pending with_peers].
  rewrite vec_pop_snoc. unfold tracked_blocks in *. simpl. rewrite insert_insert_eq.
  rewrite Hms in Ht. rewrite length_app in *.
  pose proof (size_insert_le (pending_blocks b) p m2). simpl in *. lia.
Qed.
End HandlerProperties.

(** ** Witnesses *)

Section HandlerWitnesses.
#[local] Existing Instances list_bitvec list_bitvec_laws debug_build seconds.
#[local] Instance ex_order : MapOrder Z (BitTorrentPeer (list bool) Z) := default_order _ _.

(** A peer with both pieces of a torrent that has the client unchoked. *)
Definition ex_seeder : BitTorrentPeer (list bool) Z :=
  with_client_interest Interested (with_remote_choke UnChoked
    (BitTorrentPeer_new_with_bitfield {| hash := [] |} {| inner := [true; true] |} 0 0)).

Definition ex_handler : TorrentPieceHandler Z (list bool) Z :=
  TorrentPieceHandler_new 0 Rarest {| inner := [false; false] |} 40000 5.

Definition ex_handler1 : TorrentPieceHandler Z (list bool) Z :=
  (insert_peer ex_handler 7 ex_seeder).1.

Definition ex_poll (h : TorrentPieceHandler Z (list bool) Z) : TorrentPieceHandler Z (list bool) Z :=
  match th_poll (Hasher := list byte) (fun l => rev (rev l)) h with Ret (h, _) => h | Panic => h end.

(** The handler that has the three blocks of its first piece in progress. *)
Definition ex_handler2 : TorrentPieceHandler Z (list bool) Z :=
  (th_add_block (ex_poll ex_handler1) 7
     {| block_metadata := BlockMetadata_new 1 0 1; block_data := [] |}).1.
Definition ex_buffer2 : PieceBuffer Z := PieceBuffer_new 0 40000 0 [7].
Definition ex_handler3 : TorrentPieceHandler Z (list bool) Z :=
  with_piece_buffer (Some ex_buffer2) ex_handler1.

Lemma ex_shuffle_perm : forall l : list nat, rev (rev l) ≡ₚ l.
Proof. intros l. by rewrite rev_involutive. Qed.

Lemma ex_handler1_reachable : handler_reachable nobody ex_handler1.
Proof.
  exists 0, Rarest, {| inner := [false; false] |}, 40000, 5. split_and!; try done.
  eapply rtc_l; [|apply rtc_refl]. by apply (hstep_insert_peer nobody ex_handler 7 ex_seeder).
Qed.

Lemma ex_handler2_reachable : handler_reachable nobody ex_handler2.
Proof.
  destruct ex_handler1_reachable as (id & st & bf & pl & lpl & ? & ? & ? & Hr).
  exists id, st, bf, pl, lpl. split_and!; [done..|].
  eapply rtc_r; [|apply hstep_add_block]. eapply rtc_r; [exact Hr|].
  apply (hstep_poll nobody (list byte) (fun l => rev (rev l)) ex_handler1 (ex_poll ex_handler1)
    (TPH_LeechBlock (Some {| nb_torrent_id := 0; nb_block_metadata := BlockMetadata_new 0 32768 7232;
       nb_peer_id := 7 |}))); [apply ex_shuffle_perm | by vm_compute].
Qed.

Definition ex_buffer1 : PieceBuffer Z := default ex_buffer2 (piece_buffer ex_handler2).

Lemma handler_invariant_witness :
  exists peer, peers ex_handler2 !! 7 = Some peer /\ remote_choke peer = UnChoked.
Proof.
  apply (handler_invariant nobody ex_handler2 ex_buffer1 ex_handler2_reachable); [by vm_compute|done|].
  left. vm_compute. left.
Defined.


Lemma rarest_is_random_witness :
  next_least_common_piece (fun l => rev (rev l)) ex_handler1 =
  next_random_piece (fun l => rev (rev l)) ex_handler1.
Proof. exact (rarest_is_random (fun l => rev (rev l)) ex_handler1). Defined.

Lemma double_unchoke_stalls_witness :
  exists b2, piece_buffer (set_choke_on_remote ex_handler3 7 UnChoked).1 = Some b2 /\
    (rtc any_step (PieceBuffer_next (PieceBuffer_next b2).1).1
       (PieceBuffer_next (PieceBuffer_next b2).1).1 ->
     is_full_piece (PieceBuffer_next (PieceBuffer_next b2).1).1 = false).
Proof.
  destruct (double_unchoke_stalls ex_handler3 ex_buffer2 7 ex_seeder []
    [piece_block_at 0 40000 0] (piece_block_at 0 40000 2) (piece_block_at 0 40000 1)
    (PieceBuffer_next (PieceBuffer_next (PieceBuffer_push_peer ex_buffer2 7)).1).1)
    as (b2 & Hb2 & Hfull);
    [reflexivity | apply new_inv; [done|apply NoDup_singleton] | reflexivity..|].
  injection Hb2 as <-. by eexists.
Defined.
End HandlerWitnesses.
