(* ===== verification/Download.v ===== *)
(** * The download of a torrent

    What [TorrentPieceHandler::poll] of src/src/peer/piece.rs comes to, when it
    is called again and again and the peers deliver what they are asked for. *)

From S2P Require Import Prelude Crates Util Message MetaInfo Block Peer DiskError PieceBuffer.
From S2P Require Import PieceHandler.
Local Open Scope Z_scope.

(** ** Specification *)

Section Spec.
Context `{Countable PeerId} `{BitVec BV} `{Clock Instant} `{Profile}.
Context `{!MapOrder PeerId (BitTorrentPeer BV Instant)}.
Implicit Types h : TorrentPieceHandler PeerId BV Instant.

(** Calls of [poll] until the download is finished, or nothing can be asked
    for.  A block that is asked for is delivered at once, with the data it has
    in the piece [D i]; the result has the pieces in the order they are
    finished in. *)
Fixpoint download (Hasher : Type) (shuffle : list nat -> list nat) (D : nat -> list byte)
    (fuel : nat) h : outcome (TorrentPieceHandler PeerId BV Instant * list Block) :=
  match fuel with
  | O => Ret (h, [])
  | S fuel' =>
      '(h, s) ← th_poll (Hasher := Hasher) shuffle h;
      match s with
      | TPH_LeechBlock (Some nb) =>
          let m := nb_block_metadata nb in
          download Hasher shuffle D fuel'
            (th_add_block h (nb_peer_id nb)
               (block_of (D (Z.to_nat (bm_piece_index m))) m)).1
      | TPH_PieceFinished (Ok blk) =>
          '(h, blks) ← download Hasher shuffle D fuel' h; Ret (h, blk :: blks)
      | _ => Ret (h, [])
      end
  end.

(** The piece as one block. *)
Definition piece_block_of (D : nat -> list byte) h (i : nat) : Block :=
  Block_new (BlockMetadata_new (Z.of_nat i) 0 (piece_len h i)) (D i).

(** The polls a piece takes: one for each block, and one to finish it. *)
Definition piece_polls h (i : nat) : nat :=
  S (length (piece_blocks (Z.of_nat i) (piece_len h i))).

(** The polls that the pieces the client lacks take, and the last one. *)
Definition download_polls h : nat := S (sum_list_with (piece_polls h) (missing_piece_indices h)).

(** A torrent that satisfies the invariant, without a piece in progress, that
    has peers, each of which can seed every piece; [D] has the pieces. *)
Record downloadable (D : nat -> list byte) h : Prop := {
  dl_inv : handler_inv nobody h;
  dl_idle : piece_buffer h = None;
  dl_unfinished : finished h = false;
  dl_peers : map_iter (peers h) <> [];
  dl_seed : forall i, (i < bf_len (th_bitfield h))%nat -> all_can_seed h i = true;
  dl_lengths : 0 < th_piece_length h /\ 0 < th_last_piece_length h;
  dl_data : forall i, (i < bf_len (th_bitfield h))%nat ->
    Z.of_nat (length (D i)) = piece_len h i;
}.
End Spec.

(** ** Lemmas *)

Lemma missing_from_NoDup current k bits : NoDup (missing_from current k bits).
Proof.
  revert k. induction bits as [|bit bits IH]; intros k; simpl; [constructor|].
  case_match; [|done]. constructor; [|done]. rewrite missing_from_elem.
  intros (j & Hj & _). lia.
Qed.

Section Lemmas.
Context `{Countable PeerId} `{BitVecLaws BV} `{Clock Instant} `{Profile} {Hasher : Type}.
Context `{!MapOrder PeerId (BitTorrentPeer BV Instant)}.
Context (shuffle : list nat -> list nat) (shuffle_perm : forall l, shuffle l ≡ₚ l).
Implicit Types h : TorrentPieceHandler PeerId BV Instant.

(** The handler after the piece [i] is finished. *)
Definition piece_done h (i : nat) : TorrentPieceHandler PeerId BV Instant :=
  with_th_bitfield (bf_set (th_bitfield h) i true) (with_piece_buffer None h).

(** The polls of one piece that is in progress. *)
Lemma download_piece D h i n fuel b :
  bf_get (th_bitfield h) i = Some false ->
  piece_buffer h = Some b -> PieceBuffer_inv b -> pb_piece_index b = Z.of_nat i ->
  Z.of_nat (length (D i)) = pb_piece_length b ->
  pending_blocks b = ∅ -> received_from (D i) b -> pb_peers b <> [] ->
  length (missing_blocks b) = n ->
  download Hasher shuffle D (n + S fuel) h =
  '(h', blks) ← download Hasher shuffle D fuel (piece_done h i);
  Ret (h', Block_new (BlockMetadata_new (Z.of_nat i) 0 (pb_piece_length b)) (D i) :: blks).
Proof.
  intros Hget. revert h b Hget. induction n as [|n IH];
    intros h b Hget Hb Hi Hidx HD Hp Hrec Hpeers Hn.
  - apply nil_length_inv in Hn.
    assert (is_full_piece b = true) as Hf by by apply is_full_piece_iff.
    simpl. unfold th_poll. rewrite Hb, Hf.
    rewrite (finalize_full b (D i)) by done. cbn [block_metadata Block_new bm_piece_index
      BlockMetadata_new]. rewrite Hidx, Nat2Z.id. unfold set_piece. simpl.
    apply bf_get_Some in Hget as Hlt. destruct (Nat.ltb_spec i (bf_len (th_bitfield h))); [|lia].
    done.
  - assert (is_full_piece b = false) as Hf.
    { apply not_true_iff_false. rewrite is_full_piece_iff by done.
      intros [Hm _]. by rewrite Hm in Hn. }
    cbn [Nat.add download]. unfold th_poll. rewrite Hb, Hf.
    pose proof (next_inv b Hi) as Hi1. destruct (PieceBuffer_next b) as [b1 [nb|]] eqn:En.
    2: { apply next_None in En as [_ [?|Hm]]; [done|]. by rewrite Hm in Hn. }
    rewrite bind_ret. cbn beta iota zeta.
    assert (bm_piece_index (nb_block_metadata nb) = Z.of_nat i) as Hbi.
    { apply next_Some in En as (ps & ms & _ & Hm & _).
      assert (nb_block_metadata nb ∈ piece_blocks (pb_piece_index b) (pb_piece_length b)) as Hin.
      { apply inv_in_piece; [done|]. left. rewrite Hm. apply elem_of_app. right. left. }
      apply list_elem_of_lookup in Hin as [k Hk]. apply piece_blocks_lookup in Hk as [-> _].
      exact Hidx. }
    rewrite Hbi, Nat2Z.id.
    pose proof (drive_round (D i) b b1 nb Hp Hrec En) as (Hp' & HD' & Hne & Hl & Hidx' & Hlen').
    pose proof (add_block_inv b1 (nb_peer_id nb) (block_of (D i) (nb_block_metadata nb)) Hi1)
      as Hi2.
    unfold th_add_block. cbn [piece_buffer with_piece_buffer].
    destruct (PieceBuffer_add_block b1 (nb_peer_id nb) (block_of (D i) (nb_block_metadata nb)))
      as [b2 r]. cbn [fst] in *.
    rewrite (IH (with_piece_buffer (Some b2) (with_piece_buffer (Some b1)
      (with_piece_buffer None h))) b2); try done; [|congruence..|lia].
    by rewrite Hlen'.
Qed.

Lemma missing_piece_done h i :
  piece_buffer h = None -> bf_get (th_bitfield h) i = Some false ->
  missing_piece_indices h ≡ₚ i :: missing_piece_indices (piece_done h i).
Proof.
  intros Hb Hget. pose proof (bf_get_Some _ _ _ Hget) as Hlt.
  assert (Hiff : forall j, j ∈ missing_piece_indices (piece_done h i) <->
    bf_get (th_bitfield h) j = Some false /\ j <> i).
  { intros j. rewrite missing_piece_indices_elem. simpl. rewrite bf_get_set by done.
    destruct (decide (i = j)) as [->|Hne]; split; intros [? ?]; done. }
  apply NoDup_Permutation; [apply missing_from_NoDup | |].
  - apply NoDup_cons. split; [rewrite Hiff; tauto | apply missing_from_NoDup].
  - intros j. rewrite elem_of_cons, Hiff, missing_piece_indices_elem, Hb. simpl. split.
    + intros [? _]. destruct (decide (j = i)); tauto.
    + intros [->|[? _]]; done.
Qed.

Lemma nothing_missing h :
  piece_buffer h = None -> missing_piece_indices h = [] -> bf_all (th_bitfield h) = true.
Proof.
  intros Hb Hn. apply bf_all_true. intros i Hi.
  destruct (bf_get (th_bitfield h) i) as [[|]|] eqn:E; [done| |].
  - assert (i ∈ missing_piece_indices h) as Hin by (apply missing_piece_indices_elem; by rewrite Hb).
    rewrite Hn in Hin. by apply not_elem_of_nil in Hin.
  - rewrite bf_get_iter in E. apply lookup_ge_None in E. rewrite bf_len_iter in Hi. lia.
Qed.

Lemma piece_done_len h i j :
  (i < bf_len (th_bitfield h))%nat -> piece_len (piece_done h i) j = piece_len h j.
Proof. intros Hi. unfold piece_len. simpl. by rewrite bf_len_set. Qed.

Lemma piece_done_downloadable D h i :
  downloadable D h -> (i < bf_len (th_bitfield h))%nat -> downloadable D (piece_done h i).
Proof.
  intros [Hinv Hb Hf Hp Hs Hl HD] Hi.
  assert (bf_len (th_bitfield (piece_done h i)) = bf_len (th_bitfield h)) as Hlen
    by (simpl; by rewrite bf_len_set).
  split; try done.
  - apply (set_bit_inv nobody (with_piece_buffer None h)); [|done|done].
    destruct Hinv. by split.
  - intros j Hj. rewrite Hlen in Hj. by apply Hs.
  - intros j Hj. rewrite Hlen in Hj. rewrite piece_done_len by done. by apply HD.
Qed.

(** A poll without a piece in progress starts one. *)
Lemma th_poll_starts D h :
  downloadable D h -> missing_piece_indices h <> [] ->
  exists i, i ∈ missing_piece_indices h /\
    let b := PieceBuffer_new (Z.of_nat i) (piece_len h i) (th_id h) (map_iter (peers h)).*1 in
    th_poll (Hasher := Hasher) shuffle h =
      (let '(buffer, next_block) := PieceBuffer_next b in
       Ret (with_piece_buffer (Some buffer) h, TPH_LeechBlock next_block)) /\
    PieceBuffer_inv b /\ missing_blocks b = piece_blocks (Z.of_nat i) (piece_len h i) /\
    is_full_piece b = false.
Proof.
  intros Hd Hm. pose proof Hd as [Hinv Hb Hf Hp Hs Hl HD].
  destruct (next_piece_buffer_cases shuffle h shuffle_perm (hinv_field nobody h Hinv))
    as [(i & Hin & Ha & Hnext)|[_ Hnone]].
  2: { exfalso. destruct (missing_piece_indices h) as [|i ms] eqn:Em; [done|].
       assert (i ∈ missing_piece_indices h) as Hi by (rewrite Em; left).
       apply missing_piece_indices_elem in Hi as [Hget _]. apply bf_get_Some in Hget.
       pose proof (Hs i Hget) as Hall. destruct Hnone as [[_ Hex]|Hno].
       - destruct (map_iter (peers h)) as [|[p peer] l] eqn:El; [done|]. simpl in Hex.
         rewrite all_can_seed_true in Hall.
         assert ((p, peer) ∈ map_iter (peers h)) as Hpe%map_iter_elem by (rewrite El; left).
         apply Hall, remote_can_seed_piece_true in Hpe as [Hpe _]. by rewrite Hpe in Hex.
       - rewrite Hno in Hall; [done|]. left. }
  exists i. split; [done|]. intros b.
  pose proof (fits_accounts nobody h _ (new_buffer_fits nobody h i Hinv Hin Ha)) as Hfits.
  fold b in Hfits, Hnext. apply inv_accounts in Hfits.
  apply missing_piece_indices_elem in Hin as [Hget _].
  assert (0 < piece_len h i) as Hlen by (unfold piece_len; case_match; lia).
  assert (missing_blocks b = piece_blocks (Z.of_nat i) (piece_len h i)) as Hmb
    by (apply new_missing_blocks; lia).
  split_and!; [|exact Hfits|done|].
  - assert (bf_all (th_bitfield h) = false) as Hne.
    { apply not_true_iff_false. rewrite bf_all_true. intros Hall.
      specialize (Hall i (bf_get_Some _ _ _ Hget)). congruence. }
    unfold th_poll. by rewrite Hb, Hf, Hne, Hnext.
  - apply not_true_iff_false. rewrite is_full_piece_iff by exact Hfits.
    rewrite Hmb. intros [Hmm _]. pose proof (length_piece_blocks (Z.of_nat i) (piece_len h i)
      (Z.lt_le_incl _ _ Hlen)) as Hlp. rewrite Hmm in Hlp. unfold BLOCK_SIZE in Hlp. cbn [length] in Hlp.
    revert Hlp Hlen. generalize (piece_len h i). intros z Hz Hzp. div_lia.
Qed.

Lemma download_start D h :
  downloadable D h -> missing_piece_indices h <> [] ->
  exists i, i ∈ missing_piece_indices h /\ forall fuel,
    download Hasher shuffle D (piece_polls h i + fuel) h =
    '(h', blks) ← download Hasher shuffle D fuel (piece_done h i);
    Ret (h', piece_block_of D h i :: blks).
Proof.
  intros Hd Hm. pose proof Hd as [Hinv Hb Hf Hp Hs Hl HD].
  destruct (th_poll_starts D h Hd Hm) as (i & Hin & Hpoll & Hbi & Hmb & Hfull).
  exists i. split; [done|]. set (b := PieceBuffer_new _ _ _ _) in *.
  apply missing_piece_indices_elem in Hin as [Hget _].
  pose proof (bf_get_Some _ _ _ Hget) as Hlt.
  intros fuel. transitivity (download Hasher shuffle D (piece_polls h i + fuel) (with_piece_buffer (Some b) h)).
  - cbn [piece_polls Nat.add download]. rewrite Hpoll. unfold th_poll at 1.
    cbn [piece_buffer with_piece_buffer]. rewrite Hfull.
    by destruct (PieceBuffer_next b).
  - unfold piece_polls. rewrite Nat.add_succ_l, <- Nat.add_succ_r.
    rewrite (download_piece D (with_piece_buffer (Some b) h) i _ fuel b); try done.
    + by apply HD.
    + constructor.
    + simpl. destruct (map_iter (peers h)); done.
    + by rewrite Hmb.
Qed.

Lemma download_all D n h fuel :
  downloadable D h -> length (missing_piece_indices h) = n ->
  exists h' blks,
    download Hasher shuffle D (download_polls h + fuel) h = Ret (h', blks) /\
    finished h' = true /\ bf_all (th_bitfield h') = true /\
    blks ≡ₚ piece_block_of D h <$> missing_piece_indices h.
Proof.
  revert h. induction n as [|n IH]; intros h Hd Hn.
  - apply nil_length_inv in Hn. unfold download_polls. rewrite Hn. simpl.
    pose proof Hd as [_ Hb Hf _ _ _ _].
    pose proof (nothing_missing h Hb Hn) as Hall.
    unfold th_poll. rewrite Hb, Hf, Hall, bind_ret. by eexists _, _.
  - assert (missing_piece_indices h <> []) as Hne by (by intros Hz; rewrite Hz in Hn).
    destruct (download_start D h Hd Hne) as (i & Hin & Hstart).
    apply missing_piece_indices_elem in Hin as [Hget _].
    pose proof (bf_get_Some _ _ _ Hget) as Hlt.
    pose proof (missing_piece_done h i (dl_idle D h Hd) Hget) as Hperm.
    assert (download_polls h = piece_polls h i + download_polls (piece_done h i))%nat as ->.
    { unfold download_polls. rewrite Hperm. simpl.
      assert (forall l, sum_list_with (piece_polls (piece_done h i)) l =
                        sum_list_with (piece_polls h) l) as ->; [|lia].
      intros l. induction l as [|j l IHl]; simpl; [done|]. rewrite IHl.
      unfold piece_polls. by rewrite piece_done_len. }
    rewrite <- Nat.add_assoc, Hstart.
    destruct (IH (piece_done h i)) as (h' & blks & -> & Hfin & Hall & Hblks).
    + by apply piece_done_downloadable.
    + rewrite Hperm in Hn. simpl in Hn. lia.
    + rewrite bind_ret. eexists h', _. split_and!; [done..|]. rewrite Hperm, Hblks. simpl.
      apply perm_skip. apply reflexive_eq, list_fmap_ext. intros k j _.
      unfold piece_block_of. by rewrite piece_done_len.
Qed.
End Lemmas.

(** ** Properties *)

Section Properties.
Context `{Countable PeerId} `{BitVecLaws BV} `{Clock Instant} `{Profile}.
Context `{!MapOrder PeerId (BitTorrentPeer BV Instant)}.
Implicit Types h : TorrentPieceHandler PeerId BV Instant.

(** C4: A torrent that satisfies the invariant of its states and has no piece in
    progress is downloaded when it has a peer, each of its peers can seed
    every piece, and each block that [poll] asks for is delivered at once, with
    its data.  In whatever order the pieces are chosen, after one poll for each
    missing block, one for each missing piece and a last one it is finished,
    the client owns every piece, and each missing piece was finished once,
    with its data. *)
Theorem download_completes {Hasher} (shuffle : list nat -> list nat) (D : nat -> list byte)
    h extra :
  (forall l, shuffle l ≡ₚ l) -> downloadable D h ->
  exists h' blks,
    download Hasher shuffle D (download_polls h + extra) h = Ret (h', blks) /\
    finished h' = true /\ bf_all (th_bitfield h') = true /\
    blks ≡ₚ piece_block_of D h <$> missing_piece_indices h.
Proof. intros Hs Hd. by eapply download_all. Qed.
End Properties.

(** ** Witnesses *)

Section Witnesses.
#[local] Existing Instances list_bitvec list_bitvec_laws debug_build seconds.
#[local] Existing Instance ex_order.

Definition ex_pieces (i : nat) : list byte :=
  match i with O => replicate (Z.to_nat 40000) Byte.x01 | _ => replicate 5 Byte.x02 end.

Lemma ex_downloadable : downloadable ex_pieces ex_handler1.
Proof.
  split; try done.
  - intros [|[|i]] Hi; [done|done|]. simpl in Hi. unfold bf_len in Hi. simpl in Hi. lia.
  - intros [|[|i]] Hi; [by vm_compute|by vm_compute|].
    simpl in Hi. unfold bf_len in Hi. simpl in Hi. lia.
Qed.

Lemma download_completes_witness :
  exists h' blks,
    download (list byte) (fun l => rev (rev l)) ex_pieces (download_polls ex_handler1 + 0)
      ex_handler1 = Ret (h', blks) /\
    finished h' = true /\ bf_all (th_bitfield h') = true /\
    blks ≡ₚ piece_block_of ex_pieces ex_handler1 <$> missing_piece_indices ex_handler1.
Proof.
  apply (download_completes (fun l => rev (rev l)) ex_pieces ex_handler1 0);
    [apply ex_shuffle_perm | apply ex_downloadable].
Defined.
End Witnesses.
