(* ===== verification/Torrent.v ===== *)
(** * A torrent of the pool

    [Torrent] of src/src/peer/torrent.rs and [TorrentConfig] of
    src/src/peer/builder.rs. *)

From S2P Require Import Prelude Crates Util Message MetaInfo Block Peer DiskError PieceBuffer.
From S2P Require Import PieceHandler Events.
Local Open Scope Z_scope.

(** ** src/src/peer/builder.rs *)

Record TorrentConfig (BV : Type) := mkTorrentConfig {
  cfg_info_hash : ShaHash;
  cfg_state : TorrentState;
  cfg_bitfield : BitField BV;
  cfg_piece_length : Z;
  cfg_last_piece_length : Z;
  cfg_seed_leech : SeedLeechConfig;
}.
Arguments mkTorrentConfig {BV}.
Arguments cfg_info_hash {BV}.
Arguments cfg_state {BV}.
Arguments cfg_bitfield {BV}.
Arguments cfg_piece_length {BV}.
Arguments cfg_last_piece_length {BV}.
Arguments cfg_seed_leech {BV}.

Record TorrentConfigBuilder (BV : Type) := mkTorrentConfigBuilder {
  bld_state : option TorrentState;
  bld_bitfield : option (BitField BV);
  bld_info_hash : option ShaHash;
  bld_piece_length : option Z;
  bld_last_piece_length : option Z;
}.
Arguments mkTorrentConfigBuilder {BV}.
Arguments bld_state {BV}.
Arguments bld_bitfield {BV}.
Arguments bld_info_hash {BV}.
Arguments bld_piece_length {BV}.
Arguments bld_last_piece_length {BV}.

Section Builder.
Context `{BitVec BV} `{Sha1 Hasher} `{Profile}.
Implicit Types b : TorrentConfigBuilder BV.

Definition TorrentConfigBuilder_default : TorrentConfigBuilder BV :=
  mkTorrentConfigBuilder None None None None None.

Definition builder_state b (state : TorrentState) : TorrentConfigBuilder BV :=
  mkTorrentConfigBuilder (Some state) (bld_bitfield b) (bld_info_hash b) (bld_piece_length b)
    (bld_last_piece_length b).
Definition builder_bitfield b (bitfield : BitField BV) : TorrentConfigBuilder BV :=
  mkTorrentConfigBuilder (bld_state b) (Some bitfield) (bld_info_hash b) (bld_piece_length b)
    (bld_last_piece_length b).
Definition builder_info_hash b (info_hash : ShaHash) : TorrentConfigBuilder BV :=
  mkTorrentConfigBuilder (bld_state b) (bld_bitfield b) (Some info_hash) (bld_piece_length b)
    (bld_last_piece_length b).
Definition builder_piece_length b (piece_length : Z) : TorrentConfigBuilder BV :=
  mkTorrentConfigBuilder (bld_state b) (bld_bitfield b) (bld_info_hash b) (Some piece_length)
    (bld_last_piece_length b).
Definition builder_last_piece_length b (last_piece_length : Z) : TorrentConfigBuilder BV :=
  mkTorrentConfigBuilder (bld_state b) (bld_bitfield b) (bld_info_hash b) (bld_piece_length b)
    (Some last_piece_length).

(** [build]: the first field that is not set is the error. *)
Definition builder_build b (seed_leech : SeedLeechConfig) : result (TorrentConfig BV) string :=
  let state := default TorrentState_default (bld_state b) in
  match bld_bitfield b with
  | None => Err "field bitfield must be? initialized."
  | Some bitfield =>
  match bld_info_hash b with
  | None => Err "field info_hash must be initialized."
  | Some info_hash =>
  match bld_piece_length b with
  | None => Err "field piece_length? must be initialized."
  | Some piece_length =>
  match bld_last_piece_length b with
  | None => Err "field? last_piece_length must be initialized."
  | Some last_piece_length =>
      Ok {| cfg_state := state;
            cfg_bitfield := bitfield;
            cfg_info_hash := info_hash;
            cfg_piece_length := piece_length;
            cfg_last_piece_length := last_piece_length;
            cfg_seed_leech := seed_leech |}
  end end end end.

Definition builder_into_seed b : result (TorrentConfig BV) string := builder_build b SeedOnly.
Definition builder_into_leech b : result (TorrentConfig BV) string :=
  builder_build b SeedAndLeech.

(** [Result::unwrap] *)
Definition unwrap_result {A E} (r : result A E) : outcome A :=
  match r with Ok a => Ret a | Err _ => Panic end.

(** [TorrentConfig::new_leech] *)
Definition TorrentConfig_new_leech (torrent : MetaInfo Hasher) (state : TorrentState) :
    outcome (TorrentConfig BV) :=
  let b := builder_info_hash TorrentConfigBuilder_default (MetaInfo_sha_hash torrent) in
  let b := builder_bitfield b (BitField_new_all_clear (length (pieces (info torrent)))) in
  let b := builder_state b state in
  let b := builder_piece_length b (piece_length (info torrent)) in
  last ← last_piece_length (info torrent);
  let b := builder_last_piece_length b last in
  unwrap_result (builder_into_leech b).

(** [TorrentConfig::new_seed] *)
Definition TorrentConfig_new_seed (torrent : MetaInfo Hasher) (state : TorrentState) :
    outcome (TorrentConfig BV) :=
  let b := builder_info_hash TorrentConfigBuilder_default (MetaInfo_sha_hash torrent) in
  let b := builder_bitfield b (BitField_new_all_set (length (pieces (info torrent)))) in
  let b := builder_state b state in
  let b := builder_piece_length b (piece_length (info torrent)) in
  last ← last_piece_length (info torrent);
  let b := builder_last_piece_length b last in
  unwrap_result (builder_into_seed b).
End Builder.

(** ** Data *)

Record Torrent (PeerId BV Instant : Type) `{Countable PeerId} := mkTorrent {
  (** The unique ID of the Torrent. *)
  torrent_id : TorrentId;
  (** the info hash of the torrent file *)
  torrent_info_hash : ShaHash;
  (** The peer iterator that drives the torrent's piece state. *)
  piece_handler : TorrentPieceHandler PeerId BV Instant;
  (** The instant when the torrent was created. *)
  created : Instant;
  (** The state of how the torrent should send/receive blocks *)
  seed_leech : SeedLeechConfig;
  (** State of torrent's capability to download/upload *)
  torrent_state : TorrentState;
}.
Arguments mkTorrent {PeerId BV Instant _ _}.
Arguments torrent_id {PeerId BV Instant _ _}.
Arguments torrent_info_hash {PeerId BV Instant _ _}.
Arguments piece_handler {PeerId BV Instant _ _}.
Arguments created {PeerId BV Instant _ _}.
Arguments seed_leech {PeerId BV Instant _ _}.
Arguments torrent_state {PeerId BV Instant _ _}.

(** [TorrentPoolState]; a torrent that waits is given by its id. *)
Inductive TorrentPoolState (PeerId Hasher : Type) :=
| TPS_Idle
| TPS_Waiting (torrent : TorrentId)
| TPS_PieceReady (res : result (TorrentId * Block) (TorrentError Hasher))
| TPS_Finished (torrent : TorrentId)
| TPS_KeepAlive (torrent : TorrentId) (peer : PeerId)
| TPS_Timeout (torrent : TorrentId) (peer : PeerId)
| TPS_NextBlock (next : NextBlock PeerId).
Arguments TPS_Idle {PeerId Hasher}.
Arguments TPS_Waiting {PeerId Hasher}.
Arguments TPS_PieceReady {PeerId Hasher}.
Arguments TPS_Finished {PeerId Hasher}.
Arguments TPS_KeepAlive {PeerId Hasher}.
Arguments TPS_Timeout {PeerId Hasher}.
Arguments TPS_NextBlock {PeerId Hasher}.

(** ** Operations *)

Section Torrent.
Context `{Countable PeerId} `{BitVec BV} `{Clock Instant} `{Profile}.
Context `{!MapOrder PeerId (BitTorrentPeer BV Instant)}.
Implicit Types t : Torrent PeerId BV Instant.

Definition with_piece_handler h t : Torrent PeerId BV Instant :=
  mkTorrent (torrent_id t) (torrent_info_hash t) h (created t) (seed_leech t) (torrent_state t).
Definition with_seed_leech c t : Torrent PeerId BV Instant :=
  mkTorrent (torrent_id t) (torrent_info_hash t) (piece_handler t) (created t) c
    (torrent_state t).

(** An operation of the piece handler *)
Definition on_handler {A} t (r : TorrentPieceHandler PeerId BV Instant * A) :
    Torrent PeerId BV Instant * A :=
  (with_piece_handler r.1 t, r.2).

(** [Torrent::new]; [now] is the instant the torrent is created. *)
Definition Torrent_new (now : Instant) (id : TorrentId) (info_hash : ShaHash)
    (piece_handler : TorrentPieceHandler PeerId BV Instant) (seed_leech : SeedLeechConfig)
    (state : TorrentState) : Torrent PeerId BV Instant :=
  mkTorrent id info_hash piece_handler now seed_leech state.

Definition Torrent_iter_peer_ids t : list PeerId := (map_iter (peers (piece_handler t))).*1.
Definition Torrent_iter_peers t : list (BitTorrentPeer BV Instant) :=
  (map_iter (peers (piece_handler t))).*2.

Definition Torrent_remove_peer t (peer_id : PeerId) :
    Torrent PeerId BV Instant * option (BitTorrentPeer BV Instant) :=
  on_handler t (th_remove_peer (piece_handler t) peer_id).

Definition Torrent_add_block t (peer_id : PeerId) (block : Block) :
    Torrent PeerId BV Instant * result BlockMetadata (BlockErr PeerId) :=
  on_handler t (th_add_block (piece_handler t) peer_id block).

Definition Torrent_set_piece t (piece_index : nat) :
    Torrent PeerId BV Instant * result unit unit :=
  on_handler t (set_piece (piece_handler t) piece_index).

Definition Torrent_bitfield t : BitField BV := th_bitfield (piece_handler t).

(** The loop of [poll] over the peers: the first one that the client or the
    peer itself kept waiting. *)
Fixpoint first_timeout (now : Instant) (l : list (PeerId * BitTorrentPeer BV Instant)) :
    option (PeerId * BitTorrentPeer BV Instant * bool) :=
  match l with
  | [] => None
  | (id, peer) :: l' =>
      if is_client_timeout peer now then Some (id, peer, true)
      else if is_remote_timeout peer now then Some (id, peer, false)
      else first_timeout now l'
  end.

(** [Torrent::poll]; [now'] is the instant of the heartbeat that is sent. *)
Definition Torrent_poll {Hasher} (shuffle : list nat -> list nat) (now' now : Instant) t :
    outcome (Torrent PeerId BV Instant * TorrentPoolState PeerId Hasher) :=
  match first_timeout now (map_iter (peers (piece_handler t))) with
  | Some (id, peer, true) =>
      Ret (with_piece_handler
             (set_peer id (with_client_heartbeat now' peer) (piece_handler t)) t,
           TPS_KeepAlive (torrent_id t) id)
  | Some (id, _, false) => Ret (t, TPS_Timeout (torrent_id t) id)
  | None =>
      '(h, s) ← th_poll shuffle (piece_handler t);
      let t := with_piece_handler h t in
      match s with
      | TPH_WaitingPeers => Ret (t, TPS_Waiting (torrent_id t))
      | TPH_LeechBlock (Some block) => Ret (t, TPS_NextBlock block)
      | TPH_LeechBlock None => Ret (t, TPS_Waiting (torrent_id t))
      | TPH_PieceFinished res =>
          Ret (t, TPS_PieceReady (result_map (fun x => (torrent_id t, x)) res))
      | TPH_Finished => Ret (with_seed_leech SeedOnly t, TPS_Finished (torrent_id t))
      | TPH_Endgame => Panic
      | TPH_Seed => Ret (t, TPS_Idle)
      end
  end.

Definition Torrent_on_keep_alive_by_remote t (peer_id : PeerId) (heartbeat : Instant) :
    Torrent PeerId BV Instant * option Instant :=
  match get_peer (piece_handler t) peer_id with
  | Some peer =>
      (with_piece_handler
         (set_peer peer_id (with_remote_heartbeat heartbeat peer) (piece_handler t)) t,
       Some (remote_heartbeat peer))
  | None => (t, None)
  end.

Definition Torrent_on_keep_alive_by_client t (peer_id : PeerId) (heartbeat : Instant) :
    Torrent PeerId BV Instant * option Instant :=
  match get_peer (piece_handler t) peer_id with
  | Some peer =>
      (with_piece_handler
         (set_peer peer_id (with_client_heartbeat heartbeat peer) (piece_handler t)) t,
       Some (client_heartbeat peer))
  | None => (t, None)
  end.

Definition Torrent_on_choked_by_remote t (peer_id : PeerId) :
    Torrent PeerId BV Instant * option ChokeType :=
  on_handler t (set_choke_on_remote (piece_handler t) peer_id Choked).
Definition Torrent_on_unchoked_by_remote t (peer_id : PeerId) :
    Torrent PeerId BV Instant * option ChokeType :=
  on_handler t (set_choke_on_remote (piece_handler t) peer_id UnChoked).
Definition Torrent_on_choke_by_remote t (peer_id : PeerId) (choke : ChokeType) :
    Torrent PeerId BV Instant * option ChokeType :=
  match choke with
  | Choked => Torrent_on_choked_by_remote t peer_id
  | UnChoked => Torrent_on_unchoked_by_remote t peer_id
  end.

Definition Torrent_on_remote_interested t (peer_id : PeerId) :
    Torrent PeerId BV Instant * option InterestType :=
  on_handler t (set_interest_on_remote (piece_handler t) peer_id Interested).
Definition Torrent_on_remote_not_interested t (peer_id : PeerId) :
    Torrent PeerId BV Instant * option InterestType :=
  on_handler t (set_interest_on_remote (piece_handler t) peer_id NotInterested).
Definition Torrent_set_client_interest t (peer_id : PeerId) (interest : InterestType) :
    Torrent PeerId BV Instant * option InterestType :=
  on_handler t (set_client_interest (piece_handler t) peer_id interest).

Definition Torrent_set_choke_for_remote t (peer_id : PeerId) (choke : ChokeType) :
    Torrent PeerId BV Instant * option ChokeType :=
  match peers (piece_handler t) !! peer_id with
  | Some peer =>
      (with_piece_handler
         (set_peer peer_id (with_client_choke choke peer) (piece_handler t)) t,
       Some (client_choke peer))
  | None => (t, None)
  end.
Definition Torrent_unchoke_remote t (peer : PeerId) :
    Torrent PeerId BV Instant * option ChokeType := Torrent_set_choke_for_remote t peer UnChoked.
Definition Torrent_choke_remote t (peer : PeerId) :
    Torrent PeerId BV Instant * option ChokeType := Torrent_set_choke_for_remote t peer Choked.

Definition Torrent_on_remote_have t (peer_id : PeerId) (piece_index : nat) :
    Torrent PeerId BV Instant * option bool :=
  match get_peer (piece_handler t) peer_id with
  | Some peer =>
      let '(peer, r) := add_piece peer piece_index in
      (with_piece_handler (set_peer peer_id peer (piece_handler t)) t, r)
  | None => (t, None)
  end.

Definition can_seed_piece_to t (peer_id : PeerId) (piece_index : nat) : bool :=
  match get_peer (piece_handler t) peer_id with
  | Some peer =>
      th_has_piece (piece_handler t) piece_index && remote_can_leech peer &&
      is_ready_to_seed_block (piece_handler t) peer_id
  | None => false
  end.

Definition can_leech_piece_from t (peer_id : PeerId) (piece_index : nat) : bool :=
  match get_peer (piece_handler t) peer_id with
  | Some peer => remote_can_seed_piece peer piece_index
  | None => false
  end.

Definition contains_peer t (peer_id : PeerId) : bool :=
  bool_decide (is_Some (peers (piece_handler t) !! peer_id)).

Definition Torrent_is_active t : bool := TorrentState_is_active (torrent_state t).
Definition Torrent_is_paused t : bool := TorrentState_is_paused (torrent_state t).
Definition Torrent_is_stopped t : bool := TorrentState_is_stopped (torrent_state t).
End Torrent.
