(* ===== verification/Pool.v ===== *)
(** * The pool of torrents

    [TorrentPool] of src/src/peer/torrent.rs. *)

From S2P Require Import Prelude Crates Util Message MetaInfo Block Peer DiskError PieceBuffer.
From S2P Require Import PieceHandler Events Torrent.
Local Open Scope Z_scope.

(** ** Data *)

Record TorrentPool (PeerId BV Instant : Type) `{Countable PeerId} := mkTorrentPool {
  local_peer_hash : ShaHash;
  local_peer_id : PeerId;
  torrents : gmap TorrentId (Torrent PeerId BV Instant);
  (** The timeout after we choke a peer, in seconds *)
  peer_timeout : Z;
  (** Cannot be higher than the active torrents *)
  max_simultaneous_downloads : Z;
  (** New torrents won't start if more are seeded/leeched *)
  max_active_torrents : Z;
  (** Move finished downloads to another folder *)
  move_completed_downloads : option PathBuf;
  (** How the initial pieces to download are selected *)
  initial_piece_selection_strategy : PieceSelection;
  (** Next unique Identifier of a torrent. *)
  next_unique_torrent : Z;
}.
Arguments mkTorrentPool {PeerId BV Instant _ _}.
Arguments local_peer_hash {PeerId BV Instant _ _}.
Arguments local_peer_id {PeerId BV Instant _ _}.
Arguments torrents {PeerId BV Instant _ _}.
Arguments peer_timeout {PeerId BV Instant _ _}.
Arguments max_simultaneous_downloads {PeerId BV Instant _ _}.
Arguments max_active_torrents {PeerId BV Instant _ _}.
Arguments move_completed_downloads {PeerId BV Instant _ _}.
Arguments initial_piece_selection_strategy {PeerId BV Instant _ _}.
Arguments next_unique_torrent {PeerId BV Instant _ _}.

(** ** Operations *)

Section Pool.
Context `{Countable PeerId} `{BitVec BV} `{Clock Instant} `{Profile}.
Context `{!MapOrder PeerId (BitTorrentPeer BV Instant)}.
Context `{!MapOrder Z (Torrent PeerId BV Instant)}.
Implicit Types s : TorrentPool PeerId BV Instant.
Implicit Types t : Torrent PeerId BV Instant.

(** Assignments to the fields that change *)
Definition with_torrents x s : TorrentPool PeerId BV Instant :=
  mkTorrentPool (local_peer_hash s) (local_peer_id s) x (peer_timeout s)
    (max_simultaneous_downloads s) (max_active_torrents s) (move_completed_downloads s)
    (initial_piece_selection_strategy s) (next_unique_torrent s).
Definition with_next_unique_torrent x s : TorrentPool PeerId BV Instant :=
  mkTorrentPool (local_peer_hash s) (local_peer_id s) (torrents s) (peer_timeout s)
    (max_simultaneous_downloads s) (max_active_torrents s) (move_completed_downloads s)
    (initial_piece_selection_strategy s) x.

(** A loop over [torrents.values_mut()] that returns the first value an
    operation on a torrent gives. *)
Fixpoint visit {A} (f : Torrent PeerId BV Instant -> Torrent PeerId BV Instant * option A)
    (l : list (TorrentId * Torrent PeerId BV Instant))
    (ts : gmap TorrentId (Torrent PeerId BV Instant)) :
    gmap TorrentId (Torrent PeerId BV Instant) * option A :=
  match l with
  | [] => (ts, None)
  | (id, t) :: l' =>
      let '(t, r) := f t in
      let ts := <[id := t]> ts in
      match r with
      | Some a => (ts, Some a)
      | None => visit f l' ts
      end
  end.

Definition visit_torrents {A}
    (f : Torrent PeerId BV Instant -> Torrent PeerId BV Instant * option A) s :
    TorrentPool PeerId BV Instant * option A :=
  let '(ts, r) := visit f (map_iter (torrents s)) (torrents s) in (with_torrents ts s, r).

(** [torrents.get_mut(id)] and an operation on the torrent *)
Definition update_torrent {A} (id : TorrentId) (default : A)
    (f : Torrent PeerId BV Instant -> Torrent PeerId BV Instant * A) s :
    TorrentPool PeerId BV Instant * A :=
  match torrents s !! id with
  | Some t => let '(t, r) := f t in (with_torrents (<[id := t]> (torrents s)) s, r)
  | None => (s, default)
  end.

(** [TorrentPool::new]; [random] is the hash of a client that has none. *)
Definition TorrentPool_new {Hasher} (random : ShaHash) (local_peer_id : PeerId)
    (config : BitTorrentConfig Hasher) : TorrentPool PeerId BV Instant :=
  {| local_peer_hash := default random (peer_hash config);
     local_peer_id := local_peer_id;
     torrents := ∅;
     peer_timeout := 120;
     max_simultaneous_downloads :=
       default MAX_ACTIVE_TORRENTS (cfg_max_simultaneous_downloads config);
     max_active_torrents := default MAX_ACTIVE_TORRENTS (cfg_max_active_torrents config);
     move_completed_downloads := cfg_move_completed_downloads config;
     initial_piece_selection_strategy :=
       default PieceSelection_default (initial_piece_selection config);
     next_unique_torrent := 0 |}.

Definition iter_active s : list (TorrentId * Torrent PeerId BV Instant) :=
  List.filter (fun e => Torrent_is_active e.2) (map_iter (torrents s)).

(** [add_torrent] *)
Definition add_torrent (now : Instant) s (torrent : TorrentConfig BV) :
    outcome (TorrentPool PeerId BV Instant * result (TorrentId * TorrentState) ShaHash) :=
  if existsb (fun '(_, x) => bool_decide (torrent_info_hash x = cfg_info_hash torrent))
       (map_iter (torrents s))
  then Ret (s, Err (cfg_info_hash torrent))
  else
    let state :=
      if TorrentState_is_active (cfg_state torrent) then
        if Z.of_nat (length (iter_active s)) <? max_active_torrents s then Active else Paused
      else cfg_state torrent in
    let id := next_unique_torrent s in
    next ← checked 64 (next_unique_torrent s + 1);
    let s := with_next_unique_torrent next s in
    let torrent :=
      Torrent_new now id (cfg_info_hash torrent)
        (TorrentPieceHandler_new id (initial_piece_selection_strategy s) (cfg_bitfield torrent)
           (cfg_piece_length torrent) (cfg_last_piece_length torrent))
        (cfg_seed_leech torrent) (cfg_state torrent) in
    Ret (with_torrents (<[id := torrent]> (torrents s)) s, Ok (id, state)).

(** [unchoke_remote] and [choke_remote] *)
Definition pool_unchoke_remote s (peer_id : PeerId) :
    TorrentPool PeerId BV Instant * result TorrentId unit :=
  let '(s, r) := visit_torrents (fun t =>
    let '(t, r) := Torrent_unchoke_remote t peer_id in (t, (fun _ => torrent_id t) <$> r)) s in
  (s, ok_or r tt).

Definition pool_choke_remote s (peer_id : PeerId) :
    TorrentPool PeerId BV Instant * result TorrentId unit :=
  let '(s, r) := visit_torrents (fun t =>
    let '(t, r) := Torrent_choke_remote t peer_id in (t, (fun _ => torrent_id t) <$> r)) s in
  (s, ok_or r tt).

(** [is_remote_interesting] *)
Definition is_remote_interesting s (torrent_id : TorrentId) (peer_id : PeerId) : outcome bool :=
  match torrents s !! torrent_id with
  | Some torrent =>
      if is_leeching (seed_leech torrent) then
        match get_peer (piece_handler torrent) peer_id with
        | Some peer => is_having_missing_pieces_for peer (Torrent_bitfield torrent)
        | None => Ret false
        end
      else Ret false
  | None => Ret false
  end.

(** [set_client_interest] *)
Definition pool_set_client_interest s (torrent_id : TorrentId) (peer_id : PeerId)
    (interest : InterestType) : TorrentPool PeerId BV Instant * option InterestType :=
  update_torrent torrent_id None (fun t => Torrent_set_client_interest t peer_id interest) s.

(** [get_for_info_hash] *)
Definition get_for_info_hash s (info_hash : ShaHash) :
    option (TorrentId * Torrent PeerId BV Instant) :=
  head (List.filter (fun e => bool_decide (torrent_info_hash e.2 = info_hash))
          (map_iter (torrents s))).

(** [is_associated] *)
Definition is_associated s (peer_id : PeerId) : bool :=
  existsb (fun '(_, t) => contains_peer t peer_id) (map_iter (torrents s)).

(** [on_handshake_request]; [Instant::now()] is read for both heartbeats. *)
Definition on_handshake_request (now1 now2 : Instant) s (peer_id : PeerId)
    (handshake : Handshake) :
    TorrentPool PeerId BV Instant * result Handshake (HandshakeError PeerId) :=
  if is_associated s peer_id then (s, Err (HE_InvalidPeer peer_id None))
  else
    match get_for_info_hash s (info_hash handshake) with
    | Some (id, torrent) =>
        let peer := BitTorrentPeer_new (Message.peer_id handshake) now1 now2 in
        let '(h, _) := insert_peer (piece_handler torrent) peer_id peer in
        (with_torrents (<[id := with_piece_handler h torrent]> (torrents s)) s,
         Ok (Handshake_new (info_hash handshake) (local_peer_hash s)))
    | None => (s, Err (HE_InfoHashMismatch peer_id None))
    end.

(** [on_handshake_response] *)
Definition on_handshake_response (now1 now2 : Instant) s (peer_id : PeerId)
    (torrent_id : TorrentId) (handshake : Handshake) :
    TorrentPool PeerId BV Instant * result (PeerId * BitField BV) (HandshakeError PeerId) :=
  match torrents s !! torrent_id with
  | Some torrent =>
      if bool_decide (torrent_info_hash torrent = info_hash handshake) then
        let peer := BitTorrentPeer_new (Message.peer_id handshake) now1 now2 in
        let '(h, _) := insert_peer (piece_handler torrent) peer_id peer in
        let torrent := with_piece_handler h torrent in
        (with_torrents (<[torrent_id := torrent]> (torrents s)) s,
         Ok (peer_id, Torrent_bitfield torrent))
      else (s, Err (HE_InfoHashMismatch peer_id (Some torrent_id)))
  | None => (s, Err (HE_InvalidPeer peer_id (Some torrent_id)))
  end.

(** [on_choke_by_remote] *)
Definition on_choke_by_remote s (peer_id : PeerId) (choke : ChokeType) :
    TorrentPool PeerId BV Instant * option (TorrentId * ChokeType) :=
  visit_torrents (fun t =>
    let '(t, r) := Torrent_on_choke_by_remote t peer_id choke in
    (t, (fun choke => (torrent_id t, choke)) <$> r)) s.

(** [on_keep_alive_by_remote] *)
Definition on_keep_alive_by_remote s (peer : PeerId) (new_heartbeat : Instant) :
    TorrentPool PeerId BV Instant * result (KeepAliveOk PeerId Instant) (PeerError PeerId) :=
  let '(s, r) := visit_torrents (fun t =>
    let '(t, r) := Torrent_on_keep_alive_by_remote t peer new_heartbeat in
    (t, (fun old => KA_Remote (torrent_id t) peer old new_heartbeat) <$> r)) s in
  (s, ok_or r (PE_NotFound peer)).

(** [on_interest_by_remote] *)
Definition on_interest_by_remote s (peer_id : PeerId) (interest : InterestType) :
    TorrentPool PeerId BV Instant * result (InterestOk PeerId) (PeerError PeerId) :=
  let '(s, r) := visit_torrents (fun t =>
    match interest with
    | NotInterested => Torrent_on_remote_not_interested t peer_id
    | Interested => Torrent_on_remote_interested t peer_id
    end) s in
  (s, match r with
      | Some _ =>
          match interest with
          | Interested => Ok (IO_Interested peer_id)
          | NotInterested => Ok (IO_NotInterested peer_id)
          end
      | None => Err (PE_NotFound peer_id)
      end).

(** [on_piece_request] *)
Definition on_piece_request s (peer_id : PeerId) (metadata : BlockMetadata)
    (request_id : BitTorrentRequestId) :
    TorrentPool PeerId BV Instant *
    result (TorrentId * BlockMetadata) (PeerId * BlockMetadata * BitTorrentRequestId) :=
  let '(s, r) := visit_torrents (fun t =>
    if can_seed_piece_to t peer_id (Z.to_nat (bm_piece_index metadata)) then
      (with_piece_handler (insert_block_seed (piece_handler t) peer_id metadata request_id) t,
       Some (torrent_id t, metadata))
    else (t, None)) s in
  (s, ok_or r (peer_id, metadata, request_id)).

(** [on_block_response] *)
Definition on_block_response s (torrent_id : TorrentId) (peer_id : PeerId) (block : Block) :
    TorrentPool PeerId BV Instant * result BlockMetadata (BlockErr PeerId) :=
  update_torrent torrent_id (Err (BE_NotRequested peer_id block))
    (fun t => Torrent_add_block t peer_id block) s.

(** [on_cancel_request] *)
Definition on_cancel_request s (id : BitTorrentRequestId) :
    TorrentPool PeerId BV Instant * option (PeerId * BlockMetadata) :=
  visit_torrents (fun t =>
    on_handler t (remove_pending_seed_by_request (piece_handler t) id)) s.

(** [on_block_read] *)
Definition on_block_read s (torrent_id : TorrentId) (block : BlockMetadata) :
    TorrentPool PeerId BV Instant * option (PeerId * BitTorrentRequestId) :=
  update_torrent torrent_id None
    (fun t => on_handler t (clear_pending_seed_block (piece_handler t) block)) s.

(** [on_remote_have] *)
Definition on_remote_have s (peer_id : PeerId) (piece_index : nat) :
    TorrentPool PeerId BV Instant * option bool :=
  visit_torrents (fun t => Torrent_on_remote_have t peer_id piece_index) s.

(** The bit field of a peer of a torrent, and [get_peer_mut] to set it *)
Definition Torrent_set_peer_bitfield t (peer_id : PeerId) (bitfield : BitField BV) :
    Torrent PeerId BV Instant * option (BitField BV) :=
  match get_peer (piece_handler t) peer_id with
  | Some peer =>
      let '(peer, _) := set_bitfield peer bitfield in
      (with_piece_handler (set_peer peer_id peer (piece_handler t)) t, Some (Torrent_bitfield t))
  | None => (t, None)
  end.

(** [set_peer_bitfield] *)
Definition set_peer_bitfield s (peer_id : PeerId) (torrent_id : TorrentId)
    (bitfield : BitField BV) : TorrentPool PeerId BV Instant * bool :=
  let '(s, r) :=
    update_torrent torrent_id None (fun t => Torrent_set_peer_bitfield t peer_id bitfield) s in
  (s, match r with Some _ => true | None => false end).

(** [on_bitfield_request] *)
Definition on_bitfield_request s (peer_id : PeerId) (bitfield : BitField BV) :
    TorrentPool PeerId BV Instant * option (BitField BV) :=
  visit_torrents (fun t => Torrent_set_peer_bitfield t peer_id bitfield) s.

(** [remove_peer] *)
Definition pool_remove_peer s (peer_id : PeerId) :
    TorrentPool PeerId BV Instant * option (BitTorrentPeer BV Instant) :=
  visit_torrents (fun t => Torrent_remove_peer t peer_id) s.

(** The iterators over torrents and their peers *)
Definition iter_candidate_peers s (info_hash : ShaHash) : list (BitTorrentPeer BV Instant) :=
  List.filter (fun e => negb (bool_decide (torrent_info_hash e.2 = info_hash)))
    (map_iter (torrents s)) ≫= fun e => Torrent_iter_peers e.2.
Definition iter_candidate_peer_ids s (info_hash : ShaHash) : list PeerId :=
  List.filter (fun e => negb (bool_decide (torrent_info_hash e.2 = info_hash)))
    (map_iter (torrents s)) ≫= fun e => Torrent_iter_peer_ids e.2.
Definition iter_leeching s : list (TorrentId * Torrent PeerId BV Instant) :=
  List.filter (fun e => negb (bool_decide (seed_leech e.2 = SeedOnly))) (map_iter (torrents s)).
Definition iter_leeching_from s : list PeerId :=
  iter_leeching s ≫= fun e => Torrent_iter_peer_ids e.2.
Definition iter_seeding s : list (TorrentId * Torrent PeerId BV Instant) :=
  List.filter (fun e => negb (bool_decide (seed_leech e.2 = LeechOnly))) (map_iter (torrents s)).
Definition iter_seeding_to s : list PeerId :=
  iter_seeding s ≫= fun e => Torrent_iter_peer_ids e.2.
Definition iter_complete_seeds s : list (TorrentId * Torrent PeerId BV Instant) :=
  List.filter (fun e => bool_decide (seed_leech e.2 = SeedOnly)) (map_iter (torrents s)).

(** The loop of [poll] *)
Fixpoint poll_torrents {Hasher} (shuffle : list nat -> list nat) (now' now : Instant)
    (l : list (TorrentId * Torrent PeerId BV Instant))
    (ts : gmap TorrentId (Torrent PeerId BV Instant)) :
    outcome (gmap TorrentId (Torrent PeerId BV Instant) * TorrentPoolState PeerId Hasher) :=
  match l with
  | [] => Ret (ts, TPS_Idle)
  | (id, t) :: l' =>
      '(t, r) ← Torrent_poll shuffle now' now t;
      let ts := <[id := t]> ts in
      match r with
      | TPS_Idle => poll_torrents shuffle now' now l' ts
      | TPS_Waiting _ => poll_torrents shuffle now' now l' ts
      | ready => Ret (ts, ready)
      end
  end.

(** [poll] *)
Definition pool_poll {Hasher} (shuffle : list nat -> list nat) (now' now : Instant) s :
    outcome (TorrentPool PeerId BV Instant * TorrentPoolState PeerId Hasher) :=
  '(ts, r) ← poll_torrents shuffle now' now (iter_active s) (torrents s);
  Ret (with_torrents ts s, r).
End Pool.

(** ** Specification *)

Section PoolSpec.
Context `{Countable PeerId} `{BitVec BV} `{Clock Instant} `{Profile} {Hasher : Type}.
Context `{!MapOrder PeerId (BitTorrentPeer BV Instant)}.
Context `{!MapOrder Z (Torrent PeerId BV Instant)}.
Implicit Types s : TorrentPool PeerId BV Instant.
Implicit Types t : Torrent PeerId BV Instant.

Definition tracks t (p : PeerId) : Prop := is_Some (peers (piece_handler t) !! p).

(** The peers that wait for a block of the torrent *)
Definition waiting_peers t : list PeerId :=
  (fun e => e.1.1) <$> pending_seed_blocks (piece_handler t).

(** Torrents have the id they are found under, an id that was given out, and
    an info hash of their own; a peer that is not one of [C] belongs to one
    torrent, and a peer waits for one block of a torrent at a time. *)
Record pool_inv (C : PeerId -> Prop) s : Prop := {
  pinv_ids : forall id t, torrents s !! id = Some t ->
    torrent_id t = id /\ th_id (piece_handler t) = id /\ 0 <= id < next_unique_torrent s;
  pinv_hashes : forall id1 id2 t1 t2,
    torrents s !! id1 = Some t1 -> torrents s !! id2 = Some t2 ->
    torrent_info_hash t1 = torrent_info_hash t2 -> id1 = id2;
  pinv_exclusive : forall id1 id2 t1 t2 p, ~ C p ->
    torrents s !! id1 = Some t1 -> torrents s !! id2 = Some t2 ->
    tracks t1 p -> tracks t2 p -> id1 = id2;
  pinv_seeds : forall id t, torrents s !! id = Some t -> NoDup (waiting_peers t);
  pinv_next : 0 <= next_unique_torrent s;
}.

(** The operations of the pool, with [get_mut] and [set_piece] as the behaviour
    calls them.  The peers of [C] are those that may answer a handshake although
    a torrent tracks them already: when they are all peers, there is no
    condition but that the counter of torrents stays within 64 bits. *)
Inductive pool_step (C : PeerId -> Prop) :
    TorrentPool PeerId BV Instant -> TorrentPool PeerId BV Instant -> Prop :=
| pstep_add_torrent now s cfg s' r :
    next_unique_torrent s + 1 < 2 ^ 64 -> add_torrent now s cfg = Ret (s', r) -> pool_step C s s'
| pstep_unchoke s p : pool_step C s (pool_unchoke_remote s p).1
| pstep_choke s p : pool_step C s (pool_choke_remote s p).1
| pstep_set_client_interest s id p i : pool_step C s (pool_set_client_interest s id p i).1
| pstep_handshake_request n1 n2 s p hs : pool_step C s (on_handshake_request n1 n2 s p hs).1
| pstep_handshake_response n1 n2 s p id hs :
    (~ C p -> is_associated s p = false) -> pool_step C s (on_handshake_response n1 n2 s p id hs).1
| pstep_choke_by_remote s p c : pool_step C s (on_choke_by_remote s p c).1
| pstep_keep_alive s p now : pool_step C s (on_keep_alive_by_remote s p now).1
| pstep_interest s p i : pool_step C s (on_interest_by_remote s p i).1
| pstep_piece_request s p m r : pool_step C s (on_piece_request s p m r).1
| pstep_block_response s id p b : pool_step C s (on_block_response s id p b).1
| pstep_cancel s r : pool_step C s (on_cancel_request s r).1
| pstep_block_read s id m : pool_step C s (on_block_read s id m).1
| pstep_have s p i : pool_step C s (on_remote_have s p i).1
| pstep_set_bitfield s p id f : pool_step C s (set_peer_bitfield s p id f).1
| pstep_bitfield_request s p f : pool_step C s (on_bitfield_request s p f).1
| pstep_remove_peer s p : pool_step C s (pool_remove_peer s p).1
| pstep_set_piece s id i :
    pool_step C s (update_torrent id (Err tt) (fun t => Torrent_set_piece t i) s).1
| pstep_poll shuffle now' now s s' (r : TorrentPoolState PeerId Hasher) :
    pool_poll shuffle now' now s = Ret (s', r) -> pool_step C s s'.

Definition pool_reachable (C : PeerId -> Prop) s : Prop :=
  exists random id (config : BitTorrentConfig Hasher),
    rtc (pool_step C) (TorrentPool_new random id config) s.
End PoolSpec.

(** ** Lemmas *)

Section PoolLemmas.
Context `{Countable PeerId} `{BitVec BV} `{Clock Instant} `{Profile} {Hasher : Type}.
Context `{!MapOrder PeerId (BitTorrentPeer BV Instant)}.
Context `{!MapOrder Z (Torrent PeerId BV Instant)}.
Implicit Types s : TorrentPool PeerId BV Instant.
Implicit Types t : Torrent PeerId BV Instant.
Implicit Types h : TorrentPieceHandler PeerId BV Instant.
Implicit Types ts : gmap Z (Torrent PeerId BV Instant).

(** *** What operations on a torrent keep *)

Record handler_keeps h h' : Prop := {
  hk_id : th_id h' = th_id h;
  hk_peers : forall p, is_Some (peers h' !! p) -> is_Some (peers h !! p);
  hk_seeds : sublist (pending_seed_blocks h') (pending_seed_blocks h);
}.

Record torrent_keeps t t' : Prop := {
  tk_id : torrent_id t' = torrent_id t;
  tk_hash : torrent_info_hash t' = torrent_info_hash t;
  tk_hid : th_id (piece_handler t') = th_id (piece_handler t);
  tk_peers : forall p, tracks t' p -> tracks t p;
  tk_seeds : NoDup (waiting_peers t) -> NoDup (waiting_peers t');
}.

Lemma handler_keeps_refl h : handler_keeps h h.
Proof. by split. Qed.

Lemma torrent_keeps_refl t : torrent_keeps t t.
Proof. by split. Qed.

Lemma handler_keeps_torrent t h :
  handler_keeps (piece_handler t) h -> torrent_keeps t (with_piece_handler h t).
Proof.
  intros [Hid Hp Hs]. split; try done. intros Hn. unfold waiting_peers in *. simpl.
  eapply sublist_NoDup; [exact Hn|]. by apply fmap_sublist.
Qed.

Lemma set_peer_keeps h id peer peer' :
  peers h !! id = Some peer -> handler_keeps h (set_peer id peer' h).
Proof.
  intros Hp. split; [done| |done]. intros q. simpl.
  destruct (decide (id = q)) as [->|Hne]; [by rewrite Hp|]. by rewrite lookup_insert_ne.
Qed.

(** A handler that differs in the buffer, the bit field and the flags only *)
Lemma same_peers_keeps h h' :
  th_id h' = th_id h -> peers h' = peers h -> pending_seed_blocks h' = pending_seed_blocks h ->
  handler_keeps h h'.
Proof. intros Hid Hp Hs. split; [done|by rewrite Hp|by rewrite Hs]. Qed.

Lemma th_poll_keeps shuffle h h' (r : TorrentPieceHandlerState PeerId Hasher) :
  th_poll shuffle h = Ret (h', r) -> handler_keeps h h'.
Proof.
  intros Hp. apply same_peers_keeps; unfold th_poll, set_piece in Hp;
    repeat (case_match; try discriminate; simplify_eq/=; try done).
  all: destruct (next_piece_buffer shuffle h) as [o|]; simpl in Hp; [|discriminate];
    repeat (case_match; simplify_eq/=; try done).
Qed.

Lemma Torrent_poll_keeps shuffle now' now t t' (r : TorrentPoolState PeerId Hasher) :
  Torrent_poll shuffle now' now t = Ret (t', r) -> torrent_keeps t t'.
Proof.
  unfold Torrent_poll.
  destruct (first_timeout now _) as [[[id peer] [|]]|] eqn:Ef; intros Hp.
  - injection Hp as <- _. apply handler_keeps_torrent.
    assert (forall l, first_timeout now l = Some (id, peer, true) -> (id, peer) ∈ l) as Hin.
    { induction l as [|[p q] l IH]; simpl; [done|].
      destruct (is_client_timeout q now); [intros [= -> ->]; left|].
      destruct (is_remote_timeout q now); [done|]. intros ?. right. by apply IH. }
    eapply set_peer_keeps. by apply map_iter_elem, Hin.
  - injection Hp as <- _. apply torrent_keeps_refl.
  - inv_bind Hp. destruct a as [h st]. apply th_poll_keeps in Ha.
    apply handler_keeps_torrent in Ha.
    destruct st as [|[nb|]|res| | |]; try discriminate Hp; injection Hp as <- _;
      try done; destruct Ha; by split.
Qed.

Lemma on_handler_keeps {A} t (r : TorrentPieceHandler PeerId BV Instant * A) :
  handler_keeps (piece_handler t) r.1 -> torrent_keeps t (on_handler t r).1.
Proof. apply handler_keeps_torrent. Qed.

Lemma th_remove_peer_keeps h p : handler_keeps h (th_remove_peer h p).1.
Proof.
  assert (forall q, is_Some (delete p (peers h) !! q) -> is_Some (peers h !! q)) as Hd.
  { intros q [x [_ Hx]%lookup_delete_Some]. by exists x. }
  unfold th_remove_peer. destruct (peers h !! p); [|by split; [|exact Hd|]].
  cbn [piece_buffer with_th_peers]. destruct (piece_buffer h); by split; [|exact Hd|].
Qed.

Lemma set_choke_keeps h p c : handler_keeps h (set_choke_on_remote h p c).1.
Proof.
  unfold set_choke_on_remote. destruct (peers h !! p) as [q|] eqn:Ep; [|apply handler_keeps_refl].
  pose proof (set_peer_keeps h p q (with_remote_choke c q) Ep) as [? ? ?].
  repeat case_match; split; done.
Qed.

Lemma th_add_block_keeps h p blk : handler_keeps h (th_add_block h p blk).1.
Proof. apply same_peers_keeps; unfold th_add_block; repeat case_match; done. Qed.

Lemma delete_seed_keeps h i :
  handler_keeps h (with_pending_seed_blocks (delete i (pending_seed_blocks h)) h).
Proof. split; [done|done|]. apply sublist_delete. Qed.

(** Closes a goal on an operation that changes a peer or nothing. *)
Ltac peer_keeps :=
  match goal with
  | |- context [match peers ?h !! ?p with _ => _ end] =>
      let E := fresh "E" in
      destruct (peers h !! p) eqn:E; [|by apply torrent_keeps_refl || by apply handler_keeps_refl];
      simpl; first [apply handler_keeps_torrent | idtac];
      eapply set_peer_keeps; exact E
  end.

Lemma Torrent_choke_keeps t p c : torrent_keeps t (Torrent_set_choke_for_remote t p c).1.
Proof. unfold Torrent_set_choke_for_remote. peer_keeps. Qed.

Lemma Torrent_keep_alive_keeps t p now :
  torrent_keeps t (Torrent_on_keep_alive_by_remote t p now).1.
Proof. unfold Torrent_on_keep_alive_by_remote, get_peer. peer_keeps. Qed.

Lemma set_interest_keeps h p i : handler_keeps h (set_interest_on_remote h p i).1.
Proof. unfold set_interest_on_remote. peer_keeps. Qed.

Lemma set_client_interest_keeps h p i : handler_keeps h (set_client_interest h p i).1.
Proof. unfold set_client_interest. peer_keeps. Qed.

Lemma Torrent_have_keeps t p i : torrent_keeps t (Torrent_on_remote_have t p i).1.
Proof.
  unfold Torrent_on_remote_have, get_peer.
  destruct (peers (piece_handler t) !! p) eqn:E; [|apply torrent_keeps_refl].
  destruct (add_piece _ _). apply handler_keeps_torrent. by eapply set_peer_keeps.
Qed.

Lemma Torrent_set_bitfield_keeps t p f : torrent_keeps t (Torrent_set_peer_bitfield t p f).1.
Proof. unfold Torrent_set_peer_bitfield, get_peer. peer_keeps. Qed.

Lemma cancel_keeps h r : handler_keeps h (remove_pending_seed_by_request h r).1.
Proof.
  unfold remove_pending_seed_by_request. case_match; [apply delete_seed_keeps|].
  apply handler_keeps_refl.
Qed.

Lemma block_read_keeps h m : handler_keeps h (clear_pending_seed_block h m).1.
Proof.
  unfold clear_pending_seed_block. case_match; [apply delete_seed_keeps|].
  apply handler_keeps_refl.
Qed.

Lemma set_piece_keeps h i : handler_keeps h (set_piece h i).1.
Proof. unfold set_piece. case_match; by apply same_peers_keeps. Qed.

Lemma is_ready_false h p :
  is_ready_to_seed_block h p = true -> p ∉ (fun e => e.1.1) <$> pending_seed_blocks h.
Proof.
  unfold is_ready_to_seed_block. rewrite negb_true_iff. intros He Hin.
  apply list_elem_of_fmap in Hin as ([[q r] m] & -> & Hin). apply not_true_iff_false in He.
  apply He, existsb_exists. exists (q, r, m). split; [by apply list_elem_of_In|].
  by apply bool_decide_eq_true.
Qed.

(** A block that is queued for a peer that has none pending *)
Lemma insert_seed_keeps t p m r i :
  can_seed_piece_to t p i = true ->
  torrent_keeps t (with_piece_handler (insert_block_seed (piece_handler t) p m r) t).
Proof.
  unfold can_seed_piece_to, get_peer. case_match; [|done].
  intros [_ Hr]%andb_prop. apply is_ready_false in Hr. split; try done.
  unfold waiting_peers. simpl. rewrite fmap_app. intros Hn. apply NoDup_app.
  split_and!; [done| |apply NoDup_singleton]. by intros x Hx ->%list_elem_of_singleton.
Qed.

(** *** Loops over the torrents *)

(** The torrents before and after, one by one *)
Definition torrents_keep ts ts' : Prop :=
  forall id t', ts' !! id = Some t' -> exists t, ts !! id = Some t /\ torrent_keeps t t'.

Lemma torrents_keep_refl ts : torrents_keep ts ts.
Proof. intros id t Ht. exists t. split; [done|apply torrent_keeps_refl]. Qed.

(** One torrent of [ts0] becomes [t']; the others are those of [ts]. *)
Lemma torrents_keep_insert ts0 ts id t t' :
  torrents_keep ts0 ts -> ts0 !! id = Some t -> torrent_keeps t t' ->
  torrents_keep ts0 (<[id := t']> ts).
Proof.
  intros Hts Hid Hk id' t1. destruct (decide (id = id')) as [->|Hne].
  - rewrite lookup_insert_eq. intros [= <-]. by exists t.
  - rewrite lookup_insert_ne by done. apply Hts.
Qed.

Lemma visit_keeps {A} (f : Torrent PeerId BV Instant -> Torrent PeerId BV Instant * option A)
    ts0 l ts :
  (forall t, torrent_keeps t (f t).1) -> (forall e, e ∈ l -> ts0 !! e.1 = Some e.2) ->
  torrents_keep ts0 ts -> torrents_keep ts0 (visit f l ts).1.
Proof.
  intros Hf. revert ts. induction l as [|[id t] l IH]; intros ts Hl Hts; simpl; [done|].
  pose proof (Hf t) as Hk. destruct (f t) as [t' r]. simpl in Hk.
  assert (torrents_keep ts0 (<[id := t']> ts)) as Hts'.
  { eapply torrents_keep_insert; [done| |exact Hk]. apply (Hl (id, t)). left. }
  destruct r; simpl; [done|]. apply IH; [|done]. intros e He. apply Hl. by right.
Qed.

Lemma map_iter_lookup ts e : e ∈ map_iter ts -> ts !! e.1 = Some e.2.
Proof. destruct e as [id t]. apply map_iter_elem. Qed.

Lemma visit_torrents_keeps {A}
    (f : Torrent PeerId BV Instant -> Torrent PeerId BV Instant * option A) s :
  (forall t, torrent_keeps t (f t).1) ->
  torrents_keep (torrents s) (torrents (visit_torrents f s).1).
Proof.
  intros Hf. unfold visit_torrents.
  pose proof (visit_keeps f (torrents s) (map_iter (torrents s)) (torrents s) Hf) as Hk.
  destruct (visit f (map_iter (torrents s)) (torrents s)) as [ts r]. simpl in *.
  apply Hk; [apply map_iter_lookup | apply torrents_keep_refl].
Qed.

Lemma update_torrent_keeps {A} id (d : A) f s :
  (forall t, torrent_keeps t (f t).1) ->
  torrents_keep (torrents s) (torrents (update_torrent id d f s).1).
Proof.
  intros Hf. unfold update_torrent. destruct (torrents s !! id) as [t|] eqn:E.
  - pose proof (Hf t) as Hk. destruct (f t) as [t' r]. simpl in *.
    eapply torrents_keep_insert; [apply torrents_keep_refl | exact E | done].
  - apply torrents_keep_refl.
Qed.

Lemma poll_torrents_keeps shuffle now' now ts0 l ts ts' (r : TorrentPoolState PeerId Hasher) :
  (forall e, e ∈ l -> ts0 !! e.1 = Some e.2) -> torrents_keep ts0 ts ->
  poll_torrents shuffle now' now l ts = Ret (ts', r) -> torrents_keep ts0 ts'.
Proof.
  revert ts. induction l as [|[id t] l IH]; intros ts Hl Hts Hp; simpl in Hp.
  - by injection Hp as <- _.
  - inv_bind Hp. destruct a as [t1 r1]. apply Torrent_poll_keeps in Ha.
    assert (torrents_keep ts0 (<[id := t1]> ts)) as Hts'.
    { eapply torrents_keep_insert; [done| |exact Ha]. apply (Hl (id, t)). left. }
    assert (forall e, e ∈ l -> ts0 !! e.1 = Some e.2) as Hl' by (intros e He; apply Hl; by right).
    destruct r1; try (by injection Hp as <- _); by eapply IH.
Qed.

(** Operations that keep the torrents keep the pool's invariant. *)
Lemma torrents_keep_inv C s s' :
  pool_inv C s -> torrents_keep (torrents s) (torrents s') ->
  next_unique_torrent s' = next_unique_torrent s -> pool_inv C s'.
Proof.
  intros [Hids Hh He Hs Hn] Hk Hnext. split.
  - intros id t' (t & Ht & [? ? ? ? ?])%Hk. rewrite Hnext. destruct (Hids id t Ht) as (? & ? & ?).
    split_and!; congruence || lia.
  - intros id1 id2 t1' t2' (t1 & Ht1 & [_ ? _ _ _])%Hk (t2 & Ht2 & [_ ? _ _ _])%Hk Heq.
    eapply Hh; [done..|congruence].
  - intros id1 id2 t1' t2' p Hc (t1 & Ht1 & [])%Hk (t2 & Ht2 & [])%Hk H1' H2'.
    eapply He; [exact Hc | exact Ht1 | exact Ht2 | eauto..].
  - intros id t' (t & Ht & [])%Hk. eauto.
  - by rewrite Hnext.
Qed.

(** *** Torrents that come and peers that join *)

Lemma contains_peer_tracks t p : contains_peer t p = true <-> tracks t p.
Proof. apply bool_decide_eq_true. Qed.

Lemma is_associated_false s p :
  is_associated s p = false <-> forall id t, torrents s !! id = Some t -> ~ tracks t p.
Proof.
  unfold is_associated. rewrite <- not_true_iff_false, existsb_exists. split.
  - intros Hn id t Ht Hp. apply Hn. exists (id, t). split.
    + by apply list_elem_of_In, map_iter_elem.
    + by apply contains_peer_tracks.
  - intros Hn ([id t] & Hin%list_elem_of_In%map_iter_elem & Hp%contains_peer_tracks).
    by apply (Hn id t).
Qed.

Lemma insert_peer_fields h p peer :
  th_id (insert_peer h p peer).1 = th_id h /\
  peers (insert_peer h p peer).1 = <[p := peer]> (peers h) /\
  pending_seed_blocks (insert_peer h p peer).1 = pending_seed_blocks h.
Proof. unfold insert_peer. repeat case_match; done. Qed.

Lemma join_inv C s id t p peer :
  pool_inv C s -> (~ C p -> is_associated s p = false) -> torrents s !! id = Some t ->
  pool_inv C (with_torrents (<[id := with_piece_handler (insert_peer (piece_handler t) p peer).1 t]>
    (torrents s)) s).
Proof.
  intros [Hids Hh He Hs Hn] Ha Ht. setoid_rewrite is_associated_false in Ha.
  destruct (insert_peer_fields (piece_handler t) p peer) as (Hid & Hp & Hsd).
  set (t' := with_piece_handler _ t).
  assert (Hlook : forall id' t1, <[id := t']> (torrents s) !! id' = Some t1 ->
    exists t0, torrents s !! id' = Some t0 /\ torrent_id t1 = torrent_id t0 /\
      torrent_info_hash t1 = torrent_info_hash t0 /\
      th_id (piece_handler t1) = th_id (piece_handler t0) /\
      waiting_peers t1 = waiting_peers t0 /\
      forall q, tracks t1 q -> tracks t0 q \/ id' = id /\ q = p).
  { intros id' t1. destruct (decide (id = id')) as [->|Hne].
    - rewrite lookup_insert_eq. intros [= <-]. exists t. split_and!; try done.
      + unfold waiting_peers, t'. cbn [piece_handler with_piece_handler]. by rewrite Hsd.
      + intros q. unfold tracks, t'. cbn [piece_handler with_piece_handler]. rewrite Hp.
        destruct (decide (p = q)) as [->|Hpq].
        * by right.
        * rewrite lookup_insert_ne by done. by left.
    - rewrite lookup_insert_ne by done. intros Ht1. exists t1. split_and!; try done. by left. }
  split; simpl.
  - intros id' t1 (t0 & H0' & -> & _ & -> & _)%Hlook. by apply Hids.
  - intros id1 id2 t1 t2 (t1' & H1' & _ & -> & _)%Hlook (t2' & H2' & _ & -> & _)%Hlook.
    by apply Hh.
  - intros id1 id2 t1 t2 q Hc (t1' & H1' & _ & _ & _ & _ & Ht1)%Hlook
      (t2' & H2' & _ & _ & _ & _ & Ht2)%Hlook Hq1 Hq2.
    pose proof (Ht1 q Hq1) as Ho1. pose proof (Ht2 q Hq2) as Ho2.
    destruct Ho1 as [Hq1'|[-> Hqp]], Ho2 as [Hq2'|[-> Hqp']]; subst; try done.
    + by eapply He.
    + by destruct (Ha Hc _ _ H1').
    + by destruct (Ha Hc _ _ H2').
  - intros id' t1 (t0 & H0' & _ & _ & _ & -> & _)%Hlook. by eapply Hs.
  - done.
Qed.

Lemma get_for_info_hash_Some s hs id t :
  get_for_info_hash s hs = Some (id, t) ->
  torrents s !! id = Some t /\ torrent_info_hash t = hs.
Proof.
  unfold get_for_info_hash. intros Hh%head_Some_elem_of%list_elem_of_In.
  apply filter_In in Hh as [Hin%list_elem_of_In%map_iter_elem Hb%bool_decide_eq_true]. done.
Qed.

Lemma get_for_info_hash_None s hs :
  get_for_info_hash s hs = None <->
  forall id t, torrents s !! id = Some t -> torrent_info_hash t <> hs.
Proof.
  unfold get_for_info_hash. rewrite head_None. split.
  - intros Hf id t Ht Hh.
    assert (In (id, t) (List.filter (fun e => bool_decide (torrent_info_hash e.2 = hs))
      (map_iter (torrents s)))) as Hin; [|by rewrite Hf in Hin].
    apply filter_In. split; [by apply list_elem_of_In, map_iter_elem|].
    by apply bool_decide_eq_true.
  - intros Hn. destruct (List.filter _ _) as [|[id t] l] eqn:E; [done|].
    assert (In (id, t) ((id, t) :: l)) as Hin by by left. rewrite <- E in Hin.
    apply filter_In in Hin as [Hin%list_elem_of_In%map_iter_elem Hb%bool_decide_eq_true].
    by destruct (Hn id t).
Qed.

Lemma known_hash_iff s hs :
  existsb (fun '(_, x) => bool_decide (torrent_info_hash x = hs)) (map_iter (torrents s)) = true <->
  exists id t, torrents s !! id = Some t /\ torrent_info_hash t = hs.
Proof.
  rewrite existsb_exists. split.
  - intros ([id t] & Hin%list_elem_of_In%map_iter_elem & Hb%bool_decide_eq_true). by exists id, t.
  - intros (id & t & Ht & Hh). exists (id, t). split.
    + by apply list_elem_of_In, map_iter_elem.
    + by apply bool_decide_eq_true.
Qed.

(** The torrent that [add_torrent] makes of a configuration *)
Definition added_torrent (now : Instant) s (cfg : TorrentConfig BV) :
    Torrent PeerId BV Instant :=
  Torrent_new now (next_unique_torrent s) (cfg_info_hash cfg)
    (TorrentPieceHandler_new (next_unique_torrent s) (initial_piece_selection_strategy s)
       (cfg_bitfield cfg) (cfg_piece_length cfg) (cfg_last_piece_length cfg))
    (cfg_seed_leech cfg) (cfg_state cfg).

Definition added_state s (cfg : TorrentConfig BV) : TorrentState :=
  if TorrentState_is_active (cfg_state cfg) then
    if Z.of_nat (length (iter_active s)) <? max_active_torrents s then Active else Paused
  else cfg_state cfg.

Lemma add_torrent_eq now s cfg :
  0 <= next_unique_torrent s -> next_unique_torrent s + 1 < 2 ^ 64 ->
  add_torrent now s cfg =
  if existsb (fun '(_, x) => bool_decide (torrent_info_hash x = cfg_info_hash cfg))
       (map_iter (torrents s))
  then Ret (s, Err (cfg_info_hash cfg))
  else Ret (with_torrents (<[next_unique_torrent s := added_torrent now s cfg]> (torrents s))
              (with_next_unique_torrent (next_unique_torrent s + 1) s),
            Ok (next_unique_torrent s, added_state s cfg)).
Proof.
  intros Hn Hm. unfold add_torrent. destruct (existsb _ _); [done|].
  rewrite checked_in_range, bind_ret by (unfold in_range; lia). done.
Qed.

Lemma add_torrent_inv C now s cfg s' r :
  pool_inv C s -> next_unique_torrent s + 1 < 2 ^ 64 -> add_torrent now s cfg = Ret (s', r) ->
  pool_inv C s'.
Proof.
  intros Hi Hm. pose proof Hi as [Hids Hh He Hs Hn]. rewrite add_torrent_eq by done.
  destruct (existsb _ _) eqn:Ee; intros [= <- _]; [done|].
  rewrite <- not_true_iff_false, known_hash_iff in Ee.
  assert (Hfresh : torrents s !! next_unique_torrent s = None).
  { apply eq_None_not_Some. intros [t Ht]. destruct (Hids _ _ Ht) as (_ & _ & ?). lia. }
  assert (Hempty : forall p, ~ tracks (added_torrent now s cfg) p).
  { intros p [x Hx]. simpl in Hx. by rewrite lookup_empty in Hx. }
  assert (Hcase : forall id t, <[next_unique_torrent s := added_torrent now s cfg]> (torrents s)
      !! id = Some t ->
    id = next_unique_torrent s /\ t = added_torrent now s cfg \/ torrents s !! id = Some t).
  { intros id t. destruct (decide (next_unique_torrent s = id)) as [->|Hne].
    - rewrite lookup_insert_eq. intros [= <-]. by left.
    - rewrite lookup_insert_ne by done. by right. }
  split; simpl.
  - intros id t [[-> ->]|Ht]%Hcase; [split_and!; done || lia|].
    destruct (Hids id t Ht) as (? & ? & ?). split_and!; done || lia.
  - intros id1 id2 t1 t2 [[-> ->]|H1']%Hcase [[-> ->]|H2']%Hcase Heq; try done.
    + destruct Ee. by exists id2, t2.
    + destruct Ee. by exists id1, t1.
    + by eapply Hh.
  - intros id1 id2 t1 t2 p Hc [[-> ->]|H1']%Hcase [[-> ->]|H2']%Hcase Hp1 Hp2; try done.
    + by destruct (Hempty p).
    + by destruct (Hempty p).
    + by eapply He.
  - intros id t [[-> ->]|Ht]%Hcase; [constructor|]. by eapply Hs.
  - lia.
Qed.

Lemma pool_new_inv C random (id : PeerId) (config : BitTorrentConfig Hasher) :
  pool_inv C (TorrentPool_new (BV := BV) (Instant := Instant) random id config).
Proof. split; simpl; try done; intros *; try intros _; rewrite lookup_empty; done. Qed.

(** *** Every operation keeps the invariant *)

Lemma visit_torrents_next {A}
    (f : Torrent PeerId BV Instant -> Torrent PeerId BV Instant * option A) s :
  next_unique_torrent (visit_torrents f s).1 = next_unique_torrent s.
Proof. unfold visit_torrents. by destruct (visit _ _ _). Qed.

Lemma visit_torrents_inv {A} C
    (f : Torrent PeerId BV Instant -> Torrent PeerId BV Instant * option A) s :
  (forall t, torrent_keeps t (f t).1) -> pool_inv C s -> pool_inv C (visit_torrents f s).1.
Proof.
  intros Hf Hi. eapply torrents_keep_inv; [exact Hi | by apply visit_torrents_keeps |].
  apply visit_torrents_next.
Qed.

Lemma update_torrent_inv {A} C id (d : A) f s :
  (forall t, torrent_keeps t (f t).1) -> pool_inv C s -> pool_inv C (update_torrent id d f s).1.
Proof.
  intros Hf Hi. eapply torrents_keep_inv; [exact Hi | by apply update_torrent_keeps |].
  unfold update_torrent. case_match; [|done]. by case_match.
Qed.

(** The state after a visit whose result is turned into something else *)
Lemma fst_let {A B C} (x : A * B) (g : A -> B -> C) : (let '(a, b) := x in (a, g a b)).1 = x.1.
Proof. by destruct x. Qed.

Lemma pool_step_inv C s s' : pool_step (Hasher := Hasher) C s s' -> pool_inv C s -> pool_inv C s'.
Proof.
  intros Hs Hi. destruct Hs.
  - by eapply add_torrent_inv.
  - unfold pool_unchoke_remote. rewrite fst_let. apply visit_torrents_inv; [|done].
    intros t. rewrite fst_let. apply Torrent_choke_keeps.
  - unfold pool_choke_remote. rewrite fst_let. apply visit_torrents_inv; [|done].
    intros t. rewrite fst_let. apply Torrent_choke_keeps.
  - apply update_torrent_inv; [|done]. intros t. apply on_handler_keeps, set_client_interest_keeps.
  - unfold on_handshake_request. destruct (is_associated s p) eqn:Ea; [done|].
    destruct (get_for_info_hash s (info_hash hs)) as [[id t]|] eqn:Eg; [|done].
    apply get_for_info_hash_Some in Eg as [Ht _].
    pose proof (join_inv C s id t p (BitTorrentPeer_new (Message.peer_id hs) n1 n2) Hi (fun _ => Ea) Ht) as Hj.
    by destruct (insert_peer _ _ _).
  - unfold on_handshake_response. destruct (torrents s !! id) as [t|] eqn:Ht; [|done].
    case_match; [|done].
    pose proof (join_inv C s id t p (BitTorrentPeer_new (Message.peer_id hs) n1 n2) Hi H3 Ht) as Hj.
    by destruct (insert_peer _ _ _).
  - apply visit_torrents_inv; [|done]. intros t. destruct c; simpl;
      unfold Torrent_on_choke_by_remote, Torrent_on_choked_by_remote,
        Torrent_on_unchoked_by_remote; simpl; apply handler_keeps_torrent, set_choke_keeps.
  - unfold on_keep_alive_by_remote. rewrite fst_let. apply visit_torrents_inv; [|done].
    intros t. rewrite fst_let. apply Torrent_keep_alive_keeps.
  - unfold on_interest_by_remote. rewrite fst_let. apply visit_torrents_inv; [|done].
    intros t. destruct i; apply on_handler_keeps, set_interest_keeps.
  - unfold on_piece_request. rewrite fst_let. apply visit_torrents_inv; [|done].
    intros t. destruct (can_seed_piece_to t p _) eqn:Ec; simpl.
    + by eapply insert_seed_keeps.
    + apply torrent_keeps_refl.
  - apply update_torrent_inv; [|done]. intros t. apply on_handler_keeps, th_add_block_keeps.
  - apply visit_torrents_inv; [|done]. intros t. apply on_handler_keeps, cancel_keeps.
  - apply update_torrent_inv; [|done]. intros t. apply on_handler_keeps, block_read_keeps.
  - apply visit_torrents_inv; [|done]. intros t. apply Torrent_have_keeps.
  - unfold set_peer_bitfield. rewrite fst_let. apply update_torrent_inv; [|done].
    intros t. apply Torrent_set_bitfield_keeps.
  - apply visit_torrents_inv; [|done]. intros t. apply Torrent_set_bitfield_keeps.
  - apply visit_torrents_inv; [|done]. intros t. apply on_handler_keeps, th_remove_peer_keeps.
  - apply update_torrent_inv; [|done]. intros t. apply on_handler_keeps, set_piece_keeps.
  - unfold pool_poll in *. inv_bind H3. destruct a as [ts st]. injection H3 as <- _.
    eapply torrents_keep_inv; [exact Hi | | done]. simpl.
    eapply poll_torrents_keeps; [ | apply torrents_keep_refl | exact Ha].
    intros e He%list_elem_of_In. unfold iter_active in He. apply filter_In in He as [He _].
    by apply map_iter_lookup, list_elem_of_In.
Qed.

(** The counter of torrents never goes back. *)
Lemma update_torrent_next {A} id (d : A) f s :
  next_unique_torrent (update_torrent id d f s).1 = next_unique_torrent s.
Proof. unfold update_torrent. case_match; [|done]. by case_match. Qed.

Lemma pool_step_next C s s' :
  0 <= next_unique_torrent s -> pool_step (Hasher := Hasher) C s s' ->
  next_unique_torrent s <= next_unique_torrent s'.
Proof.
  intros Hn Hs. destruct Hs as [now s cfg s' r Hm Ha| | | | | | | | | | | | | | | | |
    |shuffle now' now s s' r Hp]; [|apply Z.eq_le_incl, eq_sym..];
    try (unfold pool_unchoke_remote, pool_choke_remote, on_keep_alive_by_remote,
      on_interest_by_remote, on_piece_request, set_peer_bitfield; rewrite ?fst_let;
      by first [apply visit_torrents_next | apply update_torrent_next]).
  - rewrite add_torrent_eq in Ha by done. destruct (existsb _ _); injection Ha as <- _; simpl; lia.
  - unfold on_handshake_request. repeat case_match; done.
  - unfold on_handshake_response. repeat case_match; done.
  - unfold pool_poll in Hp. inv_bind Hp. destruct a. by injection Hp as <- _.
Qed.

Lemma pool_reachable_inv C s : pool_reachable (Hasher := Hasher) C s -> pool_inv C s.
Proof.
  intros (random & id & config & Hr). pose proof (pool_new_inv C random id config) as Hi.
  revert Hi. induction Hr as [|s1 s2 s3 Hs Hr IH]; [done|]. intros Hi. apply IH.
  by eapply pool_step_inv.
Qed.

(** *** The torrent of a peer *)

(** An operation for a peer: on a torrent that does not track it, nothing. *)
Definition for_peer {A} (p : PeerId)
    (f : Torrent PeerId BV Instant -> Torrent PeerId BV Instant * option A) : Prop :=
  forall t, ~ tracks t p -> f t = (t, None).

Lemma with_torrents_same s : with_torrents (torrents s) s = s.
Proof. by destruct s. Qed.

Lemma visit_nothing {A} (f : Torrent PeerId BV Instant -> Torrent PeerId BV Instant * option A)
    l ts :
  (forall e, e ∈ l -> ts !! e.1 = Some e.2 /\ f e.2 = (e.2, None)) -> visit f l ts = (ts, None).
Proof.
  induction l as [|[id t] l IH]; intros Hl; simpl; [done|].
  destruct (Hl (id, t)) as [Ht Hf]; [left|]. simpl in Ht, Hf. rewrite Hf.
  rewrite insert_id by done. apply IH. intros e He. apply Hl. by right.
Qed.

Lemma visit_one {A} (f : Torrent PeerId BV Instant -> Torrent PeerId BV Instant * option A)
    l ts id t t' a :
  (id, t) ∈ l -> f t = (t', Some a) ->
  (forall e, e ∈ l -> ts !! e.1 = Some e.2 /\ (e.1 <> id -> f e.2 = (e.2, None))) ->
  visit f l ts = (<[id := t']> ts, Some a).
Proof.
  intros Hin Hf. induction l as [|[id1 t1] l IH]; intros Hl; [by apply not_elem_of_nil in Hin|].
  destruct (Hl (id1, t1)) as [Ht1 Hf1]; [left|]. simpl in *.
  destruct (decide (id1 = id)) as [->|Hne].
  - assert (ts !! id = Some t) as Ht by by apply (Hl (id, t)).
    assert (t1 = t) as -> by congruence. by rewrite Hf.
  - rewrite Hf1 by done. rewrite insert_id by done. apply IH.
    + apply elem_of_cons in Hin as [[= -> ->]|Hin]; done.
    + intros e He. apply Hl. by right.
Qed.

(** An operation for a peer acts on the torrent that tracks it, in whatever
    order the torrents are visited. *)
Lemma visit_for_peer {A} C p (f : Torrent PeerId BV Instant -> Torrent PeerId BV Instant * option A)
    s id t t' a :
  pool_inv C s -> ~ C p -> for_peer p f -> torrents s !! id = Some t -> tracks t p -> f t = (t', Some a) ->
  visit_torrents f s = (with_torrents (<[id := t']> (torrents s)) s, Some a).
Proof.
  intros Hi Hc Hf Ht Hp Hft. unfold visit_torrents.
  rewrite (visit_one f (map_iter (torrents s)) (torrents s) id t t' a); [done| |done|].
  - by apply map_iter_elem.
  - intros e He%map_iter_lookup. split; [done|]. intros Hne. apply Hf. intros Hp'.
    apply Hne. by eapply (pinv_exclusive C s Hi).
Qed.

(** A visit that changes nothing until it returns a value returns that of the
    first torrent that has one. *)
Lemma visit_torrents_first {A}
    (f : Torrent PeerId BV Instant -> Torrent PeerId BV Instant * option A) s :
  (forall t, (f t).2 = None -> f t = (t, None)) ->
  (exists id t, torrents s !! id = Some t /\ is_Some (f t).2) ->
  exists id t, torrents s !! id = Some t /\ is_Some (f t).2 /\
    visit_torrents f s = (with_torrents (<[id := (f t).1]> (torrents s)) s, (f t).2).
Proof.
  intros Hf (id0 & t0 & Ht0 & Hs0).
  assert (forall l, (forall e, e ∈ l -> torrents s !! e.1 = Some e.2) ->
    (exists e, e ∈ l /\ is_Some (f e.2).2) ->
    exists id t, torrents s !! id = Some t /\ is_Some (f t).2 /\
      visit f l (torrents s) = (<[id := (f t).1]> (torrents s), (f t).2)) as Hv.
  { intros l. induction l as [|[id t] l IH]; intros Hl (e & He & Hs); [by apply not_elem_of_nil in He|].
    assert (torrents s !! id = Some t) as Ht by apply (Hl (id, t) (list_elem_of_here _ _)).
    simpl. destruct (f t) as [t' [a|]] eqn:Ef.
    - exists id, t. rewrite Ef. split_and!; [done|by eexists|done].
    - pose proof (Hf t) as Hsame. rewrite Ef in Hsame. injection (Hsame eq_refl) as ->.
      rewrite insert_id by done. apply IH; [intros e' He'; apply Hl; by right|].
      exists e. split; [|done]. apply elem_of_cons in He as [->|He]; [|done].
      simpl in Hs. rewrite Ef in Hs. by destruct Hs. }
  destruct (Hv (map_iter (torrents s))) as (id & t & Ht & Hs & Hvis).
  - apply map_iter_lookup.
  - exists (id0, t0). split; [by apply map_iter_elem|done].
  - exists id, t. split_and!; [done..|]. unfold visit_torrents. by rewrite Hvis.
Qed.

Lemma visit_no_peer {A} p (f : Torrent PeerId BV Instant -> Torrent PeerId BV Instant * option A) s :
  for_peer p f -> is_associated s p = false -> visit_torrents f s = (s, None).
Proof.
  intros Hf Ha. rewrite is_associated_false in Ha. unfold visit_torrents.
  rewrite visit_nothing; [by rewrite with_torrents_same|].
  intros e He%map_iter_lookup. split; [done|]. apply Hf. by eapply Ha.
Qed.

Lemma not_tracks t p : ~ tracks t p -> peers (piece_handler t) !! p = None.
Proof. intros Hn. by apply eq_None_not_Some. Qed.

Lemma choke_for_peer p c :
  for_peer p (fun t =>
    let '(t, r) := Torrent_on_choke_by_remote t p c in
    (t, (fun choke => (torrent_id t, choke)) <$> r)).
Proof.
  intros t Hn%not_tracks. unfold Torrent_on_choke_by_remote, Torrent_on_choked_by_remote,
    Torrent_on_unchoked_by_remote, on_handler, set_choke_on_remote. rewrite Hn.
  destruct c, t; done.
Qed.

Lemma piece_request_for_peer p m r :
  for_peer p (fun t =>
    if can_seed_piece_to t p (Z.to_nat (bm_piece_index m)) then
      (with_piece_handler (insert_block_seed (piece_handler t) p m r) t, Some (torrent_id t, m))
    else (t, None)).
Proof. intros t Hn%not_tracks. unfold can_seed_piece_to, get_peer. by rewrite Hn. Qed.

Lemma remove_for_peer p : for_peer p (fun t => Torrent_remove_peer t p).
Proof.
  intros t Hn%not_tracks. unfold Torrent_remove_peer, on_handler, th_remove_peer. rewrite Hn.
  rewrite delete_id by done. by destruct t as [? ? []].
Qed.

Lemma set_choke_result h p c peer :
  peers h !! p = Some peer -> (set_choke_on_remote h p c).2 = Some (remote_choke peer).
Proof. intros Hp. unfold set_choke_on_remote. rewrite Hp. repeat case_match; done. Qed.
End PoolLemmas.

(** ** Properties *)

Section PoolProperties.
Context `{Countable PeerId} `{BitVec BV} `{Clock Instant} `{Profile} {Hasher : Type}.
Context `{!MapOrder PeerId (BitTorrentPeer BV Instant)}.
Context `{!MapOrder Z (Torrent PeerId BV Instant)}.
Implicit Types s : TorrentPool PeerId BV Instant.
Implicit Types t : Torrent PeerId BV Instant.

(** C12: Whatever the pool is asked to do, while its counter of torrents stays
    within 64 bits, ids and info hashes stay unique, an id is never given out
    again, and a peer waits for at most one block of a torrent.  A peer belongs
    to at most one torrent, unless it answered a handshake while a torrent
    tracked it already: the peers of [C] are the ones that may do so. *)
Theorem pool_invariant C s :
  pool_reachable (Hasher := Hasher) C s ->
  (forall id t, torrents s !! id = Some t -> torrent_id t = id /\ id < next_unique_torrent s) /\
  (forall id1 id2 t1 t2, torrents s !! id1 = Some t1 -> torrents s !! id2 = Some t2 ->
     torrent_info_hash t1 = torrent_info_hash t2 -> id1 = id2) /\
  (forall id1 id2 t1 t2 p, ~ C p -> torrents s !! id1 = Some t1 -> torrents s !! id2 = Some t2 ->
     tracks t1 p -> tracks t2 p -> id1 = id2) /\
  (forall id t, torrents s !! id = Some t -> NoDup (waiting_peers t)).
Proof.
  intros [Hids Hh He Hs _]%pool_reachable_inv. split_and!; [|done..].
  intros id t Ht. destruct (Hids id t Ht) as (? & _ & ?). split; [done|lia].
Qed.

(** A torrent is added exactly when no torrent has its info hash, under a new
    id.  It is added in the state that was asked for: the limit on active
    torrents changes the state that is reported, not the one that is stored. *)
Theorem add_torrent_spec C now s cfg :
  pool_inv C s -> next_unique_torrent s + 1 < 2 ^ 64 ->
  exists s' r, add_torrent now s cfg = Ret (s', r) /\
  match r with
  | Err hs => s' = s /\ hs = cfg_info_hash cfg /\
      exists id t, torrents s !! id = Some t /\ torrent_info_hash t = hs
  | Ok (id, state) =>
      torrents s !! id = None /\
      (forall id' t, torrents s !! id' = Some t -> torrent_info_hash t <> cfg_info_hash cfg) /\
      (exists t, torrents s' = <[id := t]> (torrents s) /\
         torrent_info_hash t = cfg_info_hash cfg /\ torrent_state t = cfg_state cfg) /\
      (state <> cfg_state cfg ->
         cfg_state cfg = Active /\ state = Paused /\
         max_active_torrents s <= Z.of_nat (length (iter_active s)))
  end.
Proof.
  intros Hi Hm. pose proof Hi as [Hids _ _ _ Hn]. rewrite add_torrent_eq by done.
  destruct (existsb _ _) eqn:Ee.
  - apply known_hash_iff in Ee. by eexists s, (Err _).
  - eexists _, (Ok _). split; [done|]. rewrite <- not_true_iff_false, known_hash_iff in Ee.
    split_and!.
    + apply eq_None_not_Some. intros [t Ht]. destruct (Hids _ _ Ht) as (_ & _ & ?). lia.
    + intros id' t Ht Hh. apply Ee. by exists id', t.
    + by eexists.
    + unfold added_state. destruct (cfg_state cfg); simpl; try done.
      case_match eqn:Elt; [done|]. intros _. split_and!; [done..|lia].
Qed.

(** A handshake is answered exactly when the peer belongs to no torrent and
    the pool has the torrent of its info hash; the peer is tracked by that
    torrent from then on, choked and not interested. *)
Theorem handshake_request_spec n1 n2 s p hs :
  let '(s', r) := on_handshake_request n1 n2 s p hs in
  match r with
  | Ok hs' =>
      hs' = Handshake_new (info_hash hs) (local_peer_hash s) /\ is_associated s p = false /\
      exists id t t', torrents s !! id = Some t /\ torrent_info_hash t = info_hash hs /\
        torrents s' = <[id := t']> (torrents s) /\
        peers (piece_handler t') =
          <[p := BitTorrentPeer_new (Message.peer_id hs) n1 n2]> (peers (piece_handler t))
  | Err (HE_InvalidPeer q None) => q = p /\ is_associated s p = true /\ s' = s
  | Err (HE_InfoHashMismatch q None) => q = p /\ is_associated s p = false /\ s' = s /\
      forall id t, torrents s !! id = Some t -> torrent_info_hash t <> info_hash hs
  | _ => False
  end.
Proof.
  unfold on_handshake_request. destruct (is_associated s p) eqn:Ea; [done|].
  destruct (get_for_info_hash s (info_hash hs)) as [[id t]|] eqn:Eg.
  - apply get_for_info_hash_Some in Eg as [Ht Hh].
    pose proof (insert_peer_fields (piece_handler t) p
      (BitTorrentPeer_new (Message.peer_id hs) n1 n2)) as (_ & Hp & _).
    destruct (insert_peer _ _ _) as [h o]. simpl in Hp. split; [done|]. split; [done|].
    by exists id, t, (with_piece_handler h t).
  - split_and!; try done. by apply (proj1 (get_for_info_hash_None s (info_hash hs))).
Qed.

(** A choke or unchoke message of a peer reaches the torrent of the peer, in
    whatever order the hash map yields the torrents, and reports how the peer
    treated the client before; a message of an unknown peer changes nothing. *)
Theorem choke_by_remote_spec C s p c :
  pool_reachable (Hasher := Hasher) C s -> ~ C p ->
  (forall id t peer, torrents s !! id = Some t -> peers (piece_handler t) !! p = Some peer ->
     on_choke_by_remote s p c =
     (with_torrents
        (<[id := with_piece_handler (set_choke_on_remote (piece_handler t) p c).1 t]>
           (torrents s)) s, Some (id, remote_choke peer))) /\
  (is_associated s p = false -> on_choke_by_remote s p c = (s, None)).
Proof.
  intros Hi%pool_reachable_inv Hc. split.
  - intros id t peer Ht Hp. destruct (pinv_ids C s Hi id t Ht) as [Hid _].
    apply (visit_for_peer C p _ s id t); [done | done | apply choke_for_peer | done | by eexists |].
    pose proof (set_choke_result (piece_handler t) p c peer Hp) as Hr.
    unfold Torrent_on_choke_by_remote, Torrent_on_choked_by_remote,
      Torrent_on_unchoked_by_remote, on_handler.
    destruct c; simpl; rewrite Hr; simpl; by rewrite Hid.
  - apply visit_no_peer, choke_for_peer.
Qed.

(** C31: In every state the operations of the pool lead to, a request for a block
    is queued exactly when a torrent owns the piece, has the peer unchoked and
    interested, and owes it no other block; then the peer waits for just this
    block. *)
Theorem piece_request_spec C s p m r :
  pool_reachable (Hasher := Hasher) C s ->
  let '(s', res) := on_piece_request s p m r in
  let i := Z.to_nat (bm_piece_index m) in
  match res with
  | Ok (id, m') =>
      m' = m /\ exists t peer, torrents s !! id = Some t /\
        peers (piece_handler t) !! p = Some peer /\ remote_can_leech peer = true /\
        th_has_piece (piece_handler t) i = true /\ (p ∉ waiting_peers t) /\
        torrents s' = <[id := with_piece_handler (insert_block_seed (piece_handler t) p m r) t]>
                        (torrents s)
  | Err e => e = (p, m, r) /\ s' = s /\
      forall id t, torrents s !! id = Some t -> can_seed_piece_to t p i = false
  end.
Proof.
  intros Hi%pool_reachable_inv. unfold on_piece_request.
  destruct (existsb (fun '(_, t) => can_seed_piece_to t p (Z.to_nat (bm_piece_index m)))
    (map_iter (torrents s))) eqn:Ee.
  - destruct (visit_torrents_first (fun t =>
        if can_seed_piece_to t p (Z.to_nat (bm_piece_index m)) then
          (with_piece_handler (insert_block_seed (piece_handler t) p m r) t, Some (torrent_id t, m))
        else (t, None)) s) as (id & t & Ht & Hsome & ->).
    { intros t. by destruct (can_seed_piece_to _ _ _). }
    { apply existsb_exists in Ee as ([id t] & Hin%list_elem_of_In%map_iter_elem & Hc).
      exists id, t. split; [done|]. by rewrite Hc. }
    destruct (can_seed_piece_to t p _) eqn:Hc; [|by destruct Hsome].
    unfold can_seed_piece_to, get_peer in Hc.
    destruct (peers (piece_handler t) !! p) as [peer|] eqn:Ep; [|done].
    apply andb_prop in Hc as [[Hhas Hleech]%andb_prop Hready].
    destruct (pinv_ids C s Hi id t Ht) as [Hid _]. simpl. split; [done|]. exists t, peer.
    rewrite Hid. split_and!; try done. by apply is_ready_false.
  - assert (Hno : forall id t, torrents s !! id = Some t ->
      can_seed_piece_to t p (Z.to_nat (bm_piece_index m)) = false).
    { intros id t Ht. apply not_true_iff_false. intros Hc. apply not_true_iff_false in Ee.
      apply Ee, existsb_exists. exists (id, t). split; [|done].
      by apply list_elem_of_In, map_iter_elem. }
    unfold visit_torrents. rewrite visit_nothing; simpl; [by rewrite with_torrents_same|].
    intros e He%map_iter_lookup. split; [done|]. by rewrite (Hno e.1).
Qed.
End PoolProperties.

(** ** Witnesses *)

Section PoolWitnesses.
#[local] Existing Instances list_bitvec debug_build seconds ex_order.
#[local] Instance ex_torrent_order : MapOrder Z (Torrent Z (list bool) Z) := default_order _ _.

(** A pool with one torrent and one peer *)
Definition ex_cfg : TorrentConfig (list bool) :=
  {| cfg_info_hash := ex_hash 1; cfg_state := Active;
     cfg_bitfield := {| inner := [false; true] |}; cfg_piece_length := 40000;
     cfg_last_piece_length := 5; cfg_seed_leech := SeedAndLeech |}.
Definition ex_pool0 : TorrentPool Z (list bool) Z :=
  TorrentPool_new (ex_hash 9) 1 (BitTorrentConfig_default (Hasher := list byte)).
Definition ex_pool1 : TorrentPool Z (list bool) Z :=
  match add_torrent 0 ex_pool0 ex_cfg with Ret (s, _) => s | Panic => ex_pool0 end.
Definition ex_handshake : Handshake := Handshake_new (ex_hash 1) (ex_hash 7).
Definition ex_pool2 : TorrentPool Z (list bool) Z :=
  (on_handshake_request 0 0 ex_pool1 7 ex_handshake).1.

Lemma ex_pool1_reachable : pool_reachable (Hasher := list byte) nobody ex_pool1.
Proof.
  exists (ex_hash 9), 1, BitTorrentConfig_default. eapply rtc_l; [|apply rtc_refl].
  eapply (pstep_add_torrent nobody 0 ex_pool0 ex_cfg); [done|]. unfold ex_pool1. by vm_compute.
Qed.

Lemma ex_pool2_reachable : pool_reachable (Hasher := list byte) nobody ex_pool2.
Proof.
  destruct ex_pool1_reachable as (random & id & config & Hr). exists random, id, config.
  eapply rtc_r; [exact Hr|]. apply pstep_handshake_request.
Qed.

Definition ex_torrent2 : Torrent Z (list bool) Z :=
  default (added_torrent 0 ex_pool0 ex_cfg) (torrents ex_pool2 !! 0).
Definition ex_joined : BitTorrentPeer (list bool) Z := BitTorrentPeer_new (ex_hash 7) 0 0.

Lemma pool_invariant_witness :
  torrents ex_pool2 !! 0 = Some ex_torrent2 /\ torrent_id ex_torrent2 = 0 /\ 0 < 1.
Proof.
  assert (torrents ex_pool2 !! 0 = Some ex_torrent2) as Ht by (by vm_compute).
  split; [exact Ht|]. apply (pool_invariant nobody ex_pool2 ex_pool2_reachable). exact Ht.
Defined.

Lemma add_torrent_spec_witness :
  exists s' r, add_torrent 0 ex_pool1 ex_cfg = Ret (s', r).
Proof.
  destruct (add_torrent_spec nobody 0 ex_pool1 ex_cfg (pool_reachable_inv nobody ex_pool1 ex_pool1_reachable)
    ltac:(done)) as (s' & r & Hr & _). by exists s', r.
Defined.

Lemma choke_by_remote_spec_witness :
  on_choke_by_remote ex_pool2 7 UnChoked =
  (with_torrents
     (<[0 := with_piece_handler (set_choke_on_remote (piece_handler ex_torrent2) 7 UnChoked).1
               ex_torrent2]> (torrents ex_pool2)) ex_pool2, Some (0, Choked)).
Proof.
  apply (proj1 (choke_by_remote_spec nobody ex_pool2 7 UnChoked ex_pool2_reachable
    (not_nobody 7)) 0 ex_torrent2 ex_joined); by vm_compute.
Defined.

Lemma piece_request_spec_witness :
  let '(s', res) := on_piece_request ex_pool2 7 (BlockMetadata_new 1 0 5) 3 in
  match res with Ok (id, m') => m' = BlockMetadata_new 1 0 5 | Err e => s' = ex_pool2 end.
Proof.
  pose proof (piece_request_spec nobody ex_pool2 7 (BlockMetadata_new 1 0 5) 3 ex_pool2_reachable) as Hs.
  destruct (on_piece_request _ _ _ _) as [s' [[id m']|e]]; [exact (proj1 Hs)|].
  exact (proj1 (proj2 Hs)).
Defined.
End PoolWitnesses.
