(* ===== verification/DiskFile.v ===== *)
(** * The files of a torrent on disk

    [TorrentFile], [FileEntry] and [FileWindow] of src/src/disk/file.rs. *)

From S2P Require Import Prelude Crates Util MetaInfo Block DiskError.
Local Open Scope Z_scope.
Local Open Scope rust_scope.

(** ** Data *)

(** [FileId(usize)] *)
Abbreviation FileId := Z (only parsing).

Record TorrentFileId := mkTorrentFileId { tf_torrent : TorrentId; tf_file : FileId }.

#[export] Instance TorrentFileId_eq_dec : EqDecision TorrentFileId.
Proof. solve_decision. Defined.

Record FileEntry := mkFileEntry {
  (** the relative path of this file. *)
  fe_path : PathBuf;
  (** index of the file in the torrent *)
  fe_id : TorrentFileId;
  (** the offset of this file inside the torrent *)
  fe_offset : Z;
  (** the size of the file (in bytes) *)
  fe_size : Z;
}.

#[export] Instance FileEntry_eq_dec : EqDecision FileEntry.
Proof. solve_decision. Defined.

Record FileWindow := mkFileWindow { fw_offset : Z; fw_length : Z }.

#[export] Instance FileWindow_eq_dec : EqDecision FileWindow.
Proof. solve_decision. Defined.

Definition FileWindow_new (offset length : Z) : FileWindow :=
  {| fw_offset := offset; fw_length := length |}.

Definition TorrentFileId_new (torrent : TorrentId) (file : FileId) : TorrentFileId :=
  {| tf_torrent := torrent; tf_file := file |}.

Record TorrentFile (Hasher : Type) := mkTorrentFile {
  tf_id : TorrentId;
  tf_meta_info : MetaInfo Hasher;
  tf_files : list FileEntry;
}.
Arguments mkTorrentFile {Hasher}.
Arguments tf_id {Hasher}.
Arguments tf_meta_info {Hasher}.
Arguments tf_files {Hasher}.

(** ** Operations *)

Section TorrentFile.
Context `{Sha1 Hasher} `{Profile} `{SetOrder FileEntry}.
Implicit Types t : TorrentFile Hasher.

(** The fold of [TorrentFile::new] over the files of a directory *)
Fixpoint layout_files (id : TorrentId) (root_dir : PathBuf) (file_index offset : Z)
    (files : list FileEntry) (l : list SubFileInfo) : outcome (list FileEntry) :=
  match l with
  | [] => Ret files
  | file :: l' =>
      let entry :=
        {| fe_id := TorrentFileId_new id file_index;
           fe_offset := offset;
           fe_path := path_join root_dir (relative_file_path file);
           fe_size := sub_length file |} in
      let files := set_insert entry files in
      file_index ← file_index +! 1;
      offset ← offset +! sub_length file;
      layout_files id root_dir file_index offset files l'
  end.

(** [TorrentFile::new] *)
Definition TorrentFile_new (id : TorrentId) (meta_info : MetaInfo Hasher) :
    outcome (TorrentFile Hasher) :=
  let root_dir := name (info meta_info) in
  files ←
    match content (info meta_info) with
    | Single length =>
        Ret [ {| fe_path := root_dir; fe_id := TorrentFileId_new id 0; fe_offset := 0;
                 fe_size := length |} ]
    | Multi files => layout_files id root_dir 0 0 [] files
    end;
  Ret {| tf_id := id; tf_meta_info := meta_info; tf_files := files |}.

(** [is_good_piece] *)
Definition TorrentFile_is_good_piece t (block : Block) : bool :=
  match pieces (info (tf_meta_info t)) !! Z.to_nat (bm_piece_index (block_metadata block)) with
  | Some piece_hash => bool_decide (ShaHash_from_bytes (block_data block) = piece_hash)
  | None => false
  end.

(** [get_file] *)
Definition get_file t (path : PathBuf) : option FileEntry :=
  find (fun file => bool_decide (fe_path file = path)) (set_iter (tf_files t)).

(** The loop of [files_for_block] over the files *)
Fixpoint files_loop (block_start block_end block_length : Z)
    (files : list (FileEntry * FileWindow)) (l : list FileEntry) :
    outcome (list (FileEntry * FileWindow)) :=
  match l with
  | [] => Ret files
  | file :: l' =>
      if fe_offset file <=? block_start then
        file_end ← fe_offset file +! fe_size file;
        if block_end <=? file_end then
          window_offset ← block_start -! fe_offset file;
          let window_length := block_length in
          Ret [(file, FileWindow_new window_offset window_length)]
        else
          window_offset ← block_start -! fe_offset file;
          file_end ← fe_offset file +! fe_size file;
          _ ← file_end -! block_start;
          files_loop block_start block_end block_length
            (files ++ [(file, FileWindow_new window_offset window_offset)]) l'
      else
        file_end ← fe_size file +! fe_offset file;
        if file_end <=? block_end then
          window_length ← block_end -! fe_offset file;
          window_length ← window_length +! fe_size file;
          files_loop block_start block_end block_length
            (files ++ [(file, FileWindow_new 0 window_length)]) l'
        else files_loop block_start block_end block_length files l'
  end.

(** [files_for_block] *)
Definition files_for_block t (metadata : BlockMetadata) :
    outcome (result (list (FileEntry * FileWindow)) (TorrentError Hasher)) :=
  let i := info (tf_meta_info t) in
  let bad_piece := Err (TE_BadPiece (bm_piece_index metadata)) in
  if bm_piece_index metadata <? Z.of_nat (length (pieces i)) then
    block_end ← bm_block_offset metadata +! bm_block_length metadata;
    if block_end <=? piece_length i then
      piece_start ← piece_length i *! bm_piece_index metadata;
      block_start ← piece_start +! bm_block_offset metadata;
      block_end ← piece_start +! bm_block_offset metadata;
      block_end ← block_end +! bm_block_length metadata;
      files ← files_loop block_start block_end (bm_block_length metadata) []
                (set_iter (tf_files t));
      Ret (Ok files)
    else Ret bad_piece
  else Ret bad_piece.
End TorrentFile.

(** ** Specification *)

Definition sizes_sum (l : list FileEntry) : Z := foldr (fun e acc => fe_size e + acc) 0 l.

(** The files lie one behind the other, and none is beyond 64 bits. *)
Record files_tile (l : list FileEntry) : Prop := {
  tile_offset : forall k e, l !! k = Some e -> fe_offset e = sizes_sum (take k l);
  tile_sizes : Forall (fun e => 0 <= fe_size e) l;
  tile_total : sizes_sum l < 2 ^ 64;
}.

(** The position of a block in the torrent *)
Definition block_start_of (piece_length : Z) (m : BlockMetadata) : Z :=
  piece_length * bm_piece_index m + bm_block_offset m.

(** The block is in a piece of the torrent, and its bytes are within 64 bits. *)
Definition block_in_torrent {Hasher} (t : TorrentFile Hasher) (m : BlockMetadata) : Prop :=
  let i := info (tf_meta_info t) in
  0 <= bm_piece_index m < Z.of_nat (length (pieces i)) /\
  0 <= bm_block_offset m /\ 0 < bm_block_length m /\
  bm_block_offset m + bm_block_length m <= piece_length i /\
  piece_length i * (bm_piece_index m + 1) < 2 ^ 64.

(** The bytes [from, to) of the torrent are in the file. *)
Definition in_file (e : FileEntry) (from to : Z) : Prop :=
  fe_offset e <= from /\ to <= fe_offset e + fe_size e.

(** A block that lies in one file of a torrent; in a build that checks for
    overflow, no file may end before the block starts. *)
Record in_one_file `{Profile} {Hasher} (id : TorrentId) (t : TorrentFile Hasher)
    (m : BlockMetadata) (e : FileEntry) : Prop := {
  of_torrent : tf_torrent (fe_id e) = id;
  of_block : block_in_torrent t m;
  of_tile : files_tile (tf_files t);
  of_entry : e ∈ tf_files t;
  of_inside : let start := block_start_of (piece_length (info (tf_meta_info t))) m in
    in_file e start (start + bm_block_length m);
  of_overflow : let start := block_start_of (piece_length (info (tf_meta_info t))) m in
    overflow_checks = false \/
    forall x, x ∈ tf_files t -> fe_offset x <= start -> start <= fe_offset x + fe_size x;
}.

(** The position of a block in its file *)
Definition block_place {Hasher} (t : TorrentFile Hasher) (m : BlockMetadata) (e : FileEntry) : Z :=
  block_start_of (piece_length (info (tf_meta_info t))) m - fe_offset e.

(** ** Lemmas *)

Lemma sizes_sum_app l1 l2 : sizes_sum (l1 ++ l2) = sizes_sum l1 + sizes_sum l2.
Proof. unfold sizes_sum. induction l1 as [|e l1 IH]; simpl; lia. Qed.

Lemma sizes_sum_nonneg l : Forall (fun e => 0 <= fe_size e) l -> 0 <= sizes_sum l.
Proof. unfold sizes_sum. induction 1; simpl in *; lia. Qed.

(** The files before the [k]-th one end where it starts or earlier. *)
Lemma tile_before l k k' e e' :
  files_tile l -> l !! k = Some e -> l !! k' = Some e' -> (k < k')%nat ->
  fe_offset e + fe_size e <= fe_offset e'.
Proof.
  intros [Ho Hs _] He He' Hk. rewrite (Ho k e He), (Ho k' e' He').
  rewrite <- (firstn_skipn k (take k' l)) at 1. rewrite sizes_sum_app, take_take.
  replace (k `min` k')%nat with k by lia.
  rewrite skipn_firstn_comm. destruct (k' - k)%nat as [|d] eqn:Ed; [lia|].
  rewrite (drop_S l e k He). cbn [take]. unfold sizes_sum. simpl. fold (sizes_sum (take d (drop (S k) l))).
  fold (sizes_sum (take k l)).
  pose proof (sizes_sum_nonneg (take d (drop (S k) l))
    ltac:(by apply Forall_take, Forall_drop)) as Hn. unfold sizes_sum in *. lia.
Qed.

Lemma tile_bounds l e :
  files_tile l -> e ∈ l -> 0 <= fe_offset e /\ 0 <= fe_size e /\ fe_offset e + fe_size e < 2 ^ 64.
Proof.
  intros Ht [k Hk]%list_elem_of_lookup. pose proof Ht as [Ho Hs Htot].
  rewrite (Ho k e Hk). pose proof (sizes_sum_nonneg (take k l) ltac:(by apply Forall_take)) as H1.
  assert (0 <= fe_size e) as H2
    by (rewrite Forall_forall in Hs; by apply Hs, list_elem_of_lookup_2 with k).
  split_and!; [done..|]. eapply Z.le_lt_trans; [|exact Htot].
  rewrite <- (take_drop_middle l k e Hk) at 2. rewrite sizes_sum_app. unfold sizes_sum. simpl.
  pose proof (sizes_sum_nonneg (drop (S k) l) ltac:(by apply Forall_drop)) as H3.
  unfold sizes_sum in H3. lia.
Qed.

(** Bytes are in one file only. *)
Lemma in_file_unique l e e' from to :
  files_tile l -> e ∈ l -> e' ∈ l -> from < to -> in_file e from to -> in_file e' from to -> e = e'.
Proof.
  intros Ht [k Hk]%list_elem_of_lookup [k' Hk']%list_elem_of_lookup Hlt [? ?] [? ?].
  destruct (lt_eq_lt_dec k k') as [[Hkk|Heq]|Hkk].
  - pose proof (tile_before l k k' e e' Ht Hk Hk' Hkk). lia.
  - subst. congruence.
  - pose proof (tile_before l k' k e' e Ht Hk' Hk Hkk). lia.
Qed.

(** An operation that cannot panic: the build wraps, or its result fits. *)
Lemma checked_total `{Profile} w z :
  overflow_checks = false \/ in_range w z -> exists v, checked w z = Ret v.
Proof.
  intros [Ho|Hr]; [|exists z; by apply checked_in_range].
  unfold checked. rewrite Ho. case_match; by eexists.
Qed.

(** The loop finds the file that has the whole block. *)
Lemma files_loop_inside `{Profile} l all acc e from to len :
  files_tile all -> (forall x, x ∈ l -> x ∈ all) -> e ∈ l -> e ∈ all -> in_file e from to ->
  from < to -> to < 2 ^ 64 ->
  (overflow_checks = false \/
   forall x, x ∈ all -> fe_offset x <= from -> from <= fe_offset x + fe_size x) ->
  files_loop from to len acc l = Ret [(e, FileWindow_new (from - fe_offset e) len)].
Proof.
  intros Ht Hsub He Hea Hin Hft Hto Hd. revert acc He.
  induction l as [|x l IH]; intros acc He; [by apply not_elem_of_nil in He|].
  assert (x ∈ all) as Hx by (apply Hsub; left).
  pose proof (tile_bounds all x Ht Hx) as (Hxo & Hxs & Hxt).
  assert (in_range 64 (fe_offset x + fe_size x)) as Hend by (unfold in_range; lia).
  assert (in_range 64 (fe_size x + fe_offset x)) as Hend' by (unfold in_range; lia).
  assert (Hrest : x <> e -> forall acc', files_loop from to len acc' l =
    Ret [(e, FileWindow_new (from - fe_offset e) len)]).
  { intros Hne acc'. apply IH; [intros y Hy; apply Hsub; by right|].
    by apply elem_of_cons in He as [->|He]. }
  cbn [files_loop]. destruct (Z.leb_spec (fe_offset x) from) as [Hle|Hgt].
  - rewrite (checked_in_range _ _ Hend), bind_ret.
    rewrite (checked_in_range 64 (from - fe_offset x)), bind_ret by (unfold in_range; lia).
    destruct (Z.leb_spec to (fe_offset x + fe_size x)).
    + by rewrite (in_file_unique all e x from to).
    + assert (x <> e) as Hne by (intros ->; destruct Hin; lia).
      rewrite !bind_ret.
      destruct (checked_total 64 (fe_offset x + fe_size x - from)) as [v ->].
      { destruct Hd as [?|Hd]; [by left|right]. specialize (Hd x Hx Hle).
        unfold in_range. lia. }
      rewrite bind_ret. by apply Hrest.
  - assert (x <> e) as Hne by (intros ->; destruct Hin; lia).
    rewrite (checked_in_range _ _ Hend'), bind_ret.
    destruct (Z.leb_spec (fe_size x + fe_offset x) to); [|by apply Hrest].
    rewrite (checked_in_range 64 (to - fe_offset x)), bind_ret by (unfold in_range; lia).
    destruct Hin as [Hfo Hfe].
    assert (to - fe_offset x + fe_size x = 0 \/ from < fe_offset x /\ fe_offset x < to) as Hz.
    { lia. }
    assert (to <= fe_offset x) as Hafter.
    { apply list_elem_of_lookup in Hx as [kx Hkx]. apply list_elem_of_lookup in Hea as [ke Hke].
      destruct (lt_eq_lt_dec kx ke) as [[Hk|Hk]|Hk].
      - pose proof (tile_before all kx ke x e Ht Hkx Hke Hk). lia.
      - subst. congruence.
      - pose proof (tile_before all ke kx e x Ht Hke Hkx Hk). lia. }
    rewrite checked_in_range, bind_ret by (unfold in_range; lia). by apply Hrest.
Qed.

(** The positions [files_for_block] computes do not overflow. *)
Lemma files_for_block_eq `{Sha1 Hasher} `{Profile} `{SetOrder FileEntry}
    (t : TorrentFile Hasher) m :
  block_in_torrent t m ->
  let start := block_start_of (piece_length (info (tf_meta_info t))) m in
  files_for_block t m =
  (files ← files_loop start (start + bm_block_length m) (bm_block_length m) []
             (set_iter (tf_files t)); Ret (Ok files)).
Proof.
  intros ([Hp0 Hp] & Ho & Hl & Hlen & Hmax). unfold files_for_block, block_start_of.
  set (P := piece_length (info (tf_meta_info t))) in *. cbv zeta.
  rewrite (proj2 (Z.ltb_lt _ _)) by done.
  assert (P * bm_piece_index m + P < 2 ^ 64) by lia.
  assert (0 <= P * bm_piece_index m) by nia.
  assert (P < 2 ^ 64) by nia.
  rewrite (checked_in_range 64 (bm_block_offset m + bm_block_length m)), bind_ret
    by (unfold in_range; lia).
  rewrite (proj2 (Z.leb_le _ _)) by done.
  rewrite (checked_in_range 64 (P * bm_piece_index m)), bind_ret by (unfold in_range; lia).
  rewrite (checked_in_range 64 (P * bm_piece_index m + bm_block_offset m)), bind_ret
    by (unfold in_range; lia).
  rewrite bind_ret.
  rewrite checked_in_range, bind_ret by (unfold in_range; lia). done.
Qed.

(** The file that has the whole block is found. *)
Lemma in_one_file_place `{Profile} {Hasher} id (t : TorrentFile Hasher) m e :
  in_one_file id t m e -> 0 <= block_place t m e /\ 0 < bm_block_length m.
Proof. intros [_ (_ & _ & ? & _) _ _ [? _] _]. unfold block_place. lia. Qed.

Lemma files_for_block_in `{Sha1 Hasher} `{Profile} `{SetOrder FileEntry} (t : TorrentFile Hasher) m e :
  block_in_torrent t m -> files_tile (tf_files t) -> e ∈ tf_files t ->
  let start := block_start_of (piece_length (info (tf_meta_info t))) m in
  in_file e start (start + bm_block_length m) ->
  (overflow_checks = false \/
   forall x, x ∈ tf_files t -> fe_offset x <= start -> start <= fe_offset x + fe_size x) ->
  files_for_block t m =
  Ret (Ok [(e, FileWindow_new (start - fe_offset e) (bm_block_length m))]).
Proof.
  intros Hb Ht He start Hin Hd. rewrite files_for_block_eq by done. fold start.
  pose proof (tile_bounds _ e Ht He) as (? & ? & ?).
  pose proof Hb as (_ & _ & Hl & _). destruct Hin as [? ?].
  rewrite (files_loop_inside (set_iter (tf_files t)) (tf_files t) [] e); try done.
  - intros x Hx. by rewrite set_iter_perm in Hx.
  - by rewrite set_iter_perm.
  - lia.
  - lia.
Qed.

Lemma files_for_block_one `{Sha1 Hasher} `{Profile} `{SetOrder FileEntry} id
    (t : TorrentFile Hasher) m e :
  in_one_file id t m e ->
  files_for_block t m = Ret (Ok [(e, FileWindow_new (block_place t m e) (bm_block_length m))]).
Proof. intros [_ ? ? ? ? ?]. by apply files_for_block_in. Qed.

Lemma layout_files_spec `{Profile} id root l k off acc :
  Forall (fun f => 0 <= sub_length f) l -> 0 <= off ->
  Z.of_nat (k + length l) < 2 ^ 64 ->
  off + foldr (fun f acc => sub_length f + acc) 0 l < 2 ^ 64 ->
  length acc = k -> sizes_sum acc = off ->
  (forall j e, acc !! j = Some e -> fe_id e = TorrentFileId_new id (Z.of_nat j)) ->
  exists new, layout_files id root (Z.of_nat k) off acc l = Ret (acc ++ new) /\
    length new = length l /\
    forall j e f, new !! j = Some e -> l !! j = Some f ->
      fe_id e = TorrentFileId_new id (Z.of_nat (k + j)) /\ fe_size e = sub_length f /\
      fe_offset e = off + sizes_sum (take j new) /\
      fe_path e = path_join root (relative_file_path f).
Proof.
  intros Hall. revert k off acc. induction Hall as [|f l Hf Hall IH];
    intros k off acc Hoff Hk Htot Hacc Hsum Hids; cbn [layout_files].
  - exists []. rewrite app_nil_r. split_and!; [done..|].
    intros j e f He. by rewrite lookup_nil in He.
  - simpl in Htot, Hk. pose proof (sum_nonneg l Hall) as Hn.
    set (entry := mkFileEntry _ _ _ _).
    assert (set_insert entry acc = acc ++ [entry]) as ->.
    { unfold set_insert. rewrite decide_False; [done|]. intros [j Hj]%list_elem_of_lookup.
      pose proof (lookup_lt_Some _ _ _ Hj). specialize (Hids j entry Hj).
      unfold entry in Hids. simpl in Hids. injection Hids as Hids. lia. }
    rewrite (checked_in_range 64 (Z.of_nat k + 1)), bind_ret by (unfold in_range; lia).
    rewrite (checked_in_range 64 (off + _)), bind_ret by (unfold in_range; lia).
    replace (Z.of_nat k + 1) with (Z.of_nat (S k)) by lia.
    destruct (IH (S k) (off + sub_length f) (acc ++ [entry])) as (new & Hnew & Hlen & Hspec).
    + lia.
    + lia.
    + lia.
    + rewrite length_app. simpl. lia.
    + rewrite sizes_sum_app, Hsum. unfold sizes_sum. simpl. lia.
    + intros j e Hj. apply lookup_app_Some in Hj as [Hj|[Hj He]]; [by apply Hids|].
      apply list_lookup_singleton_Some in He as [Hz <-]. simpl. f_equal. lia.
    + exists (entry :: new). rewrite Hnew, <- app_assoc. split_and!; [done|simpl; lia|].
      intros [|j] e g He Hg; simpl in He, Hg; simplify_eq.
      * simpl. rewrite Nat.add_0_r. split_and!; [done..| |done].
        unfold sizes_sum. simpl. lia.
      * destruct (Hspec j e g He Hg) as (-> & -> & -> & ->). split_and!; [f_equal; lia|done| |done].
        unfold sizes_sum. simpl. unfold sizes_sum. lia.
Qed.

(** ** Properties *)

Section DiskFileProperties.
Context `{Sha1 Hasher} `{Profile} `{SetOrder FileEntry}.
Implicit Types t : TorrentFile Hasher.

(** The files of a torrent are laid out in the order of its metadata, one
    behind the other from offset zero, with their sizes and their positions as
    ids, and together they have the size of the content. *)
Theorem TorrentFile_new_layout id (m : MetaInfo Hasher) :
  TorrentInfo_wf (info m) -> Z.of_nat (length (all_files (info m))) < 2 ^ 64 ->
  exists t, TorrentFile_new id m = Ret t /\ tf_id t = id /\ tf_meta_info t = m /\
    files_tile (tf_files t) /\ sizes_sum (tf_files t) = content_total (content (info m)) /\
    length (tf_files t) = length (all_files (info m)) /\
    forall k e, tf_files t !! k = Some e -> fe_id e = TorrentFileId_new id (Z.of_nat k).
Proof.
  intros (_ & Hpos & [_ Hu] & Hall & _). unfold TorrentFile_new, all_files.
  destruct (content (info m)) as [len|files]; cbn [content_total] in *; intros Hn.
  - rewrite bind_ret. eexists. split; [done|]. cbn [tf_files tf_id tf_meta_info].
    split_and!; try done.
    + split; [|repeat constructor; simpl; lia|unfold sizes_sum; simpl; lia].
      intros k e He%list_lookup_singleton_Some. by destruct He as [-> <-].
    + unfold sizes_sum. simpl. lia.
    + intros k e He%list_lookup_singleton_Some. by destruct He as [-> <-].
  - rewrite length_fmap in Hn.
    destruct (layout_files_spec id (name (info m)) files 0 0 []) as (new & Hnew & Hlen & Hspec);
      try done; try (simpl; lia).
    change (Z.of_nat 0) with 0 in Hnew. rewrite Hnew, bind_ret. simpl.
    eexists. split; [done|]. cbn [tf_files tf_id tf_meta_info].
    assert (Hpair : forall k e, new !! k = Some e -> exists f, files !! k = Some f).
    { intros k e He. apply lookup_lt_is_Some_2. rewrite <- Hlen. by eapply lookup_lt_Some. }
    assert (Hsum : sizes_sum new = foldr (fun f acc => sub_length f + acc) 0 files).
    { clear -Hlen Hspec. assert (forall j e f, new !! j = Some e -> files !! j = Some f ->
        fe_size e = sub_length f) as Hs by (intros j e f He Hf; by apply (Hspec j e f)).
      clear Hspec. revert files Hlen Hs. induction new as [|e new IH]; intros [|f files] Hlen Hs;
        try done. unfold sizes_sum in *. simpl. rewrite (Hs 0%nat e f) by done. f_equal.
      apply IH; [simpl in Hlen; lia|]. intros j. by apply (Hs (S j)). }
    split_and!; try done.
    + split.
      * intros k e He. destruct (Hpair k e He) as [f Hf].
        destruct (Hspec k e f He Hf) as (_ & _ & -> & _). lia.
      * apply Forall_lookup. intros k e He. destruct (Hpair k e He) as [f Hf].
        destruct (Hspec k e f He Hf) as (_ & -> & _). exact (Forall_lookup_1 _ _ _ _ Hall Hf).
      * by rewrite Hsum.
    + by rewrite length_fmap.
    + intros k e He. destruct (Hpair k e He) as [f Hf].
      by destruct (Hspec k e f He Hf) as (-> & _).
Qed.

(** C28: A block that lies in one file is found there, in whatever order the set
    of files is visited: the result is this file, with the window of the block
    in it.  A build with overflow checks needs that no file ends before the
    block. *)
Theorem files_for_block_inside t m e :
  block_in_torrent t m -> files_tile (tf_files t) -> e ∈ tf_files t ->
  let start := block_start_of (piece_length (info (tf_meta_info t))) m in
  in_file e start (start + bm_block_length m) ->
  (overflow_checks = false \/
   forall x, x ∈ tf_files t -> fe_offset x <= start -> start <= fe_offset x + fe_size x) ->
  files_for_block t m =
  Ret (Ok [(e, FileWindow_new (start - fe_offset e) (bm_block_length m))]).
Proof.
  apply files_for_block_in.
Qed.

(** A build with overflow checks panics when the first file that is visited
    ends before the block starts. *)
Theorem files_for_block_panics t m e rest :
  block_in_torrent t m -> files_tile (tf_files t) ->
  set_iter (tf_files t) = e :: rest -> overflow_checks = true ->
  fe_offset e + fe_size e < block_start_of (piece_length (info (tf_meta_info t))) m ->
  files_for_block t m = Panic.
Proof.
  intros Hb Ht Hit Ho Hlt. rewrite files_for_block_eq by done. rewrite Hit.
  assert (e ∈ tf_files t) as He by (rewrite <- set_iter_perm, Hit; left).
  destruct (tile_bounds _ e Ht He) as (? & ? & ?).
  pose proof Hb as ([? ?] & ? & ? & ? & ?).
  set (start := block_start_of _ m) in *. cbn [files_loop].
  assert (start < 2 ^ 64) by (unfold start, block_start_of; lia).
  rewrite (proj2 (Z.leb_le (fe_offset e) start)) by lia.
  rewrite (checked_in_range 64 (fe_offset e + fe_size e)), bind_ret by (unfold in_range; lia).
  rewrite (proj2 (Z.leb_gt (start + bm_block_length m) (fe_offset e + fe_size e))) by lia.
  rewrite (checked_in_range 64 (start - fe_offset e)), bind_ret by (unfold in_range; lia).
  rewrite bind_ret. unfold checked at 1.
  rewrite (proj2 (Z.leb_gt 0 (fe_offset e + fe_size e - start))) by lia. simpl. by rewrite Ho.
Qed.

(** The windows of a block that goes over the border of two files are not
    the parts of the block: the first one is as long as its offset, and the
    second file is left out unless it ends with the block. *)
Theorem files_for_block_overlap t m e1 e2 :
  block_in_torrent t m -> files_tile (tf_files t) ->
  tf_files t = [e1; e2] -> set_iter (tf_files t) = [e1; e2] ->
  let start := block_start_of (piece_length (info (tf_meta_info t))) m in
  let block_end := start + bm_block_length m in
  start < fe_size e1 -> fe_size e1 < block_end -> block_end <= fe_size e1 + fe_size e2 ->
  block_end - fe_size e1 + fe_size e2 < 2 ^ 64 ->
  files_for_block t m =
  Ret (Ok ((e1, FileWindow_new start start) ::
           if block_end =? fe_size e1 + fe_size e2
           then [(e2, FileWindow_new 0 (2 * fe_size e2))] else [])).
Proof.
  intros Hb Ht Hf Hit start block_end Hlt1 Hlt2 Hle3 Hlt4. rewrite files_for_block_eq by done.
  rewrite Hit. fold start. fold block_end.
  assert (e1 ∈ tf_files t) as He1 by (rewrite Hf; left).
  assert (e2 ∈ tf_files t) as He2 by (rewrite Hf; right; left).
  destruct (tile_bounds _ e1 Ht He1) as (? & ? & ?), (tile_bounds _ e2 Ht He2) as (? & ? & ?).
  assert (fe_offset e1 = 0) as Ho1 by (rewrite (tile_offset _ Ht 0 e1) by (by rewrite Hf); done).
  assert (fe_offset e2 = fe_size e1) as Ho2.
  { rewrite (tile_offset _ Ht 1 e2) by (by rewrite Hf). rewrite Hf. unfold sizes_sum. simpl. lia. }
  pose proof Hb as ([? ?] & ? & ? & ? & ?).
  assert (0 <= start) by (unfold start, block_start_of; nia).
  cbn [files_loop]. rewrite Ho1, Ho2, Z.add_0_l.
  rewrite (proj2 (Z.leb_le 0 start)) by lia.
  rewrite (checked_in_range 64 (fe_size e1)), bind_ret by (unfold in_range; lia).
  rewrite (proj2 (Z.leb_gt block_end _)) by lia.
  rewrite Z.sub_0_r, (checked_in_range 64 start), bind_ret by (unfold in_range; lia).
  rewrite bind_ret.
  rewrite (checked_in_range 64 (fe_size e1 - start)), bind_ret by (unfold in_range; lia).
  rewrite (proj2 (Z.leb_gt (fe_size e1) start)) by lia.
  rewrite (checked_in_range 64 (fe_size e2 + fe_size e1)), bind_ret by (unfold in_range; lia).
  destruct (Z.eqb_spec block_end (fe_size e1 + fe_size e2)) as [Heq|Hne].
  - rewrite (proj2 (Z.leb_le _ block_end)) by lia.
    rewrite checked_in_range, bind_ret by (unfold in_range; lia).
    rewrite checked_in_range, bind_ret by (unfold in_range; lia). simpl.
    do 3 f_equal. unfold FileWindow_new. f_equal. f_equal. f_equal. lia.
  - rewrite (proj2 (Z.leb_gt _ block_end)) by lia. done.
Qed.
End DiskFileProperties.

(** ** Witnesses *)

Section DiskFileWitnesses.
#[local] Existing Instance toy_sha1.
#[local] Instance ex_file_order : SetOrder FileEntry := default_set_order FileEntry.

(** A torrent of two files of 40000 bytes in pieces of 32768 bytes *)
Definition ex_meta : MetaInfo (list byte) :=
  {| announce := None; announce_list := []; encoding := None; comment := None;
     created_by := None; creation_date := None; httpseeds := []; webseeds := [];
     info := ex_info; nodes := []; meta_info_hash := [] |}.
Definition ex_file1 : FileEntry :=
  {| fe_path := "dir/a/b"; fe_id := TorrentFileId_new 0 0; fe_offset := 0; fe_size := 40000 |}.
Definition ex_file2 : FileEntry :=
  {| fe_path := "dir/c"; fe_id := TorrentFileId_new 0 1; fe_offset := 40000; fe_size := 40000 |}.
Definition ex_files : TorrentFile (list byte) :=
  {| tf_id := 0; tf_meta_info := ex_meta; tf_files := [ex_file1; ex_file2] |}.

Lemma ex_tile : files_tile [ex_file1; ex_file2].
Proof.
  split; [|repeat constructor; done|done].
  intros [|[|k]] e; simpl; intros [= <-]; done.
Qed.

Lemma ex_block_in_torrent k :
  0 <= k < 3 -> block_in_torrent ex_files (BlockMetadata_new k 0 16384).
Proof. intros Hk. unfold block_in_torrent. simpl. lia. Qed.

Lemma TorrentFile_new_layout_witness :
  exists t, TorrentFile_new (H0 := debug_build) 0 ex_meta = Ret t /\ files_tile (tf_files t).
Proof.
  destruct (TorrentFile_new_layout (H0 := debug_build) 0 ex_meta ex_info_wf ltac:(done))
    as (t & Ht & _ & _ & Htile & _).
  by exists t.
Defined.

Lemma files_for_block_inside_witness :
  files_for_block (H0 := release_build) ex_files (BlockMetadata_new 2 0 10000) =
  Ret (Ok [(ex_file2, FileWindow_new 25536 10000)]).
Proof.
  apply (files_for_block_inside (H0 := release_build) ex_files (BlockMetadata_new 2 0 10000) ex_file2).
  - unfold block_in_torrent. simpl. lia.
  - apply ex_tile.
  - right; left.
  - unfold in_file. simpl. unfold block_start_of. simpl. lia.
  - by left.
Defined.

Lemma files_for_block_panics_witness :
  files_for_block (H0 := debug_build) ex_files (BlockMetadata_new 2 0 16384) = Panic.
Proof.
  apply (files_for_block_panics (H0 := debug_build) ex_files (BlockMetadata_new 2 0 16384)
    ex_file1 [ex_file2]); [by apply ex_block_in_torrent | apply ex_tile | done | done | done].
Defined.

Lemma files_for_block_overlap_witness :
  files_for_block (H0 := debug_build) ex_files (BlockMetadata_new 1 0 16384) =
  Ret (Ok [(ex_file1, FileWindow_new 32768 32768)]).
Proof.
  apply (files_for_block_overlap (H0 := debug_build) ex_files (BlockMetadata_new 1 0 16384)
    ex_file1 ex_file2); [by apply ex_block_in_torrent | apply ex_tile | done..].
Defined.
End DiskFileWitnesses.
