(* ===== verification/BlockIO.v ===== *)
(** * Reading and writing blocks

    [BlockFileRead], [BlockFileWrite], [BlockRead], [BlockWrite] and [BlockJob]
    of src/src/disk/block.rs. *)

From S2P Require Import Prelude Crates DiskFs Util MetaInfo Block DiskError DiskFile.
Local Open Scope Z_scope.

(** ** Data *)

Record BlockFile (File : Type) := mkBlockFile { bf_id : TorrentFileId; bf_inner : File }.
Arguments mkBlockFile {File}.
Arguments bf_id {File}.
Arguments bf_inner {File}.

Inductive BlockState := BS_Seek | BS_Process | BS_Ready.

Definition BlockState_default : BlockState := BS_Seek.

Record BlockFileWrite (File : Type) := mkBlockFileWrite {
  bfw_file : BlockFile File;
  bfw_written : Z;
  bfw_block : list byte;
  bfw_window : FileWindow;
  bfw_state : BlockState;
}.
Arguments mkBlockFileWrite {File}.
Arguments bfw_file {File}.
Arguments bfw_written {File}.
Arguments bfw_block {File}.
Arguments bfw_window {File}.
Arguments bfw_state {File}.

Record BlockFileRead (File : Type) := mkBlockFileRead {
  bfr_file : BlockFile File;
  bfr_block : list byte;
  bfr_window : FileWindow;
  bfr_read : Z;
  bfr_state : BlockState;
}.
Arguments mkBlockFileRead {File}.
Arguments bfr_file {File}.
Arguments bfr_block {File}.
Arguments bfr_window {File}.
Arguments bfr_read {File}.
Arguments bfr_state {File}.

Inductive BlockRead (File : Type) :=
| BR_Single (metadata : BlockMetadata) (block : BlockFileRead File)
| BR_Overlap (torrent : TorrentId) (metadata : BlockMetadata) (blocks : list (BlockFileRead File)).
Arguments BR_Single {File}.
Arguments BR_Overlap {File}.

Inductive BlockWrite (File : Type) :=
| BW_Single (metadata : BlockMetadata) (block : BlockFileWrite File)
| BW_Overlap (torrent : TorrentId) (metadata : BlockMetadata) (blocks : list (BlockFileWrite File)).
Arguments BW_Single {File}.
Arguments BW_Overlap {File}.

Inductive BlockJob (File : Type) :=
| BJ_Read (read : BlockRead File)
| BJ_Write (write : BlockWrite File).
Arguments BJ_Read {File}.
Arguments BJ_Write {File}.

Inductive BlockResult (File : Type) :=
| BRes_Read (torrent : TorrentId) (files : list (BlockFile File))
    (res : result BlockMut BlockMetadata)
| BRes_Write (torrent : TorrentId) (files : list (BlockFile File))
    (res : result Block BlockMetadata).
Arguments BRes_Read {File}.
Arguments BRes_Write {File}.

(** ** Operations *)

Section BlockIO.
Context `{FileSystem Fs File FsError} `{Profile}.
Implicit Types w : BlockFileWrite File.
Implicit Types r : BlockFileRead File.

Definition BlockFile_new (file_id : TorrentFileId) (file : File) : BlockFile File :=
  {| bf_id := file_id; bf_inner := file |}.

(** [BlockFileWrite::new] *)
Definition BlockFileWrite_new (file : BlockFile File) (block : list byte)
    (file_window : FileWindow) : BlockFileWrite File :=
  {| bfw_file := file; bfw_block := block; bfw_window := file_window; bfw_written := 0;
     bfw_state := BlockState_default |}.

(** Assignments to the fields that change *)
Definition bfw_with_handle f w : BlockFileWrite File :=
  mkBlockFileWrite (BlockFile_new (bf_id (bfw_file w)) f) (bfw_written w) (bfw_block w)
    (bfw_window w) (bfw_state w).
Definition bfw_with_written n w : BlockFileWrite File :=
  mkBlockFileWrite (bfw_file w) n (bfw_block w) (bfw_window w) (bfw_state w).
Definition bfw_with_state s w : BlockFileWrite File :=
  mkBlockFileWrite (bfw_file w) (bfw_written w) (bfw_block w) (bfw_window w) s.
Definition bfr_with_handle f r : BlockFileRead File :=
  mkBlockFileRead (BlockFile_new (bf_id (bfr_file r)) f) (bfr_block r) (bfr_window r)
    (bfr_read r) (bfr_state r).
Definition bfr_with_block b r : BlockFileRead File :=
  mkBlockFileRead (bfr_file r) b (bfr_window r) (bfr_read r) (bfr_state r).
Definition bfr_with_read n r : BlockFileRead File :=
  mkBlockFileRead (bfr_file r) (bfr_block r) (bfr_window r) n (bfr_state r).
Definition bfr_with_state s r : BlockFileRead File :=
  mkBlockFileRead (bfr_file r) (bfr_block r) (bfr_window r) (bfr_read r) s.

(** The call of [poll_write_block] in [BlockFileWrite::poll]; [pending] is the
    state after it when it is not ready. *)
Definition write_step (pending : BlockState) (fs : Fs) w :
    outcome (Fs * BlockFileWrite File * poll (result unit FsError)) :=
  buf ← slice (bfw_block w) (Z.to_nat (bfw_written w)) (Z.to_nat (fw_length (bfw_window w)));
  let '(fs, f, p) := poll_write_block fs (bf_inner (bfw_file w)) buf in
  let w := bfw_with_handle f w in
  match p with
  | Ready (Err e) => Ret (fs, w, Ready (Err e))
  | Ready (Ok written) =>
      n ← checked 64 (bfw_written w + written);
      let w := bfw_with_written n w in
      if bfw_written w <? fw_length (bfw_window w) then Ret (fs, w, Pending)
      else Ret (fs, bfw_with_state BS_Ready w, Ready (Ok tt))
  | Pending => Ret (fs, bfw_with_state pending w, Pending)
  end.

(** [BlockFileWrite::poll] *)
Definition BlockFileWrite_poll (fs : Fs) w :
    outcome (Fs * BlockFileWrite File * poll (result unit FsError)) :=
  match bfw_state w with
  | BS_Ready => Ret (fs, w, Ready (Ok tt))
  | BS_Seek =>
      let '(fs, f, p) := poll_seek fs (bf_inner (bfw_file w)) (fw_offset (bfw_window w)) in
      let w := bfw_with_handle f w in
      match p with
      | Ready (Err e) => Ret (fs, w, Ready (Err e))
      | Ready (Ok _) => write_step BS_Process fs w
      | Pending => Ret (fs, w, Pending)
      end
  | BS_Process => write_step BS_Process fs w
  end.

(** [BlockFileRead::new] *)
Definition BlockFileRead_new (file : BlockFile File) (file_window : FileWindow) :
    BlockFileRead File :=
  {| bfr_file := file; bfr_block := []; bfr_window := file_window; bfr_read := 0;
     bfr_state := BlockState_default |}.

(** The call of [poll_read_block] in [BlockFileRead::poll]; the buffer was made
    with the capacity of the window. *)
Definition read_step (pending : BlockState) (fs : Fs) r :
    outcome (Fs * BlockFileRead File * poll (result unit FsError)) :=
  let '(fs, f, block, p) :=
    poll_read_block fs (bf_inner (bfr_file r)) (fw_length (bfr_window r)) (bfr_block r) in
  let r := bfr_with_block block (bfr_with_handle f r) in
  match p with
  | Ready (Ok read) =>
      n ← checked 64 (bfr_read r + read);
      let r := bfr_with_read n r in
      if bfr_read r <? fw_length (bfr_window r) then Ret (fs, r, Pending)
      else Ret (fs, bfr_with_state BS_Ready r, Ready (Ok tt))
  | Ready (Err e) => Ret (fs, r, Ready (Err e))
  | Pending => Ret (fs, bfr_with_state pending r, Pending)
  end.

(** [BlockFileRead::poll]: whether the seek succeeds is not looked at. *)
Definition BlockFileRead_poll (fs : Fs) r :
    outcome (Fs * BlockFileRead File * poll (result unit FsError)) :=
  match bfr_state r with
  | BS_Ready => Ret (fs, r, Ready (Ok tt))
  | BS_Seek =>
      let '(fs, f, p) := poll_seek fs (bf_inner (bfr_file r)) (fw_offset (bfr_window r)) in
      let r := bfr_with_handle f r in
      match p with
      | Ready _ => read_step BS_Process fs r
      | Pending => Ret (fs, r, Pending)
      end
  | BS_Process => read_step BS_Process fs r
  end.

(** The loops of [BlockJob::poll] over the parts of an overlapping block:
    whether no part is pending, an error counting as ready *)
Fixpoint poll_parts {A} (poll_part : Fs -> A -> outcome (Fs * A * poll (result unit FsError)))
    (fs : Fs) (ready : bool) (blocks : list A) : outcome (Fs * list A * bool) :=
  match blocks with
  | [] => Ret (fs, [], ready)
  | block :: blocks' =>
      '(fs, block, p) ← poll_part fs block;
      let ready := if is_pending p then false else ready in
      '(fs, blocks', ready) ← poll_parts poll_part fs ready blocks';
      Ret (fs, block :: blocks', ready)
  end.

(** [BlockJob::poll] *)
Definition BlockJob_poll (fs : Fs) (j : BlockJob File) :
    outcome (Fs * BlockJob File * poll (result unit FsError)) :=
  match j with
  | BJ_Read (BR_Single metadata block) =>
      '(fs, block, p) ← BlockFileRead_poll fs block;
      Ret (fs, BJ_Read (BR_Single metadata block), p)
  | BJ_Read (BR_Overlap torrent metadata blocks) =>
      '(fs, blocks, ready) ← poll_parts BlockFileRead_poll fs true blocks;
      Ret (fs, BJ_Read (BR_Overlap torrent metadata blocks),
           if ready : bool then Ready (Ok tt) else Pending)
  | BJ_Write (BW_Single metadata block) =>
      '(fs, block, p) ← BlockFileWrite_poll fs block;
      Ret (fs, BJ_Write (BW_Single metadata block), p)
  | BJ_Write (BW_Overlap torrent metadata blocks) =>
      '(fs, blocks, ready) ← poll_parts BlockFileWrite_poll fs true blocks;
      Ret (fs, BJ_Write (BW_Overlap torrent metadata blocks),
           if ready : bool then Ready (Ok tt) else Pending)
  end.

(** [!n] of a [usize] *)
Definition usize_not (n : Z) : Z := 2 ^ 64 - 1 - n.

(** The loop of [BlockRead::finalize] over the parts *)
Fixpoint finalize_reads (valid : bool) (block : list byte) (files : list (BlockFile File))
    (blocks : list (BlockFileRead File)) : bool * list byte * list (BlockFile File) :=
  match blocks with
  | [] => (valid, block, files)
  | file :: blocks' =>
      let valid :=
        if negb (usize_not (Z.of_nat (length (bfr_block file))) =? fw_length (bfr_window file))
        then false else valid in
      let files := files ++ [bfr_file file] in
      let block := if valid then block ++ bfr_block file else block in
      finalize_reads valid block files blocks'
  end.

(** [BlockRead::finalize] *)
Definition BlockRead_finalize (b : BlockRead File) : BlockResult File :=
  match b with
  | BR_Single metadata block =>
      let torrent := tf_torrent (bf_id (bfr_file block)) in
      let res :=
        if Z.of_nat (length (bfr_block block)) =? fw_length (bfr_window block)
        then Ok (BlockMut_new metadata (bfr_block block)) else Err metadata in
      BRes_Read torrent [bfr_file block] res
  | BR_Overlap torrent metadata blocks =>
      let '(valid, block, files) := finalize_reads true [] [] blocks in
      let res := if valid : bool then Ok (BlockMut_new metadata block) else Err metadata in
      BRes_Read torrent files res
  end.

(** The loop of [BlockWrite::finalize] over the parts *)
Fixpoint finalize_writes (valid : bool) (block : list byte) (files : list (BlockFile File))
    (blocks : list (BlockFileWrite File)) : bool * list byte * list (BlockFile File) :=
  match blocks with
  | [] => (valid, block, files)
  | file :: blocks' =>
      let valid :=
        if negb (usize_not (bfw_written file) =? Z.of_nat (length (bfw_block file)))
        then false else valid in
      let files := files ++ [bfw_file file] in
      let block := if valid then block ++ bfw_block file else block in
      finalize_writes valid block files blocks'
  end.

(** [BlockWrite::finalize] *)
Definition BlockWrite_finalize (b : BlockWrite File) : BlockResult File :=
  match b with
  | BW_Single metadata block =>
      let torrent := tf_torrent (bf_id (bfw_file block)) in
      let res :=
        if bfw_written block =? fw_length (bfw_window block)
        then Ok (Block_new metadata (bfw_block block)) else Err metadata in
      BRes_Write torrent [bfw_file block] res
  | BW_Overlap torrent metadata blocks =>
      let '(valid, block, files) := finalize_writes true [] [] blocks in
      let res := if valid : bool then Ok (Block_new metadata block) else Err metadata in
      BRes_Write torrent files res
  end.

(** [BlockJob::finalize] *)
Definition BlockJob_finalize (j : BlockJob File) : BlockResult File :=
  match j with
  | BJ_Read read => BlockRead_finalize read
  | BJ_Write write => BlockWrite_finalize write
  end.

Definition BlockJob_is_read (j : BlockJob File) : bool :=
  match j with BJ_Read _ => true | BJ_Write _ => false end.
Definition BlockJob_is_write (j : BlockJob File) : bool :=
  match j with BJ_Read _ => false | BJ_Write _ => true end.
End BlockIO.

(** ** Specification *)

Section BlockIOSpec.
Context `{FileSystem Fs File FsError} `{FileContents Fs File} `{Profile}.
Implicit Types w : BlockFileWrite File.
Implicit Types r : BlockFileRead File.

(** The first [n] bytes of a window of a file *)
Definition window_bytes (fs : Fs) (f : File) (window : FileWindow) (n : Z) : list byte :=
  take (Z.to_nat n) (drop (Z.to_nat (fw_offset window)) (file_data fs f)).

(** Polls of a write, none of which fails.  In one case the write goes wrong,
    which is excluded here: the file system takes a part of the bytes right
    after the seek. *)
Inductive write_polls : Fs -> BlockFileWrite File -> Fs -> BlockFileWrite File -> Prop :=
| write_polls_none fs w : write_polls fs w fs w
| write_polls_poll fs w fs1 w1 p fs2 w2 :
    BlockFileWrite_poll fs w = Ret (fs1, w1, p) ->
    (forall e, p <> Ready (Err e)) ->
    (bfw_state w = BS_Seek -> p = Pending -> bfw_written w1 = 0) ->
    write_polls fs1 w1 fs2 w2 -> write_polls fs w fs2 w2.

Definition write_ok_so_far (fs : Fs) w : Prop :=
  let len := fw_length (bfw_window w) in
  0 <= fw_offset (bfw_window w) /\ len = Z.of_nat (length (bfw_block w)) /\ len < 2 ^ 64 /\
  0 <= bfw_written w <= len /\
  let good := window_bytes fs (bf_inner (bfw_file w)) (bfw_window w) (bfw_written w) =
              take (Z.to_nat (bfw_written w)) (bfw_block w) in
  match bfw_state w with
  | BS_Seek => bfw_written w = 0
  | BS_Process =>
      file_pos fs (bf_inner (bfw_file w)) = fw_offset (bfw_window w) + bfw_written w /\ good
  | BS_Ready => bfw_written w = len /\ good
  end.

(** Polls of a read, with the same case excluded *)
Inductive read_polls : Fs -> BlockFileRead File -> Fs -> BlockFileRead File -> Prop :=
| read_polls_none fs r : read_polls fs r fs r
| read_polls_poll fs r fs1 r1 p fs2 r2 :
    BlockFileRead_poll fs r = Ret (fs1, r1, p) ->
    (forall e, p <> Ready (Err e)) ->
    (bfr_state r = BS_Seek -> p = Pending -> bfr_read r1 = 0) ->
    read_polls fs1 r1 fs2 r2 -> read_polls fs r fs2 r2.

Definition read_ok_so_far (data : list byte) (fs : Fs) r : Prop :=
  0 <= fw_offset (bfr_window r) /\
  file_data fs (bf_inner (bfr_file r)) = data /\
  bfr_read r = Z.of_nat (length (bfr_block r)) /\
  bfr_block r = take (length (bfr_block r)) (drop (Z.to_nat (fw_offset (bfr_window r))) data) /\
  match bfr_state r with
  | BS_Seek => bfr_read r = 0
  | BS_Process => file_pos fs (bf_inner (bfr_file r)) = fw_offset (bfr_window r) + bfr_read r
  | BS_Ready => True
  end.
End BlockIOSpec.

(** ** Lemmas *)

Section BlockIOLemmas.
Context `{FileSystemLaws Fs File FsError} `{Profile}.
Implicit Types w : BlockFileWrite File.
Implicit Types r : BlockFileRead File.

(** The bytes behind those that are written go behind them in the file. *)
Lemma window_bytes_write fs fs' f f' window block n written :
  0 <= fw_offset window -> 0 <= written -> written + n <= Z.of_nat (length block) ->
  0 <= n ->
  window_bytes fs f window written = take (Z.to_nat written) block ->
  file_data fs' f' =
    overwrite (Z.to_nat (fw_offset window + written))
      (take (Z.to_nat n) (drop (Z.to_nat written) block)) (file_data fs f) ->
  window_bytes fs' f' window (written + n) = take (Z.to_nat (written + n)) block.
Proof.
  intros Ho Hw Hn Hn0 Hgood Hd. unfold window_bytes in *. rewrite Hd.
  rewrite !Z2Nat.inj_add by done.
  set (o := Z.to_nat (fw_offset window)) in *. set (k := Z.to_nat written) in *.
  set (j := Z.to_nat n).
  assert (length (take j (drop k block)) = j) as Hj
    by (rewrite length_take, length_drop; unfold j, k; lia).
  assert (length (take k (drop o (file_data fs f))) = k) as Hk
    by (rewrite Hgood, length_take; unfold k; lia).
  replace (k + j)%nat with (k + length (take j (drop k block)))%nat at 1 by lia.
  rewrite overwrite_append by done. rewrite Hgood. apply take_take_drop.
Qed.

(** A write whose handle stands behind what is written *)
Definition write_placed (fs : Fs) w : Prop :=
  let len := fw_length (bfw_window w) in
  0 <= fw_offset (bfw_window w) /\ len = Z.of_nat (length (bfw_block w)) /\ len < 2 ^ 64 /\
  0 <= bfw_written w <= len /\
  file_pos fs (bf_inner (bfw_file w)) = fw_offset (bfw_window w) + bfw_written w /\
  window_bytes fs (bf_inner (bfw_file w)) (bfw_window w) (bfw_written w) =
    take (Z.to_nat (bfw_written w)) (bfw_block w).

Lemma write_step_ok st fs w fs' w' p :
  write_placed fs w -> write_step st fs w = Ret (fs', w', p) -> (forall e, p <> Ready (Err e)) ->
  write_placed fs' w' /\ bfw_window w' = bfw_window w /\ bfw_block w' = bfw_block w /\
  match p with
  | Ready _ => bfw_state w' = BS_Ready /\ bfw_written w' = fw_length (bfw_window w')
  | Pending => bfw_state w' = st \/ bfw_state w' = bfw_state w
  end.
Proof.
  intros (Ho & Hlen & Hmax & Hw & Hpos & Hgood) Hs Hne. unfold write_step in Hs.
  rewrite slice_ok, bind_ret in Hs by lia.
  destruct (poll_write_block fs _ _) as [[fs1 f1] q] eqn:Eq.
  destruct q as [[n|e]|].
  - pose proof Eq as Hq. apply write_ok in Hq as (Hn & Hd & Hp); [|lia].
    rewrite length_take, length_drop in Hn.
    rewrite take_take, Nat.min_l, Hpos in Hd by lia.
    cbn [bfw_written bfw_with_handle] in Hs.
    rewrite checked_in_range, bind_ret in Hs by (unfold in_range; lia).
    assert (forall s0, write_placed fs1 (bfw_with_state s0
      (bfw_with_written (bfw_written w + n) (bfw_with_handle f1 w)))) as Hplaced.
    { intros s0. split_and!; simpl; try done; try lia.
      apply (window_bytes_write fs fs1 (bf_inner (bfw_file w)) f1); done || lia. }
    cbn [bfw_written bfw_with_written bfw_window bfw_with_handle] in Hs.
    destruct (Z.ltb_spec (bfw_written w + n) (fw_length (bfw_window w))).
    + injection Hs as <- <- <-. split; [|split_and!; [done..|by right]].
      exact (Hplaced (bfw_state w)).
    + injection Hs as <- <- <-. split; [apply Hplaced|]. split_and!; try done. simpl. lia.
  - injection Hs as <- <- <-. by destruct (Hne e).
  - injection Hs as <- <- <-. apply write_pending in Eq as [Hd Hp].
    split; [|split_and!; [done..|by left]].
    split_and!; simpl; try done; try lia. unfold window_bytes. by rewrite Hd.
Qed.

Lemma write_poll_ok fs w fs' w' p :
  write_ok_so_far fs w -> BlockFileWrite_poll fs w = Ret (fs', w', p) ->
  (forall e, p <> Ready (Err e)) ->
  (bfw_state w = BS_Seek -> p = Pending -> bfw_written w' = 0) ->
  write_ok_so_far fs' w' /\ bfw_window w' = bfw_window w /\ bfw_block w' = bfw_block w.
Proof.
  intros (Ho & Hlen & Hmax & Hw & Hst) Hp Hne Hpart. cbv zeta in Hst.
  unfold BlockFileWrite_poll in Hp. destruct (bfw_state w) eqn:Es.
  - destruct (poll_seek fs _ _) as [[fs1 f1] q] eqn:Eq. pose proof (seek_data _ _ _ _ _ _ Eq) as Hd.
    destruct q as [[pos|e]|].
    + apply seek_ok in Eq.
      assert (write_placed fs1 (bfw_with_handle f1 w)) as Hplaced.
      { split_and!; simpl; try done; try lia. unfold window_bytes. by rewrite Hst. }
      destruct (write_step_ok _ _ _ _ _ _ Hplaced Hp Hne) as ((? & ? & ? & ? & ? & ?) & Hwin & Hblk & Hend).
      split; [|done]. split_and!; try done; try lia. destruct p as [[]|].
      * destruct Hend as [-> ?]. done.
      * by destruct (Hne e).
      * destruct Hend as [->|Hs]; [done|]. simpl in Hs. rewrite Es in Hs. rewrite Hs.
        by apply Hpart.
    + injection Hp as <- <- <-. by destruct (Hne e).
    + injection Hp as <- <- <-. split; [|done]. unfold write_ok_so_far. simpl. by rewrite Es.
  - destruct Hst as [Hpos Hgood].
    assert (write_placed fs w) as Hplaced by done.
    destruct (write_step_ok _ _ _ _ _ _ Hplaced Hp Hne) as ((? & ? & ? & ? & ? & ?) & Hwin & Hblk & Hend).
    split; [|done]. split_and!; try done; try lia. destruct p as [[]|].
    + destruct Hend as [-> ?]. done.
    + by destruct (Hne e).
    + rewrite Es in Hend. destruct Hend as [->| ->]; done.
  - injection Hp as <- <- <-. split; [|done]. unfold write_ok_so_far. by rewrite Es.
Qed.

Lemma write_polls_ok fs w fs' w' :
  write_polls fs w fs' w' -> write_ok_so_far fs w ->
  write_ok_so_far fs' w' /\ bfw_window w' = bfw_window w /\ bfw_block w' = bfw_block w.
Proof.
  induction 1 as [|fs w fs1 w1 p fs2 w2 Hp Hne Hpart Hr IH]; [done|]. intros Hok.
  destruct (write_poll_ok _ _ _ _ _ Hok Hp Hne Hpart) as (Hok1 & Hw & Hb).
  destruct (IH Hok1) as (? & Hw' & Hb'). split_and!; [done|congruence..].
Qed.

Lemma read_step_ok data st fs r fs' r' p :
  0 <= fw_offset (bfr_window r) -> file_data fs (bf_inner (bfr_file r)) = data ->
  bfr_read r = Z.of_nat (length (bfr_block r)) ->
  bfr_block r = take (length (bfr_block r)) (drop (Z.to_nat (fw_offset (bfr_window r))) data) ->
  file_pos fs (bf_inner (bfr_file r)) = fw_offset (bfr_window r) + bfr_read r ->
  Z.of_nat (length data) < 2 ^ 64 ->
  read_step st fs r = Ret (fs', r', p) -> (forall e, p <> Ready (Err e)) ->
  bfr_window r' = bfr_window r /\ file_data fs' (bf_inner (bfr_file r')) = data /\
  bfr_read r' = Z.of_nat (length (bfr_block r')) /\
  bfr_block r' = take (length (bfr_block r')) (drop (Z.to_nat (fw_offset (bfr_window r))) data) /\
  file_pos fs' (bf_inner (bfr_file r')) = fw_offset (bfr_window r) + bfr_read r' /\
  match p with
  | Ready _ => bfr_state r' = BS_Ready
  | Pending => bfr_state r' = st \/ bfr_state r' = bfr_state r
  end.
Proof.
  intros Ho Hdata Hread Hblk Hpos Hmax Hs Hne. unfold read_step in Hs.
  destruct (poll_read_block fs _ _ _) as [[[fs1 f1] b1] q] eqn:Eq. destruct q as [[n|e]|].
  - apply read_ok in Eq as (Hn & Hd & (d & Hb1 & Hdl & Hdd) & Hp); [|lia].
    rewrite Hdata in Hd, Hdd. rewrite Hpos in Hp, Hdd.
    set (o := Z.to_nat (fw_offset (bfr_window r))) in *.
    assert (d = take (length d) (drop (length (bfr_block r)) (drop o data))) as Hd'.
    { rewrite drop_drop. rewrite Hdd at 1. f_equal; [lia|]. f_equal. unfold o. lia. }
    assert (b1 = take (length b1) (drop o data)) as Hb1'.
    { rewrite Hb1, length_app, <- take_take_drop. congruence. }
    assert (Z.of_nat (length b1) < 2 ^ 64) as Hl1.
    { rewrite Hb1', length_take, length_drop. lia. }
    assert (bfr_read r + n = Z.of_nat (length b1)) as Hrl by (rewrite Hb1, length_app; lia).
    cbn [bfr_read bfr_with_block bfr_with_handle] in Hs.
    rewrite checked_in_range, bind_ret in Hs by (unfold in_range; lia).
    cbn [bfr_read bfr_with_read bfr_window bfr_with_block bfr_with_handle] in Hs.
    destruct (bfr_read r + n <? fw_length (bfr_window r)); injection Hs as <- <- <-;
      split_and!; simpl; try done; try lia. by right.
  - injection Hs as <- <- <-. by destruct (Hne e).
  - injection Hs as <- <- <-. apply read_pending in Eq as (-> & Hd & Hp).
    split_and!; simpl; try done; try congruence. by left.
Qed.

Lemma read_poll_ok data fs r fs' r' p :
  (forall fs f off fs' f' e, poll_seek fs f off <> (fs', f', Ready (Err e))) ->
  Z.of_nat (length data) < 2 ^ 64 ->
  read_ok_so_far data fs r -> BlockFileRead_poll fs r = Ret (fs', r', p) ->
  (forall e, p <> Ready (Err e)) ->
  (bfr_state r = BS_Seek -> p = Pending -> bfr_read r' = 0) ->
  read_ok_so_far data fs' r' /\ bfr_window r' = bfr_window r.
Proof.
  intros Hseek Hmax (Ho & Hdata & Hread & Hblk & Hst) Hp Hne Hpart.
  unfold BlockFileRead_poll in Hp. destruct (bfr_state r) eqn:Es.
  - destruct (poll_seek fs _ _) as [[fs1 f1] q] eqn:Eq. pose proof (seek_data _ _ _ _ _ _ Eq) as Hd.
    destruct q as [[pos|e]|].
    + apply seek_ok in Eq.
      destruct (read_step_ok data BS_Process fs1 (bfr_with_handle f1 r) fs' r' p)
        as (Hwin & ? & ? & ? & ? & Hend); simpl; try done; [congruence|lia|].
      simpl in Hwin. unfold read_ok_so_far. rewrite Hwin. split_and!; try done.
      destruct p as [[]|].
      * by rewrite Hend.
      * by destruct (Hne e).
      * destruct Hend as [->|Hs]; [done|]. simpl in Hs. rewrite Hs, Es. by apply Hpart.
    + by destruct (Hseek _ _ _ _ _ _ Eq).
    + injection Hp as <- <- <-. unfold read_ok_so_far. simpl. rewrite Es.
      split_and!; try done. congruence.
  - destruct (read_step_ok data BS_Process fs r fs' r' p)
      as (Hwin & ? & ? & ? & ? & Hend); try done.
    unfold read_ok_so_far. rewrite Hwin. split_and!; try done. destruct p as [[]|].
    + by rewrite Hend.
    + by destruct (Hne e).
    + rewrite Es in Hend. destruct Hend as [->| ->]; done.
  - injection Hp as <- <- <-. unfold read_ok_so_far. rewrite Es. done.
Qed.

Lemma read_polls_ok data fs r fs' r' :
  (forall fs f off fs' f' e, poll_seek fs f off <> (fs', f', Ready (Err e))) ->
  Z.of_nat (length data) < 2 ^ 64 ->
  read_polls fs r fs' r' -> read_ok_so_far data fs r ->
  read_ok_so_far data fs' r' /\ bfr_window r' = bfr_window r.
Proof.
  intros Hseek Hmax. induction 1 as [|fs r fs1 r1 p fs2 r2 Hp Hne Hpart Hr IH]; [done|]. intros Hok.
  destruct (read_poll_ok data _ _ _ _ _ Hseek Hmax Hok Hp Hne Hpart) as (Hok1 & Hw).
  destruct (IH Hok1) as (? & Hw'). split; [done|congruence].
Qed.
End BlockIOLemmas.

(** *** Overlapping blocks *)

Section OverlapLemmas.
Context {File : Type}.

Lemma finalize_reads_invalid block files (blocks : list (BlockFileRead File)) :
  finalize_reads false block files blocks = (false, block, files ++ (bfr_file <$> blocks)).
Proof.
  revert files. induction blocks as [|b blocks IH]; intros files; simpl;
    [by rewrite app_nil_r|]. destruct (negb _); rewrite IH, <- app_assoc; done.
Qed.

Lemma finalize_writes_invalid block files (blocks : list (BlockFileWrite File)) :
  finalize_writes false block files blocks = (false, block, files ++ (bfw_file <$> blocks)).
Proof.
  revert files. induction blocks as [|b blocks IH]; intros files; simpl;
    [by rewrite app_nil_r|]. destruct (negb _); rewrite IH, <- app_assoc; done.
Qed.

(** The bitwise complement of a length is no length. *)
Lemma usize_not_large a b : 0 <= a < 2 ^ 63 -> 0 <= b < 2 ^ 63 -> (usize_not a =? b) = false.
Proof. intros Ha Hb. apply Z.eqb_neq. unfold usize_not. lia. Qed.
End OverlapLemmas.

(** ** Properties *)

Section BlockIOProperties.
Context `{FileSystemLaws Fs File FsError} `{Profile}.

(** C29: When a block has been written to its window of a file, the file has the
    block there and the job gives the block back, as long as the file system
    never took a part of the bytes right after the seek. *)
Theorem write_block_ok fs (file : BlockFile File) block window fs' w' metadata :
  0 <= fw_offset window -> fw_length window = Z.of_nat (length block) ->
  fw_length window < 2 ^ 64 ->
  write_polls fs (BlockFileWrite_new file block window) fs' w' -> bfw_state w' = BS_Ready ->
  window_bytes fs' (bf_inner (bfw_file w')) window (fw_length window) = block /\
  exists torrent files,
    BlockWrite_finalize (BW_Single metadata w') =
    BRes_Write torrent files (Ok (Block_new metadata block)).
Proof.
  intros Ho Hl Hmax Hr Hs. apply write_polls_ok in Hr as ((_ & _ & _ & _ & Hst) & Hw & Hb).
  - cbv zeta in Hst. rewrite Hs, Hw, Hb in Hst. simpl in Hst. destruct Hst as [Hwr Hgood]. split.
    + rewrite <- Hwr, Hgood, take_ge by lia. done.
    + simpl. rewrite Hw, Hb. simpl. rewrite Hwr, Z.eqb_refl. by eexists _, _.
  - split_and!; simpl; try done; lia.
Qed.

(** When the file system takes a part of the bytes right after the seek, the
    rest goes to the start of the window: the file begins with the rest of the
    block there, although the job reports the block as written. *)
Theorem partial_write_corrupts fs (file : BlockFile File) block window fs1 w1 fs2 w2 metadata :
  0 <= fw_offset window -> fw_length window = Z.of_nat (length block) ->
  fw_length window < 2 ^ 63 ->
  BlockFileWrite_poll fs (BlockFileWrite_new file block window) = Ret (fs1, w1, Pending) ->
  0 < bfw_written w1 -> BlockFileWrite_poll fs1 w1 = Ret (fs2, w2, Ready (Ok tt)) ->
  window_bytes fs2 (bf_inner (bfw_file w2)) window (fw_length window - bfw_written w1) =
    drop (Z.to_nat (bfw_written w1)) block /\
  exists torrent files,
    BlockWrite_finalize (BW_Single metadata w2) =
    BRes_Write torrent files (Ok (Block_new metadata block)).
Proof.
  intros Ho Hl Hmax Hp1 Hpos Hp2.
  unfold BlockFileWrite_poll in Hp1. cbn [bfw_state BlockFileWrite_new BlockState_default] in Hp1.
  destruct (poll_seek fs _ _) as [[fsa fa] [[posa|e]|]]; [|done|by injection Hp1 as <- <-].
  unfold write_step in Hp1. cbn in Hp1. rewrite slice_ok, bind_ret in Hp1 by lia.
  destruct (poll_write_block fsa _ _) as [[fsb fb] [[n|e]|]]; [|done|by injection Hp1 as <- <-].
  inv_bind Hp1. cbn in Hp1.
  destruct (Z.ltb_spec a (fw_length window)) as [Halt|]; [|done]. injection Hp1 as <- <-.
  simpl in Hpos. unfold BlockFileWrite_poll in Hp2. cbn in Hp2.
  destruct (poll_seek fsb fb _) as [[fsc fc] [[posc|e]|]] eqn:Esk; try discriminate Hp2.
  apply seek_ok in Esk.
  unfold write_step in Hp2. cbn in Hp2. rewrite slice_ok, bind_ret in Hp2 by lia.
  destruct (poll_write_block fsc fc _) as [[fsd fd] [[k|e]|]] eqn:Ewr; try discriminate Hp2.
  apply write_ok in Ewr as (Hk & Hd & _); [|lia]. rewrite length_take, length_drop in Hk.
  rewrite checked_in_range, bind_ret in Hp2 by (unfold in_range; lia). cbn in Hp2.
  destruct (Z.ltb_spec (a + k) (fw_length window)); [discriminate Hp2|].
  injection Hp2 as <- <-. assert (k = fw_length window - a) as -> by lia.
  rewrite take_take, Nat.min_l, Esk in Hd by lia. simpl. split.
  - unfold window_bytes. rewrite Hd.
    assert (take (Z.to_nat (fw_length window - a)) (drop (Z.to_nat a) block) =
      drop (Z.to_nat a) block) as -> by (apply take_ge; rewrite length_drop; lia).
    replace (Z.to_nat (fw_length window - a)) with (length (drop (Z.to_nat a) block))
      by (rewrite length_drop; lia). apply overwrite_at.
  - rewrite Zplus_minus, Z.eqb_refl. by eexists _, _.
Qed.

(** C30: A block that is read from a window of a file is what the file has there,
    as long as seeks do not fail and the file system never gave a part of the
    bytes right after the seek. *)
Theorem read_block_ok fs (file : BlockFile File) window fs' r' metadata torrent files block :
  (forall fs f off fs' f' e, poll_seek fs f off <> (fs', f', Ready (Err e))) ->
  Z.of_nat (length (file_data fs (bf_inner file))) < 2 ^ 64 -> 0 <= fw_offset window ->
  read_polls fs (BlockFileRead_new file window) fs' r' ->
  BlockRead_finalize (BR_Single metadata r') = BRes_Read torrent files (Ok block) ->
  block = BlockMut_new metadata
            (window_bytes fs (bf_inner file) window (fw_length window)) /\
  file_data fs' (bf_inner (bfr_file r')) = file_data fs (bf_inner file).
Proof.
  intros Hseek Hmax Ho Hr Hfin.
  apply (read_polls_ok (file_data fs (bf_inner file))) in Hr as ((_ & Hd & _ & Hb & _) & Hw);
    [|done|done|by split_and!].
  split; [|done]. simpl in Hfin. rewrite Hw in Hfin. cbn [bfr_window BlockFileRead_new] in Hfin.
  destruct (Z.eqb_spec (Z.of_nat (length (bfr_block r'))) (fw_length window)) as [Hl|]; [|done].
  injection Hfin as _ _ <-. f_equal. unfold window_bytes. rewrite <- Hl, Nat2Z.id.
  rewrite Hb at 1. by rewrite Hw.
Qed.
End BlockIOProperties.

Section OverlapProperties.
Context {File : Type}.

(** A block that is spread over files is never read or written as far as the
    caller can tell: whatever the parts are, the result is the error, because
    the check of the lengths compares with a bitwise complement. *)
Theorem overlap_always_fails torrent metadata (reads : list (BlockFileRead File))
    (writes : list (BlockFileWrite File)) :
  reads <> [] -> writes <> [] ->
  Forall (fun r => Z.of_nat (length (bfr_block r)) < 2 ^ 63 /\
                   0 <= fw_length (bfr_window r) < 2 ^ 63) reads ->
  Forall (fun w => 0 <= bfw_written w < 2 ^ 63 /\
                   Z.of_nat (length (bfw_block w)) < 2 ^ 63) writes ->
  BlockRead_finalize (BR_Overlap torrent metadata reads) =
    BRes_Read torrent (bfr_file <$> reads) (Err metadata) /\
  BlockWrite_finalize (BW_Overlap torrent metadata writes) =
    BRes_Write torrent (bfw_file <$> writes) (Err metadata).
Proof.
  intros Hr Hw Hrs Hws. split.
  - destruct Hrs as [|r reads [? ?] _]; [done|]. simpl.
    rewrite usize_not_large by lia. simpl. by rewrite finalize_reads_invalid.
  - destruct Hws as [|w writes [? ?] _]; [done|]. simpl.
    rewrite usize_not_large by lia. simpl. by rewrite finalize_writes_invalid.
Qed.
End OverlapProperties.

(** ** Witnesses *)

Section BlockIOWitnesses.
#[local] Existing Instances memory_contents debug_build.

Definition ex_block_file : BlockFile Z := BlockFile_new (TorrentFileId_new 0 0) 0.
Definition ex_data : list byte := byte_of_Z <$> [1; 2; 3; 4; 5].
Definition ex_window : FileWindow := FileWindow_new 2 5.

(** A file system that takes all bytes at once, and one that takes three *)
Definition ex_poll_write (limit : nat) (fs : list byte) (w : BlockFileWrite Z) :
    list byte * BlockFileWrite Z :=
  match BlockFileWrite_poll (H := memory_fs limit) fs w with
  | Ret (fs, w, _) => (fs, w)
  | Panic => (fs, w)
  end.
Definition ex_write1 (limit : nat) : list byte * BlockFileWrite Z :=
  ex_poll_write limit [] (BlockFileWrite_new ex_block_file ex_data ex_window).
Definition ex_write2 (limit : nat) : list byte * BlockFileWrite Z :=
  ex_poll_write limit (ex_write1 limit).1 (ex_write1 limit).2.

Lemma write_block_ok_witness :
  window_bytes (ex_write1 9).1 (bf_inner (bfw_file (ex_write1 9).2)) ex_window 5 = ex_data.
Proof.
  refine (proj1 (write_block_ok (H1 := memory_fs_laws 9) [] ex_block_file ex_data ex_window
    (ex_write1 9).1 (ex_write1 9).2 BlockMetadata_default _ _ _ _ _)); [done..| |done].
  eapply write_polls_poll; [by vm_compute|done|done|apply write_polls_none].
Defined.

Lemma partial_write_corrupts_witness :
  window_bytes (ex_write2 3).1 (bf_inner (bfw_file (ex_write2 3).2)) ex_window (5 - 3) =
  byte_of_Z <$> [4; 5].
Proof.
  refine (proj1 (partial_write_corrupts (H1 := memory_fs_laws 3) [] ex_block_file ex_data
    ex_window (ex_write1 3).1 (ex_write1 3).2 (ex_write2 3).1 (ex_write2 3).2
    BlockMetadata_default _ _ _ _ _ _)); by vm_compute.
Defined.

Definition ex_file_bytes : list byte := byte_of_Z <$> [9; 8; 1; 2; 3; 4; 5; 7].
Definition ex_read1 : list byte * BlockFileRead Z :=
  match BlockFileRead_poll (H := memory_fs 5) ex_file_bytes
          (BlockFileRead_new ex_block_file ex_window) with
  | Ret (fs, r, _) => (fs, r)
  | Panic => ([], BlockFileRead_new ex_block_file ex_window)
  end.

Lemma read_block_ok_witness :
  BlockMut_new BlockMetadata_default ex_data =
  BlockMut_new BlockMetadata_default (window_bytes ex_file_bytes 0 ex_window 5).
Proof.
  refine (proj1 (read_block_ok (H1 := memory_fs_laws 5) ex_file_bytes ex_block_file ex_window
    ex_read1.1 ex_read1.2 BlockMetadata_default 0 [BlockFile_new (TorrentFileId_new 0 0) 7]
    (BlockMut_new BlockMetadata_default ex_data) _ _ _ _ _)); try by vm_compute.
  eapply read_polls_poll; [by vm_compute|done|done|apply read_polls_none].
Defined.

Lemma overlap_always_fails_witness :
  BlockRead_finalize (BR_Overlap 0 BlockMetadata_default [ex_read1.2; ex_read1.2]) =
  BRes_Read 0 [bfr_file ex_read1.2; bfr_file ex_read1.2] (Err BlockMetadata_default).
Proof.
  refine (proj1 (overlap_always_fails 0 BlockMetadata_default [ex_read1.2; ex_read1.2]
    [(ex_write1 9).2] _ _ _ _)); [done|done| |];
    (repeat constructor); by vm_compute.
Defined.
End BlockIOWitnesses.
