(* ===== verification/DiskManager.v ===== *)
(** * The disk manager

    [DiskManager] of src/src/disk/manager.rs: the torrents it stores, the cache
    of open files, the queue of requests and the jobs that read and write
    blocks, and its [poll]. *)

From S2P Require Import Prelude Crates DiskFs Util MetaInfo Block DiskError Peer PieceBuffer Events.
From S2P Require Import DiskFile BlockIO.
Local Open Scope Z_scope.
Local Open Scope rust_scope.

(** ** Data *)

Inductive FileState (File : Type) :=
| FS_Queued (file : File) (window : FileWindow)
| FS_Ready (file : File)
| FS_Busy (window : FileWindow).
Arguments FS_Queued {File}.
Arguments FS_Ready {File}.
Arguments FS_Busy {File}.

(** [torrents] is a [HashSet<TorrentFile>] that hashes and looks up by id, and
    [insert] follows a failed lookup only: a map from ids. *)
Record DiskManager (Hasher Fs File C : Type) := mkDiskManager {
  active_blocks : list (BlockJob File);
  file_cache : C;
  dm_torrents : gmap TorrentId (TorrentFile Hasher);
  file_system : Fs;
  queued_events : list (DiskMessageIn Hasher);
}.
Arguments mkDiskManager {Hasher Fs File C}.
Arguments active_blocks {Hasher Fs File C}.
Arguments file_cache {Hasher Fs File C}.
Arguments dm_torrents {Hasher Fs File C}.
Arguments file_system {Hasher Fs File C}.
Arguments queued_events {Hasher Fs File C}.

(** ** Operations *)

Section DiskManager.
Context `{Sha1 Hasher} `{FileSystem Fs File FsError}.
Context `{LruCache TorrentFileId (FileState File) C} `{Profile} `{SetOrder FileEntry}.
Implicit Types dm : DiskManager Hasher Fs File C.

(** Assignments to the fields *)
Definition dm_with_active l dm : DiskManager Hasher Fs File C :=
  mkDiskManager l (file_cache dm) (dm_torrents dm) (file_system dm) (queued_events dm).
Definition dm_with_cache c dm : DiskManager Hasher Fs File C :=
  mkDiskManager (active_blocks dm) c (dm_torrents dm) (file_system dm) (queued_events dm).
Definition dm_with_torrents ts dm : DiskManager Hasher Fs File C :=
  mkDiskManager (active_blocks dm) (file_cache dm) ts (file_system dm) (queued_events dm).
Definition dm_with_fs fs dm : DiskManager Hasher Fs File C :=
  mkDiskManager (active_blocks dm) (file_cache dm) (dm_torrents dm) fs (queued_events dm).
Definition dm_with_queue q dm : DiskManager Hasher Fs File C :=
  mkDiskManager (active_blocks dm) (file_cache dm) (dm_torrents dm) (file_system dm) q.

(** [self.queued_events.push_back(msg)] *)
Definition dm_push_event (msg : DiskMessageIn Hasher) dm : DiskManager Hasher Fs File C :=
  dm_with_queue (queued_events dm ++ [msg]) dm.

(** [DiskManager::with_capacity] *)
Definition DiskManager_with_capacity (fs : Fs) (capacity : Z) : DiskManager Hasher Fs File C :=
  {| active_blocks := []; file_cache := lru_new capacity; dm_torrents := ∅;
     file_system := fs; queued_events := [] |}.

(** [write_block] *)
Definition dm_write_block (torrent_id : TorrentId) (block : Block) dm :
    DiskManager Hasher Fs File C :=
  dm_push_event (DI_WriteBlock torrent_id block) dm.

(** [read_block] *)
Definition dm_read_block (torrent_id : TorrentId) (metadata : BlockMetadata) dm :
    DiskManager Hasher Fs File C :=
  dm_push_event (DI_ReadBlock torrent_id metadata) dm.

(** [remove_torrent] *)
Definition dm_remove_torrent (id : TorrentId) dm :
    DiskManager Hasher Fs File C * DiskMessageOut Hasher :=
  match dm_torrents dm !! id with
  | Some file =>
      (dm_with_torrents (delete id (dm_torrents dm)) dm,
       DO_TorrentRemoved id (tf_meta_info file))
  | None => (dm, DO_TorrentError id (TE_TorrentNotFound id))
  end.

(** [move_torrent] does nothing. *)
Definition dm_move_torrent (id : TorrentId) (dir : PathBuf) dm : DiskManager Hasher Fs File C :=
  dm.

(** [add_torrent] *)
Definition dm_add_torrent (id : TorrentId) (meta : MetaInfo Hasher) dm :
    DiskManager Hasher Fs File C :=
  dm_push_event (DI_AddTorrent id meta) dm.

(** [sync_torrent] *)
Definition dm_sync_torrent (id : TorrentId) dm : DiskManager Hasher Fs File C :=
  dm_push_event (DI_SyncTorrent id) dm.

(** [get_torrent_files] *)
Definition get_torrent_files (id : TorrentId) dm : option (list FileEntry) :=
  tf_files <$> dm_torrents dm !! id.

(** The loop of [poll_files] over the files of the block: the handles that were
    found or opened, and whether all of them are ready *)
Fixpoint acquire_files (fs : Fs) (cache : C) (queued : list (TorrentFileId * File * FileWindow))
    (all_ready : bool) (l : list (FileEntry * FileWindow)) :
    Fs * C * result (list (TorrentFileId * File * FileWindow) * bool) (TorrentError Hasher) :=
  match l with
  | [] => (fs, cache, Ok (queued, all_ready))
  | (file, window) :: l' =>
      let '(cache, state) := lru_remove cache (fe_id file) in
      match state with
      | Some (FS_Ready fs_file) =>
          acquire_files fs cache (queued ++ [(fe_id file, fs_file, window)]) all_ready l'
      | Some (FS_Queued fs_file queued_window) =>
          let all_ready :=
            if negb (bool_decide (window = queued_window)) then false else all_ready in
          acquire_files fs cache (queued ++ [(fe_id file, fs_file, window)]) all_ready l'
      | Some (FS_Busy piece) =>
          acquire_files fs (lru_insert cache (fe_id file) (FS_Busy piece)) queued false l'
      | None =>
          (** file not available yet *)
          match poll_open_file fs (fe_path file) with
          | (fs, Ready (Ok fs_file)) =>
              acquire_files fs cache (queued ++ [(fe_id file, fs_file, window)]) all_ready l'
          | (fs, Ready (Err _)) =>
              (fs, cache, Err (TE_Io (io_Error Other "Failed to open file.")))
          | (fs, Pending) => (fs, cache, Ok (queued, false))
          end
      end
  end.

(** [poll_files] *)
Definition poll_files (id : TorrentId) (meta : BlockMetadata) dm :
    outcome (DiskManager Hasher Fs File C *
             poll (result (list (FileWindow * BlockFile File)) (TorrentError Hasher))) :=
  match dm_torrents dm !! id with
  | None => Ret (dm, Ready (Err (TE_TorrentNotFound id)))
  | Some torrent =>
      res ← files_for_block torrent meta;
      match res with
      | Err e => Ret (dm, Ready (Err e))
      | Ok [] => Panic
      | Ok files =>
          let '(fs, cache, res) := acquire_files (file_system dm) (file_cache dm) [] true files in
          let dm := dm_with_fs fs (dm_with_cache cache dm) in
          match res with
          | Err e => Ret (dm, Ready (Err e))
          | Ok (queued_files, true) =>
              let blocks :=
                (fun '(id, file, window) => (window, BlockFile_new id file)) <$> queued_files in
              let cache :=
                foldl (fun c '(id, _, window) => lru_insert c id (FS_Busy window))
                  (file_cache dm) queued_files in
              Ret (dm_with_cache cache dm, Ready (Ok blocks))
          | Ok (queued_files, false) =>
              let cache :=
                foldl (fun c '(id, file, window) => lru_insert c id (FS_Queued file window))
                  (file_cache dm) queued_files in
              Ret (dm_with_cache cache dm, Pending)
          end
      end
  end.

(** [is_good_piece] *)
Definition dm_is_good_piece (id : TorrentId) (block : Block) dm : bool :=
  match dm_torrents dm !! id with
  | Some torrent => TorrentFile_is_good_piece torrent block
  | None => false
  end.

(** The loop of [poll_create_block_write] that cuts the block into fragments *)
Fixpoint write_fragments (block : list byte) (fragment_offset : Z)
    (files : list (FileWindow * BlockFile File)) : outcome (list (BlockFileWrite File)) :=
  match files with
  | [] => Ret []
  | (window, file) :: files' =>
      fragment ← slice block (Z.to_nat fragment_offset) (Z.to_nat (fw_length window));
      fragment_offset ← fragment_offset +! fw_length window;
      blocks ← write_fragments block fragment_offset files';
      Ret (BlockFileWrite_new file fragment window :: blocks)
  end.

(** [poll_create_block_write] *)
Definition poll_create_block_write (id : TorrentId) (block : Block) dm :
    outcome (DiskManager Hasher Fs File C * poll (result (BlockJob File) (TorrentError Hasher))) :=
  let metadata := block_metadata block in
  if negb (dm_is_good_piece id block dm) then
    Ret (dm, Ready (Err (TE_BadPiece (bm_piece_index metadata))))
  else
    '(dm, p) ← poll_files id metadata dm;
    match p with
    | Ready (Ok [(window, file)]) =>
        Ret (dm, Ready (Ok (BJ_Write (BW_Single metadata
          (BlockFileWrite_new file (Block_into_bytes block) window)))))
    | Ready (Ok files) =>
        blocks ← write_fragments (block_data block) 0 files;
        Ret (dm, Ready (Ok (BJ_Write (BW_Overlap id metadata blocks))))
    | Ready (Err err) => Ret (dm, Ready (Err err))
    | Pending => Ret (dm_push_event (DI_WriteBlock id block) dm, Pending)
    end.

(** [poll_create_block_read] *)
Definition poll_create_block_read (id : TorrentId) (meta : BlockMetadata) dm :
    outcome (DiskManager Hasher Fs File C * poll (result (BlockJob File) (TorrentError Hasher))) :=
  '(dm, p) ← poll_files id meta dm;
  match p with
  | Ready (Ok [(window, file)]) =>
      Ret (dm, Ready (Ok (BJ_Read (BR_Single meta (BlockFileRead_new file window)))))
  | Ready (Ok files) =>
      let blocks := (fun '(window, file) => BlockFileRead_new file window) <$> files in
      Ret (dm, Ready (Ok (BJ_Read (BR_Overlap id meta blocks))))
  | Ready (Err err) => Ret (dm, Ready (Err err))
  | Pending => Ret (dm_push_event (DI_ReadBlock id meta) dm, Pending)
  end.

(** The handles go back into the cache. *)
Definition cache_files (files : list (BlockFile File)) (cache : C) : C :=
  foldl (fun c file => lru_insert c (bf_id file) (FS_Ready (bf_inner file))) cache files.

(** [finalize_block] *)
Definition finalize_block (block : BlockJob File) dm :
    DiskManager Hasher Fs File C * DiskMessageOut Hasher :=
  match BlockJob_finalize block with
  | BRes_Read torrent files res =>
      (dm_with_cache (cache_files files (file_cache dm)) dm,
       match res with
       | Ok block => DO_BlockRead torrent block
       | Err meta => DO_ReadBlockError torrent (TE_BadBlock meta)
       end)
  | BRes_Write torrent files res =>
      (dm_with_cache (cache_files files (file_cache dm)) dm,
       match res with
       | Ok block => DO_PieceWritten torrent block
       | Err metadata => DO_WriteBlockError torrent (TE_BadPiece (bm_piece_index metadata))
       end)
  end.

(** The first loop of [poll], from the [n]-th job down: a job is taken out,
    polled, and put back at the end when it is not ready. *)
Fixpoint poll_active (n : nat) dm :
    outcome (DiskManager Hasher Fs File C * option (DiskMessageOut Hasher)) :=
  match n with
  | O => Ret (dm, None)
  | S i =>
      '(block, rest) ← unwrap (swap_remove i (active_blocks dm));
      '(fs, block, p) ← BlockJob_poll (file_system dm) block;
      let dm := dm_with_fs fs (dm_with_active rest dm) in
      if is_pending p then poll_active i (dm_with_active (rest ++ [block]) dm)
      else let '(dm, msg) := finalize_block block dm in Ret (dm, Some msg)
  end.

(** The second loop of [poll], which takes one request after the other from the
    queue [q]: the value [poll] returns, or none when the queue is empty.  A
    request goes back into the queue only when [poll] returns. *)
Fixpoint poll_queue (q : list (DiskMessageIn Hasher)) dm :
    outcome (DiskManager Hasher Fs File C * option (poll (result (DiskMessageOut Hasher) FsError))) :=
  match q with
  | [] => Ret (dm, None)
  | msg :: q' =>
      let dm := dm_with_queue q' dm in
      match msg with
      | DI_AddTorrent id meta =>
          if decide (is_Some (dm_torrents dm !! id)) then
            Ret (dm, Some (Ready (Ok (DO_TorrentError id (TE_ExistingTorrent meta)))))
          else
            t ← TorrentFile_new id meta;
            Ret (dm_with_torrents (<[id := t]> (dm_torrents dm)) dm,
                 Some (Ready (Ok (DO_TorrentAdded id))))
      | DI_RemoveTorrent id =>
          let '(dm, msg) := dm_remove_torrent id dm in Ret (dm, Some (Ready (Ok msg)))
      | DI_SyncTorrent id => poll_queue q' dm
      | DI_ReadBlock id metadata =>
          '(dm, p) ← poll_create_block_read id metadata dm;
          match p with
          | Ready (Ok block) => poll_queue q' (dm_with_active (active_blocks dm ++ [block]) dm)
          | Ready (Err err) => Ret (dm, Some (Ready (Ok (DO_ReadBlockError id err))))
          | Pending => Ret (dm, Some Pending)
          end
      | DI_WriteBlock id block =>
          '(dm, p) ← poll_create_block_write id block dm;
          match p with
          | Ready (Ok block) => poll_queue q' (dm_with_active (active_blocks dm ++ [block]) dm)
          | Ready (Err err) => Ret (dm, Some (Ready (Ok (DO_WriteBlockError id err))))
          | Pending => Ret (dm, Some Pending)
          end
      | DI_MoveTorrent id dir => poll_queue q' (dm_move_torrent id dir dm)
      end
  end.

(** [poll]: none when [fuel] rounds of the outer loop are not enough *)
Fixpoint DiskManager_poll (fuel : nat) dm :
    outcome (option (DiskManager Hasher Fs File C *
                     poll (result (DiskMessageOut Hasher) FsError))) :=
  match fuel with
  | O => Ret None
  | S fuel =>
      '(dm, r) ← poll_active (length (active_blocks dm)) dm;
      match r with
      | Some msg => Ret (Some (dm, Ready (Ok msg)))
      | None =>
          '(dm, r) ← poll_queue (queued_events dm) dm;
          match r with
          | Some p => Ret (Some (dm, p))
          | None =>
              if bool_decide (length (active_blocks dm) = 0%nat) then Ret (Some (dm, Pending))
              else DiskManager_poll fuel dm
          end
      end
  end.
End DiskManager.

(** ** Specification *)

Section DiskManagerSpec.
Context `{Sha1 Hasher} `{FileSystem Fs File FsError}.
Context `{LruCache TorrentFileId (FileState File) C} `{Profile} `{SetOrder FileEntry}.
Implicit Types dm : DiskManager Hasher Fs File C.

(** The runs of the disk manager, with the torrents it was told to add.  The
    length of a buffer is at most [isize::MAX]. *)
Inductive dm_reach (fs : Fs) (capacity : Z) :
    list (TorrentId * MetaInfo Hasher) -> DiskManager Hasher Fs File C -> Prop :=
| reach_new : dm_reach fs capacity [] (DiskManager_with_capacity fs capacity)
| reach_add added dm id meta :
    dm_reach fs capacity added dm ->
    dm_reach fs capacity ((id, meta) :: added) (dm_add_torrent id meta dm)
| reach_write added dm id block :
    dm_reach fs capacity added dm -> Z.of_nat (length (block_data block)) < 2 ^ 63 ->
    dm_reach fs capacity added (dm_write_block id block dm)
| reach_read added dm id meta :
    dm_reach fs capacity added dm -> dm_reach fs capacity added (dm_read_block id meta dm)
| reach_sync added dm id :
    dm_reach fs capacity added dm -> dm_reach fs capacity added (dm_sync_torrent id dm)
| reach_remove added dm id :
    dm_reach fs capacity added dm -> dm_reach fs capacity added (dm_remove_torrent id dm).1
| reach_poll added dm fuel dm' r :
    dm_reach fs capacity added dm -> DiskManager_poll fuel dm = Ret (Some (dm', r)) ->
    dm_reach fs capacity added dm'.

(** The metadata of an added torrent lists the hash of the block's bytes as
    the hash of its piece. *)
Definition verified (added : list (TorrentId * MetaInfo Hasher)) (id : TorrentId)
    (index : Z) (data : list byte) : Prop :=
  exists meta, (id, meta) ∈ added /\
    pieces (info meta) !! Z.to_nat index = Some (ShaHash_from_bytes data).

(** What holds for every job: a block for one file is verified, and no part of
    a block for several files counts more bytes than it has. *)
Definition part_ok (w : BlockFileWrite File) : Prop :=
  0 <= bfw_written w <= Z.of_nat (length (bfw_block w)) /\
  Z.of_nat (length (bfw_block w)) < 2 ^ 63.

Definition job_ok (added : list (TorrentId * MetaInfo Hasher)) (j : BlockJob File) : Prop :=
  match j with
  | BJ_Read _ => True
  | BJ_Write (BW_Single m w) =>
      verified added (tf_torrent (bf_id (bfw_file w))) (bm_piece_index m) (bfw_block w)
  | BJ_Write (BW_Overlap _ _ parts) => parts <> [] /\ Forall part_ok parts
  end.

Definition event_ok (added : list (TorrentId * MetaInfo Hasher))
    (msg : DiskMessageIn Hasher) : Prop :=
  match msg with
  | DI_AddTorrent id meta => (id, meta) ∈ added
  | DI_WriteBlock _ block => Z.of_nat (length (block_data block)) < 2 ^ 63
  | _ => True
  end.

(** The torrents are those that were added, and their files carry their id. *)
Definition torrent_ok (added : list (TorrentId * MetaInfo Hasher)) (id : TorrentId)
    (t : TorrentFile Hasher) : Prop :=
  (id, tf_meta_info t) ∈ added /\
  Forall (fun e => tf_torrent (fe_id e) = id) (tf_files t).

Record dm_inv (added : list (TorrentId * MetaInfo Hasher)) dm : Prop := {
  inv_torrents : map_Forall (torrent_ok added) (dm_torrents dm);
  inv_queue : Forall (event_ok added) (queued_events dm);
  inv_jobs : Forall (job_ok added) (active_blocks dm);
}.

(** What [poll] may tell *)
Definition msg_ok (added : list (TorrentId * MetaInfo Hasher))
    (msg : DiskMessageOut Hasher) : Prop :=
  match msg with
  | DO_PieceWritten id block =>
      verified added id (bm_piece_index (block_metadata block)) (block_data block)
  | _ => True
  end.

(** A file system that does at once what it is asked for, for blocks of [n]
    bytes of the file with this path *)
Record prompt `{FileContents Fs File} (n : nat) (path : PathBuf) : Prop := {
  prompt_open fs : exists fs' f, poll_open_file fs path = (fs', Ready (Ok f));
  prompt_seek fs f off : exists fs' f' p, poll_seek fs f off = (fs', f', Ready (Ok p));
  prompt_write fs f buf : length buf = n ->
    exists fs' f', poll_write_block fs f buf = (fs', f', Ready (Ok (Z.of_nat n)));
  prompt_read fs f : 0 <= file_pos fs f ->
    file_pos fs f + Z.of_nat n <= Z.of_nat (length (file_data fs f)) ->
    exists fs' f' buf,
      poll_read_block fs f (Z.of_nat n) [] = (fs', f', buf, Ready (Ok (Z.of_nat n)));
}.

(** A job that waits for a seek *)
Definition job_seeks (j : BlockJob File) : Prop :=
  match j with
  | BJ_Read (BR_Single _ r) => bfr_state r = BS_Seek
  | BJ_Write (BW_Single _ w) => bfw_state w = BS_Seek
  | _ => False
  end.

(** The file [e] has these bytes: it is open, or it is opened with them. *)
Definition has_bytes `{FileContents Fs File} (e : FileEntry) (bytes : list byte) dm : Prop :=
  match lru_get (file_cache dm) (fe_id e) with
  | Some (FS_Ready f) => file_data (file_system dm) f = bytes
  | Some _ => False
  | None => exists fs f,
      poll_open_file (file_system dm) (fe_path e) = (fs, Ready (Ok f)) /\ file_data fs f = bytes
  end.

(** A manager that has nothing to do and manages the torrent [t] *)
Record disk_ready (id : TorrentId) (t : TorrentFile Hasher) dm : Prop := {
  dr_idle : active_blocks dm = [] /\ queued_events dm = [];
  dr_torrent : dm_torrents dm !! id = Some t;
}.
End DiskManagerSpec.

(** ** Lemmas *)

Section DiskManagerLemmas.
Context `{Sha1 Hasher} `{FileSystemLaws Fs File FsError}.
Context `{LruCacheLaws TorrentFileId (FileState File) C} `{Profile} `{SetOrder FileEntry}.
Implicit Types dm : DiskManager Hasher Fs File C.

(** *** More added torrents *)

Lemma verified_mono (added added' : list (TorrentId * MetaInfo Hasher)) id i data :
  added ⊆ added' -> verified added id i data -> verified added' id i data.
Proof. intros Hs (meta & Hin & Hp). exists meta. auto. Qed.

Lemma job_ok_mono added added' (j : BlockJob File) :
  added ⊆ added' -> job_ok (Hasher := Hasher) added j -> job_ok added' j.
Proof. intros Hs. destruct j as [|[]]; simpl; eauto using verified_mono. Qed.

Lemma dm_inv_mono added added' dm : added ⊆ added' -> dm_inv added dm -> dm_inv added' dm.
Proof.
  intros Hs [Ht Hq Hj]. split.
  - intros id t Hid. destruct (Ht id t Hid). split; auto.
  - eapply Forall_impl; [exact Hq|]. intros [] Hm; simpl in *; auto.
  - eapply Forall_impl; [exact Hj|]. intros j. by apply job_ok_mono.
Qed.

Lemma dm_inv_push added dm msg :
  event_ok added msg -> dm_inv added dm -> dm_inv added (dm_push_event msg dm).
Proof.
  intros Hm [Ht Hq Hj]. split; [done| |done]. simpl. by apply Forall_app_2; [|constructor].
Qed.

(** *** Creating jobs *)

(** The files of a torrent carry its id. *)
Lemma TorrentFile_new_ids id (m : MetaInfo Hasher) t :
  TorrentFile_new id m = Ret t ->
  tf_meta_info t = m /\ Forall (fun e => tf_torrent (fe_id e) = id) (tf_files t).
Proof.
  unfold TorrentFile_new. intros Ht. inv_bind Ht. injection Ht as <-. split; [done|]. simpl.
  destruct (content (info m)) as [len|files].
  - injection Ha as <-. by repeat constructor.
  - assert (Hl : forall l idx off acc out, layout_files id (name (info m)) idx off acc l = Ret out ->
      Forall (fun e => tf_torrent (fe_id e) = id) acc ->
      Forall (fun e => tf_torrent (fe_id e) = id) out).
    { induction l as [|f l IH]; cbn [layout_files]; intros idx off acc out Hl Hacc;
        [by injection Hl as <-|].
      inv_bind Hl. inv_bind Hl. eapply IH; [exact Hl|]. unfold set_insert.
      destruct (decide _); [done|]. by apply Forall_app_2; [|constructor]. }
    eapply Hl; [exact Ha|constructor].
Qed.

Lemma files_loop_files s e len acc l out :
  files_loop s e len acc l = Ret out ->
  forall x, x ∈ out.*1 -> x ∈ acc.*1 \/ x ∈ l.
Proof.
  revert acc. induction l as [|f l IH]; cbn [files_loop]; intros acc Hl x Hx.
  - injection Hl as <-. by left.
  - destruct (fe_offset f <=? s).
    + inv_bind Hl. destruct (e <=? a).
      * inv_bind Hl. injection Hl as <-. simpl in Hx. apply list_elem_of_singleton in Hx as ->.
        right; left.
      * inv_bind Hl. inv_bind Hl. inv_bind Hl. destruct (IH _ Hl x Hx) as [Hacc|Hin];
          [|by right; right].
        rewrite fmap_app, elem_of_app in Hacc. destruct Hacc as [|Hs]; [by left|].
        apply list_elem_of_singleton in Hs as ->. right; left.
    + inv_bind Hl. destruct (a <=? e).
      * inv_bind Hl. inv_bind Hl. destruct (IH _ Hl x Hx) as [Hacc|Hin]; [|by right; right].
        rewrite fmap_app, elem_of_app in Hacc. destruct Hacc as [|Hs]; [by left|].
        apply list_elem_of_singleton in Hs as ->. right; left.
      * destruct (IH _ Hl x Hx) as [Hacc|Hin]; [by left|by right; right].
Qed.
Lemma files_for_block_files (t : TorrentFile Hasher) m files :
  files_for_block t m = Ret (Ok files) -> forall x, x ∈ files.*1 -> x ∈ tf_files t.
Proof.
  unfold files_for_block. intros Hf x Hx. case_match; [|done]. inv_bind Hf. case_match; [|done].
  do 5 inv_bind Hf. injection Hf as <-.
  apply (files_loop_files _ _ _ _ _ _ Ha4) in Hx as [Hx|Hx]; [by apply elem_of_nil in Hx|].
  by rewrite set_iter_perm in Hx.
Qed.

(** When all files are ready, there is a handle for each of them. *)
Lemma acquire_files_ready fs (cache : C) queued ready l fs' cache' queued' :
  acquire_files (Hasher := Hasher) fs cache queued ready l = (fs', cache', Ok (queued', true)) ->
  ready = true /\
  ((fun q => (q.1.1, q.2)) <$> queued') =
    ((fun q => (q.1.1, q.2)) <$> queued) ++ ((fun e => (fe_id e.1, e.2)) <$> l).
Proof.
  revert fs cache queued ready.
  induction l as [|[e w] l IH]; cbn [acquire_files]; intros fs cache queued ready Ha.
  - injection Ha as <- <- <- <-. by rewrite app_nil_r.
  - destruct (lru_remove cache (fe_id e)) as [c [[f qw|f|b]|]].
    + apply IH in Ha as [Hr ->]. rewrite fmap_app, <- app_assoc. by destruct (negb _).
    + apply IH in Ha as [Hr ->]. by rewrite fmap_app, <- app_assoc.
    + by apply IH in Ha as [Hr _].
    + destruct (poll_open_file fs (fe_path e)) as [fs1 [[f|err]|]]; [|done..].
      apply IH in Ha as [Hr ->]. by rewrite fmap_app, <- app_assoc.
Qed.

(** [poll_files] changes the cache and the file system only. *)
Lemma poll_files_ok added id meta dm dm' p :
  dm_inv added dm -> poll_files id meta dm = Ret (dm', p) ->
  dm_inv added dm' /\ queued_events dm' = queued_events dm /\
  dm_torrents dm' = dm_torrents dm /\ active_blocks dm' = active_blocks dm /\
  forall blocks, p = Ready (Ok blocks) ->
    blocks <> [] /\ Forall (fun b => tf_torrent (bf_id b.2) = id) blocks.
Proof.
  intros Hinv Hp. unfold poll_files in Hp.
  destruct (dm_torrents dm !! id) as [t|] eqn:Et; [|injection Hp as <- <-; by split_and!].
  destruct (inv_torrents _ _ Hinv id t Et) as [_ Hids].
  inv_bind Hp. destruct a as [files|e]; [|injection Hp as <- <-; by split_and!].
  pose proof (files_for_block_files _ _ _ Ha) as Hsub.
  assert (Forall (fun e => tf_torrent e.1 = id) ((fun e => (fe_id e.1, e.2)) <$> files)) as Hfids.
  { apply Forall_fmap, Forall_forall. intros x Hx. rewrite Forall_forall in Hids. apply Hids, Hsub.
    by apply list_elem_of_fmap_2. }
  clear Hsub Ha. destruct files as [|f0 files]; [done|].
  destruct (acquire_files _ _ _ _ _) as [[fs c] [[queued [|]]|e]] eqn:Eacq;
    injection Hp as <- <-; destruct Hinv as [? ? ?]; (split_and!; [by split|done|done|done|]);
    try done.
  intros blocks [= <-]. apply acquire_files_ready in Eacq as [_ Eacq].
  change (_ ++ ?l) with l in Eacq.
  rewrite <- Eacq in Hfids. split; [by destruct queued|].
  apply Forall_fmap. apply Forall_fmap in Hfids. eapply Forall_impl; [exact Hfids|].
  by intros [[i f] w].
Qed.

Lemma write_fragments_ok block off (files : list (FileWindow * BlockFile File)) parts :
  write_fragments block off files = Ret parts -> Z.of_nat (length block) < 2 ^ 63 ->
  length parts = length files /\ Forall part_ok parts.
Proof.
  intros Hw Hb. revert off parts Hw. induction files as [|[w f] files IH];
    cbn [write_fragments]; intros off parts Hw; [by injection Hw as <-|].
  inv_bind Hw. inv_bind Hw. inv_bind Hw. injection Hw as <-.
  destruct (IH _ _ Ha1) as [Hl Hok]. split; [simpl; lia|]. constructor; [|done].
  split; simpl; [lia|]. pose proof (slice_Ret _ _ _ _ Ha) as (? & ? & _).
  apply slice_length in Ha. lia.
Qed.
(** The piece of a good block is listed by a torrent that was added. *)
Lemma is_good_piece_verified added id block dm :
  dm_inv added dm -> dm_is_good_piece id block dm = true ->
  verified added id (bm_piece_index (block_metadata block)) (block_data block).
Proof.
  intros Hinv Hg. unfold dm_is_good_piece in Hg.
  destruct (dm_torrents dm !! id) as [t|] eqn:Et; [|done].
  unfold TorrentFile_is_good_piece in Hg.
  destruct (pieces _ !! _) as [h|] eqn:Ep; [|done]. apply bool_decide_eq_true in Hg as <-.
  exists (tf_meta_info t). split; [|done]. by apply (inv_torrents _ _ Hinv id t).
Qed.

Lemma poll_create_block_write_ok added id block dm dm' p :
  dm_inv added dm -> Z.of_nat (length (block_data block)) < 2 ^ 63 ->
  poll_create_block_write id block dm = Ret (dm', p) ->
  dm_inv added dm' /\ forall j, p = Ready (Ok j) -> job_ok added j.
Proof.
  intros Hinv Hl Hp. unfold poll_create_block_write in Hp.
  destruct (dm_is_good_piece id block dm) eqn:Hg; simpl in Hp; [|by injection Hp as <- <-].
  apply (is_good_piece_verified added) in Hg; [|done].
  inv_bind Hp. destruct a as [dm1 q].
  destruct (poll_files_ok added _ _ _ _ _ Hinv Ha) as (Hinv1 & _ & _ & _ & Hids).
  destruct q as [[files|e]|].
  - destruct (Hids files eq_refl) as [Hne Htor].
    assert (forall parts, write_fragments (block_data block) 0 files = Ret parts ->
      job_ok added (BJ_Write (BW_Overlap id (block_metadata block) parts))) as Hparts.
    { intros parts Hw. destruct (write_fragments_ok _ _ _ _ Hw Hl) as [Hlen Hok].
      split; [|done]. intros ->. by destruct files. }
    destruct files as [|[w f] [|f2 files]]; [done| |].
    + injection Hp as <- <-. split; [done|]. intros j [= <-].
      apply Forall_inv in Htor. simpl in *. by rewrite Htor.
    + inv_bind Hp. injection Hp as <- <-. split; [done|]. intros j [= <-]. by apply Hparts.
  - by injection Hp as <- <-.
  - injection Hp as <- <-. split; [|done]. by apply dm_inv_push.
Qed.

Lemma poll_create_block_read_ok added id meta dm dm' p :
  dm_inv added dm -> poll_create_block_read id meta dm = Ret (dm', p) ->
  dm_inv added dm' /\ forall j, p = Ready (Ok j) -> job_ok added j.
Proof.
  intros Hinv Hp. unfold poll_create_block_read in Hp. inv_bind Hp. destruct a as [dm1 q].
  destruct (poll_files_ok added _ _ _ _ _ Hinv Ha) as (Hinv1 & _).
  destruct q as [[[|[w f] [|f2 files]]|e]|]; injection Hp as <- <-; (split; [|by intros ? [= <-]]);
    try done. by apply dm_inv_push.
Qed.

(** *** Polling jobs *)

Lemma write_step_same st fs (w : BlockFileWrite File) fs' w' p :
  write_step st fs w = Ret (fs', w', p) ->
  bfw_block w' = bfw_block w /\ bf_id (bfw_file w') = bf_id (bfw_file w) /\
  (part_ok w -> part_ok w').
Proof.
  unfold write_step. intros Hs. inv_bind Hs.
  destruct (poll_write_block fs _ _) as [[fs1 f1] [[n|e]|]] eqn:Ew;
    [|by injection Hs as <- <- <-..].
  inv_bind Hs. apply write_count in Ew. rewrite (slice_length _ _ _ _ Ha) in Ew.
  apply slice_Ret in Ha as (? & ? & _).
  assert (part_ok w -> 0 <= a0 <= Z.of_nat (length (bfw_block w))) as Hle.
  { intros [? ?]. simpl in Ha0. rewrite checked_in_range in Ha0 by (unfold in_range; lia).
    injection Ha0 as <-. lia. }
  case_match; injection Hs as <- <- <-; (split_and!; [done..|]);
    intros Hp; (split; [by apply Hle|apply Hp]).
Qed.

Lemma BlockFileWrite_poll_same fs (w : BlockFileWrite File) fs' w' p :
  BlockFileWrite_poll fs w = Ret (fs', w', p) ->
  bfw_block w' = bfw_block w /\ bf_id (bfw_file w') = bf_id (bfw_file w) /\
  (part_ok w -> part_ok w').
Proof.
  unfold BlockFileWrite_poll. intros Hp. destruct (bfw_state w).
  - destruct (poll_seek fs _ _) as [[fs1 f1] [[n|e]|]];
      [|by injection Hp as <- <- <-..]. by apply write_step_same in Hp.
  - by apply write_step_same in Hp.
  - by injection Hp as <- <- <-.
Qed.

Lemma poll_writes_ok fs ready (ws : list (BlockFileWrite File)) fs' ws' ready' :
  poll_parts BlockFileWrite_poll fs ready ws = Ret (fs', ws', ready') ->
  length ws' = length ws /\ (Forall part_ok ws -> Forall part_ok ws').
Proof.
  revert fs ready fs' ws' ready'. induction ws as [|w ws IH]; cbn [poll_parts];
    intros fs ready fs' ws' ready' Hp; [by injection Hp as <- <- <-|].
  inv_bind Hp. destruct a as [[fs1 w1] p]. inv_bind Hp. destruct a as [[fs2 ws2] r2].
  injection Hp as <- <- <-. apply IH in Ha0 as [Hl Hok].
  apply BlockFileWrite_poll_same in Ha as (_ & _ & Hw). split; [simpl; lia|].
  intros Hall. inversion Hall; subst. constructor; auto.
Qed.

Lemma BlockJob_poll_ok added fs (j : BlockJob File) fs' j' p :
  job_ok (Hasher := Hasher) added j -> BlockJob_poll fs j = Ret (fs', j', p) -> job_ok added j'.
Proof.
  intros Hj Hp. destruct j as [[m r|t m rs]|[m w|t m ws]]; cbn [BlockJob_poll] in Hp; inv_bind Hp.
  - destruct a as [[fs1 r1] q]. by injection Hp as <- <- <-.
  - destruct a as [[fs1 r1] q]. by injection Hp as <- <- <-.
  - destruct a as [[fs1 w1] q]. injection Hp as <- <- <-.
    apply BlockFileWrite_poll_same in Ha as (Hb & Hi & _). simpl in *. by rewrite Hb, Hi.
  - destruct a as [[fs1 ws1] q]. injection Hp as <- <- <-.
    apply poll_writes_ok in Ha as [Hl Hok]. destruct Hj as [Hne Hall]. split; [|auto].
    intros ->. by destruct ws.
Qed.

Lemma finalize_block_ok added (j : BlockJob File) dm dm' msg :
  dm_inv added dm -> job_ok added j -> finalize_block j dm = (dm', msg) ->
  dm_inv added dm' /\ msg_ok added msg.
Proof.
  intros [Ht Hq Hj] Hok Hf. unfold finalize_block in Hf.
  destruct j as [[m r|t m rs]|[m w|t m ws]]; cbn [BlockJob_finalize] in Hf.
  - simpl in Hf. injection Hf as <- <-. split; [by split|]. by case_match.
  - simpl in Hf. destruct (finalize_reads _ _ _ _) as [[v b] fl]. injection Hf as <- <-.
    split; [by split|]. by destruct v.
  - simpl in Hf. injection Hf as <- <-. split; [by split|]. by destruct (_ =? _).
  - simpl in Hok. destruct Hok as [Hne Hall]. destruct ws as [|w ws]; [done|].
    inversion Hall as [|? ? [? ?] _]; subst. simpl in Hf.
    rewrite usize_not_large in Hf by lia. simpl in Hf.
    rewrite finalize_writes_invalid in Hf. injection Hf as <- <-. by split.
Qed.

(** *** [poll] *)

Lemma poll_active_ok added n dm dm' r :
  dm_inv added dm -> poll_active n dm = Ret (dm', r) ->
  dm_inv added dm' /\ forall msg, r = Some msg -> msg_ok added msg.
Proof.
  revert dm. induction n as [|i IH]; cbn [poll_active]; intros dm Hinv Hp;
    [by injection Hp as <- <-|].
  inv_bind Hp. destruct a as [j rest]. inv_bind Hp. destruct a as [[fs j'] p].
  destruct (swap_remove _ _) as [[j0 rest0]|] eqn:Es; [|done]. injection Ha as -> ->.
  apply swap_remove_Permutation in Es. destruct Hinv as [Ht Hq Hj].
  rewrite Es in Hj. inversion Hj as [|? ? Hj1 Hrest]; subst.
  assert (job_ok added j') as Hj' by (by eapply BlockJob_poll_ok).
  destruct (is_pending p).
  - eapply IH; [|exact Hp]. split; [done..|]. simpl. by apply Forall_app_2; [|constructor].
  - destruct (finalize_block j' _) as [dm1 msg] eqn:Ef. injection Hp as <- <-.
    eapply finalize_block_ok in Ef as [? ?]; [|by split|done]. split; [done|].
    by intros ? [= <-].
Qed.

Lemma poll_queue_ok added q dm dm' r :
  dm_inv added dm -> Forall (event_ok added) q ->
  poll_queue (FsError := FsError) q dm = Ret (dm', r) ->
  dm_inv added dm' /\ forall msg, r = Some (Ready (Ok msg)) -> msg_ok added msg.
Proof.
  intros Hinv Hq. revert dm Hinv. induction Hq as [|m q Hm Hq IH]; cbn [poll_queue];
    intros dm Hinv Hp; [by injection Hp as <- <-|].
  assert (dm_inv added (dm_with_queue q dm)) as Hinv1 by (destruct Hinv; by split).
  assert (forall j dm1, dm_inv added dm1 -> job_ok added j ->
    dm_inv added (dm_with_active (active_blocks dm1 ++ [j]) dm1)) as Hpush.
  { intros j dm1 [? ? ?] Hj. split; [done..|]. simpl. by apply Forall_app_2; [|constructor]. }
  destruct m as [id meta|id|id dest|id|id meta|id block].
  - destruct (decide _); [injection Hp as <- <-; split; [done|by intros ? [= <-]]|].
    inv_bind Hp. injection Hp as <- <-. split; [|by intros ? [= <-]].
    apply TorrentFile_new_ids in Ha as [Hmeta Hids].
    destruct Hinv1 as [Ht ? ?]. split; [|done..]. apply map_Forall_insert_2; [|done].
    split; [by rewrite Hmeta|done].
  - unfold dm_remove_torrent in Hp. destruct (_ !! id); injection Hp as <- <-;
      (split; [|by intros ? [= <-]]); [|done].
    destruct Hinv1 as [Ht ? ?]. split; [|done..]. by apply map_Forall_delete.
  - by apply IH in Hp.
  - by apply IH in Hp.
  - inv_bind Hp. destruct a as [dm1 p].
    apply (poll_create_block_read_ok added) in Ha as [Hinv2 Hj]; [|done].
    destruct p as [[j|e]|]; [|injection Hp as <- <-; split; [done|by intros ? [= <-]]..].
    eapply IH; [|exact Hp]. auto.
  - inv_bind Hp. destruct a as [dm1 p].
    apply (poll_create_block_write_ok added) in Ha as [Hinv2 Hj]; [|done..].
    destruct p as [[j|e]|]; [|injection Hp as <- <-; split; [done|by intros ? [= <-]]..].
    eapply IH; [|exact Hp]. auto.
Qed.

Lemma DiskManager_poll_ok added fuel dm dm' r :
  dm_inv added dm -> DiskManager_poll fuel dm = Ret (Some (dm', r)) ->
  dm_inv added dm' /\ forall msg, r = Ready (Ok msg) -> msg_ok added msg.
Proof.
  revert dm. induction fuel as [|fuel IH]; cbn [DiskManager_poll]; intros dm Hinv Hp; [done|].
  inv_bind Hp. destruct a as [dm1 r1].
  apply (poll_active_ok added) in Ha as [Hinv1 Hm1]; [|done].
  destruct r1 as [msg|].
  - injection Hp as <- <-. split; [done|]. intros ? [= <-]. auto.
  - inv_bind Hp. destruct a as [dm2 r2].
    apply (poll_queue_ok added) in Ha as [Hinv2 Hm2]; [|done|apply Hinv1].
    destruct r2 as [p|].
    + injection Hp as <- <-. split; [done|]. intros msg ->. auto.
    + case_bool_decide; [by injection Hp as <- <-|]. by eapply IH.
Qed.

Lemma dm_reach_inv fs capacity added dm : dm_reach fs capacity added dm -> dm_inv added dm.
Proof.
  induction 1.
  - split; [apply map_Forall_empty|constructor..].
  - apply dm_inv_push; [left|]. eapply dm_inv_mono; [|done]. by intros x Hx; right.
  - by apply dm_inv_push.
  - by apply dm_inv_push.
  - by apply dm_inv_push.
  - unfold dm_remove_torrent. case_match; [|done]. destruct IHdm_reach. split; [|done..].
    by apply map_Forall_delete.
  - by eapply DiskManager_poll_ok.
Qed.

(** *** Blocks of one file, and a prompt file system *)

Lemma poll_files_open id t m e w dm fs' f :
  dm_torrents dm !! id = Some t -> files_for_block t m = Ret (Ok [(e, w)]) ->
  lru_get (file_cache dm) (fe_id e) = None ->
  poll_open_file (file_system dm) (fe_path e) = (fs', Ready (Ok f)) ->
  poll_files id m dm =
  Ret (dm_with_fs fs' (dm_with_cache
         (lru_insert (lru_remove (file_cache dm) (fe_id e)).1 (fe_id e) (FS_Busy w)) dm),
       Ready (Ok [(w, BlockFile_new (fe_id e) f)])).
Proof.
  intros Ht Hf Hc Ho. unfold poll_files. rewrite Ht, Hf, bind_ret. cbn [acquire_files].
  rewrite <- lru_remove_get in Hc.
  destruct (lru_remove (file_cache dm) (fe_id e)) as [c [st|]]; simpl in Hc; [done|].
  rewrite Ho. done.
Qed.

Lemma poll_files_cached id t m e w dm f :
  dm_torrents dm !! id = Some t -> files_for_block t m = Ret (Ok [(e, w)]) ->
  lru_get (file_cache dm) (fe_id e) = Some (FS_Ready f) ->
  poll_files id m dm =
  Ret (dm_with_cache
         (lru_insert (lru_remove (file_cache dm) (fe_id e)).1 (fe_id e) (FS_Busy w)) dm,
       Ready (Ok [(w, BlockFile_new (fe_id e) f)])).
Proof.
  intros Ht Hf Hc. unfold poll_files. rewrite Ht, Hf, bind_ret. cbn [acquire_files].
  rewrite <- lru_remove_get in Hc.
  destruct (lru_remove (file_cache dm) (fe_id e)) as [c [st|]]; simpl in Hc; [|done].
  by injection Hc as ->.
Qed.

Lemma write_prompt path fs id f data off :
  prompt (length data) path -> 0 <= off -> Z.of_nat (length data) < 2 ^ 63 ->
  let window := FileWindow_new off (Z.of_nat (length data)) in
  exists fs' f',
    BlockFileWrite_poll fs (BlockFileWrite_new (BlockFile_new id f) data window) =
      Ret (fs', mkBlockFileWrite (BlockFile_new id f') (Z.of_nat (length data)) data window
             BS_Ready, Ready (Ok tt)) /\
    window_bytes fs' f' window (Z.of_nat (length data)) = data /\
    file_data fs' f' = overwrite (Z.to_nat off) data (file_data fs f).
Proof.
  intros [_ Hseek Hwrite _] Ho Hl window. set (w0 := BlockFileWrite_new _ _ _).
  destruct (Hseek fs f off) as (fs1 & f1 & p & Hs).
  destruct (Hwrite fs1 f1 data eq_refl) as (fs2 & f2 & Hw).
  assert (BlockFileWrite_poll fs w0 = Ret (fs2, mkBlockFileWrite (BlockFile_new id f2)
    (Z.of_nat (length data)) data window BS_Ready, Ready (Ok tt))) as Hp.
  { unfold BlockFileWrite_poll. simpl. rewrite Hs. unfold write_step. simpl.
    rewrite slice_ok, bind_ret by lia. rewrite drop_0, take_ge by lia. rewrite Hw. simpl.
    rewrite checked_in_range, bind_ret by (unfold in_range; lia). simpl.
    by rewrite Z.ltb_irrefl. }
  pose proof (seek_data _ _ _ _ _ _ Hs) as Hd1. pose proof (seek_ok _ _ _ _ _ _ Hs) as Hp1.
  pose proof Hw as (_ & Hd2 & _)%write_ok; [|lia].
  rewrite Hp1, Hd1, take_ge in Hd2 by lia.
  exists fs2, f2. split_and!; [exact Hp| |exact Hd2].
  destruct (write_poll_ok _ _ _ _ _ (ltac:(split_and!; simpl; try done; lia) : write_ok_so_far fs w0)
    Hp ltac:(done) ltac:(done)) as ((_ & _ & _ & _ & _ & Hgood) & _).
  simpl in Hgood. rewrite Hgood. apply take_ge. lia.
Qed.

Lemma read_prompt path fs id f n off :
  prompt n path -> 0 <= off -> Z.of_nat n < 2 ^ 63 ->
  off + Z.of_nat n <= Z.of_nat (length (file_data fs f)) ->
  let window := FileWindow_new off (Z.of_nat n) in
  exists fs' f',
    BlockFileRead_poll fs (BlockFileRead_new (BlockFile_new id f) window) =
      Ret (fs', mkBlockFileRead (BlockFile_new id f') (window_bytes fs f window (Z.of_nat n))
             window (Z.of_nat n) BS_Ready, Ready (Ok tt)) /\
    file_data fs' f' = file_data fs f.
Proof.
  intros [_ Hseek _ Hread] Ho Hl Hlen window.
  destruct (Hseek fs f off) as (fs1 & f1 & p & Hs).
  pose proof (seek_data _ _ _ _ _ _ Hs) as Hd1. pose proof (seek_ok _ _ _ _ _ _ Hs) as Hp1.
  destruct (Hread fs1 f1) as (fs2 & f2 & buf & Hr); [lia|rewrite Hd1; lia|].
  pose proof Hr as (_ & Hd2 & (d & Hbuf & _ & Hd) & _)%read_ok; [|lia].
  exists fs2, f2. split; [|congruence].
  unfold BlockFileRead_poll. simpl. rewrite Hs. unfold read_step. simpl. rewrite Hr. simpl.
  rewrite checked_in_range, bind_ret by (unfold in_range; lia). simpl.
  rewrite Z.ltb_irrefl. simpl in Hbuf. rewrite Hbuf, Hd, Hp1, Hd1. done.
Qed.

(** The second round of [poll], when a single job was created in the first *)
Lemma poll_single_job j dm :
  active_blocks dm = [] -> forall fuel fs j' v,
  BlockJob_poll (file_system dm) j = Ret (fs, j', Ready v) ->
  DiskManager_poll (S fuel) (dm_with_active [j] dm) =
  let '(dm, msg) := finalize_block j' (dm_with_fs fs dm) in Ret (Some (dm, Ready (Ok msg))).
Proof.
  intros Ha fuel fs j' v Hj. cbn [DiskManager_poll]. simpl. rewrite Hj, bind_ret.
  destruct dm. simpl in *. subst. unfold dm_with_fs, dm_with_active. simpl.
  by destruct (finalize_block j' _).
Qed.

(** *** Jobs that wait *)

Lemma poll_active_waits n dm :
  (forall (fs : Fs) (f : File) off, exists fs' f', poll_seek fs f off = (fs', f', Pending)) ->
  (n <= length (active_blocks dm))%nat -> Forall job_seeks (active_blocks dm) ->
  exists dm', poll_active n dm = Ret (dm', None) /\ Forall job_seeks (active_blocks dm') /\
    length (active_blocks dm') = length (active_blocks dm) /\ queued_events dm' = queued_events dm.
Proof.
  intros Hseek. revert dm. induction n as [|i IH]; intros dm Hn Hj; cbn [poll_active];
    [by exists dm|].
  destruct (swap_remove_in_range i (active_blocks dm)) as (j & rest & -> & Es); [lia|].
  pose proof Hj as Hj0. rewrite Es in Hj0.
  inversion Hj0 as [|? ? Hj1 Hrest]; subst. simpl.
  assert (exists fs' j', BlockJob_poll (file_system dm) j = Ret (fs', j', Pending) /\ job_seeks j')
    as (fs' & j' & Hp & Hj').
  { destruct j as [[m r|t m rs]|[m w|t m ws]]; simpl in Hj1; try done; simpl.
    - unfold BlockFileRead_poll. rewrite Hj1.
      destruct (Hseek (file_system dm) (bf_inner (bfr_file r)) (fw_offset (bfr_window r)))
        as (fs' & f' & ->). rewrite bind_ret. eexists _, _. split; [done|]. done.
    - unfold BlockFileWrite_poll. rewrite Hj1.
      destruct (Hseek (file_system dm) (bf_inner (bfw_file w)) (fw_offset (bfw_window w)))
        as (fs' & f' & ->). rewrite bind_ret. eexists _, _. split; [done|]. done. }
  rewrite Hp, bind_ret. simpl. apply Permutation_length in Es. simpl in Es.
  destruct (IH (dm_with_active (rest ++ [j']) (dm_with_fs fs' (dm_with_active rest dm))))
    as (dm' & -> & Hall & Hlen & Hq); simpl.
  - rewrite length_app. simpl. lia.
  - by apply Forall_app_2; [|constructor].
  - exists dm'. split_and!; try done. rewrite Hlen. simpl. rewrite length_app. simpl. lia.
Qed.
(** The first round of [poll], when there is one request only *)
Lemma poll_write_request id block dm dm1 j fuel :
  active_blocks dm = [] -> queued_events dm = [] -> active_blocks dm1 = [] ->
  poll_create_block_write id block dm = Ret (dm1, Ready (Ok j)) ->
  DiskManager_poll (S fuel) (dm_write_block id block dm) =
  DiskManager_poll fuel (dm_with_active [j] dm1).
Proof.
  intros Ha Hq Ha1 Hp. cbn [DiskManager_poll]. unfold dm_write_block, dm_push_event. simpl.
  rewrite Ha, Hq. simpl. 
  replace (dm_with_queue [] (dm_with_queue [DI_WriteBlock id block] dm)) with dm
    by (destruct dm; simpl in *; by subst).
  rewrite Hp, bind_ret, Ha1. done.
Qed.

Lemma poll_read_request id m dm dm1 j fuel :
  active_blocks dm = [] -> queued_events dm = [] -> active_blocks dm1 = [] ->
  poll_create_block_read id m dm = Ret (dm1, Ready (Ok j)) ->
  DiskManager_poll (S fuel) (dm_read_block id m dm) =
  DiskManager_poll fuel (dm_with_active [j] dm1).
Proof.
  intros Ha Hq Ha1 Hp. cbn [DiskManager_poll]. unfold dm_read_block, dm_push_event. simpl.
  rewrite Ha, Hq. simpl.
  replace (dm_with_queue [] (dm_with_queue [DI_ReadBlock id m] dm)) with dm
    by (destruct dm; simpl in *; by subst).
  rewrite Hp, bind_ret, Ha1. done.
Qed.

(** A request to write a bad piece *)
Lemma bad_piece_poll id block dm fuel :
  active_blocks dm = [] -> queued_events dm = [] -> dm_is_good_piece id block dm = false ->
  DiskManager_poll (S fuel) (dm_write_block id block dm) =
  Ret (Some (dm, Ready (Ok (DO_WriteBlockError id
    (TE_BadPiece (bm_piece_index (block_metadata block))))))).
Proof.
  intros Ha Hq Hg. cbn [DiskManager_poll]. unfold dm_write_block, dm_push_event. simpl.
  rewrite Ha, Hq. simpl.
  replace (dm_with_queue [] (dm_with_queue [DI_WriteBlock id block] dm)) with dm
    by (destruct dm; simpl in *; by subst).
  unfold poll_create_block_write. by rewrite Hg.
Qed.

(** Nothing to do *)
Lemma poll_idle dm fuel :
  active_blocks dm = [] -> queued_events dm = [] ->
  DiskManager_poll (S fuel) dm = Ret (Some (dm, Pending)).
Proof. intros Ha Hq. cbn [DiskManager_poll]. rewrite Ha. simpl. rewrite Hq. simpl. by rewrite Ha. Qed.

(** The handle of a file that is open, or that a prompt file system opens *)
Lemma poll_files_handle id t m e w n dm :
  dm_torrents dm !! id = Some t -> files_for_block t m = Ret (Ok [(e, w)]) ->
  prompt n (fe_path e) ->
  (lru_get (file_cache dm) (fe_id e) = None \/
   exists f, lru_get (file_cache dm) (fe_id e) = Some (FS_Ready f)) ->
  exists fs f,
    poll_files id m dm =
      Ret (dm_with_fs fs (dm_with_cache
             (lru_insert (lru_remove (file_cache dm) (fe_id e)).1 (fe_id e) (FS_Busy w)) dm),
           Ready (Ok [(w, BlockFile_new (fe_id e) f)])) /\
    forall f0, lru_get (file_cache dm) (fe_id e) = Some (FS_Ready f0) ->
      fs = file_system dm /\ f = f0.
Proof.
  intros Ht Hf Hp [Hc|[f0 Hc]].
  - destruct (prompt_open _ _ Hp (file_system dm)) as (fs & f & Ho). exists fs, f.
    split; [by apply (poll_files_open id t m e w)|]. by rewrite Hc.
  - exists (file_system dm), f0. split; [|rewrite Hc; by intros f1 [= ->]].
    rewrite (poll_files_cached id t m e w dm f0 Ht Hf Hc). by destruct dm.
Qed.

(** The handle of a file with these bytes *)
Lemma poll_files_bytes id t m e w bytes dm :
  dm_torrents dm !! id = Some t -> files_for_block t m = Ret (Ok [(e, w)]) ->
  has_bytes e bytes dm ->
  exists fs f,
    poll_files id m dm =
      Ret (dm_with_fs fs (dm_with_cache
             (lru_insert (lru_remove (file_cache dm) (fe_id e)).1 (fe_id e) (FS_Busy w)) dm),
           Ready (Ok [(w, BlockFile_new (fe_id e) f)])) /\
    file_data fs f = bytes.
Proof.
  intros Ht Hf Hb. unfold has_bytes in Hb.
  destruct (lru_get (file_cache dm) (fe_id e)) as [[f w'|f|w']|] eqn:Hc; try done.
  - exists (file_system dm), f. split; [|done].
    rewrite (poll_files_cached id t m e w dm f Ht Hf Hc). by destruct dm.
  - destruct Hb as (fs & f & Ho & Hd). exists fs, f.
    split; [by apply (poll_files_open id t m e w)|done].
Qed.

(** A write of a good piece of one file: the file is opened if it is not open,
    and the bytes go to their place in it. *)
Lemma write_piece id t block e dm :
  active_blocks dm = [] -> queued_events dm = [] -> dm_torrents dm !! id = Some t ->
  tf_torrent (fe_id e) = id ->
  let m := block_metadata block in
  let n := length (block_data block) in
  bm_block_length m = Z.of_nat n -> Z.of_nat n < 2 ^ 63 ->
  TorrentFile_is_good_piece t block = true ->
  forall off, 0 <= off -> files_for_block t m = Ret (Ok [(e, FileWindow_new off (Z.of_nat n))]) ->
  (lru_get (file_cache dm) (fe_id e) = None \/
   exists f, lru_get (file_cache dm) (fe_id e) = Some (FS_Ready f)) ->
  0 < lru_capacity (file_cache dm) -> prompt n (fe_path e) ->
  exists dm' f fs0 f0,
    DiskManager_poll 2 (dm_write_block id block dm) =
      Ret (Some (dm', Ready (Ok (DO_PieceWritten id block)))) /\
    lru_get (file_cache dm') (fe_id e) = Some (FS_Ready f) /\
    window_bytes (file_system dm') f (FileWindow_new off (Z.of_nat n)) (Z.of_nat n) =
      block_data block /\
    file_data (file_system dm') f = overwrite (Z.to_nat off) (block_data block) (file_data fs0 f0) /\
    (forall f1, lru_get (file_cache dm) (fe_id e) = Some (FS_Ready f1) ->
       fs0 = file_system dm /\ f0 = f1) /\
    active_blocks dm' = [] /\ queued_events dm' = [] /\ dm_torrents dm' = dm_torrents dm /\
    lru_capacity (file_cache dm') = lru_capacity (file_cache dm).
Proof.
  intros Ha Hq Ht Hid m n Hlen Hn Hg off Ho Hf Hc Hcap Hprompt. subst n.
  destruct (poll_files_handle id t m e _ _ dm Ht Hf Hprompt Hc) as (fs1 & f1 & Hfiles & Hopen).
  destruct (write_prompt (fe_path e) fs1 (fe_id e) f1 (block_data block) off) as
    (fs2 & f2 & Hpoll & Hbytes & Hdata); [done..|].
  erewrite poll_write_request; [|done|done| |]; last first.
  - unfold poll_create_block_write. unfold dm_is_good_piece. rewrite Ht, Hg. simpl.
    fold m. rewrite Hfiles, bind_ret. done.
  - done.
  - erewrite poll_single_job; [|done|]; last first.
    { simpl. unfold Block_into_bytes. rewrite Hpoll, bind_ret. done. }
    unfold finalize_block. cbn [BlockJob_finalize BlockWrite_finalize]. cbn.
    rewrite Z.eqb_refl, Hid.
    eexists _, f2, fs1, f1. split; [by destruct block|]. simpl.
    rewrite !lru_capacity_insert, lru_capacity_remove.
    rewrite lru_get_insert_eq; [done|].
    by rewrite lru_capacity_insert, lru_capacity_remove.
Qed.

(** A write of a good piece of one file that is not open yet *)
Lemma write_good_piece id t block e dm :
  active_blocks dm = [] -> queued_events dm = [] -> dm_torrents dm !! id = Some t ->
  tf_torrent (fe_id e) = id ->
  let m := block_metadata block in
  let n := length (block_data block) in
  bm_block_length m = Z.of_nat n -> Z.of_nat n < 2 ^ 63 ->
  TorrentFile_is_good_piece t block = true ->
  forall off, 0 <= off -> files_for_block t m = Ret (Ok [(e, FileWindow_new off (Z.of_nat n))]) ->
  lru_get (file_cache dm) (fe_id e) = None -> 0 < lru_capacity (file_cache dm) ->
  prompt n (fe_path e) ->
  exists dm' f,
    DiskManager_poll 2 (dm_write_block id block dm) =
      Ret (Some (dm', Ready (Ok (DO_PieceWritten id block)))) /\
    lru_get (file_cache dm') (fe_id e) = Some (FS_Ready f) /\
    window_bytes (file_system dm') f (FileWindow_new off (Z.of_nat n)) (Z.of_nat n) =
      block_data block /\
    active_blocks dm' = [] /\ queued_events dm' = [] /\ dm_torrents dm' = dm_torrents dm.
Proof.
  intros Ha Hq Ht Hid m n Hlen Hn Hg off Ho Hf Hc Hcap Hprompt.
  destruct (write_piece id t block e dm Ha Hq Ht Hid Hlen Hn Hg off Ho Hf (or_introl Hc) Hcap Hprompt)
    as (dm' & f & _ & _ & ? & ? & ? & _ & _ & ? & ? & ? & _).
  by exists dm', f.
Qed.

(** A read of a block of one file *)
Lemma read_file_block id t m e n off bytes dm :
  active_blocks dm = [] -> queued_events dm = [] -> dm_torrents dm !! id = Some t ->
  tf_torrent (fe_id e) = id -> 0 <= off -> Z.of_nat n < 2 ^ 63 ->
  files_for_block t m = Ret (Ok [(e, FileWindow_new off (Z.of_nat n))]) ->
  has_bytes e bytes dm -> off + Z.of_nat n <= Z.of_nat (length bytes) ->
  prompt n (fe_path e) ->
  exists dm',
    DiskManager_poll 2 (dm_read_block id m dm) =
      Ret (Some (dm', Ready (Ok (DO_BlockRead id (BlockMut_new m
        (take n (drop (Z.to_nat off) bytes))))))) /\
    active_blocks dm' = [] /\ queued_events dm' = [] /\ dm_torrents dm' = dm_torrents dm /\
    lru_capacity (file_cache dm') = lru_capacity (file_cache dm) /\
    (0 < lru_capacity (file_cache dm) -> exists f',
       lru_get (file_cache dm') (fe_id e) = Some (FS_Ready f') /\
       file_data (file_system dm') f' = bytes).
Proof.
  intros Ha Hq Ht Hid Ho Hn Hf Hb Hlen Hprompt.
  destruct (poll_files_bytes id t m e _ bytes dm Ht Hf Hb) as (fs & f & Hfiles & Hd).
  rewrite <- Hd in Hlen.
  destruct (read_prompt (fe_path e) fs (fe_id e) f n off) as (fs2 & f2 & Hpoll & Hdata); [done..|].
  erewrite poll_read_request; [|done|done| |]; last first.
  - unfold poll_create_block_read. rewrite Hfiles, bind_ret. done.
  - done.
  - erewrite poll_single_job; [|done|]; last first.
    { simpl. rewrite Hpoll, bind_ret. done. }
    unfold finalize_block. cbn [BlockJob_finalize BlockRead_finalize]. cbn.
    unfold window_bytes at 1. rewrite length_take, length_drop. cbn [fw_offset FileWindow_new].
    rewrite (proj2 (Z.eqb_eq _ _)) by lia. rewrite Hid. unfold window_bytes. rewrite Nat2Z.id, Hd.
    eexists. split; [done|]. simpl.
    rewrite !lru_capacity_insert, lru_capacity_remove. split_and!; try done.
    intros Hcap. exists f2. split; [|congruence]. apply lru_get_insert_eq.
    by rewrite lru_capacity_insert, lru_capacity_remove.
Qed.

(** A file that is open has its bytes. *)
Lemma open_has_bytes e f dm :
  lru_get (file_cache dm) (fe_id e) = Some (FS_Ready f) ->
  has_bytes e (file_data (file_system dm) f) dm.
Proof. intros Hc. unfold has_bytes. by rewrite Hc. Qed.

(** The same, for a block of a torrent *)
Lemma read_block_of_torrent id t m e bytes dm :
  disk_ready id t dm -> in_one_file id t m e -> bm_block_length m < 2 ^ 63 ->
  0 < lru_capacity (file_cache dm) -> has_bytes e bytes dm ->
  block_place t m e + bm_block_length m <= Z.of_nat (length bytes) ->
  prompt (Z.to_nat (bm_block_length m)) (fe_path e) ->
  exists dm',
    DiskManager_poll 2 (dm_read_block id m dm) =
      Ret (Some (dm', Ready (Ok (DO_BlockRead id (BlockMut_new m
        (take (Z.to_nat (bm_block_length m)) (drop (Z.to_nat (block_place t m e)) bytes))))))) /\
    disk_ready id t dm' /\ lru_capacity (file_cache dm') = lru_capacity (file_cache dm) /\
    has_bytes e bytes dm'.
Proof.
  intros [[Ha Hq] Ht] Hm Hmax Hcap Hb Hlen Hprompt.
  pose proof (in_one_file_place _ _ _ _ Hm) as [Hp Hl].
  pose proof (files_for_block_one _ _ _ _ Hm) as Hf.
  assert (bm_block_length m = Z.of_nat (Z.to_nat (bm_block_length m))) as Hn by lia.
  rewrite Hn in Hf.
  destruct (read_file_block id t m e (Z.to_nat (bm_block_length m)) (block_place t m e) bytes dm)
    as (dm' & Hpoll & Ha' & Hq' & Ht' & Hcap' & Hopen); try done; [apply Hm|lia|by rewrite <- Hn|].
  destruct (Hopen Hcap) as (f' & Hget & <-).
  exists dm'. by split_and!; [|split; [|by rewrite Ht']| |apply open_has_bytes].
Qed.

(** A good piece of a torrent, whose file is open or not *)
Lemma write_block_of_torrent id t block e dm :
  let m := block_metadata block in
  disk_ready id t dm -> in_one_file id t m e -> TorrentFile_is_good_piece t block = true ->
  bm_block_length m = Z.of_nat (length (block_data block)) -> bm_block_length m < 2 ^ 63 ->
  (lru_get (file_cache dm) (fe_id e) = None \/
   exists f, lru_get (file_cache dm) (fe_id e) = Some (FS_Ready f)) ->
  0 < lru_capacity (file_cache dm) -> prompt (length (block_data block)) (fe_path e) ->
  exists dm' f,
    DiskManager_poll 2 (dm_write_block id block dm) =
      Ret (Some (dm', Ready (Ok (DO_PieceWritten id block)))) /\
    disk_ready id t dm' /\ lru_get (file_cache dm') (fe_id e) = Some (FS_Ready f) /\
    window_bytes (file_system dm') f (FileWindow_new (block_place t m e) (bm_block_length m))
      (bm_block_length m) = block_data block.
Proof.
  intros m [[Ha Hq] Ht] Hm Hg Hlen Hmax Hc Hcap Hprompt.
  pose proof (in_one_file_place _ _ _ _ Hm) as [Hp _].
  pose proof (files_for_block_one _ _ _ _ Hm) as Hf. fold m in Hlen. rewrite Hlen in Hf, Hmax.
  destruct (write_piece id t block e dm Ha Hq Ht (of_torrent _ _ _ _ Hm) Hlen Hmax Hg
    (block_place t m e) Hp Hf Hc Hcap Hprompt)
    as (dm' & f & fs0 & f0 & Hpoll & Hget & Hbytes & _ & _ & Ha' & Hq' & Ht' & _).
  exists dm', f. rewrite Hlen. by split_and!; [|split; [|by rewrite Ht']| |].
Qed.
End DiskManagerLemmas.

(** ** Properties *)

Section DiskManagerProperties.
Context `{Sha1 Hasher} `{FileSystemLaws Fs File FsError}.
Context `{LruCacheLaws TorrentFileId (FileState File) C} `{Profile} `{SetOrder FileEntry}.
Implicit Types dm : DiskManager Hasher Fs File C.

(** C13: Whatever requests the disk manager gets and whatever the file system
    does, a piece is reported as written only when the torrent was added and
    its metadata lists the hash of the bytes that were to be written. *)
Theorem only_verified_pieces_written fs capacity added dm fuel dm' id block :
  dm_reach fs capacity added dm ->
  DiskManager_poll fuel dm = Ret (Some (dm', Ready (Ok (DO_PieceWritten id block)))) ->
  exists meta, (id, meta) ∈ added /\
    pieces (info meta) !! Z.to_nat (bm_piece_index (block_metadata block)) =
      Some (ShaHash_from_bytes (block_data block)).
Proof.
  intros Hr Hp. apply dm_reach_inv in Hr.
  destruct (DiskManager_poll_ok _ _ _ _ _ Hr Hp) as [_ Hm]. exact (Hm _ eq_refl).
Qed.

(** A block whose hash is not the one of its piece is answered with an
    error, and nothing changes: no file is opened or written. *)
Theorem bad_piece_rejected id block dm fuel :
  active_blocks dm = [] -> queued_events dm = [] -> dm_is_good_piece id block dm = false ->
  DiskManager_poll (S fuel) (dm_write_block id block dm) =
  Ret (Some (dm, Ready (Ok (DO_WriteBlockError id
    (TE_BadPiece (bm_piece_index (block_metadata block))))))).
Proof.
  apply bad_piece_poll.
Qed.

(** On a file system that does at once what it is asked for, a good piece
    that lies in one file is written by one call of [poll], and reading it back
    by the next one gives its bytes. *)
Theorem write_then_read id t block e dm :
  active_blocks dm = [] -> queued_events dm = [] -> dm_torrents dm !! id = Some t ->
  tf_torrent (fe_id e) = id -> e ∈ tf_files t -> files_tile (tf_files t) ->
  let m := block_metadata block in
  let start := block_start_of (piece_length (info (tf_meta_info t))) m in
  block_in_torrent t m -> in_file e start (start + bm_block_length m) ->
  bm_block_length m = Z.of_nat (length (block_data block)) -> bm_block_length m < 2 ^ 63 ->
  (overflow_checks = false \/
   forall x, x ∈ tf_files t -> fe_offset x <= start -> start <= fe_offset x + fe_size x) ->
  TorrentFile_is_good_piece t block = true ->
  lru_get (file_cache dm) (fe_id e) = None -> 0 < lru_capacity (file_cache dm) ->
  prompt (length (block_data block)) (fe_path e) ->
  exists dm1 dm2,
    DiskManager_poll 2 (dm_write_block id block dm) =
      Ret (Some (dm1, Ready (Ok (DO_PieceWritten id block)))) /\
    DiskManager_poll 2 (dm_read_block id m dm1) =
      Ret (Some (dm2, Ready (Ok (DO_BlockRead id (BlockMut_new m (block_data block)))))).
Proof.
  intros Ha Hq Ht Hid He Htile m start Hb Hin Hlen Hmax Hdbg Hg Hc Hcap Hprompt.
  assert (files_for_block t m =
    Ret (Ok [(e, FileWindow_new (start - fe_offset e) (Z.of_nat (length (block_data block))))]))
    as Hf by (rewrite <- Hlen; by apply files_for_block_in).
  destruct (write_good_piece id t block e dm Ha Hq Ht Hid Hlen ltac:(lia) Hg
    (start - fe_offset e) ltac:(destruct Hin; lia) Hf Hc Hcap Hprompt)
    as (dm1 & f & Hpoll & Hcache & Hbytes & Ha1 & Hq1 & Ht1).
  exists dm1. rewrite <- Ht1 in Ht.
  pose proof (open_has_bytes e f dm1 Hcache) as Hopen.
  destruct (read_file_block id t m e (length (block_data block)) (start - fe_offset e)
    (file_data (file_system dm1) f) dm1) as (dm2 & Hread & _); try done; try lia; [destruct Hin; lia| |].
  - assert (length (window_bytes (file_system dm1) f
      (FileWindow_new (start - fe_offset e) (Z.of_nat (length (block_data block))))
      (Z.of_nat (length (block_data block)))) = length (block_data block)) as Hwl
      by by rewrite Hbytes.
    unfold window_bytes in Hwl. rewrite length_take, length_drop in Hwl. simpl in Hwl.
    destruct Hb as (_ & _ & ? & _). destruct Hin. fold m in Hlen. lia.
  - exists dm2. split; [done|]. unfold window_bytes in Hbytes. simpl in Hbytes.
    rewrite Nat2Z.id in Hbytes. by rewrite Hbytes in Hread.
Qed.

(** A torrent is added once: adding it again is answered with an error and
    changes nothing, and removing it gives back its metadata and the state
    before it was added. *)
Theorem add_remove_torrent id meta t dm fuel :
  active_blocks dm = [] -> queued_events dm = [] -> dm_torrents dm !! id = None ->
  TorrentFile_new id meta = Ret t ->
  exists dm1,
    DiskManager_poll (S fuel) (dm_add_torrent id meta dm) =
      Ret (Some (dm1, Ready (Ok (DO_TorrentAdded id)))) /\
    (forall meta', DiskManager_poll (S fuel) (dm_add_torrent id meta' dm1) =
      Ret (Some (dm1, Ready (Ok (DO_TorrentError id (TE_ExistingTorrent meta')))))) /\
    dm_remove_torrent id dm1 = (dm, DO_TorrentRemoved id meta) /\
    dm_remove_torrent id dm = (dm, DO_TorrentError id (TE_TorrentNotFound id)).
Proof.
  intros Ha Hq Ht Hnew. pose proof (TorrentFile_new_ids _ _ _ Hnew) as [Hmeta _].
  destruct dm as [act c ts fs q]. simpl in *. subst act q.
  exists (mkDiskManager [] c (<[id := t]> ts) fs []). split_and!.
  - unfold dm_add_torrent, dm_push_event. simpl.
    rewrite decide_False by (rewrite Ht; apply is_Some_None). by rewrite Hnew.
  - intros meta'. unfold dm_add_torrent, dm_push_event. simpl.
    rewrite decide_True; [done|]. rewrite lookup_insert_eq. by eexists.
  - unfold dm_remove_torrent. simpl. rewrite lookup_insert_eq, Hmeta. unfold dm_with_torrents.
    simpl. by rewrite delete_insert_id by done.
  - unfold dm_remove_torrent. simpl. by rewrite Ht.
Qed.

(** A request for a file that another job uses waits: it goes to the end of
    the queue, the job keeps the file, and no file is opened. *)
Theorem busy_file_waits id t m e w w0 dm :
  dm_torrents dm !! id = Some t -> files_for_block t m = Ret (Ok [(e, w)]) ->
  lru_get (file_cache dm) (fe_id e) = Some (FS_Busy w0) -> 0 < lru_capacity (file_cache dm) ->
  exists dm',
    poll_create_block_read id m dm = Ret (dm', Pending) /\
    queued_events dm' = queued_events dm ++ [DI_ReadBlock id m] /\
    active_blocks dm' = active_blocks dm /\ file_system dm' = file_system dm /\
    lru_get (file_cache dm') (fe_id e) = Some (FS_Busy w0).
Proof.
  intros Ht Hf Hc Hcap. unfold poll_create_block_read, poll_files.
  rewrite Ht, Hf, bind_ret. cbn [acquire_files].
  pose proof (lru_capacity_remove (file_cache dm) (fe_id e)) as Hcr.
  rewrite <- lru_remove_get in Hc.
  destruct (lru_remove (file_cache dm) (fe_id e)) as [c [st|]]; simpl in Hc; [|done].
  injection Hc as ->. eexists. split; [done|]. split_and!; try done.
  simpl in *. apply lru_get_insert_eq. lia.
Qed.

(** C32: While no request is queued, some job is active, and the file system is not
    ready for the seeks of the active jobs, [poll] does not return: with no
    number of rounds it gives a result, so it does not tell its caller to wait
    either. *)
Theorem poll_spins dm fuel :
  (forall (fs : Fs) (f : File) off, exists fs' f', poll_seek fs f off = (fs', f', Pending)) ->
  queued_events dm = [] -> active_blocks dm <> [] -> Forall job_seeks (active_blocks dm) ->
  DiskManager_poll fuel dm = Ret None.
Proof.
  intros Hseek Hq Hne Hj. revert dm Hq Hne Hj.
  induction fuel as [|fuel IH]; intros dm Hq Hne Hj; [done|]. cbn [DiskManager_poll].
  destruct (poll_active_waits (length (active_blocks dm)) dm Hseek ltac:(done) Hj)
    as (dm' & -> & Hj' & Hl & Hq'). rewrite bind_ret, Hq', Hq. cbn [poll_queue]. rewrite bind_ret.
  assert (active_blocks dm' <> []) as Hne'.
  { intros He. rewrite He in Hl. destruct (active_blocks dm); done. }
  rewrite bool_decide_false by (by destruct (active_blocks dm')).
  apply IH; [by rewrite Hq'|done|done].
Qed.
End DiskManagerProperties.

(** ** Witnesses *)

Section DiskManagerWitnesses.
#[local] Existing Instance toy_sha1.
#[local] Instance ex_dm_profile : Profile := debug_build.
#[local] Instance ex_dm_order : SetOrder FileEntry := default_set_order FileEntry.
#[local] Instance ex_dm_fs : FileSystem (list byte) Z unit := memory_fs 64.
#[local] Instance ex_dm_contents : FileContents (list byte) Z := memory_contents.
#[local] Instance ex_dm_fs_laws : FileSystemLaws (list byte) Z unit := memory_fs_laws 64.
#[local] Instance ex_dm_cache : LruCache TorrentFileId (FileState Z)
    (Z * list (TorrentFileId * FileState Z)) := list_cache _ _.
#[local] Instance ex_dm_cache_laws : LruCacheLaws TorrentFileId (FileState Z)
    (Z * list (TorrentFileId * FileState Z)) := list_cache_laws _ _.

Definition ex_manager : Type :=
  DiskManager (list byte) (list byte) Z (Z * list (TorrentFileId * FileState Z)).

(** A file of two pieces of five bytes, the second one being [ex_data] *)
Definition ex_dm_meta : MetaInfo (list byte) :=
  {| announce := None; announce_list := []; encoding := None; comment := None;
     created_by := None; creation_date := None; httpseeds := []; webseeds := [];
     info := {| pieces := [ShaHash_from_bytes []; ShaHash_from_bytes ex_data];
                piece_length := 5; content := Single 10; name := "f" |};
     nodes := []; meta_info_hash := [] |}.
Definition ex_dm_entry : FileEntry :=
  {| fe_path := "f"; fe_id := TorrentFileId_new 0 0; fe_offset := 0; fe_size := 10 |}.
Definition ex_dm_torrent : TorrentFile (list byte) :=
  {| tf_id := 0; tf_meta_info := ex_dm_meta; tf_files := [ex_dm_entry] |}.
Definition ex_dm_block : Block := Block_new (BlockMetadata_new 1 0 5) ex_data.
Definition ex_dm_new : ex_manager := DiskManager_with_capacity [] 4.
Definition ex_dm : ex_manager := dm_with_torrents {[0 := ex_dm_torrent]} ex_dm_new.

(** The manager after a call of [poll] *)
Definition ex_dm_poll (fuel : nat) (dm : ex_manager) : ex_manager :=
  match DiskManager_poll fuel dm with Ret (Some (dm, _)) => dm | _ => dm end.

Definition ex_dm_added : ex_manager := ex_dm_poll 1 (dm_add_torrent 0 ex_dm_meta ex_dm_new).

Lemma only_verified_pieces_written_witness :
  exists meta, (0, meta) ∈ [(0, ex_dm_meta)] /\
    pieces (info meta) !! 1%nat = Some (ShaHash_from_bytes ex_data).
Proof.
  apply (only_verified_pieces_written [] 4 [(0, ex_dm_meta)]
    (dm_write_block 0 ex_dm_block ex_dm_added) 2
    (ex_dm_poll 2 (dm_write_block 0 ex_dm_block ex_dm_added)) 0 ex_dm_block).
  - apply reach_write; [|done]. eapply (reach_poll _ _ _ _ 1).
    + apply reach_add, reach_new.
    + by vm_compute.
  - by vm_compute.
Defined.

Lemma bad_piece_rejected_witness :
  DiskManager_poll 1 (dm_write_block 0 (Block_new (BlockMetadata_new 0 0 5) ex_data) ex_dm) =
  Ret (Some (ex_dm, Ready (Ok (DO_WriteBlockError 0 (TE_BadPiece 0))))).
Proof.
  apply (bad_piece_rejected 0 (Block_new (BlockMetadata_new 0 0 5) ex_data) ex_dm 0); [done..|].
  by vm_compute.
Defined.

Lemma ex_dm_in_file m :
  0 <= bm_piece_index m < 2 -> 0 <= bm_block_offset m -> 0 < bm_block_length m ->
  bm_block_offset m + bm_block_length m <= 5 -> in_one_file 0 ex_dm_torrent m ex_dm_entry.
Proof.
  intros Hi Ho Hl Hlen. unfold block_start_of. split; simpl.
  - done.
  - unfold block_in_torrent. simpl. split_and!; lia.
  - split; [|by repeat constructor|done]. intros [|[|k]] e; simpl; by intros [= <-].
  - left.
  - unfold in_file, block_start_of. simpl. lia.
  - right. intros x ->%list_elem_of_singleton. unfold block_start_of. simpl. lia.
Qed.

Lemma ex_dm_prompts n path : (n <= 64)%nat -> prompt n path.
Proof.
  intros Hn. split.
  - intros fs. by eexists _, _.
  - intros fs f off. by eexists _, _, _.
  - intros fs f buf Hl. eexists _, _. unfold poll_write_block. cbn -[Nat.min].
    by rewrite Hl, Nat.min_r by lia.
  - intros fs f Hf Hlen. eexists _, _, _. unfold poll_read_block. cbn -[take drop Nat.min] in *.
    rewrite length_take, length_drop. repeat f_equal. lia.
Qed.

Lemma ex_dm_prompt : prompt 5 "f".
Proof. apply ex_dm_prompts. lia. Qed.

Lemma write_then_read_witness :
  exists dm1 dm2,
    DiskManager_poll 2 (dm_write_block 0 ex_dm_block ex_dm) =
      Ret (Some (dm1, Ready (Ok (DO_PieceWritten 0 ex_dm_block)))) /\
    DiskManager_poll 2 (dm_read_block 0 (BlockMetadata_new 1 0 5) dm1) =
      Ret (Some (dm2, Ready (Ok (DO_BlockRead 0
        (BlockMut_new (BlockMetadata_new 1 0 5) ex_data))))).
Proof.
  apply (write_then_read 0 ex_dm_torrent ex_dm_block ex_dm_entry ex_dm); try done.
  - left.
  - split; [|by repeat constructor|done].
    intros [|[|k]] e; simpl; by intros [= <-].
  - right. intros x Hx%list_elem_of_singleton. subst. by vm_compute.
  - apply ex_dm_prompt.
Defined.

Lemma add_remove_torrent_witness :
  exists dm1,
    DiskManager_poll 1 (dm_add_torrent 0 ex_dm_meta ex_dm_new) =
      Ret (Some (dm1, Ready (Ok (DO_TorrentAdded 0)))) /\
    dm_remove_torrent 0 dm1 = (ex_dm_new, DO_TorrentRemoved 0 ex_dm_meta).
Proof.
  destruct (add_remove_torrent 0 ex_dm_meta ex_dm_torrent ex_dm_new 0) as (dm1 & ? & _ & ? & _);
    [done..|]. by exists dm1.
Defined.

Lemma busy_file_waits_witness :
  exists dm',
    poll_create_block_read 0 (BlockMetadata_new 1 0 5)
      (dm_with_cache (lru_insert (4, []) (TorrentFileId_new 0 0) (FS_Busy ex_window)) ex_dm) =
      Ret (dm', Pending) /\ queued_events dm' = [DI_ReadBlock 0 (BlockMetadata_new 1 0 5)].
Proof.
  destruct (busy_file_waits 0 ex_dm_torrent (BlockMetadata_new 1 0 5) ex_dm_entry
    (FileWindow_new 5 5) ex_window
    (dm_with_cache (lru_insert (4, []) (TorrentFileId_new 0 0) (FS_Busy ex_window)) ex_dm))
    as (dm' & ? & ? & _); [done..|]. by exists dm'.
Defined.

(** A file system whose seeks never end *)
Definition stuck_fs : FileSystem (list byte) Z unit := {|
  poll_open_file fs _ := (fs, Ready (Ok 0));
  sync_file fs f := (fs, f, Ready (Ok tt));
  poll_file_size fs f := (fs, f, Ready (Ok (Z.of_nat (length fs))));
  poll_seek fs f _ := (fs, f, Pending);
  poll_read_block fs f _ buf := (fs, f, buf, Pending);
  poll_write_block fs f _ := (fs, f, Pending);
|}.

Lemma poll_spins_witness :
  DiskManager_poll (H0 := stuck_fs) 1000
    (dm_with_active
      [BJ_Read (BR_Single (BlockMetadata_new 1 0 5)
        (BlockFileRead_new ex_block_file ex_window))] ex_dm) = Ret None.
Proof.
  apply (poll_spins (H0 := stuck_fs)); [|done|done|by repeat constructor].
  intros fs f off. by eexists _, _.
Defined.
End DiskManagerWitnesses.
