(* ===== verification/Store.v ===== *)
(** * The disk manager as a store of pieces

    What the disk manager of src/src/disk/manager.rs promises: a torrent of one
    file is a map from the index of a piece to its bytes.  The manager, with
    its queue of requests, its cache of open files, its jobs and the file
    system below, refines this map as long as the file system is prompt. *)

From S2P Require Import Prelude Crates DiskFs Util MetaInfo Block DiskError Peer PieceBuffer.
From S2P Require Import Events DiskFile BlockIO DiskManager.
Local Open Scope Z_scope.

(** ** The abstract store *)

(** The bytes of the pieces that were written *)
Abbreviation Store := (gmap Z (list byte)) (only parsing).

(** The requests: a piece to write, a block to read *)
Inductive store_op :=
| SO_Write (block : Block)
| SO_Read (metadata : BlockMetadata).

Section StoreSpec.
Context `{Sha1 Hasher} (id : TorrentId).
Implicit Types t : TorrentFile Hasher.
Implicit Types σ : Store.

(** What a request does to the store, and its answer.  A piece is stored when
    the metadata list its hash.  Nothing is said about a read of a block
    outside of the pieces that were stored. *)
Definition store_step t (op : store_op) σ : option (Store * DiskMessageOut Hasher) :=
  match op with
  | SO_Write block =>
      let i := bm_piece_index (block_metadata block) in
      if TorrentFile_is_good_piece t block
      then Some (<[i := block_data block]> σ, DO_PieceWritten id block)
      else Some (σ, DO_WriteBlockError id (TE_BadPiece i))
  | SO_Read m =>
      D ← σ !! bm_piece_index m;
      if decide (bm_block_offset m + bm_block_length m <= Z.of_nat (length D))
      then Some (σ, DO_BlockRead id (BlockMut_new m (block_slice D m)))
      else None
  end.

Fixpoint store_run t (ops : list store_op) σ : option (Store * list (DiskMessageOut Hasher)) :=
  match ops with
  | [] => Some (σ, [])
  | op :: ops =>
      '(σ, msg) ← store_step t op σ;
      '(σ, msgs) ← store_run t ops σ;
      Some (σ, msg :: msgs)
  end.

(** ** The disk manager as a store *)

(** The bytes of a piece, in a torrent of one file of this size: the last piece
    may be shorter than the others. *)
Definition piece_wf (meta : MetaInfo Hasher) (size i : Z) (D : list byte) : Prop :=
  let P := piece_length (info meta) in
  0 <= i < Z.of_nat (length (pieces (info meta))) /\ P * (i + 1) < 2 ^ 64 /\
  0 < Z.of_nat (length D) <= P /\ P * i + Z.of_nat (length D) <= size /\
  Z.of_nat (length D) < 2 ^ 63.

(** A good piece is written as a whole; a block has bytes. *)
Definition op_wf t (size : Z) (op : store_op) : Prop :=
  match op with
  | SO_Write block =>
      let m := block_metadata block in
      TorrentFile_is_good_piece t block = true ->
      bm_block_offset m = 0 /\ bm_block_length m = Z.of_nat (length (block_data block)) /\
      piece_wf (tf_meta_info t) size (bm_piece_index m) (block_data block)
  | SO_Read m => 0 <= bm_block_offset m /\ 0 < bm_block_length m
  end.

Context `{FileSystem Fs File FsError}.
Context `{LruCache TorrentFileId (FileState File) C} `{Profile} `{SetOrder FileEntry}.
Implicit Types dm : DiskManager Hasher Fs File C.

Definition disk_request (op : store_op) dm : DiskManager Hasher Fs File C :=
  match op with
  | SO_Write block => dm_write_block id block dm
  | SO_Read m => dm_read_block id m dm
  end.

(** Each request is followed by one call of [poll], with two rounds. *)
Fixpoint disk_run (ops : list store_op) dm :
    outcome (option (DiskManager Hasher Fs File C * list (DiskMessageOut Hasher))) :=
  match ops with
  | [] => Ret (Some (dm, []))
  | op :: ops =>
      res ← DiskManager_poll 2 (disk_request op dm);
      match res with
      | Some (dm, Ready (Ok msg)) =>
          res ← disk_run ops dm;
          Ret ('(dm, msgs) ← res; Some (dm, msg :: msgs))
      | _ => Ret None
      end
  end.

(** The torrent has one file. *)
Record single_file t (e : FileEntry) : Prop := {
  sf_files : tf_files t = [e];
  sf_id : tf_torrent (fe_id e) = id;
  sf_offset : fe_offset e = 0;
  sf_size : 0 <= fe_size e < 2 ^ 64;
}.

(** The manager is idle, and the file, if it was opened at all, has every piece
    of the store at its place. *)
Record store_rel `{FileContents Fs File} t (e : FileEntry) σ dm : Prop := {
  sr_active : active_blocks dm = [];
  sr_queue : queued_events dm = [];
  sr_torrent : dm_torrents dm !! id = Some t;
  sr_capacity : 0 < lru_capacity (file_cache dm);
  sr_pieces : map_Forall (piece_wf (tf_meta_info t) (fe_size e)) σ;
  sr_file :
    (lru_get (file_cache dm) (fe_id e) = None /\ σ = ∅) \/
    exists f, lru_get (file_cache dm) (fe_id e) = Some (FS_Ready f) /\
      forall i D, σ !! i = Some D ->
        take (length D) (drop (Z.to_nat (piece_length (info (tf_meta_info t)) * i))
          (file_data (file_system dm) f)) = D;
}.
End StoreSpec.

(** ** Lemmas *)

Section StoreLemmas.
Context `{Sha1 Hasher} `{FileSystemLaws Fs File FsError}.
Context `{LruCacheLaws TorrentFileId (FileState File) C} `{Profile} `{SetOrder FileEntry}.
Implicit Types t : TorrentFile Hasher.
Implicit Types σ : Store.
Implicit Types dm : DiskManager Hasher Fs File C.

Lemma single_file_tiles id t e : single_file id t e -> files_tile (tf_files t).
Proof.
  intros [Hf _ Ho Hs]. rewrite Hf. split.
  - intros [|k] x; simpl; [by intros [= <-]|done].
  - constructor; [lia|constructor].
  - unfold sizes_sum. simpl. lia.
Qed.

(** A block of a stored piece *)
Lemma single_file_block id t e m D :
  single_file id t e -> piece_wf (tf_meta_info t) (fe_size e) (bm_piece_index m) D ->
  bm_block_offset m + bm_block_length m <= Z.of_nat (length D) ->
  0 <= bm_block_offset m -> 0 < bm_block_length m ->
  in_one_file id t m e /\
  block_place t m e = piece_length (info (tf_meta_info t)) * bm_piece_index m + bm_block_offset m.
Proof.
  intros Hs (Hi & HP & HD & Hsize & _) Hm Ho Hl. pose proof Hs as [Hf Hid Hoff Hfs].
  set (P := piece_length (info (tf_meta_info t))) in *.
  assert (0 <= P * bm_piece_index m) as HPi by nia.
  split; [|unfold block_place, block_start_of; rewrite Hoff; by rewrite Z.sub_0_r].
  split; try done.
  - split_and!; unfold block_in_torrent; fold P; lia.
  - by eapply single_file_tiles.
  - rewrite Hf. left.
  - unfold in_file, block_start_of. fold P. rewrite Hoff. lia.
  - right. rewrite Hf. intros x Hx%list_elem_of_singleton. subst x.
    unfold block_start_of. fold P. rewrite Hoff. nia.
Qed.

(** Pieces lie apart from each other. *)
Lemma pieces_apart (meta : MetaInfo Hasher) size i j Di Dj :
  piece_wf meta size i Di -> piece_wf meta size j Dj -> i <> j ->
  let P := piece_length (info meta) in
  (Z.to_nat (P * j) + length Dj <= Z.to_nat (P * i) \/
   Z.to_nat (P * i) + length Di <= Z.to_nat (P * j))%nat.
Proof.
  intros ([Hi _] & _ & HDi & _) ([Hj _] & _ & HDj & _) Hne P. fold P in HDi, HDj.
  assert (i + 1 <= j \/ j + 1 <= i) as [Hlt|Hlt] by lia; [right|left].
  - assert (P * (i + 1) <= P * j) by nia. assert (0 <= P * i) by nia. lia.
  - assert (P * (j + 1) <= P * i) by nia. assert (0 <= P * j) by nia. lia.
Qed.

(** A piece that was stored is all there. *)
Lemma stored_in_file (D l : list byte) o : take (length D) (drop o l) = D -> (o + length D <= length l \/ D = [])%nat.
Proof.
  intros Ht. apply (f_equal length) in Ht. rewrite length_take, length_drop in Ht.
  destruct D as [|b D]; [by right|left]. cbn [length] in *. lia.
Qed.

(** *** The refinement, request by request *)

Lemma store_write id t e σ dm block :
  single_file id t e -> store_rel id t e σ dm ->
  TorrentFile_is_good_piece t block = true -> op_wf t (fe_size e) (SO_Write block) ->
  prompt (length (block_data block)) (fe_path e) ->
  exists dm', DiskManager_poll 2 (dm_write_block id block dm) =
      Ret (Some (dm', Ready (Ok (DO_PieceWritten id block)))) /\
    store_rel id t e (<[bm_piece_index (block_metadata block) := block_data block]> σ) dm'.
Proof.
  intros Hs [Ha Hq Ht Hcap Hpieces Hfile] Hgood Hwf Hprompt.
  destruct (Hwf Hgood) as (Hoff & Hlen & Hpw). set (m := block_metadata block) in *.
  set (i := bm_piece_index m) in *. set (D := block_data block) in *.
  set (P := piece_length (info (tf_meta_info t))) in *.
  pose proof Hpw as (Hi & HP & HD & Hsize & Hmax). fold P in HP, HD, Hsize.
  assert (bm_block_offset m + bm_block_length m <= Z.of_nat (length D)) as Hin by lia.
  destruct (single_file_block id t e m D Hs Hpw Hin ltac:(lia) ltac:(lia)) as [Hone Hplace].
  pose proof (files_for_block_one _ _ _ _ Hone) as Hwin.
  rewrite Hplace, Hoff, Hlen, Z.add_0_r in Hwin. fold P i in Hwin.
  destruct (write_piece id t block e dm Ha Hq Ht (sf_id _ _ _ Hs) Hlen Hmax Hgood (P * i)
    ltac:(nia) Hwin) as (dm' & f & fs0 & f0 & Hp & Hc & Hb & Hd & Hopen & Ha' & Hq' & Ht' & Hcap');
    [destruct Hfile as [[? _]|(f1 & ? & _)]; eauto|done|done|].
  exists dm'. split; [done|]. split; [done|done|by rewrite Ht'|by rewrite Hcap'| |].
  - by apply map_Forall_insert_2.
  - right. exists f. split; [done|]. intros j Dj [[<- <-]|[Hne Hj]]%lookup_insert_Some.
    + unfold window_bytes in Hb. simpl in Hb. by rewrite Nat2Z.id in Hb.
    + destruct Hfile as [[_ ->]|(f1 & Hf1 & Hst)]; [done|].
      destruct (Hopen f1 Hf1) as [-> ->]. rewrite Hd.
      pose proof (Hst j Dj Hj) as HDj. rewrite <- HDj at 2.
      destruct (stored_in_file _ _ _ HDj) as [Hend|He]; [|by rewrite He].
      apply overwrite_other; [done|].
      exact (pieces_apart _ _ i j D Dj Hpw (Hpieces j Dj Hj) Hne).
Qed.

Lemma store_read id t e σ dm m D :
  single_file id t e -> store_rel id t e σ dm ->
  σ !! bm_piece_index m = Some D -> bm_block_offset m + bm_block_length m <= Z.of_nat (length D) ->
  op_wf t (fe_size e) (SO_Read m) -> prompt (Z.to_nat (bm_block_length m)) (fe_path e) ->
  exists dm', DiskManager_poll 2 (dm_read_block id m dm) =
      Ret (Some (dm', Ready (Ok (DO_BlockRead id (BlockMut_new m (block_slice D m)))))) /\
    store_rel id t e σ dm'.
Proof.
  intros Hs [Ha Hq Ht Hcap Hpieces Hfile] HD Hm [Ho Hl] Hprompt.
  pose proof (Hpieces _ _ HD) as Hpw. pose proof Hpw as (Hi & HP & HDl & Hsize & Hmax).
  set (P := piece_length (info (tf_meta_info t))) in *. set (i := bm_piece_index m) in *.
  destruct Hfile as [[_ ->]|(f & Hf & Hst)]; [done|].
  destruct (single_file_block id t e m D Hs Hpw Hm Ho Hl) as [Hone Hplace].
  pose proof (files_for_block_one _ _ _ _ Hone) as Hwin.
  rewrite Hplace in Hwin. fold P i in Hwin. set (n := Z.to_nat (bm_block_length m)) in *.
  replace (bm_block_length m) with (Z.of_nat n) in Hwin by lia.
  pose proof (Hst i D HD) as HDf.
  destruct (stored_in_file _ _ _ HDf) as [Hin|He]; [|rewrite He in HDl; simpl in HDl; lia].
  destruct (read_file_block id t m e n (P * i + bm_block_offset m)
    (file_data (file_system dm) f) dm) as
    (dm' & Hp & Ha' & Hq' & Ht' & Hcap' & Hc); try done;
    [apply Hs|nia|lia|by apply open_has_bytes|lia|].
  destruct (Hc Hcap) as (f' & Hf' & Hd'). exists dm'. split.
  - rewrite Hp. do 5 f_equal. unfold block_slice. fold n. rewrite <- HDf. rewrite skipn_firstn_comm, take_take, drop_drop.
    rewrite Nat.min_l by lia. rewrite Z2Nat.inj_add; [done|nia|lia].
  - split; [done|done|by rewrite Ht'|by rewrite Hcap'|done|].
    right. exists f'. split; [done|]. by rewrite Hd'.
Qed.

(** A request that the store answers is answered by the manager in the same way. *)
Lemma store_step_refines id t e σ σ' dm op msg :
  single_file id t e -> store_rel id t e σ dm -> op_wf t (fe_size e) op ->
  (forall n, Z.of_nat n <= piece_length (info (tf_meta_info t)) -> prompt n (fe_path e)) ->
  store_step id t op σ = Some (σ', msg) ->
  exists dm', DiskManager_poll 2 (disk_request id op dm) = Ret (Some (dm', Ready (Ok msg))) /\
    store_rel id t e σ' dm'.
Proof.
  intros Hs Hr Hwf Hprompt Hstep. destruct op as [block|m]; cbn [store_step] in Hstep.
  - destruct (TorrentFile_is_good_piece t block) eqn:Hg; injection Hstep as <- <-.
    + apply (store_write id t e σ); try done. apply Hprompt.
      destruct (Hwf Hg) as (_ & _ & _ & _ & ? & _). lia.
    + exists dm. split; [|done]. apply bad_piece_poll; [apply Hr..|].
      unfold dm_is_good_piece. by rewrite (sr_torrent _ _ _ _ _ Hr).
  - destruct (σ !! bm_piece_index m) as [D|] eqn:HD; [|done]. simpl in Hstep.
    case_decide as Hm; [|done]. injection Hstep as <- <-.
    apply (store_read id t e σ); try done. apply Hprompt.
    destruct (sr_pieces _ _ _ _ _ Hr _ _ HD) as (_ & _ & ? & _). simpl in Hwf. lia.
Qed.

(** The simulation, over all requests *)
Lemma store_run_refines id t e ops σ σ' dm msgs :
  single_file id t e -> store_rel id t e σ dm -> Forall (op_wf t (fe_size e)) ops ->
  (forall n, Z.of_nat n <= piece_length (info (tf_meta_info t)) -> prompt n (fe_path e)) ->
  store_run id t ops σ = Some (σ', msgs) ->
  exists dm', disk_run id ops dm = Ret (Some (dm', msgs)) /\ store_rel id t e σ' dm'.
Proof.
  intros Hs Hr Hwf Hprompt. revert σ dm msgs Hr.
  induction Hwf as [|op ops Hop Hwf IH]; cbn [store_run disk_run]; intros σ dm msgs Hr Hrun.
  - injection Hrun as <- <-. by exists dm.
  - destruct (store_step id t op σ) as [[σ1 msg]|] eqn:Hstep; [|done]. simpl in Hrun.
    destruct (store_run id t ops σ1) as [[σ2 msgs']|] eqn:Hrest; [|done]. injection Hrun as <- <-.
    destruct (store_step_refines id t e σ σ1 dm op msg) as (dm1 & -> & Hr1); [done..|].
    destruct (IH σ1 dm1 msgs' Hr1 Hrest) as (dm' & Hdisk & Hr'). exists dm'.
    by rewrite bind_ret, Hdisk, bind_ret.
Qed.

(** A torrent is added to a new manager. *)
Lemma store_add fs capacity id t e len :
  single_file id t e -> tf_id t = id -> content (info (tf_meta_info t)) = Single len ->
  e = {| fe_path := name (info (tf_meta_info t)); fe_id := TorrentFileId_new id 0;
         fe_offset := 0; fe_size := len |} ->
  0 < capacity ->
  exists dm : DiskManager Hasher Fs File C,
    DiskManager_poll 2 (dm_add_torrent id (tf_meta_info t) (DiskManager_with_capacity fs capacity)) =
      Ret (Some (dm, Ready (Ok (DO_TorrentAdded id)))) /\
    store_rel id t e ∅ dm /\ file_system dm = fs /\ file_cache dm = lru_new capacity.
Proof.
  intros Hs Hid Hc He Hcap. eexists. split.
  - cbn [DiskManager_poll]. simpl. rewrite decide_False by (rewrite lookup_empty; apply is_Some_None).
    unfold TorrentFile_new. rewrite Hc, !bind_ret. done.
  - split; [split; simpl; try done|by split].
    + rewrite lookup_insert_eq. destruct t as [tid meta files], Hs as [Hf _ _ _]. simpl in *. by subst.
    + by rewrite lru_capacity_new.
    + left. split; [apply lru_get_new|done].
Qed.
End StoreLemmas.

(** ** Properties *)

Section StoreProperties.
Context `{Sha1 Hasher} `{FileSystemLaws Fs File FsError}.
Context `{LruCacheLaws TorrentFileId (FileState File) C} `{Profile} `{SetOrder FileEntry}.
Implicit Types dm : DiskManager Hasher Fs File C.

(** C11: The disk manager refines a store of pieces, on a file system that does at
    once what it is asked for, for every size up to a piece.  After a torrent of
    one file was added, take any sequence of requests to write pieces and to
    read blocks of pieces that were written, each of them answered by a poll
    before the next one is made, in which every piece that has the right hash
    is written as a whole and lies inside the file, positions fit 64 bits, and
    no block that is read is empty.  They are answered as the store answers them: a piece is stored
    exactly when its hash is the one of the metadata, and a block that is read
    has the bytes of the last write of its piece, whatever was written and read
    in between. *)
Theorem disk_refines_store fs capacity id meta len ops σ msgs :
  content (info meta) = Single len -> 0 <= len < 2 ^ 64 -> 0 < capacity ->
  (forall n, Z.of_nat n <= piece_length (info meta) -> prompt n (name (info meta))) ->
  let t := {| tf_id := id; tf_meta_info := meta; tf_files :=
    [{| fe_path := name (info meta); fe_id := TorrentFileId_new id 0; fe_offset := 0;
        fe_size := len |}] |} in
  Forall (op_wf t len) ops -> store_run id t ops ∅ = Some (σ, msgs) ->
  exists dm dm',
    DiskManager_poll 2 (dm_add_torrent id meta (DiskManager_with_capacity fs capacity)) =
      Ret (Some (dm, Ready (Ok (DO_TorrentAdded id)))) /\
    disk_run id ops dm = Ret (Some (dm', msgs)).
Proof.
  intros Hc Hlen Hcap Hprompt t Hwf Hrun. set (e := mkFileEntry _ _ _ _) in t.
  assert (single_file id t e) as Hs by by split.
  destruct (store_add fs capacity id t e len Hs eq_refl Hc eq_refl Hcap) as (dm & Hadd & Hr & _).
  destruct (store_run_refines id t e ops ∅ σ dm msgs Hs Hr Hwf Hprompt Hrun) as (dm' & Hdisk & _).
  by exists dm, dm'.
Qed.
End StoreProperties.

(** ** Witnesses *)

Section StoreWitnesses.
#[local] Existing Instances toy_sha1 ex_dm_profile ex_dm_order ex_dm_fs ex_dm_contents
  ex_dm_fs_laws ex_dm_cache ex_dm_cache_laws.

(** A torrent of a piece of five bytes and one of three *)
Definition ex_piece (i : Z) (bytes : list Z) : Block :=
  Block_new (BlockMetadata_new i 0 (Z.of_nat (length bytes))) (byte_of_Z <$> bytes).
Definition ex_store_meta : MetaInfo (list byte) :=
  {| announce := None; announce_list := []; encoding := None; comment := None;
     created_by := None; creation_date := None; httpseeds := []; webseeds := [];
     info := {| pieces := (fun bytes => ShaHash_from_bytes (byte_of_Z <$> bytes)) <$>
                  [[10; 11; 12; 13; 14]; [20; 21; 22]];
                piece_length := 5; content := Single 8; name := "f" |};
     nodes := []; meta_info_hash := [] |}.

(** The pieces are written from the last one on; one of them is tried with
    other bytes, and blocks are read in between. *)
Definition ex_store_ops : list store_op :=
  [SO_Write (ex_piece 1 [20; 21; 22]); SO_Write (ex_piece 0 [66; 66; 66; 66; 66]);
   SO_Read (BlockMetadata_new 1 1 2); SO_Write (ex_piece 0 [10; 11; 12; 13; 14]);
   SO_Read (BlockMetadata_new 0 2 3); SO_Read (BlockMetadata_new 1 0 3)].

Lemma disk_refines_store_witness :
  exists dm dm' : ex_manager,
    DiskManager_poll 2 (dm_add_torrent 0 ex_store_meta (DiskManager_with_capacity [] 4)) =
      Ret (Some (dm, Ready (Ok (DO_TorrentAdded 0)))) /\
    disk_run 0 ex_store_ops dm = Ret (Some (dm',
      [DO_PieceWritten 0 (ex_piece 1 [20; 21; 22]); DO_WriteBlockError 0 (TE_BadPiece 0);
       DO_BlockRead 0 (BlockMut_new (BlockMetadata_new 1 1 2) (byte_of_Z <$> [21; 22]));
       DO_PieceWritten 0 (ex_piece 0 [10; 11; 12; 13; 14]);
       DO_BlockRead 0 (BlockMut_new (BlockMetadata_new 0 2 3) (byte_of_Z <$> [12; 13; 14]));
       DO_BlockRead 0 (BlockMut_new (BlockMetadata_new 1 0 3) (byte_of_Z <$> [20; 21; 22]))])).
Proof.
  eapply (disk_refines_store [] 4 0 ex_store_meta 8 ex_store_ops); [done|lia|done| | |].
  - intros n Hn. apply ex_dm_prompts. simpl in Hn. lia.
  - repeat constructor; vm_compute; intros; repeat split; congruence.
  - vm_compute; reflexivity.
Defined.
End StoreWitnesses.
