(* ===== verification/NativeFs.v ===== *)
(** * The file system of the operating system

    [NativeFileSystem] of src/src/disk/native.rs implements [FileSystem] with
    the asynchronous files of tokio, which are a parameter.  The theorem is
    about the disk manager on top of it. *)

From S2P Require Import Prelude Crates DiskFs Util MetaInfo Block DiskError Peer PieceBuffer.
From S2P Require Import Events DiskFile BlockIO DiskManager.
Local Open Scope Z_scope.

(** ** [tokio::fs] *)

(** [OpenOptions], as [new] makes them and the setters change them *)
Record OpenOptions := mkOpenOptions { oo_read : bool; oo_write : bool; oo_create : bool }.
Definition OpenOptions_new : OpenOptions := mkOpenOptions false false false.
Definition set_read x o : OpenOptions := mkOpenOptions x (oo_write o) (oo_create o).
Definition set_write x o : OpenOptions := mkOpenOptions (oo_read o) x (oo_create o).
Definition set_create x o : OpenOptions := mkOpenOptions (oo_read o) (oo_write o) x.

(** [std::fs::Metadata], of which only [len] is looked at *)
Record Metadata := mkMetadata { md_len : Z }.

(** The operations of [tokio::fs::File].  [Os] is the state of the operating
    system and of the runtime, [Fut R A] a future of an [A] that has borrowed
    an [R], which it gives back when it is dropped. *)
Class TokioFs (Os File : Type) (Fut : Type -> Type -> Type) := {
  tokio_open : OpenOptions -> PathBuf -> Fut unit (result File io_error);
  tokio_sync_all : File -> Fut File (result unit io_error);
  tokio_metadata : File -> Fut File (result Metadata io_error);
  tokio_seek : File -> Z -> Fut File (result Z io_error);
  poll_unpin : forall {R A}, Os -> Fut R A -> Os * Fut R A * poll A;
  drop_future : forall {R A}, Os -> Fut R A -> Os * R;
  poll_read_buf : Os -> File -> Z -> list byte -> Os * File * list byte * poll (result Z io_error);
  poll_write : Os -> File -> list byte -> Os * File * poll (result Z io_error);
}.

(** ** [NativeFileSystem] *)

Record NativeFileSystem := mkNativeFileSystem { target_dir : PathBuf; file_ops : OpenOptions }.

(** [From<T: AsRef<Path>>] *)
Definition NativeFileSystem_from (dir : PathBuf) : NativeFileSystem :=
  {| target_dir := dir;
     file_ops := set_create true (set_write true (set_read true OpenOptions_new)) |}.

Section Native.
Context `{TokioFs Os File Fut}.

(** A future that is polled where it is created, and dropped at the end of the
    statement: [fut.boxed().poll_unpin(cx)] *)
Definition poll_once {R A} (os : Os) (fut : Fut R A) : Os * R * poll A :=
  let '(os, fut, p) := poll_unpin os fut in
  let '(os, r) := drop_future os fut in
  (os, r, p).

Definition native_open_file (fs : NativeFileSystem * Os) (path : PathBuf) :
    NativeFileSystem * Os * poll (result File io_error) :=
  let '(self, os) := fs in
  let path := path_join (target_dir self) path in
  let '(os, _, p) := poll_once os (tokio_open (file_ops self) path) in
  (self, os, p).

Definition native_sync_file (fs : NativeFileSystem * Os) (file : File) :
    NativeFileSystem * Os * File * poll (result unit io_error) :=
  let '(self, os) := fs in
  let '(os, file, p) := poll_once os (tokio_sync_all file) in
  (self, os, file, p).

Definition native_file_size (fs : NativeFileSystem * Os) (file : File) :
    NativeFileSystem * Os * File * poll (result Z io_error) :=
  let '(self, os) := fs in
  let '(os, file, p) := poll_once os (tokio_metadata file) in
  (self, os, file,
   match p with Ready r => Ready (result_map md_len r) | Pending => Pending end).

Definition native_seek (fs : NativeFileSystem * Os) (file : File) (offset : Z) :
    NativeFileSystem * Os * File * poll (result Z io_error) :=
  let '(self, os) := fs in
  let '(os, file, p) := poll_once os (tokio_seek file offset) in
  (self, os, file, p).

Definition native_read_block (fs : NativeFileSystem * Os) (file : File) (capacity : Z)
    (block : list byte) :
    NativeFileSystem * Os * File * list byte * poll (result Z io_error) :=
  let '(self, os) := fs in
  let '(os, file, block, p) := poll_read_buf os file capacity block in
  (self, os, file, block, p).

Definition native_write_block (fs : NativeFileSystem * Os) (file : File) (buf : list byte) :
    NativeFileSystem * Os * File * poll (result Z io_error) :=
  let '(self, os) := fs in
  let '(os, file, p) := poll_write os file buf in
  (self, os, file, p).

#[export] Instance native_fs : FileSystem (NativeFileSystem * Os) File io_error := {|
  poll_open_file := native_open_file;
  sync_file := native_sync_file;
  poll_file_size := native_file_size;
  poll_seek := native_seek;
  poll_read_block := native_read_block;
  poll_write_block := native_write_block;
|}.

(** [DiskManager::with_native_fs] *)
Definition with_native_fs {Hasher} `{LruCache TorrentFileId (FileState File) C} (dir : PathBuf)
    (os : Os) : DiskManager Hasher (NativeFileSystem * Os) File C :=
  DiskManager_with_capacity (NativeFileSystem_from dir, os) 100.
End Native.

(** ** Specification *)

Section NativeSpec.
Context `{Sha1 Hasher} `{TokioFs Os File Fut} `{LruCacheLaws TorrentFileId (FileState File) C}.
Context `{Profile} `{SetOrder FileEntry}.
Implicit Types dm : DiskManager Hasher (NativeFileSystem * Os) File C.

(** The functions of [tokio::fs] run on a pool of threads for blocking
    operations: the first poll of a future hands the operation over and does
    not wait for it. *)
Definition opens_in_background : Prop :=
  forall os options path, exists os' fut,
    poll_unpin os (tokio_open options path) = (os', fut, Pending).

(** No job runs and no file is open. *)
Definition disk_idle dm : Prop :=
  active_blocks dm = [] /\ forall k, lru_get (file_cache dm) k = None.

(** ** Lemmas *)

(** A file is never opened. *)
Lemma native_open_pending fs path :
  opens_in_background -> exists fs', poll_open_file (FsError := io_error) fs path = (fs', Pending).
Proof.
  intros Hslow. destruct fs as [self os]. simpl. unfold poll_once.
  destruct (Hslow os (file_ops self) (path_join (target_dir self) path)) as (os' & fut & ->).
  destruct (drop_future os' fut) as [os'' r]. by eexists.
Qed.

Lemma poll_files_native id m dm dm' p :
  opens_in_background -> disk_idle dm -> poll_files id m dm = Ret (dm', p) ->
  disk_idle dm' /\ queued_events dm' = queued_events dm /\
  (p = Pending \/ exists e, p = Ready (Err e)).
Proof.
  intros Hslow [Ha Hc] Hp. unfold poll_files in Hp.
  destruct (dm_torrents dm !! id) as [t|]; [|injection Hp as <- <-; by split_and!; eauto].
  inv_bind Hp. destruct a as [[|[e w] files]|err]; [done| |injection Hp as <- <-; by split_and!; eauto].
  cbn [acquire_files] in Hp.
  pose proof (lru_remove_get (file_cache dm) (fe_id e)) as Hg. rewrite Hc in Hg.
  assert (forall k, lru_get (lru_remove (file_cache dm) (fe_id e)).1 k = None) as Hc'.
  { intros k. destruct (decide (fe_id e = k)) as [<-|Hne]; [apply lru_get_remove_eq|].
    rewrite lru_get_remove_ne by done. apply Hc. }
  destruct (lru_remove (file_cache dm) (fe_id e)) as [c st]. simpl in Hg, Hc'. subst st.
  destruct (native_open_pending (file_system dm) (fe_path e) Hslow) as [fs' Ho].
  rewrite Ho in Hp. injection Hp as <- <-. by split_and!; eauto.
Qed.

(** A request that needs a file goes back into the queue. *)
Lemma poll_create_native_read id m dm dm' p :
  opens_in_background -> disk_idle dm -> poll_create_block_read id m dm = Ret (dm', p) ->
  disk_idle dm' /\ forall j, p <> Ready (Ok j).
Proof.
  intros Hslow Hi Hp. unfold poll_create_block_read in Hp. inv_bind Hp. destruct a as [dm1 p1].
  apply poll_files_native in Ha as (Hi1 & _ & Hp1); [|done..].
  destruct Hp1 as [->|[e ->]]; by injection Hp as <- <-.
Qed.

Lemma poll_create_native_write id block dm dm' p :
  opens_in_background -> disk_idle dm -> poll_create_block_write id block dm = Ret (dm', p) ->
  disk_idle dm' /\ forall j, p <> Ready (Ok j).
Proof.
  intros Hslow Hi Hp. unfold poll_create_block_write in Hp.
  destruct (negb _); [by injection Hp as <- <-|]. inv_bind Hp. destruct a as [dm1 p1].
  apply poll_files_native in Ha as (Hi1 & _ & Hp1); [|done..].
  destruct Hp1 as [->|[e ->]]; by injection Hp as <- <-.
Qed.

(** What a disk manager without open files may tell *)
Definition tells_no_io (r : poll (result (DiskMessageOut Hasher) io_error)) : Prop :=
  match r with
  | Ready (Ok (DO_PieceWritten _ _)) | Ready (Ok (DO_BlockRead _ _)) => False
  | _ => True
  end.

Lemma poll_queue_native q dm dm' r :
  opens_in_background -> disk_idle dm -> poll_queue q dm = Ret (dm', r) ->
  disk_idle dm' /\ forall p, r = Some p -> tells_no_io p.
Proof.
  intros Hslow. revert dm. induction q as [|msg q IH]; cbn [poll_queue]; intros dm Hi Hp.
  { by injection Hp as <- <-. }
  assert (disk_idle (dm_with_queue q dm)) as Hi' by exact Hi.
  destruct msg as [id m|id|id dir|id|id m|id block].
  - case_decide; [by injection Hp as <- <-; split; [|intros ? [= <-]]|].
    inv_bind Hp. by injection Hp as <- <-; split; [|intros ? [= <-]].
  - unfold dm_remove_torrent in Hp.
    by destruct (_ !! id); injection Hp as <- <-; split; [|intros ? [= <-]| |intros ? [= <-]].
  - by eapply IH.
  - by eapply IH.
  - inv_bind Hp. destruct a as [dm1 p].
    apply poll_create_native_read in Ha as [Hi1 Hn]; [|done..].
    destruct p as [[j|e]|]; [by destruct (Hn j)|..]; by injection Hp as <- <-; split; [|intros ? [= <-]].
  - inv_bind Hp. destruct a as [dm1 p].
    apply poll_create_native_write in Ha as [Hi1 Hn]; [|done..].
    destruct p as [[j|e]|]; [by destruct (Hn j)|..]; by injection Hp as <- <-; split; [|intros ? [= <-]].
Qed.

Lemma DiskManager_poll_native fuel dm dm' r :
  opens_in_background -> disk_idle dm -> DiskManager_poll fuel dm = Ret (Some (dm', r)) ->
  disk_idle dm' /\ tells_no_io r.
Proof.
  intros Hslow Hi Hp. destruct fuel as [|fuel]; [done|]. cbn [DiskManager_poll] in Hp.
  destruct Hi as [Ha Hc]. rewrite Ha in Hp. simpl in Hp.
  inv_bind Hp. destruct a as [dm1 r1]. apply poll_queue_native in Ha0 as [Hi1 Hr1]; [|done..].
  destruct r1 as [p|]; [injection Hp as <- <-; by auto|].
  rewrite (proj1 Hi1) in Hp. by injection Hp as <- <-.
Qed.

Lemma native_reach_idle dir os added dm :
  opens_in_background -> dm_reach (NativeFileSystem_from dir, os) 100 added dm -> disk_idle dm.
Proof.
  intros Hslow. induction 1; try done.
  - split; [done|]. intros k. apply lru_get_new.
  - unfold dm_remove_torrent. by case_match.
  - by eapply DiskManager_poll_native.
Qed.
End NativeSpec.

(** ** Properties *)

Section NativeProperties.
Context `{Sha1 Hasher} `{TokioFs Os File Fut} `{LruCacheLaws TorrentFileId (FileState File) C}.
Context `{Profile} `{SetOrder FileEntry}.
Implicit Types dm : DiskManager Hasher (NativeFileSystem * Os) File C.

(** C35: [NativeFileSystem] makes a new future at every poll and drops it
    when it is not ready.  The futures of tokio are not ready at their first
    poll, so over the file system of the operating system no file is ever
    opened: whatever is requested and however often the disk manager is polled,
    it never tells that a block was read or a piece was written. *)
Theorem native_disk_never_works dir os added dm fuel dm' r :
  opens_in_background -> dm_reach (NativeFileSystem_from dir, os) 100 added dm ->
  DiskManager_poll fuel dm = Ret (Some (dm', r)) ->
  disk_idle dm' /\ tells_no_io r.
Proof.
  intros Hslow Hr Hp. eapply DiskManager_poll_native; [done| |exact Hp].
  by eapply native_reach_idle.
Qed.
End NativeProperties.

(** ** Witnesses *)

Section NativeWitnesses.
#[local] Existing Instance toy_sha1.
#[local] Instance ex_native_profile : Profile := debug_build.
#[local] Instance ex_native_order : SetOrder FileEntry := default_set_order FileEntry.
#[local] Instance ex_native_cache : LruCache TorrentFileId (FileState Z)
    (Z * list (TorrentFileId * FileState Z)) := list_cache _ _.
#[local] Instance ex_native_cache_laws : LruCacheLaws TorrentFileId (FileState Z)
    (Z * list (TorrentFileId * FileState Z)) := list_cache_laws _ _.

(** Futures that are ready at their second poll: what they borrowed, what they
    give, and whether they were polled. *)
Record two_polls (R A : Type) := mkTwoPolls { tp_owned : R; tp_value : A; tp_polled : bool }.
Arguments mkTwoPolls {R A}.
Arguments tp_owned {R A}.
Arguments tp_value {R A}.
Arguments tp_polled {R A}.

Definition two_polls_poll {R A} (os : list byte) (fut : two_polls R A) :
    list byte * two_polls R A * poll A :=
  (os, mkTwoPolls (tp_owned fut) (tp_value fut) true,
   if tp_polled fut then Ready (tp_value fut) else Pending).
Definition two_polls_drop {R A} (os : list byte) (fut : two_polls R A) : list byte * R :=
  (os, tp_owned fut).

Definition ex_tokio : TokioFs (list byte) Z two_polls := {|
  tokio_open _ _ := mkTwoPolls tt (Ok 0) false;
  tokio_sync_all f := mkTwoPolls f (Ok tt) false;
  tokio_metadata f := mkTwoPolls f (Ok (mkMetadata 0)) false;
  tokio_seek f off := mkTwoPolls f (Ok off) false;
  poll_unpin := @two_polls_poll;
  drop_future := @two_polls_drop;
  poll_read_buf os f _ block := (os, f, block, Ready (Ok 0));
  poll_write os f buf := (os, f, Ready (Ok 0));
|}.
#[local] Existing Instance ex_tokio.

Definition ex_native : DiskManager (list byte) (NativeFileSystem * list byte) Z
    (Z * list (TorrentFileId * FileState Z)) :=
  dm_write_block 0 ex_dm_block
    match DiskManager_poll 1 (dm_add_torrent 0 ex_dm_meta (with_native_fs "/tmp" [])) with
    | Ret (Some (dm, _)) => dm
    | _ => with_native_fs "/tmp" []
    end.

(** The piece stays in the queue. *)
Example native_piece_waits :
  DiskManager_poll 2 ex_native =
  Ret (Some (ex_native, Pending)).
Proof. by vm_compute. Qed.

Lemma native_disk_never_works_witness :
  disk_idle ex_native /\ tells_no_io (Hasher := list byte) Pending.
Proof.
  apply (native_disk_never_works "/tmp" [] [(0, ex_dm_meta)] ex_native 2).
  - intros os options path. by eexists _, _.
  - apply reach_write; [|done]. eapply (reach_poll _ _ _ _ 1); [apply reach_add, reach_new|].
    by vm_compute.
  - by vm_compute.
Defined.
End NativeWitnesses.
