(* ===== verification/Handler.v ===== *)
(** * The handler of a connection

    [BitTorrentHandler] of src/src/handler.rs: the state machine of the
    substreams a connection to a peer has open, and the upgrade configuration
    of src/src/proto/mod.rs.  The substreams ([BttStreamSink]), the errors of
    an upgrade and the clock are parameters. *)

From S2P Require Import Prelude Crates Util Message Codec Peer DiskError Events.
Local Open Scope Z_scope.

(** ** Data *)

(** [BitTorrentProtocolConfig] of src/src/proto/mod.rs *)
Record BitTorrentProtocolConfig := mkBitTorrentProtocolConfig { protocol_name : string }.

Definition with_protocol_name (name : string) (c : BitTorrentProtocolConfig) :
    BitTorrentProtocolConfig := {| protocol_name := name |}.

Definition BitTorrentProtocolConfig_default : BitTorrentProtocolConfig :=
  {| protocol_name := "/bittorrent/1.0.0" |}.

(** [protocol_info] *)
Definition protocol_info (c : BitTorrentProtocolConfig) : list string := [protocol_name c].

(** [Framed::new]: the message stream over the socket of a connection *)
Class Framing (Socket Strm : Type) := framed_new : Socket -> PeerWireCodec -> Strm.

(** The upgrade of a connection that a remote opened, and of one that the client
    opened; the futures are ready at once. *)
Definition upgrade_inbound `{Framing Socket Strm} (c : BitTorrentProtocolConfig) (incoming : Socket)
    (info : string) : poll (result Strm io_error) :=
  let codec := PeerWireCodec_default in
  Ready (Ok (framed_new incoming codec)).

Definition upgrade_outbound `{Framing Socket Strm} (c : BitTorrentProtocolConfig) (incoming : Socket)
    (info : string) : poll (result Strm io_error) :=
  let codec := PeerWireCodec_default in
  Ready (Ok (framed_new incoming codec)).

(** [libp2p_swarm::KeepAlive] *)
Inductive ConnKeepAlive (Instant : Type) :=
| KeepAlive_Until (until : Instant)
| KeepAlive_Yes
| KeepAlive_No.
Arguments KeepAlive_Until {Instant}.
Arguments KeepAlive_Yes {Instant}.
Arguments KeepAlive_No {Instant}.

(** [UniqueConnecId(u64)] *)
Abbreviation UniqueConnecId := Z (only parsing).

Section HandlerData.
Context (Strm BV UserData Instant UpgrErr : Type).

Inductive BitTorrentHandlerTorrentErr :=
| HTE_Upgrade (err : UpgrErr)
| HTE_UnexpectedMessage (msg : PeerMessage BV)
| HTE_Io (err : io_error).

(** State of an active substream, opened either by us or by the remote. *)
Inductive SubstreamState :=
| OutPendingOpen (msg : PeerMessage BV) (user_data : option UserData)
| OutPendingSend (substream : Strm) (msg : PeerMessage BV) (user_data : option UserData)
| OutPendingFlush (substream : Strm) (user_data : option UserData)
| OutWaitingAnswer (substream : Strm) (user_data : UserData) (instant : Instant)
| OutReportError (error : BitTorrentHandlerTorrentErr) (user_data : UserData)
| OutClosing (substream : Strm)
| InWaitingMessage (id : UniqueConnecId) (substream : Strm)
| InWaitingUser (id : UniqueConnecId) (substream : Strm)
| InPendingSend (id : UniqueConnecId) (substream : Strm) (msg : PeerMessage BV)
| InPendingFlush (id : UniqueConnecId) (substream : Strm)
| InClosing (substream : Strm).

Record BitTorrentHandler := mkBitTorrentHandler {
  config : BitTorrentProtocolConfig;
  substreams : list SubstreamState;
  keep_alive : ConnKeepAlive Instant;
  seed_leech : SeedLeechConfig;
  next_connec_unique_id : UniqueConnecId;
}.

(** Event to send to the handler. *)
Inductive BitTorrentHandlerIn :=
| HI_Disconnect (timeout : option Instant)
| HI_Reset (request_id : BitTorrentRequestId)
| HI_HandshakeReq (handshake : Handshake) (user_data : UserData)
| HI_HandshakeRes (handshake : Handshake) (request_id : BitTorrentRequestId)
| HI_BitfieldReq (index_field : BitField BV) (user_data : UserData)
| HI_BitfieldRes (index_field : BitField BV) (request_id : BitTorrentRequestId)
| HI_Choke (inner : ChokeType)
| HI_Interest (inner : InterestType)
| HI_GetPieceReq (request : PeerRequest) (user_data : UserData)
| HI_GetPieceRes (piece : Piece) (request_id : BitTorrentRequestId)
| HI_CancelPiece (request : PeerRequest) (request_id : BitTorrentRequestId)
| HI_Have (index : Z)
| HI_KeepAlive.

(** Event produced by the BitTorrent handler. *)
Inductive BitTorrentHandlerEvent :=
| HO_HandshakeReq (handshake : Handshake) (request_id : BitTorrentRequestId)
| HO_HandshakeRes (handshake : Handshake) (user_data : UserData)
| HO_BitfieldReq (index_field : BitField BV) (request_id : BitTorrentRequestId)
| HO_BitfieldRes (index_field : BitField BV) (user_data : UserData)
| HO_GetPieceReq (request : PeerRequest) (request_id : BitTorrentRequestId)
| HO_GetPieceRes (piece : Piece) (user_data : UserData)
| HO_CancelPiece (request : PeerRequest) (request_id : BitTorrentRequestId)
| HO_Choke (inner : ChokeType)
| HO_Interest (inner : InterestType)
| HO_Have (index : Z)
| HO_TorrentErr (error : BitTorrentHandlerTorrentErr) (user_data : option UserData)
| HO_KeepAlive (timestamp : Instant).

(** The two forms of [libp2p_swarm::ProtocolsHandlerEvent] the handler uses *)
Inductive ProtocolsHandlerEvent :=
| OutboundSubstreamRequest (protocol : BitTorrentProtocolConfig)
    (info : PeerMessage BV * option UserData)
| Custom (event : BitTorrentHandlerEvent).
End HandlerData.
Arguments HTE_Upgrade {BV UpgrErr}.
Arguments HTE_UnexpectedMessage {BV UpgrErr}.
Arguments HTE_Io {BV UpgrErr}.
Arguments OutPendingOpen {Strm BV UserData Instant UpgrErr}.
Arguments OutPendingSend {Strm BV UserData Instant UpgrErr}.
Arguments OutPendingFlush {Strm BV UserData Instant UpgrErr}.
Arguments OutWaitingAnswer {Strm BV UserData Instant UpgrErr}.
Arguments OutReportError {Strm BV UserData Instant UpgrErr}.
Arguments OutClosing {Strm BV UserData Instant UpgrErr}.
Arguments InWaitingMessage {Strm BV UserData Instant UpgrErr}.
Arguments InWaitingUser {Strm BV UserData Instant UpgrErr}.
Arguments InPendingSend {Strm BV UserData Instant UpgrErr}.
Arguments InPendingFlush {Strm BV UserData Instant UpgrErr}.
Arguments InClosing {Strm BV UserData Instant UpgrErr}.
Arguments mkBitTorrentHandler {Strm BV UserData Instant UpgrErr}.
Arguments config {Strm BV UserData Instant UpgrErr}.
Arguments substreams {Strm BV UserData Instant UpgrErr}.
Arguments keep_alive {Strm BV UserData Instant UpgrErr}.
Arguments seed_leech {Strm BV UserData Instant UpgrErr}.
Arguments next_connec_unique_id {Strm BV UserData Instant UpgrErr}.
Arguments HI_Disconnect {BV UserData Instant}.
Arguments HI_Reset {BV UserData Instant}.
Arguments HI_HandshakeReq {BV UserData Instant}.
Arguments HI_HandshakeRes {BV UserData Instant}.
Arguments HI_BitfieldReq {BV UserData Instant}.
Arguments HI_BitfieldRes {BV UserData Instant}.
Arguments HI_Choke {BV UserData Instant}.
Arguments HI_Interest {BV UserData Instant}.
Arguments HI_GetPieceReq {BV UserData Instant}.
Arguments HI_GetPieceRes {BV UserData Instant}.
Arguments HI_CancelPiece {BV UserData Instant}.
Arguments HI_Have {BV UserData Instant}.
Arguments HI_KeepAlive {BV UserData Instant}.
Arguments HO_HandshakeReq {BV UserData Instant UpgrErr}.
Arguments HO_HandshakeRes {BV UserData Instant UpgrErr}.
Arguments HO_BitfieldReq {BV UserData Instant UpgrErr}.
Arguments HO_BitfieldRes {BV UserData Instant UpgrErr}.
Arguments HO_GetPieceReq {BV UserData Instant UpgrErr}.
Arguments HO_GetPieceRes {BV UserData Instant UpgrErr}.
Arguments HO_CancelPiece {BV UserData Instant UpgrErr}.
Arguments HO_Choke {BV UserData Instant UpgrErr}.
Arguments HO_Interest {BV UserData Instant UpgrErr}.
Arguments HO_Have {BV UserData Instant UpgrErr}.
Arguments HO_TorrentErr {BV UserData Instant UpgrErr}.
Arguments HO_KeepAlive {BV UserData Instant UpgrErr}.
Arguments OutboundSubstreamRequest {BV UserData Instant UpgrErr}.
Arguments Custom {BV UserData Instant UpgrErr}.

(** ** Operations *)

Section Handler.
Context `{MessageStream Strm (PeerMessage BV)} {UserData : Type} `{InstantAdd Instant}.
Context {UpgrErr : Type} `{Profile}.
#[local] Abbreviation State := (SubstreamState Strm BV UserData Instant UpgrErr).
#[local] Abbreviation Handler := (BitTorrentHandler Strm BV UserData Instant UpgrErr).
#[local] Abbreviation Event := (ProtocolsHandlerEvent BV UserData Instant UpgrErr).
Implicit Types h : Handler.
Implicit Types s : Strm.

(** Assignments to the fields that change *)
Definition with_substreams l h : Handler :=
  mkBitTorrentHandler (config h) l (keep_alive h) (seed_leech h) (next_connec_unique_id h).
Definition with_keep_alive k h : Handler :=
  mkBitTorrentHandler (config h) (substreams h) k (seed_leech h) (next_connec_unique_id h).
Definition with_next_connec n h : Handler :=
  mkBitTorrentHandler (config h) (substreams h) (keep_alive h) (seed_leech h) n.

(** [self.substreams.push(state)] *)
Definition push_substream (st : State) h : Handler := with_substreams (substreams h ++ [st]) h.

(** [with_seed_leech_config]: the argument is not looked at. *)
Definition with_seed_leech_config (seed_leech : SeedLeechConfig) : Handler :=
  {| config := BitTorrentProtocolConfig_default;
     substreams := [];
     keep_alive := KeepAlive_Yes;
     seed_leech := SeedLeechConfig_default;
     next_connec_unique_id := 0 |}.

Definition handler_leech_only : Handler := with_seed_leech_config LeechOnly.
Definition handler_seed_only : Handler := with_seed_leech_config SeedOnly.
Definition handler_seed_and_leech : Handler := with_seed_leech_config SeedAndLeech.

(** [try_close] *)
Definition try_close (st : State) : State * poll unit :=
  let close s (f : Strm -> State) : State * poll unit :=
    match sink_poll_close s with
    | (s, Ready _) => (f s, Ready tt)
    | (s, Pending) => (f s, Pending)
    end in
  match st with
  | OutPendingOpen _ _ | OutReportError _ _ => (st, Ready tt)
  | OutPendingSend stream msg u => close stream (fun s => OutPendingSend s msg u)
  | OutPendingFlush stream u => close stream (fun s => OutPendingFlush s u)
  | OutWaitingAnswer stream u i => close stream (fun s => OutWaitingAnswer s u i)
  | OutClosing stream => close stream OutClosing
  | InWaitingMessage id stream => close stream (InWaitingMessage id)
  | InWaitingUser id stream => close stream (InWaitingUser id)
  | InPendingSend id stream msg => close stream (fun s => InPendingSend id s msg)
  | InPendingFlush id stream => close stream (InPendingFlush id)
  | InClosing stream => close stream InClosing
  end.

(** [listen_protocol]: [SubstreamProtocol::new] wraps the configuration. *)
Definition listen_protocol h : BitTorrentProtocolConfig := config h.

(** [inject_fully_negotiated_inbound] *)
Definition inject_fully_negotiated_inbound (protocol : Strm) h : outcome Handler :=
  let connec_unique_id := next_connec_unique_id h in
  next ← checked 64 (next_connec_unique_id h + 1);
  Ret (push_substream (InWaitingMessage connec_unique_id protocol) (with_next_connec next h)).

(** [inject_fully_negotiated_outbound] *)
Definition inject_fully_negotiated_outbound (protocol : Strm)
    (info : PeerMessage BV * option UserData) h : Handler :=
  push_substream (OutPendingSend protocol info.1 info.2) h.

(** The position of the substream that waits for the answer to a request *)
Definition waiting_position (request_id : BitTorrentRequestId) (l : list State) : option nat :=
  position (fun st => match st with
                      | InWaitingUser conn_id _ => conn_id =? request_id
                      | _ => false
                      end) l.

(** The answer to a request of the remote, when its substream waits for it *)
Definition answer_request (request_id : BitTorrentRequestId) (msg : PeerMessage BV) h : Handler :=
  match waiting_position request_id (substreams h) with
  | Some pos =>
      match substreams h !! pos with
      | Some (InWaitingUser conn_id substream) =>
          push_substream (InPendingSend conn_id substream msg)
            (with_substreams (delete pos (substreams h)) h)
      | _ => h
      end
  | None => h
  end.

(** A substream that waits for an answer is dropped, after an attempt to close
    it whose result is not looked at. *)
Definition drop_waiting (pos : nat) h : Handler :=
  match substreams h !! pos with
  | Some st => let '(_, _) := try_close st in with_substreams (delete pos (substreams h)) h
  | None => h
  end.

(** [inject_event] *)
Definition inject_event (message : BitTorrentHandlerIn BV UserData Instant) h : Handler :=
  match message with
  | HI_Disconnect timeout =>
      match timeout with
      | Some timeout => with_keep_alive (KeepAlive_Until timeout) h
      | None => with_keep_alive KeepAlive_No h
      end
  | HI_Reset request_id =>
      match waiting_position request_id (substreams h) with
      | Some pos => drop_waiting pos h
      | None => h
      end
  | HI_HandshakeReq handshake user_data =>
      push_substream (OutPendingOpen (PM_Handshake handshake) (Some user_data)) h
  | HI_BitfieldReq index_field user_data =>
      push_substream (OutPendingOpen (PM_Bitfield index_field) (Some user_data)) h
  | HI_Choke inner =>
      let msg := match inner with Choked => PM_Choke | UnChoked => PM_UnChoke end in
      push_substream (OutPendingOpen msg None) h
  | HI_Interest inner =>
      let msg :=
        match inner with Interested => PM_Interested | NotInterested => PM_NotInterested end in
      push_substream (OutPendingOpen msg None) h
  | HI_GetPieceReq request user_data =>
      push_substream (OutPendingOpen (PM_Request request) (Some user_data)) h
  | HI_GetPieceRes piece request_id => answer_request request_id (PM_Piece piece) h
  | HI_CancelPiece request request_id =>
      match waiting_position request_id (substreams h) with
      | Some pos => drop_waiting pos h
      | None => push_substream (OutPendingOpen (PM_Cancel request) None) h
      end
  | HI_Have index => push_substream (OutPendingOpen (PM_Have index) None) h
  | HI_KeepAlive => push_substream (OutPendingOpen PM_KeepAlive None) h
  | HI_HandshakeRes handshake request_id => answer_request request_id (PM_Handshake handshake) h
  | HI_BitfieldRes index_field request_id =>
      answer_request request_id (PM_Bitfield index_field) h
  end.

(** [inject_dial_upgrade_error] *)
Definition inject_dial_upgrade_error (info : PeerMessage BV * option UserData) (error : UpgrErr)
    h : Handler :=
  match info.2 with
  | Some user_data => push_substream (OutReportError (HTE_Upgrade error) user_data) h
  | None => h
  end.

(** [connection_keep_alive] *)
Definition connection_keep_alive h : ConnKeepAlive Instant := keep_alive h.

(** [process_btt_in]: a message that opens a substream of the remote *)
Definition process_btt_in (now : Instant) (event : PeerMessage BV) (id : UniqueConnecId) :
    outcome (BitTorrentHandlerEvent BV UserData Instant UpgrErr) :=
  match event with
  | PM_Handshake handshake => Ret (HO_HandshakeReq handshake id)
  | PM_Bitfield index_field => Ret (HO_BitfieldReq index_field id)
  | PM_KeepAlive => Ret (HO_KeepAlive now)
  | PM_Choke => Ret (HO_Choke Choked)
  | PM_UnChoke => Ret (HO_Choke UnChoked)
  | PM_Interested => Ret (HO_Interest Interested)
  | PM_NotInterested => Ret (HO_Interest NotInterested)
  | PM_Have index => Ret (HO_Have index)
  | PM_Request request => Ret (HO_GetPieceReq request id)
  | PM_Cancel request => Ret (HO_CancelPiece request id)
  | PM_Piece piece => Ret (HO_TorrentErr (HTE_UnexpectedMessage (PM_Piece piece)) None)
  | PM_Port port => Panic
  end.

(** [process_btt_out]: a message that answers one of our requests *)
Definition process_btt_out (msg : PeerMessage BV) (user_data : UserData) :
    outcome (BitTorrentHandlerEvent BV UserData Instant UpgrErr) :=
  match msg with
  | PM_Bitfield index_field => Ret (HO_BitfieldRes index_field user_data)
  | PM_Piece piece => Ret (HO_GetPieceRes piece user_data)
  | PM_Handshake handshake => Ret (HO_HandshakeRes handshake user_data)
  | PM_Port _ => Panic
  | msg => Ret (HO_TorrentErr (HTE_UnexpectedMessage msg) (Some user_data))
  end.

(** The event that reports an error of a substream to whoever expects an answer *)
Definition report_io (error : io_error) (user_data : option UserData) : option Event :=
  match user_data with
  | Some user_data => Some (Custom (HO_TorrentErr (HTE_Io error) (Some user_data)))
  | None => None
  end.

(** The new state of a substream, an event to generate, and whether the
    substream should be polled again *)
#[local] Abbreviation Advance := (outcome (option State * option Event * bool)).

(** A message waits to be sent. *)
Definition advance_out_pending_send (substream : Strm) (msg : PeerMessage BV)
    (user_data : option UserData) : Advance :=
  let '(substream, p) := sink_poll_ready substream in
  match p with
  | Ready (Ok _) =>
      '(substream, r) ← sink_start_send substream msg;
      match r with
      | Ok _ => Ret (Some (OutPendingFlush substream user_data), None, true)
      | Err error => Ret (None, report_io error user_data, false)
      end
  | Pending => Ret (Some (OutPendingSend substream msg user_data), None, false)
  | Ready (Err error) => Ret (None, report_io error user_data, false)
  end.

(** A message waits for the flush of its substream. *)
Definition advance_out_pending_flush (now : Instant) (substream : Strm)
    (user_data : option UserData) : Advance :=
  let '(substream, p) := sink_poll_flush substream in
  match p with
  | Ready (Ok _) =>
      match user_data with
      | Some user_data => Ret (Some (OutWaitingAnswer substream user_data now), None, true)
      | None => Ret (Some (OutClosing substream), None, true)
      end
  | Pending => Ret (Some (OutPendingFlush substream user_data), None, false)
  | Ready (Err error) => Ret (None, report_io error user_data, false)
  end.

(** A request waits for its answer. *)
Definition advance_out_waiting_answer (substream : Strm) (user_data : UserData)
    (instant : Instant) : Advance :=
  '(substream, p) ← stream_poll_next substream;
  match p with
  | Ready (Some (Ok msg)) =>
      event ← process_btt_out msg user_data;
      Ret (Some (OutClosing substream), Some (Custom event), true)
  | Pending => Ret (Some (OutWaitingAnswer substream user_data instant), None, false)
  | Ready (Some (Err error)) =>
      Ret (None, Some (Custom (HO_TorrentErr (HTE_Io error) (Some user_data))), false)
  | Ready None =>
      Ret (None, Some (Custom (HO_TorrentErr (HTE_Io (io_Error UnexpectedEof ""))
                                 (Some user_data))), false)
  end.

(** An inbound substream waits for a message. *)
Definition advance_in_waiting_message (now : Instant) (id : UniqueConnecId)
    (substream : Strm) : Advance :=
  '(substream, p) ← stream_poll_next substream;
  match p with
  | Ready (Some (Ok msg)) =>
      ev ← process_btt_in now msg id;
      Ret (Some (InWaitingUser id substream), Some (Custom ev), false)
  | Pending => Ret (Some (InWaitingMessage id substream), None, false)
  | Ready None => Ret (None, None, false)
  | Ready (Some (Err _)) => Ret (None, None, false)
  end.

(** An answer waits to be sent. *)
Definition advance_in_pending_send (id : UniqueConnecId) (substream : Strm)
    (msg : PeerMessage BV) : Advance :=
  let '(substream, p) := sink_poll_ready substream in
  match p with
  | Ready (Ok _) =>
      '(substream, r) ← sink_start_send substream msg;
      match r with
      | Ok _ => Ret (Some (InPendingFlush id substream), None, true)
      | Err _ => Ret (None, None, false)
      end
  | Pending => Ret (Some (InPendingSend id substream msg), None, false)
  | Ready (Err _) => Ret (None, None, false)
  end.

(** An answer waits for the flush of its substream. *)
Definition advance_in_pending_flush (id : UniqueConnecId) (substream : Strm) : Advance :=
  let '(substream, p) := sink_poll_flush substream in
  match p with
  | Ready (Ok _) => Ret (Some (InWaitingMessage id substream), None, true)
  | Pending => Ret (Some (InPendingFlush id substream), None, false)
  | Ready (Err _) => Ret (None, None, false)
  end.

(** A substream that the client closes, and one that the remote had opened *)
Definition advance_out_closing (stream : Strm) : Advance :=
  let '(stream, p) := sink_poll_close stream in
  match p with
  | Ready (Ok _) => Ret (None, None, false)
  | Pending => Ret (Some (OutClosing stream), None, false)
  | Ready (Err _) => Ret (None, None, false)
  end.
Definition advance_in_closing (stream : Strm) : Advance :=
  let '(stream, p) := sink_poll_close stream in
  match p with
  | Ready (Ok _) => Ret (None, None, false)
  | Pending => Ret (Some (InClosing stream), None, false)
  | Ready (Err _) => Ret (None, None, false)
  end.

(** [advance_substream] *)
Definition advance_substream (now : Instant) (st : State) (upgrade : BitTorrentProtocolConfig) :
    Advance :=
  match st with
  | OutPendingOpen msg user_data =>
      Ret (None, Some (OutboundSubstreamRequest upgrade (msg, user_data)), false)
  | OutPendingSend substream msg user_data => advance_out_pending_send substream msg user_data
  | OutPendingFlush substream user_data => advance_out_pending_flush now substream user_data
  | OutWaitingAnswer substream user_data instant =>
      advance_out_waiting_answer substream user_data instant
  | OutReportError error user_data =>
      Ret (None, Some (Custom (HO_TorrentErr error (Some user_data))), false)
  | OutClosing stream => advance_out_closing stream
  | InWaitingMessage id substream => advance_in_waiting_message now id substream
  | InWaitingUser id substream => Ret (Some (InWaitingUser id substream), None, false)
  | InPendingSend id substream msg => advance_in_pending_send id substream msg
  | InPendingFlush id substream => advance_in_pending_flush id substream
  | InClosing stream => advance_in_closing stream
  end.

(** The inner loop of [poll] on one substream: what becomes of it, and the
    event [poll] returns.  [clock] gives the time at each step; none when
    [fuel] steps are not enough. *)
Fixpoint advance_loop (fuel : nat) (clock : nat -> Instant) (upgrade : BitTorrentProtocolConfig)
    (st : State) : outcome (option (option State * option Event)) :=
  match fuel with
  | O => Ret None
  | S fuel =>
      '(new_state, event, again) ← advance_substream (clock fuel) st upgrade;
      match new_state, event, again with
      | Some new_state, Some event, _ => Ret (Some (Some new_state, Some event))
      | None, Some event, _ => Ret (Some (None, Some event))
      | Some new_state, None, false => Ret (Some (Some new_state, None))
      | Some new_state, None, true => advance_loop fuel clock upgrade new_state
      | None, None, _ => Ret (Some (None, None))
      end
  end.

(** The loop of [poll] over the substreams, from the [n]-th one down *)
Fixpoint poll_substreams (fuel n : nat) (clock : nat -> nat -> Instant) h :
    outcome (option (Handler * option Event)) :=
  match n with
  | O => Ret (Some (h, None))
  | S i =>
      '(substream, rest) ← unwrap (swap_remove i (substreams h));
      res ← advance_loop fuel (clock i) (config h) substream;
      let h := with_substreams rest h in
      match res with
      | None => Ret None
      | Some (new_state, event) =>
          let h := match new_state with Some st => push_substream st h | None => h end in
          match event with
          | Some event => Ret (Some (h, Some event))
          | None => poll_substreams fuel i clock h
          end
      end
  end.

(** [poll].  [clock i k] is the time at a step of the [i]-th substream, [now]
    the one behind the loop. *)
Definition handler_poll (fuel : nat) (clock : nat -> nat -> Instant) (now : Instant) h :
    outcome (option (Handler * poll Event)) :=
  res ← poll_substreams fuel (length (substreams h)) clock h;
  match res with
  | None => Ret None
  | Some (h, Some event) => Ret (Some (h, Ready event))
  | Some (h, None) =>
      if bool_decide (substreams h = []) then
        Ret (Some (with_keep_alive (KeepAlive_Until (instant_plus_secs now 20)) h, Pending))
      else Ret (Some (with_keep_alive KeepAlive_Yes h, Pending))
  end.
End Handler.

(** ** Specification *)

Section HandlerSpec.
Context `{MessageStream Strm (PeerMessage BV)} {UserData : Type} `{InstantAdd Instant}.
Context {UpgrErr : Type} `{Profile}.
#[local] Abbreviation State := (SubstreamState Strm BV UserData Instant UpgrErr).
#[local] Abbreviation Handler := (BitTorrentHandler Strm BV UserData Instant UpgrErr).
#[local] Abbreviation Event := (ProtocolsHandlerEvent BV UserData Instant UpgrErr).
Implicit Types h : Handler.

(** The data of a request of ours a substream carries *)
Definition state_data (st : State) : option UserData :=
  match st with
  | OutPendingOpen _ u | OutPendingSend _ _ u | OutPendingFlush _ u => u
  | OutWaitingAnswer _ u _ | OutReportError _ u => Some u
  | _ => None
  end.

(** The message a substream has to send *)
Definition state_message (st : State) : option (PeerMessage BV) :=
  match st with
  | OutPendingOpen m _ | OutPendingSend _ m _ | InPendingSend _ _ m => Some m
  | _ => None
  end.

(** The stream of a substream *)
Definition state_stream (st : State) : option Strm :=
  match st with
  | OutPendingOpen _ _ | OutReportError _ _ => None
  | OutPendingSend s _ _ | OutPendingFlush s _ | OutWaitingAnswer s _ _ | OutClosing s
  | InWaitingMessage _ s | InWaitingUser _ s | InPendingSend _ s _ | InPendingFlush _ s
  | InClosing s => Some s
  end.

(** [P] is a property of streams that stays true whatever is done with them, and
    such a stream neither panics, when messages with [M] are sent, nor yields
    a Port message. *)
Record calm_streams (P : Strm -> Prop) (M : PeerMessage BV -> Prop) : Prop := {
  calm_ready s : P s -> P (sink_poll_ready s).1;
  calm_send s m : P s -> M m -> returns (sink_start_send s m) (fun r => P r.1);
  calm_flush s : P s -> P (sink_poll_flush s).1;
  calm_close s : P s -> P (sink_poll_close s).1;
  calm_next s : P s -> returns (stream_poll_next s)
    (fun r => P r.1 /\ forall port, r.2 <> Ready (Some (Ok (PM_Port port))));
}.

(** The stream and the message of a substream have these properties. *)
Definition state_calm (P : Strm -> Prop) (M : PeerMessage BV -> Prop) (st : State) : Prop :=
  (forall s, state_stream st = Some s -> P s) /\ (forall m, state_message st = Some m -> M m).

(** The connection of a request of the remote a substream serves *)
Definition state_id (st : State) : option UniqueConnecId :=
  match st with
  | InWaitingMessage id _ | InWaitingUser id _ | InPendingSend id _ _ | InPendingFlush id _ =>
      Some id
  | _ => None
  end.

(** The data of the request an event answers *)
Definition answered_data (ev : BitTorrentHandlerEvent BV UserData Instant UpgrErr) :
    option UserData :=
  match ev with
  | HO_HandshakeRes _ u | HO_BitfieldRes _ u | HO_GetPieceRes _ u => Some u
  | HO_TorrentErr _ u => u
  | _ => None
  end.

(** What [poll] answers, and what it asks the swarm to open *)
Definition event_answer (ev : Event) : option UserData :=
  match ev with Custom ev => answered_data ev | OutboundSubstreamRequest _ _ => None end.
Definition event_open (ev : Event) : option (PeerMessage BV * option UserData) :=
  match ev with Custom _ => None | OutboundSubstreamRequest _ info => Some info end.
Definition event_data (ev : Event) : option UserData :=
  match ev with Custom ev => answered_data ev | OutboundSubstreamRequest _ info => info.2 end.

(** The data of the request an event asks for *)
Definition asked_data (m : BitTorrentHandlerIn BV UserData Instant) : option UserData :=
  match m with
  | HI_HandshakeReq _ u | HI_BitfieldReq _ u | HI_GetPieceReq _ u => Some u
  | _ => None
  end.

(** The request of the remote an event is about *)
Definition in_request_id (m : BitTorrentHandlerIn BV UserData Instant) : option Z :=
  match m with
  | HI_Reset id | HI_HandshakeRes _ id | HI_BitfieldRes _ id | HI_GetPieceRes _ id
  | HI_CancelPiece _ id => Some id
  | _ => None
  end.
Definition out_request_id (ev : BitTorrentHandlerEvent BV UserData Instant UpgrErr) : option Z :=
  match ev with
  | HO_HandshakeReq _ id | HO_BitfieldReq _ id | HO_GetPieceReq _ id | HO_CancelPiece _ id =>
      Some id
  | _ => None
  end.

Definition opt_list {A} (o : option A) : list A := match o with Some a => [a] | None => [] end.

(** What the substreams carry, and the connections they serve *)
Definition carried h : list UserData := omap state_data (substreams h).
Definition served h : list UniqueConnecId := omap state_id (substreams h).

(** The runs of a handler: the data of the requests it was asked to send, those
    it gave back with an event, and the substreams the swarm is to open.  The
    counter of connections does not reach the end of its 64 bits. *)
Inductive handler_run :
    list UserData -> list UserData -> list (PeerMessage BV * option UserData) -> Handler -> Prop :=
| run_new c : handler_run [] [] [] (with_seed_leech_config c)
| run_inbound asked answered opening h s h' :
    handler_run asked answered opening h -> next_connec_unique_id h + 1 < 2 ^ 64 ->
    inject_fully_negotiated_inbound s h = Ret h' -> handler_run asked answered opening h'
| run_event asked answered opening h m :
    handler_run asked answered opening h ->
    handler_run (opt_list (asked_data m) ++ asked) answered opening (inject_event m h)
| run_outbound asked answered opening h info opening' s :
    handler_run asked answered opening h -> opening ≡ₚ info :: opening' ->
    handler_run asked answered opening' (inject_fully_negotiated_outbound s info h)
| run_dial_error asked answered opening h info opening' e :
    handler_run asked answered opening h -> opening ≡ₚ info :: opening' ->
    handler_run asked answered opening' (inject_dial_upgrade_error info e h)
| run_poll asked answered opening h fuel clock now h' p :
    handler_run asked answered opening h -> handler_poll fuel clock now h = Ret (Some (h', p)) ->
    handler_run asked
      (match p with Ready ev => opt_list (event_answer ev) | Pending => [] end ++ answered)
      (match p with Ready ev => opt_list (event_open ev) | Pending => [] end ++ opening) h'.

(** A step of the handler in which nobody speaks of this request of the remote *)
Inductive step_without (id : UniqueConnecId) : Handler -> Handler -> Prop :=
| without_inbound h s h' :
    inject_fully_negotiated_inbound s h = Ret h' -> step_without id h h'
| without_event h m : in_request_id m <> Some id -> step_without id h (inject_event m h)
| without_outbound h s info : step_without id h (inject_fully_negotiated_outbound s info h)
| without_dial_error h info e : step_without id h (inject_dial_upgrade_error info e h)
| without_poll h fuel clock now h' p :
    handler_poll fuel clock now h = Ret (Some (h', p)) -> step_without id h h'.

(** What crosses the connection: the bytes a substream has sent, and those of
    the remote it has not decoded yet, the ones on the way included *)
Class StreamBytes (S : Type) := {
  stream_sent : S -> list byte;
  stream_incoming : S -> list byte;
}.

(** "[Framed]: a unified Stream and Sink interface to an underlying I/O object,
    using the Encoder and Decoder traits": a message is sent by appending what
    [encode] writes, and received by [decode] from what has arrived. *)
Class MessageStreamLaws `{BitVec BV, ByteOrder} (S : Type) `{MessageStream S (PeerMessage BV)}
    `{StreamBytes S} `{Profile} : Prop := {
  poll_ready_sent s s' r : sink_poll_ready s = (s', r) -> stream_sent s' = stream_sent s;
  start_send_encodes s m s' :
    sink_start_send s m = Ret (s', Ok tt) ->
    encode m (stream_sent s) = Ret (stream_sent s');
  poll_next_decodes s m s' :
    stream_poll_next s = Ret (s', Ready (Some (Ok m))) ->
    exists arrived left coming, stream_incoming s = arrived ++ coming /\
      decode arrived = Ret (left, Ok (Some m)) /\ stream_incoming s' = left ++ coming;
}.

(** The messages nobody answers *)
Definition one_way (msg : PeerMessage BV) : Prop :=
  match msg with
  | PM_KeepAlive | PM_Choke | PM_UnChoke | PM_Interested | PM_NotInterested | PM_Have _
  | PM_Piece _ => True
  | _ => False
  end.
End HandlerSpec.

(** ** Lemmas *)

(** Opens the step of one substream. *)
Ltac advance_in H :=
  cbv beta iota zeta delta
      [advance_substream advance_out_pending_send advance_out_pending_flush advance_out_waiting_answer advance_out_closing advance_in_closing
       advance_in_waiting_message advance_in_pending_send advance_in_pending_flush] in H.

Section HandlerLemmas.
Context `{MessageStream Strm (PeerMessage BV)} {UserData : Type} `{InstantAdd Instant}.
Context {UpgrErr : Type} `{Profile}.
#[local] Abbreviation State := (SubstreamState Strm BV UserData Instant UpgrErr).
#[local] Abbreviation Handler := (BitTorrentHandler Strm BV UserData Instant UpgrErr).
#[local] Abbreviation Event := (ProtocolsHandlerEvent BV UserData Instant UpgrErr).
Implicit Types h : Handler.

Lemma process_btt_out_data (msg : PeerMessage BV) u
    (ev : BitTorrentHandlerEvent BV UserData Instant UpgrErr) :
  process_btt_out msg u = Ret ev -> answered_data ev = Some u.
Proof. by destruct msg; intros [= <-]. Qed.

Lemma process_btt_in_data now (msg : PeerMessage BV) id
    (ev : BitTorrentHandlerEvent BV UserData Instant UpgrErr) :
  process_btt_in now msg id = Ret ev ->
  answered_data ev = None /\ (out_request_id ev = Some id \/ out_request_id ev = None).
Proof. destruct msg; intros [= <-]; simpl; auto. Qed.

Ltac case_advance H :=
  repeat (simplify_eq/=; first
    [ inv_bind H
    | match type of H with
      | context [let '(_, _) := ?x in _] => destruct x eqn:?
      | context [match ?x with _ => _ end] => is_var x; destruct x
      end ]); simplify_eq/=.

(** A step on a substream passes on the data it carries and keeps its connection. *)
Lemma advance_substream_data now (st : State) c st' ev again :
  advance_substream now st c = Ret (st', ev, again) ->
  opt_list (state_data st) =
    opt_list (ev ≫= event_data) ++ opt_list (st' ≫= state_data) /\
  (forall i, st' ≫= state_id = Some i -> state_id st = Some i).
Proof.
  intros Ha. destruct st; advance_in Ha; case_advance Ha; try done.
  - by rewrite app_nil_r.
  - by destruct user_data.
  - by destruct user_data.
  - by destruct user_data.
  - by erewrite process_btt_out_data by done.
  - by edestruct process_btt_in_data as [-> _].
Qed.

(** Three steps of the inner loop are enough. *)
Definition state_rank (st : State) : nat :=
  match st with
  | OutPendingSend _ _ _ | InPendingSend _ _ _ => 2
  | OutPendingFlush _ _ | InPendingFlush _ _ => 1
  | _ => 0
  end.

Lemma advance_substream_rank now (st : State) c st' :
  advance_substream now st c = Ret (Some st', None, true) -> (state_rank st' < state_rank st)%nat.
Proof.
  intros Ha. destruct st; advance_in Ha; case_advance Ha; simpl; lia.
Qed.

Lemma advance_loop_returns fuel clock c (st : State) :
  (state_rank st < fuel)%nat -> advance_loop fuel clock c st <> Ret None.
Proof.
  revert st. induction fuel as [|fuel IH]; intros st Hr; [lia|]. cbn [advance_loop].
  destruct (advance_substream _ _ _) as [[[[st'|] [ev|]] []]|] eqn:Ea; simpl; try done.
  apply IH. apply advance_substream_rank in Ea. lia.
Qed.

Lemma advance_loop_data fuel clock c (st : State) st' ev :
  advance_loop fuel clock c st = Ret (Some (st', ev)) ->
  opt_list (state_data st) =
    opt_list (ev ≫= event_data) ++ opt_list (st' ≫= state_data) /\
  (forall i, st' ≫= state_id = Some i -> state_id st = Some i).
Proof.
  revert st. induction fuel as [|fuel IH]; intros st Ha; [done|]. cbn [advance_loop] in Ha.
  inv_bind Ha. destruct a as [[st1 ev1] again]. apply advance_substream_data in Ha0 as [Hd Hi].
  destruct st1 as [st1|], ev1 as [ev1|]; [injection Ha as <- <-; done| |by injection Ha as <- <-..].
  destruct again; [|by injection Ha as <- <-].
  apply IH in Ha as [Hd' Hi']. simpl in *. split; [congruence|]. intros i Hst'. auto.
Qed.

(** Only a Port message makes the handler panic. *)
Lemma process_btt_in_returns now (m : PeerMessage BV) id :
  (forall port, m <> PM_Port port) ->
  returns (process_btt_in (Instant := Instant) (UserData := UserData) (UpgrErr := UpgrErr) now m id)
    (fun _ => True).
Proof. destruct m; try done. intros Hm. by destruct (Hm port). Qed.

Lemma process_btt_out_returns (m : PeerMessage BV) (u : UserData) :
  (forall port, m <> PM_Port port) ->
  returns (process_btt_out (Instant := Instant) (UpgrErr := UpgrErr) m u) (fun _ => True).
Proof. destruct m; try done. intros Hm. by destruct (Hm port). Qed.

Lemma state_calm_intro P M (st : State) :
  match state_stream st with Some s => P s | None => True end ->
  match state_message st with Some m => M m | None => True end -> state_calm P M st.
Proof. intros Hs Hm. split; [intros s Es|intros m Em]; [by rewrite Es in Hs|by rewrite Em in Hm]. Qed.

Definition step_calm (P : Strm -> Prop) (M : PeerMessage BV -> Prop)
    (r : option State * option Event * bool) : Prop :=
  forall st, r.1.1 = Some st -> state_calm P M st.

Ltac calm_done := simpl; intros ? [= <-]; by apply state_calm_intro.

Lemma advance_send_returns P M now (st : State) c s m :
  calm_streams P M -> state_stream st = Some s -> state_message st = Some m ->
  P s -> M m -> returns (advance_substream now st c) (step_calm P M).
Proof.
  intros Hc Hs Hm Hp HM. apply (calm_ready _ _ Hc) in Hp.
  assert (forall s, P s -> returns (sink_start_send s m) (fun r => P r.1)) as Hsend
    by (intros; by apply Hc).
  destruct st; simplify_eq/=; unfold advance_out_pending_send, advance_in_pending_send;
    destruct (sink_poll_ready s) as [s1 [[[]|e]|]]; simpl in Hp; try done; try calm_done;
    (eapply returns_bind; [by apply Hsend|]); intros [s2 [[]|e]] Hp2; try done; calm_done.
Qed.

Lemma advance_wait_returns P M now (st : State) c s :
  calm_streams P M -> state_stream st = Some s -> state_message st = None ->
  P s -> returns (advance_substream now st c) (step_calm P M).
Proof.
  intros Hc Hs Hm Hp. pose proof (calm_next _ _ Hc _ Hp) as Hn.
  pose proof (calm_flush _ _ Hc _ Hp) as Hf. pose proof (calm_close _ _ Hc _ Hp) as Hcl.
  destruct st; simplify_eq/=; unfold advance_out_pending_flush, advance_out_waiting_answer,
    advance_out_closing, advance_in_waiting_message, advance_in_pending_flush, advance_in_closing.
  - destruct (sink_poll_flush s) as [s1 [[[]|e]|]]; simpl in Hf; [|done|calm_done].
    destruct user_data; calm_done.
  - eapply returns_bind; [done|]. intros [s1 [[[m|e]|]|]] [Hp1 Hport]; try done; [|calm_done].
    eapply returns_bind; [apply process_btt_out_returns; naive_solver|]. intros ev _. calm_done.
  - destruct (sink_poll_close s) as [s1 [[[]|e]|]]; simpl in Hcl; [done|done|calm_done].
  - eapply returns_bind; [done|]. intros [s1 [[[m|e]|]|]] [Hp1 Hport]; try done; [|calm_done].
    eapply returns_bind; [apply process_btt_in_returns; naive_solver|]. intros ev _. calm_done.
  - calm_done.
  - destruct (sink_poll_flush s) as [s1 [[[]|e]|]]; simpl in Hf; [calm_done|done|calm_done].
  - destruct (sink_poll_close s) as [s1 [[[]|e]|]]; simpl in Hcl; [done|done|calm_done].
Qed.

(** On calm streams a step does not panic, and what it leaves is calm. *)
Lemma advance_substream_returns P M now (st : State) c :
  calm_streams P M -> state_calm P M st -> returns (advance_substream now st c) (step_calm P M).
Proof.
  intros Hc [Hs Hm]. destruct (state_stream st) as [s|] eqn:Es.
  - destruct (state_message st) as [m|] eqn:Em.
    + by eapply advance_send_returns; eauto.
    + by eapply advance_wait_returns; eauto.
  - by destruct st.
Qed.

Lemma advance_loop_calm P M fuel clock c (st : State) :
  calm_streams P M -> state_calm P M st ->
  returns (advance_loop fuel clock c st)
    (fun r => forall st' ev, r = Some (st', ev) -> step_calm P M (st', ev, false)).
Proof.
  intros Hc. revert st. induction fuel as [|fuel IH]; intros st Hst; [done|]. cbn [advance_loop].
  eapply returns_bind; [by apply advance_substream_returns|].
  intros [[[st1|] [ev|]] again] Hst1; simpl; try by intros ? ? [= <- <-].
  destruct again; [by apply IH, Hst1|]. by intros ? ? [= <- <-].
Qed.

(** Substreams that wait for an answer are not touched. *)
Lemma advance_loop_waiting fuel clock c id s st' (ev : option Event) :
  advance_loop fuel clock c (InWaitingUser id s) = Ret (Some (st', ev)) ->
  st' = Some (InWaitingUser id s) /\ ev = None.
Proof. destruct fuel; [done|]. by intros [= <- <-]. Qed.

(** *** The loop over the substreams *)

Lemma omap_Permutation' {A B} (f : A -> option B) l1 l2 :
  l1 ≡ₚ l2 -> omap f l1 ≡ₚ omap f l2.
Proof. by intros ->. Qed.

Lemma omap_cons_opt {A B} (f : A -> option B) x l : omap f (x :: l) = opt_list (f x) ++ omap f l.
Proof. simpl. by destruct (f x). Qed.

Lemma omap_opt_list {A B} (f : A -> option B) o : omap f (opt_list o) = opt_list (o ≫= f).
Proof. destruct o as [a|]; simpl; [|done]. by destruct (f a). Qed.

(** One round of [poll] with the substream [i] *)
Lemma poll_substreams_split fuel i clock h h' ev :
  poll_substreams fuel (S i) clock h = Ret (Some (h', ev)) ->
  exists st rest st' ev1,
    substreams h ≡ₚ st :: rest /\
    advance_loop fuel (clock i) (config h) st = Ret (Some (st', ev1)) /\
    let h1 := with_substreams (rest ++ opt_list st') h in
    match ev1 with
    | Some _ => h' = h1 /\ ev = ev1
    | None => poll_substreams fuel i clock h1 = Ret (Some (h', ev))
    end.
Proof.
  cbn [poll_substreams]. intros Hp. inv_bind Hp. destruct a as [st rest]. inv_bind Hp.
  destruct (swap_remove _ _) as [[x l]|] eqn:Es; [|done]. injection Ha as -> ->.
  apply swap_remove_Permutation in Es. destruct a as [[st' ev1]|]; [|done].
  exists st, rest, st', ev1. split_and!; [done..|].
  assert (match st' with Some s0 => push_substream s0 (with_substreams rest h)
    | None => with_substreams rest h end = with_substreams (rest ++ opt_list st') h) as Heq.
  { destruct st'; simpl; [done|]. by rewrite app_nil_r. }
  rewrite Heq in Hp. destruct ev1; [|done]. by injection Hp as <- <-.
Qed.

Lemma poll_substreams_data fuel n clock h h' ev :
  poll_substreams fuel n clock h = Ret (Some (h', ev)) ->
  carried h ≡ₚ opt_list (ev ≫= event_data) ++ carried h' /\
  (exists extra, served h ≡ₚ extra ++ served h') /\
  next_connec_unique_id h' = next_connec_unique_id h.
Proof.
  revert h. induction n as [|i IH]; intros h Hp.
  - injection Hp as <- <-. split_and!; [done|by exists []|done].
  - apply poll_substreams_split in Hp as (st & rest & st' & ev1 & Hs & Ha & Hp).
    apply advance_loop_data in Ha as [Hd Hi]. cbv zeta in Hp.
    set (h1 := with_substreams (rest ++ opt_list st') h) in *.
    assert (carried h ≡ₚ opt_list (ev1 ≫= event_data) ++ carried h1) as Hc.
    { unfold carried. etrans; [apply omap_Permutation', Hs|]. rewrite omap_cons_opt, Hd. simpl.
      rewrite omap_app, omap_opt_list. solve_Permutation. }
    assert (exists extra, served h ≡ₚ extra ++ served h1) as [extra He].
    { unfold served. setoid_rewrite (omap_Permutation' state_id _ _ Hs). rewrite omap_cons_opt. simpl.
      rewrite omap_app, omap_opt_list. destruct (st' ≫= state_id) as [j|] eqn:Ej.
      - exists []. rewrite (Hi j) by done. simpl. solve_Permutation.
      - exists (opt_list (state_id st)). simpl. by rewrite app_nil_r. }
    destruct ev1 as [ev1|].
    + destruct Hp as [-> ->]. split_and!; [done|by exists extra|done].
    + apply IH in Hp as (Hc' & [extra' He'] & Hn). split_and!; [by rewrite Hc|
      |by rewrite Hn]. exists (extra ++ extra'). by rewrite He, He', app_assoc.
Qed.

Lemma poll_substreams_returns fuel n clock h :
  (3 <= fuel)%nat -> poll_substreams fuel n clock h <> Ret None.
Proof.
  intros Hf. revert h. induction n as [|i IH]; intros h; [done|]. cbn [poll_substreams].
  destruct (unwrap _) as [[st rest]|]; simpl; [|done].
  destruct (advance_loop fuel (clock i) (config h) st) as [[[st' [ev|]]|]|] eqn:Ea; simpl; try done.
  intros _. apply (advance_loop_returns fuel (clock i) (config h) st); [|done].
  destruct st; simpl; lia.
Qed.

Lemma poll_substreams_calm P M fuel n clock h :
  calm_streams P M -> (n <= length (substreams h))%nat -> Forall (state_calm P M) (substreams h) ->
  returns (poll_substreams fuel n clock h)
    (fun r => forall h' ev, r = Some (h', ev) -> Forall (state_calm P M) (substreams h')).
Proof.
  intros Hc. revert h. induction n as [|i IH]; intros h Hn Hst; [by intros ? ? [= <- <-]|].
  cbn [poll_substreams].
  destruct (swap_remove_in_range i (substreams h)) as (st & rest & -> & Hp); [lia|]. simpl.
  rewrite Hp in Hst. apply Forall_cons in Hst as [Hst Hrest].
  apply Permutation_length in Hp. simpl in Hp.
  eapply returns_bind; [by apply advance_loop_calm|]. intros [[st' ev]|] Hst'; [|done].
  specialize (Hst' _ _ eq_refl). destruct st' as [st'|], ev as [ev|].
  - intros ? ? [= <- <-]. simpl. apply Forall_app_2; [done|]. constructor; [by apply Hst'|done].
  - apply IH; simpl; [rewrite length_app; simpl; lia|].
    apply Forall_app_2; [done|]. constructor; [by apply Hst'|done].
  - by intros ? ? [= <- <-].
  - apply IH; simpl; [lia|done].
Qed.

Lemma poll_substreams_waiting fuel n clock h h' ev id s :
  poll_substreams fuel n clock h = Ret (Some (h', ev)) ->
  InWaitingUser id s ∈ substreams h -> InWaitingUser id s ∈ substreams h'.
Proof.
  revert h. induction n as [|i IH]; intros h Hp Hin; [by injection Hp as <- <-|].
  apply poll_substreams_split in Hp as (st & rest & st' & ev1 & Hs & Ha & Hp). cbv zeta in Hp.
  assert (InWaitingUser id s ∈ rest ++ opt_list st') as Hin1.
  { rewrite Hs in Hin. apply elem_of_cons in Hin as [<-|Hin]; [|apply elem_of_app; by left].
    apply advance_loop_waiting in Ha as [-> _]. apply elem_of_app. right. left. }
  destruct ev1; [by destruct Hp as [-> _]|]. by eapply IH.
Qed.

Lemma handler_poll_inv fuel clock now h h' p :
  handler_poll fuel clock now h = Ret (Some (h', p)) ->
  exists h1 ev, poll_substreams fuel (length (substreams h)) clock h = Ret (Some (h1, ev)) /\
    substreams h' = substreams h1 /\ next_connec_unique_id h' = next_connec_unique_id h1 /\
    match ev with
    | Some ev => p = Ready ev
    | None => p = Pending /\
        keep_alive h' = if bool_decide (substreams h' = [])
                        then KeepAlive_Until (instant_plus_secs now 20) else KeepAlive_Yes
    end.
Proof.
  unfold handler_poll. intros Hp. inv_bind Hp. destruct a as [[h1 [ev|]]|]; [| |done].
  - injection Hp as <- <-. by eexists _, _.
  - exists h1, None. split; [done|]. case_bool_decide as Hb; injection Hp as <- <-; simpl.
    + by rewrite bool_decide_true.
    + by rewrite bool_decide_false.
Qed.

(** *** Runs *)

Lemma carried_push st h : carried (push_substream st h) ≡ₚ opt_list (state_data st) ++ carried h.
Proof.
  unfold carried. simpl. rewrite omap_app. simpl. 
  destruct (state_data st); simpl; solve_Permutation.
Qed.

Lemma served_push st h : served (push_substream st h) ≡ₚ opt_list (state_id st) ++ served h.
Proof.
  unfold served. simpl. rewrite omap_app. simpl.
  destruct (state_id st); simpl; solve_Permutation.
Qed.

Lemma waiting_position_Some id (l : list State) pos :
  waiting_position id l = Some pos -> exists s, l !! pos = Some (InWaitingUser id s).
Proof.
  intros Hp. apply position_Some in Hp as (st & Hst & Ht & _).
  destruct st; try done. apply Z.eqb_eq in Ht as ->. by eexists.
Qed.

Lemma delete_waiting h pos id s :
  substreams h !! pos = Some (InWaitingUser id s) ->
  substreams h ≡ₚ InWaitingUser id s :: delete pos (substreams h).
Proof. apply delete_Permutation. Qed.

(** What [inject_event] does to the substreams: nothing, a new one, or one that
    waited is answered or dropped *)
Lemma inject_event_cases m h :
  (substreams (inject_event m h) = substreams h /\ asked_data m = None) \/
  (exists st, inject_event m h = push_substream st h /\ state_data st = asked_data m /\
     state_id st = None) \/
  (asked_data m = None /\ exists pos id s l,
     in_request_id m = Some id /\ substreams h !! pos = Some (InWaitingUser id s) /\
     substreams (inject_event m h) = delete pos (substreams h) ++ l /\
     (l = [] \/ exists msg, l = [InPendingSend id s msg])).
Proof.
  assert (forall id msg, answer_request id msg h = h \/
    exists pos s, substreams h !! pos = Some (InWaitingUser id s) /\
      substreams (answer_request id msg h) =
        delete pos (substreams h) ++ [InPendingSend id s msg]) as Hans.
  { intros id msg. unfold answer_request.
    destruct (waiting_position id (substreams h)) as [pos|] eqn:Ep; [|by left].
    destruct (waiting_position_Some _ _ _ Ep) as [s Hs]. rewrite Hs. right. by exists pos, s. }
  assert (forall id pos, waiting_position id (substreams h) = Some pos -> exists s,
    substreams h !! pos = Some (InWaitingUser id s) /\
    substreams (drop_waiting pos h) = delete pos (substreams h) ++ []) as Hdrop.
  { intros id pos Ep. destruct (waiting_position_Some _ _ _ Ep) as [s Hs]. exists s.
    split; [done|]. unfold drop_waiting. rewrite Hs, app_nil_r. by destruct (try_close _). }
  destruct m as [[t|]|id|hs u|hs id|f u|f id|[]|[]|r u|pc id|r id|i|]; simpl;
    try (by left); try (right; left; eexists; split_and!; done).
  - destruct (waiting_position id _) as [pos|] eqn:Ep; [|by left].
    right; right. split; [done|]. destruct (Hdrop _ _ Ep) as (s & ? & ?).
    exists pos, id, s, []. auto.
  - destruct (Hans id (PM_Handshake hs)) as [->|(pos & s & ? & ?)]; [by left|].
    right; right. split; [done|]. exists pos, id, s. eexists. split_and!; [done..|]. eauto.
  - destruct (Hans id (PM_Bitfield f)) as [->|(pos & s & ? & ?)]; [by left|].
    right; right. split; [done|]. exists pos, id, s. eexists. split_and!; [done..|]. eauto.
  - destruct (Hans id (PM_Piece pc)) as [->|(pos & s & ? & ?)]; [by left|].
    right; right. split; [done|]. exists pos, id, s. eexists. split_and!; [done..|]. eauto.
  - destruct (waiting_position id _) as [pos|] eqn:Ep.
    + right; right. split; [done|]. destruct (Hdrop _ _ Ep) as (s & ? & ?).
      exists pos, id, s, []. auto.
    + right; left. by eexists.
Qed.

Lemma inject_event_carried m h :
  carried (inject_event m h) ≡ₚ opt_list (asked_data m) ++ carried h.
Proof.
  destruct (inject_event_cases m h) as [[Hs ->]|[(st & -> & <- & _)|
    (-> & pos & id & s & l & _ & Hpos & Hs & Hl)]].
  - unfold carried. by rewrite Hs.
  - apply carried_push.
  - unfold carried. rewrite Hs. simpl. rewrite omap_app.
    etrans; [|symmetry; apply omap_Permutation', (delete_waiting _ _ _ _ Hpos)]. simpl.
    destruct Hl as [->|[msg ->]]; simpl; by rewrite app_nil_r.
Qed.

Lemma inject_event_served m h :
  exists extra, served h ≡ₚ extra ++ served (inject_event m h).
Proof.
  destruct (inject_event_cases m h) as [[Hs _]|[(st & -> & _ & Hid)|
    (_ & pos & id & s & l & _ & Hpos & Hs & Hl)]].
  - exists []. unfold served. by rewrite Hs.
  - exists []. simpl. by rewrite served_push, Hid.
  - unfold served. rewrite Hs, omap_app.
    pose proof (omap_Permutation' state_id _ _ (delete_waiting _ _ _ _ Hpos)) as Hp. simpl in Hp.
    destruct Hl as [->|[msg ->]]; simpl.
    + exists [id]. by rewrite app_nil_r.
    + exists []. simpl. rewrite Hp. solve_Permutation.
Qed.

Lemma inject_event_next m h :
  next_connec_unique_id (inject_event m h) = next_connec_unique_id h.
Proof.
  destruct m as [[]|?|? ?|? ?|? ?|? ?|[]|[]|? ?|? ?|? ?|?|]; simpl; try done;
    unfold answer_request, drop_waiting; repeat case_match; done.
Qed.

(** The connections that are served are those that were opened, each once. *)
Definition ids_ok h : Prop :=
  NoDup (served h) /\ Forall (fun i => 0 <= i < next_connec_unique_id h) (served h) /\
  0 <= next_connec_unique_id h.

Lemma ids_ok_less h h' extra :
  ids_ok h -> served h ≡ₚ extra ++ served h' ->
  next_connec_unique_id h' = next_connec_unique_id h -> ids_ok h'.
Proof.
  intros (Hn & Hf & H0') He Hnext. unfold ids_ok. rewrite Hnext. rewrite He in Hn, Hf.
  apply NoDup_app in Hn as (_ & _ & Hn). apply Forall_app in Hf as [_ Hf]. done.
Qed.

Lemma handler_run_inv asked answered opening h :
  handler_run asked answered opening h ->
  asked ≡ₚ answered ++ omap snd opening ++ carried h /\ ids_ok h.
Proof.
  induction 1 as [c|asked answered opening h s h' Hr [IH Hids] Hmax Hi
    |asked answered opening h m Hr [IH Hids]
    |asked answered opening h info opening' s Hr [IH Hids] Ho
    |asked answered opening h info opening' e Hr [IH Hids] Ho
    |asked answered opening h fuel clock now h' p Hr [IH Hids] Hp].
  - split; [done|]. split_and!; [constructor|constructor|done].
  - unfold inject_fully_negotiated_inbound in Hi. destruct Hids as (Hn & Hf & H0').
    rewrite checked_in_range, bind_ret in Hi by (unfold in_range; lia). injection Hi as <-.
    set (h1 := with_next_connec _ h). rewrite carried_push. split; [done|].
    unfold ids_ok. rewrite served_push. simpl. split_and!; [| |lia].
    + apply NoDup_cons. split; [|done]. intros Hin. rewrite Forall_forall in Hf.
      apply Hf in Hin. lia.
    + constructor; [lia|]. eapply Forall_impl; [exact Hf|]. simpl. lia.
  - rewrite inject_event_carried. split; [rewrite IH; solve_Permutation|].
    destruct (inject_event_served m h) as [extra He].
    by eapply ids_ok_less; [exact Hids|exact He|apply inject_event_next].
  - unfold inject_fully_negotiated_outbound. rewrite carried_push. simpl. split.
    + rewrite IH. setoid_rewrite (omap_Permutation' snd _ _ Ho). rewrite omap_cons_opt. solve_Permutation.
    + eapply (ids_ok_less h _ []); [done| |done]. simpl. by rewrite served_push.
  - setoid_rewrite (omap_Permutation' snd _ _ Ho) in IH. rewrite omap_cons_opt in IH.
    unfold inject_dial_upgrade_error. destruct info.2 as [u|] eqn:Eu.
    + rewrite carried_push. simpl. split; [rewrite IH; simpl; solve_Permutation|].
      eapply (ids_ok_less h _ []); [done| |done]. simpl. by rewrite served_push.
    + by split; [rewrite IH|].
  - apply handler_poll_inv in Hp as (h1 & ev & Hp & Hs & Hn & Hev).
    apply poll_substreams_data in Hp as (Hc & [extra He] & Hn1).
    assert (carried h' = carried h1) as Hc1 by (unfold carried; by rewrite Hs).
    assert (served h' = served h1) as Hs1 by (unfold served; by rewrite Hs).
    split; [|eapply ids_ok_less; [exact Hids|by rewrite Hs1|congruence]].
    rewrite Hc1, IH, Hc. destruct ev as [ev|]; [subst p|by destruct Hev as [-> _]].
    destruct ev as [protocol info|ev]; simpl.
    + destruct (info.2); simpl; solve_Permutation.
    + destruct (answered_data ev); simpl; solve_Permutation.
Qed.
End HandlerLemmas.

(** *** Messages that cross a connection *)

Section CrossingLemmas.
Context `{BitVecLaws BV} `{ByteOrderLaws} `{MessageStream Strm (PeerMessage BV)}.
Context `{StreamBytes Strm} `{Profile} `{!MessageStreamLaws Strm}.

(** The first message on a substream is received as it was sent. *)
Lemma message_arrives (sA sA' sB sB' : Strm) m m' :
  PeerMessage_wf m -> PeerMessage_fits m -> ~ bitfield_collides m ->
  stream_sent sA = [] -> sink_start_send sA m = Ret (sA', Ok tt) ->
  stream_incoming sB = stream_sent sA' ->
  stream_poll_next sB = Ret (sB', Ready (Some (Ok m'))) -> m' = m.
Proof.
  intros Hwf Hfit Hcol Hempty Hsend Hcross Hrecv.
  apply start_send_encodes in Hsend. rewrite Hempty in Hsend. unfold encode in Hsend.
  inv_bind Hsend. injection Hsend as Hsent. pose proof (decode_as_bytes m a Hwf Hfit Hcol Ha) as Hd.
  apply poll_next_decodes in Hrecv as (arrived & left & coming & Hin & Hdec & _).
  apply (decode_found_extends arrived coming left m') in Hdec.
  rewrite <- Hin, Hcross, <- Hsent in Hdec. simpl in Hdec. congruence.
Qed.
End CrossingLemmas.

(** ** Properties *)

Section HandlerProperties.
Context `{MessageStream Strm (PeerMessage BV)} {UserData : Type} `{InstantAdd Instant}.
Context {UpgrErr : Type} `{Profile}.
#[local] Abbreviation State := (SubstreamState Strm BV UserData Instant UpgrErr).
#[local] Abbreviation Handler := (BitTorrentHandler Strm BV UserData Instant UpgrErr).
#[local] Abbreviation Event := (ProtocolsHandlerEvent BV UserData Instant UpgrErr).
Implicit Types h : Handler.

(** C15: In every run of a handler, each request it was asked to send is answered
    at most once and never forgotten: the data of the requests are those that
    were given back with an answer or an error, those of the substreams the
    swarm is opening, and those the substreams carry, each once. *)
Theorem requests_answered_once asked answered opening h :
  handler_run asked answered opening h ->
  asked ≡ₚ answered ++ omap snd opening ++ carried h.
Proof. intros Hr. by apply handler_run_inv in Hr as [? _]. Qed.

(** C21: In every run of a handler, no two substreams of the remote have the same
    identifier, so the answer to a request goes to the substream it came from,
    which takes it once; an answer to a request that is not open changes
    nothing. *)
Theorem answer_goes_to_request asked answered opening h piece id :
  handler_run asked answered opening h ->
  NoDup (served h) /\
  let h' := inject_event (HI_GetPieceRes piece id) h in
  (h' = h /\ (forall s, InWaitingUser id s ∉ substreams h) \/
   exists l1 s l2, substreams h = l1 ++ InWaitingUser id s :: l2 /\
     substreams h' = l1 ++ l2 ++ [InPendingSend id s (PM_Piece piece)] /\
     forall s', InWaitingUser id s' ∉ l1 ++ l2).
Proof.
  intros Hr. apply handler_run_inv in Hr as [_ (Hn & _ & _)]. split; [done|]. simpl.
  unfold answer_request. destruct (waiting_position id (substreams h)) as [pos|] eqn:Ep.
  - destruct (waiting_position_Some _ _ _ Ep) as [s Hs]. rewrite Hs. right.
    pose proof (take_drop_middle _ _ _ Hs) as Heq.
    exists (take pos (substreams h)), s, (drop (S pos) (substreams h)). split_and!; [done| |].
    + simpl. by rewrite delete_take_drop, <- app_assoc.
    + intros s' Hin. unfold served in Hn. rewrite <- Heq, omap_app in Hn. simpl in Hn.
      apply NoDup_app in Hn as (_ & Hd & Hn). apply NoDup_cons in Hn as [Hn _].
      apply elem_of_app in Hin as [Hin|Hin].
      * apply (Hd id); [|left]. apply list_elem_of_omap. by eexists.
      * apply Hn, list_elem_of_omap. by eexists.
  - left. split; [done|]. intros s Hin. apply (proj1 (position_None _ _) Ep) in Hin.
    by rewrite Z.eqb_refl in Hin.
Qed.

(** C33: [poll] always comes back: three steps are enough for each substream,
    and when the streams neither panic nor yield a Port message, it does not
    panic either and leaves substreams of which the same is true, so that it can be
    called again and again. *)
Theorem handler_poll_returns fuel clock now h :
  (3 <= fuel)%nat ->
  handler_poll fuel clock now h <> Ret None /\
  forall P M, calm_streams P M -> Forall (state_calm P M) (substreams h) ->
    exists h' p, handler_poll fuel clock now h = Ret (Some (h', p)) /\
      Forall (state_calm P M) (substreams h').
Proof.
  intros Hf. pose proof (poll_substreams_returns fuel (length (substreams h)) clock h Hf) as Hn.
  unfold handler_poll. split.
  - destruct (poll_substreams fuel _ clock h) as [[[h1 [ev|]]|]|]; try done.
    simpl. by case_bool_decide.
  - intros P M Hc Hst. pose proof (poll_substreams_calm P M fuel _ clock h Hc (le_n _) Hst) as Hr.
    destruct (poll_substreams fuel _ clock h) as [[[h1 [ev|]]|]|]; simpl in *; try done.
    + eexists _, _. split; [done|]. by apply (Hr _ _ eq_refl).
    + specialize (Hr _ _ eq_refl). case_bool_decide; (eexists _, _; split; [done|exact Hr]).
Qed.

(** A Port message of the remote makes [poll] panic, whether a request or an
    answer is expected. *)
Lemma port_message_panics now id s s' port c u t :
  stream_poll_next s = Ret (s', Ready (Some (Ok (PM_Port port)))) ->
  advance_substream now (InWaitingMessage id s : State) c = Panic /\
  advance_substream now (OutWaitingAnswer s u t : State) c = Panic.
Proof.
  intros Hs. simpl. unfold advance_in_waiting_message, advance_out_waiting_answer.
  by rewrite Hs.
Qed.

(** A message that nobody answers leaves its substream open for good: the
    event it causes names no request, so the substream waits for an answer,
    whatever happens later, and an idle handler asks to keep the connection. *)
Theorem one_way_message_leaks now id s s' msg c :
  one_way msg -> stream_poll_next s = Ret (s', Ready (Some (Ok msg))) ->
  (exists ev, advance_substream now (InWaitingMessage id s) c =
     Ret (Some (InWaitingUser id s' : State), Some (Custom ev), false) /\
     out_request_id ev = None) /\
  forall h h', InWaitingUser id s' ∈ substreams h -> rtc (step_without id) h h' ->
    InWaitingUser id s' ∈ substreams h' /\
    forall fuel clock now h'', handler_poll fuel clock now h' = Ret (Some (h'', Pending)) ->
      connection_keep_alive h'' = KeepAlive_Yes.
Proof.
  intros Hone Hs. split.
  { unfold advance_substream, advance_in_waiting_message. rewrite Hs, bind_ret. destruct msg; simpl in Hone; try done;
      (eexists; split; [done|]; done). }
  assert (Hpoll : forall fuel clock now h h' p,
    InWaitingUser id s' ∈ substreams h -> handler_poll fuel clock now h = Ret (Some (h', p)) ->
    InWaitingUser id s' ∈ substreams h').
  { intros fuel clock now' h h' p Hin Hp.
    apply handler_poll_inv in Hp as (h1 & ev & Hp & -> & _).
    by eapply poll_substreams_waiting. }
  intros h h' Hin Hr. revert Hin. induction Hr as [h|h h1 h' Hstep Hr IH]; intros Hin.
  - split; [done|]. intros fuel clock now' h'' Hp. pose proof (Hpoll _ _ _ _ _ _ Hin Hp) as Hin'.
    apply handler_poll_inv in Hp as (h1 & [ev|] & Hp & _ & _ & Hev); [done|].
    destruct Hev as [_ Hk]. unfold connection_keep_alive. rewrite Hk, bool_decide_false; [done|].
    intros He. rewrite He in Hin'. by apply elem_of_nil in Hin'.
  - apply IH. destruct Hstep as [h s1 h1 Hi|h m Hm|h s1 info|h info e|h fuel clock now' h1 p Hp].
    + unfold inject_fully_negotiated_inbound in Hi. inv_bind Hi. injection Hi as <-.
      simpl. apply elem_of_app. by left.
    + destruct (inject_event_cases m h) as [[-> _]|[(st & -> & _)|
        (_ & pos & i & s1 & l & Hi & Hpos & -> & _)]]; [done|apply elem_of_app; by left|].
      apply elem_of_app. left. rewrite (delete_waiting _ _ _ _ Hpos) in Hin.
      apply elem_of_cons in Hin as [Heq|Hin]; [|done]. injection Heq as -> _. done.
    + simpl. apply elem_of_app. by left.
    + unfold inject_dial_upgrade_error. destruct (info.2); [|done].
      simpl. apply elem_of_app. by left.
    + by eapply Hpoll.
Qed.
End HandlerProperties.

Section ExchangeProperty.
Context `{BitVecLaws BV} `{ByteOrderLaws} `{MessageStream Strm (PeerMessage BV)}.
Context `{StreamBytes Strm} `{Profile} `{!MessageStreamLaws Strm}.
Context {UserData : Type} `{InstantAdd Instant} {UpgrErr : Type}.

(** C20: A request and its answer cross the connection: what one handler sends
    on a new substream is what the handler of the remote reports, under the
    identifier of the substream, and the piece it answers with, whose frame is
    shorter than 304 MiB, is given back with the data of the request, unless
    the substream fails. *)
Theorem request_answered (u : UserData) (t1 t2 t3 t4 : Instant) c
    sA sA1 sB stB evB againB sB2 sB3 sA2 (stA : option (SubstreamState Strm BV UserData Instant UpgrErr))
    evA againA request piece id :
  PeerRequest_wf request -> is_u32 (piece_idx piece) -> is_u32 (piece_begin piece) ->
  9 + Z.of_nat (length (piece_block piece)) < FRAME_LIMIT ->
  (** our substream sends the request, the one of the remote receives it *)
  stream_sent sA = [] ->
  advance_substream (UpgrErr := UpgrErr) t1 (OutPendingSend sA (PM_Request request) (Some u)) c =
    Ret (Some (OutPendingFlush sA1 (Some u)), None, true) ->
  stream_incoming sB = stream_sent sA1 ->
  advance_substream (UserData := UserData) (UpgrErr := UpgrErr) t2 (InWaitingMessage id sB) c =
    Ret (stB, Some evB, againB) ->
  (** the substream of the remote sends the piece, ours receives it *)
  stream_sent sB2 = [] ->
  advance_substream (UserData := UserData) (UpgrErr := UpgrErr) t3
    (InPendingSend id sB2 (PM_Piece piece)) c = Ret (Some (InPendingFlush id sB3), None, true) ->
  stream_incoming sA2 = stream_sent sB3 ->
  advance_substream t4 (OutWaitingAnswer sA2 u t1) c = Ret (stA, Some evA, againA) ->
  evB = Custom (HO_GetPieceReq request id) /\
  (evA = Custom (HO_GetPieceRes piece u) \/
   exists e, evA = Custom (HO_TorrentErr (HTE_Io e) (Some u))).
Proof.
  intros Hreq Hi Hb Hl HsA HA1 HcrossB HB HsB HB3 HcrossA HA.
  assert (PeerMessage_fits (PM_Piece piece : PeerMessage BV)) as Hfits
    by (apply prefix_fits_small; lia).
  split.
  - advance_in HA1. advance_in HB.
    destruct (sink_poll_ready sA) as [sA' [[[]|e]|]] eqn:Er; try done.
    rewrite <- (poll_ready_sent _ _ _ Er) in HsA.
    inv_bind HA1. destruct a as [sA'' [[]|e]]; [|by injection HA1]. injection HA1 as ->.
    inv_bind HB. destruct a as [sB' [[[m|e]|]|]]; try done. inv_bind HB. injection HB as <- <- <-.
    assert (m = PM_Request request) as ->.
    { eapply (message_arrives sA' sA1 sB sB'); [done..| |done|done|done|done]. tauto. }
    by injection Ha1 as <-.
  - advance_in HB3. advance_in HA.
    destruct (sink_poll_ready sB2) as [sB2' [[[]|e]|]] eqn:Er; try done.
    rewrite <- (poll_ready_sent _ _ _ Er) in HsB.
    inv_bind HB3. destruct a as [sB2'' [[]|e]]; [|by injection HB3]. injection HB3 as ->.
    inv_bind HA. destruct a as [sA2' [[[m|e]|]|]]; try done.
    + inv_bind HA. injection HA as <- <- <-. left.
      assert (m = PM_Piece piece) as -> by 
        (eapply (message_arrives sB2' sB3 sA2 sA2'); [by split|done| |done|done|done|done]; tauto).
      by injection Ha1 as <-.
    + injection HA as <- <- <-. right. by eexists.
    + injection HA as <- <- <-. right. by eexists.
Qed.
End ExchangeProperty.

(** ** Witnesses *)

(** A connection as the bytes that have arrived and those that were sent *)
Record mem_stream := mkMemStream { ms_in : list byte; ms_out : list byte }.

Section HandlerWitnesses.
#[local] Existing Instances list_bitvec list_bitvec_laws std_byteorder std_byteorder_laws
  debug_build.
#[local] Instance ex_instant : InstantAdd Z := Z.add.

#[local] Instance mem_message_stream : MessageStream mem_stream (PeerMessage (list bool)) := {|
  sink_poll_ready s := (s, Ready (Ok tt));
  sink_start_send s m := out ← encode m (ms_out s); Ret (mkMemStream (ms_in s) out, Ok tt);
  sink_poll_flush s := (s, Ready (Ok tt));
  sink_poll_close s := (s, Ready (Ok tt));
  stream_poll_next s :=
    '(rest, r) ← decode (ms_in s);
    Ret (mkMemStream rest (ms_out s),
         match r with
         | Ok (Some m) => Ready (Some (Ok m))
         | Ok None => Pending
         | Err e => Ready (Some (Err e))
         end);
|}.
#[local] Instance mem_stream_bytes : StreamBytes mem_stream :=
  {| stream_sent := ms_out; stream_incoming := ms_in |}.

#[local] Instance mem_stream_laws : MessageStreamLaws mem_stream.
Proof.
  split; simpl.
  - by intros s s' r [= <- _].
  - intros s m s' Hs. inv_bind Hs. by injection Hs as <-.
  - intros s m s' Hs. inv_bind Hs. destruct a as [rest [[m'|]|e]]; try done.
    injection Hs as <- <-. exists (ms_in s), rest, []. by rewrite !app_nil_r.
Qed.

Definition ex_conn : Type := BitTorrentHandler mem_stream (list bool) Z Z unit.
Definition ex_new_conn : ex_conn := with_seed_leech_config SeedAndLeech.
Definition ex_conn_poll (h : ex_conn) : ex_conn :=
  match handler_poll 3 (fun _ _ => 0) 0 h with Ret (Some (h, _)) => h | _ => h end.
Definition ex_piece_request : PeerRequest := {| req_index := 1; req_begin := 16384; req_length := 16384 |}.

(** A handler that was asked for a block, with the data 42 *)
Definition ex_asking : ex_conn := inject_event (HI_GetPieceReq ex_piece_request 42) ex_new_conn.

Lemma requests_answered_once_witness :
  [42] ≡ₚ [] ++ omap snd [(PM_Request ex_piece_request : PeerMessage (list bool), Some 42)] ++
         carried (ex_conn_poll ex_asking).
Proof.
  apply requests_answered_once.
  eapply (run_poll [42] [] [] ex_asking 3 (fun _ _ => 0) 0 (ex_conn_poll ex_asking)
    (Ready (OutboundSubstreamRequest BitTorrentProtocolConfig_default
      (PM_Request ex_piece_request, Some 42)))); [|by vm_compute].
  apply (run_event [] [] [] ex_new_conn (HI_GetPieceReq ex_piece_request 42)), run_new.
Defined.

(** A handler whose remote has asked for this block *)
Definition ex_inbound : ex_conn :=
  match inject_fully_negotiated_inbound (mkMemStream ex_frame []) ex_new_conn with
  | Ret h => h | Panic => ex_new_conn end.
Definition ex_asked : ex_conn := ex_conn_poll ex_inbound.
Definition ex_answer_piece : Piece := {| piece_idx := 1; piece_begin := 16384; piece_block := ex_frame |}.

Lemma answer_goes_to_request_witness :
  exists s, substreams ex_asked = [] ++ InWaitingUser 0 s :: [] /\
    substreams (inject_event (HI_GetPieceRes ex_answer_piece 0) ex_asked) =
      [InPendingSend 0 s (PM_Piece ex_answer_piece)].
Proof.
  destruct (answer_goes_to_request [] [] [] ex_asked ex_answer_piece 0) as [_ Hcases].
  - apply (run_poll [] [] [] ex_inbound 3 (fun _ _ => 0) 0 ex_asked
      (Ready (Custom (HO_GetPieceReq ex_piece_request 0)))); [|by vm_compute].
    by apply (run_inbound [] [] [] ex_new_conn (mkMemStream ex_frame []) ex_inbound (run_new _)).
  - destruct Hcases as [[_ Hno]|(l1 & s & l2 & Hs & Ha & _)].
    + exfalso. eapply Hno. vm_compute. left.
    + vm_compute in Hs. destruct l1 as [|x l1]; [|by destruct l1].
      injection Hs as <- <-. eexists. split; [by vm_compute|exact Ha].
Defined.

(** The stream of this handler before and after the request has been read *)
Definition ex_inbound_streams : list mem_stream := [mkMemStream ex_frame []; mkMemStream [] []].

Lemma ex_inbound_calm : calm_streams (fun s => s ∈ ex_inbound_streams) (fun _ => False).
Proof.
  split; simpl; try done.
  intros s [->|[->|[]%elem_of_nil]%elem_of_cons]%elem_of_cons; vm_compute;
    (split; [|done]); [right; left|right; left].
Qed.

Lemma handler_poll_returns_witness :
  exists h' p, handler_poll 3 (fun _ _ => 0) 0 ex_inbound = Ret (Some (h', p)) /\
    Forall (state_calm (fun s => s ∈ ex_inbound_streams) (fun _ => False)) (substreams h').
Proof.
  apply (handler_poll_returns 3 (fun _ _ => 0) 0 ex_inbound); [lia|apply ex_inbound_calm|].
  constructor; [|done]. split; [|done]. intros s [= <-]. left.
Defined.

(** A substream on which a Choke message arrived *)
Definition ex_choke_stream : mem_stream := mkMemStream (byte_of_Z <$> [0; 0; 0; 1; 0]) [].
Definition ex_choked : ex_conn :=
  push_substream (InWaitingUser 0 (mkMemStream [] [])) ex_new_conn.

Lemma one_way_message_leaks_witness :
  InWaitingUser 0 (mkMemStream [] []) ∈ substreams ex_choked /\
  connection_keep_alive (ex_conn_poll ex_choked) = KeepAlive_Yes.
Proof.
  destruct (one_way_message_leaks (UserData := Z) (UpgrErr := unit) 0 0 ex_choke_stream
    (mkMemStream [] []) PM_Choke BitTorrentProtocolConfig_default) as [_ Hleak];
    [done|by vm_compute|].
  destruct (Hleak ex_choked ex_choked) as [Hin Hkeep]; [left|apply rtc_refl|].
  split; [exact Hin|]. by apply (Hkeep 3%nat (fun _ _ => 0) 0).
Defined.

(** The two ends of a connection, and what crosses it *)
Definition ex_answer_bytes : list byte :=
  match encode (PM_Piece ex_answer_piece : PeerMessage (list bool)) [] with
  | Ret bs => bs | Panic => [] end.

Lemma request_answered_witness :
  exists evB evA : ProtocolsHandlerEvent (list bool) Z Z unit,
    advance_substream 0 (InWaitingMessage 0 (mkMemStream ex_frame []))
      BitTorrentProtocolConfig_default =
      Ret (Some (InWaitingUser 0 (mkMemStream [] [])), Some evB, false) /\
    advance_substream 0 (OutWaitingAnswer (mkMemStream ex_answer_bytes []) 42 0)
      BitTorrentProtocolConfig_default =
      Ret (Some (OutClosing (mkMemStream [] [])), Some evA, true) /\
    evB = Custom (HO_GetPieceReq ex_piece_request 0) /\
    (evA = Custom (HO_GetPieceRes ex_answer_piece 42) \/
     exists e, evA = Custom (HO_TorrentErr (HTE_Io e) (Some 42))).
Proof.
  eexists _, _. split; [by vm_compute|]. split; [by vm_compute|].
  apply (request_answered (UpgrErr := unit) 42 0 0 0 0 BitTorrentProtocolConfig_default
    (mkMemStream [] []) (mkMemStream [] ex_frame) (mkMemStream ex_frame [])
    (Some (InWaitingUser 0 (mkMemStream [] []))) _ false
    (mkMemStream [] []) (mkMemStream [] ex_answer_bytes) (mkMemStream ex_answer_bytes [])
    (Some (OutClosing (mkMemStream [] []))) _ true
    ex_piece_request ex_answer_piece 0); try done; by vm_compute.
Defined.
End HandlerWitnesses.
