(* ===== verification/Behavior.v ===== *)
(** * The network behaviour

    [BitTorrent] of src/src/behavior.rs: the events of the handlers and of the
    swarm go to the pool of torrents and to the disk manager, and [poll] drives
    both and collects what is to be sent. *)

From S2P Require Import Prelude Crates DiskFs Util Message MetaInfo Block Peer DiskError PieceBuffer.
From S2P Require Import PieceHandler Events Torrent Pool DiskFile BlockIO DiskManager Handler.
Local Open Scope Z_scope.

(** ** Data *)

(** The results the behaviour reports to the user *)
Section EventData.
Context (PeerId Hasher Instant : Type).

Inductive BitTorrentEvent :=
| EV_HandshakeResult (res : result PeerId (HandshakeError PeerId))
| EV_LeechBlockResult (res : result (BlockOk PeerId) (BlockErr PeerId))
| EV_BitfieldResult (res : result (BitfieldOk PeerId) (PeerError PeerId))
| EV_SeedBlockResult (res : result (SeedBlockOk PeerId) (SeedBlockErr PeerId))
| EV_DiskResult (res : result (DiskMessageOut Hasher) unit)
| EV_KeepAliveResult (res : result (KeepAliveOk PeerId Instant) (PeerError PeerId))
| EV_ChokeResult (res : result (ChokeOk PeerId) (PeerError PeerId))
| EV_InterestResult (res : result (InterestOk PeerId) (PeerError PeerId))
| EV_HaveResult (res : result (HaveOk PeerId) (HaveErr PeerId))
| EV_TorrentFinished (torrent : TorrentId)
| EV_TorrentAddedResult (res : result TorrentAddedOk (TorrentAddedErr Hasher)).
End EventData.
Arguments EV_HandshakeResult {PeerId Hasher Instant}.
Arguments EV_LeechBlockResult {PeerId Hasher Instant}.
Arguments EV_BitfieldResult {PeerId Hasher Instant}.
Arguments EV_SeedBlockResult {PeerId Hasher Instant}.
Arguments EV_DiskResult {PeerId Hasher Instant}.
Arguments EV_KeepAliveResult {PeerId Hasher Instant}.
Arguments EV_ChokeResult {PeerId Hasher Instant}.
Arguments EV_InterestResult {PeerId Hasher Instant}.
Arguments EV_HaveResult {PeerId Hasher Instant}.
Arguments EV_TorrentFinished {PeerId Hasher Instant}.
Arguments EV_TorrentAddedResult {PeerId Hasher Instant}.

(** The forms of [libp2p_swarm::NetworkBehaviourAction] the behaviour uses; the
    data of a request is the torrent it belongs to. *)
Inductive NetworkBehaviourAction (PeerId BV Hasher Instant : Type) :=
| GenerateEvent (event : BitTorrentEvent PeerId Hasher Instant)
| DialPeer (peer_id : PeerId)
| SendEvent (peer_id : PeerId) (event : BitTorrentHandlerIn BV TorrentId Instant).
Arguments GenerateEvent {PeerId BV Hasher Instant}.
Arguments DialPeer {PeerId BV Hasher Instant}.
Arguments SendEvent {PeerId BV Hasher Instant}.

(** [libp2p_core::ConnectedPoint]; a dialer has an address, which is not used. *)
Inductive ConnectedPoint (Multiaddr : Type) :=
| CP_Dialer
| CP_Listener (send_back_addr : Multiaddr).
Arguments CP_Dialer {Multiaddr}.
Arguments CP_Listener {Multiaddr}.

Record BitTorrent (PeerId Multiaddr BV Hasher Instant Fs File C : Type) `{Countable PeerId} :=
  mkBitTorrent {
  (** The filesystem storage. *)
  disk_manager : DiskManager Hasher Fs File C;
  (** The currently active piece operations. *)
  bt_torrents : TorrentPool PeerId BV Instant;
  (** The currently connected peers. *)
  connected_peers : gset PeerId;
  (** Queued events to return when the behaviour is being polled. *)
  bt_queued_events : list (NetworkBehaviourAction PeerId BV Hasher Instant);
  (** Known peers with their torrents *)
  known_peers : gmap PeerId (Multiaddr * list ShaHash);
  (** Pending handshakes *)
  pending_handshakes : gmap PeerId ShaHash;
}.
Arguments mkBitTorrent {PeerId Multiaddr BV Hasher Instant Fs File C _ _}.
Arguments disk_manager {PeerId Multiaddr BV Hasher Instant Fs File C _ _}.
Arguments bt_torrents {PeerId Multiaddr BV Hasher Instant Fs File C _ _}.
Arguments connected_peers {PeerId Multiaddr BV Hasher Instant Fs File C _ _}.
Arguments bt_queued_events {PeerId Multiaddr BV Hasher Instant Fs File C _ _}.
Arguments known_peers {PeerId Multiaddr BV Hasher Instant Fs File C _ _}.
Arguments pending_handshakes {PeerId Multiaddr BV Hasher Instant Fs File C _ _}.

(** ** Operations *)

Section Behavior.
Context `{Countable PeerId} {Multiaddr : Type} `{BitVec BV} `{Sha1 Hasher} `{Clock Instant}.
Context `{FileSystem Fs File FsError} `{LruCache TorrentFileId (FileState File) C} `{Profile}.
Context `{!MapOrder PeerId (BitTorrentPeer BV Instant)}.
Context `{!MapOrder Z (Torrent PeerId BV Instant)} `{!SetOrder FileEntry}.
#[local] Abbreviation Bt := (BitTorrent PeerId Multiaddr BV Hasher Instant Fs File C).
#[local] Abbreviation Action := (NetworkBehaviourAction PeerId BV Hasher Instant).
Implicit Types b : Bt.

(** Assignments to the fields *)
Definition bt_with_disk x b : Bt :=
  mkBitTorrent x (bt_torrents b) (connected_peers b) (bt_queued_events b) (known_peers b)
    (pending_handshakes b).
Definition bt_with_pool x b : Bt :=
  mkBitTorrent (disk_manager b) x (connected_peers b) (bt_queued_events b) (known_peers b)
    (pending_handshakes b).
Definition bt_with_connected x b : Bt :=
  mkBitTorrent (disk_manager b) (bt_torrents b) x (bt_queued_events b) (known_peers b)
    (pending_handshakes b).
Definition bt_with_queue x b : Bt :=
  mkBitTorrent (disk_manager b) (bt_torrents b) (connected_peers b) x (known_peers b)
    (pending_handshakes b).
Definition bt_with_known x b : Bt :=
  mkBitTorrent (disk_manager b) (bt_torrents b) (connected_peers b) (bt_queued_events b) x
    (pending_handshakes b).
Definition bt_with_pending x b : Bt :=
  mkBitTorrent (disk_manager b) (bt_torrents b) (connected_peers b) (bt_queued_events b)
    (known_peers b) x.

(** [self.queued_events.push_back(..)] *)
Definition bt_push (a : Action) b : Bt := bt_with_queue (bt_queued_events b ++ [a]) b.
Definition bt_report (ev : BitTorrentEvent PeerId Hasher Instant) b : Bt :=
  bt_push (GenerateEvent ev) b.
Definition bt_send (peer_id : PeerId) (ev : BitTorrentHandlerIn BV TorrentId Instant) b : Bt :=
  bt_push (SendEvent peer_id ev) b.

(** [with_config]; [random] is the hash of a client that has none. *)
Definition BitTorrent_with_config (random : ShaHash) (peer_id : PeerId) (filesystem : Fs)
    (config : BitTorrentConfig Hasher) : Bt :=
  {| disk_manager := DiskManager_with_capacity filesystem 100;
     bt_torrents := TorrentPool_new random peer_id config;
     connected_peers := ∅;
     bt_queued_events := [];
     known_peers := ∅;
     pending_handshakes := ∅ |}.

(** [HashSet::extend] *)
Definition set_extend (l : list ShaHash) (s : list ShaHash) : list ShaHash :=
  foldl (fun s x => set_insert x s) s l.

(** [add_address_torrents] *)
Definition add_address_torrents (peer : PeerId) (address : Multiaddr) (torrents : list ShaHash)
    b : Bt * bool :=
  match known_peers b !! peer with
  | Some (_, know_torrents) =>
      (bt_with_known (<[peer := (address, set_extend torrents know_torrents)]> (known_peers b)) b,
       true)
  | None =>
      (bt_with_known (<[peer := (address, set_extend torrents [])]> (known_peers b)) b, false)
  end.

(** [handshake_known_peer] *)
Definition handshake_known_peer (peer : PeerId) (torrent : ShaHash) b :
    Bt * result unit (PeerId * ShaHash) :=
  if bool_decide (is_Some (pending_handshakes b !! peer)) || bool_decide (peer ∈ connected_peers b)
  then (b, Err (peer, torrent))
  else if bool_decide (is_Some (known_peers b !! peer)) then
    let b := bt_push (DialPeer peer) b in
    (bt_with_pending (<[peer := torrent]> (pending_handshakes b)) b, Ok tt)
  else (b, Err (peer, torrent)).

(** [send_handshake] *)
Definition send_handshake (info_hash : ShaHash) (peer_id : PeerId) b : Bt :=
  match get_for_info_hash (bt_torrents b) info_hash with
  | Some (_, torrent) =>
      bt_send peer_id
        (HI_HandshakeReq (Handshake_new info_hash (local_peer_hash (bt_torrents b)))
           (torrent_id torrent)) b
  | None => bt_report (EV_HandshakeResult (Err (HE_InfoHashNotFound peer_id info_hash))) b
  end.

(** [choke_peer] and [unchoke_peer] *)
Definition choke_peer (peer_id : PeerId) b : Bt :=
  let '(pool, r) := pool_choke_remote (bt_torrents b) peer_id in
  let b := bt_with_pool pool b in
  match r with
  | Ok _ => bt_send peer_id (HI_Choke Choked) b
  | Err _ => bt_report (EV_ChokeResult (Err (PE_NotFound peer_id))) b
  end.

Definition unchoke_peer (peer_id : PeerId) b : Bt :=
  let '(pool, r) := pool_unchoke_remote (bt_torrents b) peer_id in
  let b := bt_with_pool pool b in
  match r with
  | Ok _ => bt_send peer_id (HI_Choke UnChoked) b
  | Err _ => bt_report (EV_ChokeResult (Err (PE_NotFound peer_id))) b
  end.

(** [add_leech] *)
Definition add_leech (now : Instant) (torrent : MetaInfo Hasher) (state : TorrentState) b : outcome Bt :=
  cfg ← TorrentConfig_new_leech torrent state;
  '(pool, r) ← add_torrent now (bt_torrents b) cfg;
  let b := bt_with_pool pool b in
  match r with
  | Ok (id, actual_state) =>
      let b := bt_report (EV_TorrentAddedResult (Ok (TA_NewLeech id actual_state))) b in
      Ret (bt_with_disk (dm_add_torrent id torrent (disk_manager b)) b)
  | Err info_hash =>
      Ret (bt_report (EV_TorrentAddedResult (Err (TA_AlreadyExist info_hash torrent))) b)
  end.

(** [add_seed] *)
Definition add_seed (now : Instant) (seed : TorrentSeed Hasher) (state : TorrentState) b : outcome Bt :=
  cfg ← TorrentConfig_new_seed (seed_torrent seed) state;
  '(pool, r) ← add_torrent now (bt_torrents b) cfg;
  let b := bt_with_pool pool b in
  match r with
  | Ok (id, actual_state) =>
      let b := bt_report (EV_TorrentAddedResult (Ok (TA_NewSeed id actual_state))) b in
      Ret (bt_with_disk (dm_add_torrent id (seed_torrent seed) (disk_manager b)) b)
  | Err info_hash =>
      Ret (bt_report
        (EV_TorrentAddedResult (Err (TA_AlreadyExist info_hash (seed_torrent seed)))) b)
  end.

(** [remove_torrent], [pause_torrent] and [restart_torrent] are not implemented. *)
Definition bt_remove_torrent (info_hash : ShaHash) b : outcome Bt := Panic.
Definition bt_pause_torrent (info_hash : ShaHash) b : outcome Bt := Panic.
Definition bt_restart_torrent (info_hash : ShaHash) b : outcome Bt := Panic.

(** [on_remote_timeout] *)
Definition on_remote_timeout (peer_id : PeerId) b :
    option (BitTorrentEvent PeerId Hasher Instant) := None.

(** [new_handler] *)
Definition new_handler {Strm UpgrErr} b : BitTorrentHandler Strm BV TorrentId Instant UpgrErr :=
  handler_seed_and_leech.

(** [addresses_of_peer] *)
Definition addresses_of_peer (peer_id : PeerId) b : list Multiaddr :=
  match known_peers b !! peer_id with Some (addr, _) => [addr] | None => [] end.

(** [inject_connected] *)
Definition inject_connected (peer_id : PeerId) (endpoint : ConnectedPoint Multiaddr) b : Bt :=
  let b :=
    match endpoint with
    | CP_Dialer =>
        match pending_handshakes b !! peer_id with
        | Some hash =>
            send_handshake hash peer_id
              (bt_with_pending (delete peer_id (pending_handshakes b)) b)
        | None => b
        end
    | CP_Listener send_back_addr => (add_address_torrents peer_id send_back_addr [] b).1
    end in
  bt_with_connected ({[peer_id]} ∪ connected_peers b) b.

(** [inject_disconnected] *)
Definition inject_disconnected (peer_id : PeerId) b : Bt :=
  let b := bt_with_pool (pool_remove_peer (bt_torrents b) peer_id).1 b in
  bt_with_connected (connected_peers b ∖ {[peer_id]}) b.

(** *** The events of the handlers *)

(** A peer initiated a handshake. *)
Definition node_handshake_req (now1 now2 : Instant) (peer_id : PeerId) (handshake : Handshake)
    (request_id : BitTorrentRequestId) b : outcome Bt :=
  let '(pool, r) := on_handshake_request now1 now2 (bt_torrents b) peer_id handshake in
  let b := bt_with_pool pool b in
  match r with
  | Ok handshake => Ret (bt_send peer_id (HI_HandshakeRes handshake request_id) b)
  | Err err =>
      let b := bt_report (EV_HandshakeResult (Err err)) b in
      Ret (bt_send peer_id (HI_Disconnect None) b)
  end.

(** A peer responded to our handshake. *)
Definition node_handshake_res (now1 now2 : Instant) (peer_id : PeerId) (handshake : Handshake)
    (user_data : TorrentId) b : outcome Bt :=
  let '(pool, r) :=
    on_handshake_response now1 now2 (bt_torrents b) peer_id user_data handshake in
  let b := bt_with_pool pool b in
  match r with
  | Ok (handshake, index_field) =>
      let b := bt_send peer_id (HI_BitfieldReq index_field user_data) b in
      Ret (bt_report (EV_HandshakeResult (Ok handshake)) b)
  | Err e => Ret (bt_report (EV_HandshakeResult (Err e)) b)
  end.

(** A peer sends its bit field and requests ours. *)
Definition node_bitfield_req (peer_id : PeerId) (index_field : BitField BV)
    (request_id : BitTorrentRequestId) b : outcome Bt :=
  let '(pool, r) := on_bitfield_request (bt_torrents b) peer_id index_field in
  let b := bt_with_pool pool b in
  match r with
  | Some index_field => Ret (bt_send peer_id (HI_BitfieldRes index_field request_id) b)
  | None => Ret (bt_send peer_id (HI_Disconnect None) b)
  end.

(** The bit field of a peer arrived. *)
Definition node_bitfield_res (peer_id : PeerId) (index_field : BitField BV)
    (user_data : TorrentId) b : outcome Bt :=
  let '(pool, r) := set_peer_bitfield (bt_torrents b) peer_id user_data index_field in
  let b := bt_with_pool pool b in
  if r : bool then
    interesting ← is_remote_interesting (bt_torrents b) user_data peer_id;
    if interesting : bool then
      let b := bt_with_pool
        (pool_set_client_interest (bt_torrents b) user_data peer_id Interested).1 b in
      let b := bt_report (EV_BitfieldResult (Ok (mkBitfieldOk user_data peer_id))) b in
      Ret (bt_send peer_id (HI_Interest Interested) b)
    else Ret b
  else Ret (bt_report (EV_BitfieldResult (Err (PE_NotFound peer_id))) b).

(** A peer wants a block. *)
Definition node_get_piece_req (peer_id : PeerId) (request : PeerRequest)
    (request_id : BitTorrentRequestId) b : outcome Bt :=
  let '(pool, r) :=
    on_piece_request (bt_torrents b) peer_id (BlockMetadata_from_request request) request_id in
  let b := bt_with_pool pool b in
  match r with
  | Ok (id, block_metadata) =>
      Ret (bt_with_disk (dm_read_block id block_metadata (disk_manager b)) b)
  | Err (peer_id, block_metadata, request_id) =>
      let b := bt_send peer_id (HI_Reset request_id) b in
      Ret (bt_report
        (EV_SeedBlockResult (Err (SBE_RemoteNotAllowed peer_id block_metadata))) b)
  end.

(** A peer sent a block. *)
Definition node_get_piece_res (peer_id : PeerId) (piece : Piece) (user_data : TorrentId) b :
    outcome Bt :=
  let '(pool, r) :=
    on_block_response (bt_torrents b) user_data peer_id (Block_from_piece piece) in
  let b := bt_with_pool pool b in
  match r with
  | Ok block_metadata =>
      Ret (bt_report
        (EV_LeechBlockResult (Ok (mkBlockOk peer_id block_metadata user_data))) b)
  | Err err => Ret (bt_report (EV_LeechBlockResult (Err err)) b)
  end.

(** A peer cancels a request. *)
Definition node_cancel_piece (peer_id : PeerId) (request : PeerRequest)
    (request_id : BitTorrentRequestId) b : outcome Bt :=
  let '(pool, r) := on_cancel_request (bt_torrents b) request_id in
  let b := bt_with_pool pool b in
  match r with
  | Some _ =>
      Ret (bt_report (EV_SeedBlockResult (Ok
        (SBO_CancelledByRemote peer_id (BlockMetadata_from_request request)))) b)
  | None => Ret (bt_report (EV_SeedBlockResult (Err (SBE_NotFound peer_id))) b)
  end.

(** A peer chokes or unchokes the client. *)
Definition node_choke (peer_id : PeerId) (inner : ChokeType) b : outcome Bt :=
  let '(pool, r) := on_choke_by_remote (bt_torrents b) peer_id inner in
  let b := bt_with_pool pool b in
  match r with
  | Some (torrent_id, old_choke_ty) =>
      Ret (bt_report (EV_ChokeResult (Ok (mkChokeOk torrent_id peer_id old_choke_ty inner))) b)
  | None => Ret (bt_report (EV_ChokeResult (Err (PE_NotFound peer_id))) b)
  end.

(** A peer tells its interest. *)
Definition node_interest (peer_id : PeerId) (inner : InterestType) b : outcome Bt :=
  let '(pool, interest) := on_interest_by_remote (bt_torrents b) peer_id inner in
  Ret (bt_report (EV_InterestResult interest) (bt_with_pool pool b)).

(** A peer has a new piece. *)
Definition node_have (peer_id : PeerId) (index : Z) b : outcome Bt :=
  let '(pool, r) := on_remote_have (bt_torrents b) peer_id (Z.to_nat index) in
  let b := bt_with_pool pool b in
  match r with
  | Some true => Ret (bt_report (EV_HaveResult (Ok (mkHaveOk peer_id index))) b)
  | Some false => Ret (bt_report (EV_HaveResult (Err (HV_InvalidIndex index))) b)
  | None => Ret (bt_report (EV_HaveResult (Err (HV_NotFound peer_id))) b)
  end.

(** A peer is alive. *)
Definition node_keep_alive (peer_id : PeerId) (timestamp : Instant) b : outcome Bt :=
  let '(pool, r) := on_keep_alive_by_remote (bt_torrents b) peer_id timestamp in
  Ret (bt_report (EV_KeepAliveResult r) (bt_with_pool pool b)).

(** [inject_node_event]; [now1] and [now2] are the heartbeats of a new peer. *)
Definition inject_node_event {UpgrErr} (now1 now2 : Instant) (peer_id : PeerId)
    (event : BitTorrentHandlerEvent BV TorrentId Instant UpgrErr) b : outcome Bt :=
  match event with
  | HO_HandshakeReq handshake request_id => node_handshake_req now1 now2 peer_id handshake request_id b
  | HO_HandshakeRes handshake user_data => node_handshake_res now1 now2 peer_id handshake user_data b
  | HO_BitfieldReq index_field request_id => node_bitfield_req peer_id index_field request_id b
  | HO_BitfieldRes index_field user_data => node_bitfield_res peer_id index_field user_data b
  | HO_GetPieceReq request request_id => node_get_piece_req peer_id request request_id b
  | HO_GetPieceRes piece user_data => node_get_piece_res peer_id piece user_data b
  | HO_CancelPiece request request_id => node_cancel_piece peer_id request request_id b
  | HO_Choke inner => node_choke peer_id inner b
  | HO_Interest inner => node_interest peer_id inner b
  | HO_Have index => node_have peer_id index b
  | HO_KeepAlive timestamp => node_keep_alive peer_id timestamp b
  | HO_TorrentErr _ _ => Ret b
  end.

(** The loop of [poll] over the pool: what [poll] returns, or none when it goes
    on.  [rnd] and [clock] are the random choices and the times of the calls;
    none when [fuel] calls are not enough. *)
Fixpoint pool_loop (fuel : nat) (rnd : nat -> list nat -> list nat) (clock : nat -> Instant)
    (now : Instant) b : outcome (option (Bt * option Action)) :=
  match fuel with
  | O => Ret None
  | S fuel =>
      '(pool, state) ← pool_poll (Hasher := Hasher) (rnd fuel) (clock fuel) now (bt_torrents b);
      let b := bt_with_pool pool b in
      match state with
      | TPS_Idle => Ret (Some (b, None))
      | TPS_Timeout torrent peer =>
          match on_remote_timeout peer b with
          | Some event => Ret (Some (b, Some (GenerateEvent event)))
          | None => pool_loop fuel rnd clock now b
          end
      | TPS_PieceReady (Ok (torrent_id, piece)) =>
          pool_loop fuel rnd clock now
            (bt_with_disk (dm_write_block torrent_id piece (disk_manager b)) b)
      | TPS_PieceReady (Err _) => pool_loop fuel rnd clock now b
      | TPS_KeepAlive torrent peer_id => Ret (Some (b, Some (SendEvent peer_id HI_KeepAlive)))
      | TPS_Waiting torrent => Ret (Some (b, None))
      | TPS_Finished torrent_id =>
          Ret (Some (b, Some (GenerateEvent (EV_TorrentFinished torrent_id))))
      | TPS_NextBlock block =>
          Ret (Some (b, Some (SendEvent (nb_peer_id block)
            (HI_GetPieceReq (BlockMetadata_into_request (nb_block_metadata block))
               (nb_torrent_id block)))))
      end
  end.

(** What a message of the disk manager does: what [poll] returns, or none when
    it goes on *)
Definition on_disk_message (msg : DiskMessageOut Hasher) b : Bt * option Action :=
  match msg with
  | DO_TorrentAdded _ => (b, None)
  | DO_TorrentRemoved _ _ => (b, None)
  | DO_TorrentSynced id => (bt_report (EV_DiskResult (Ok (DO_TorrentSynced id))) b, None)
  | DO_BlockRead torrent block =>
      let '(pool, r) := on_block_read (bt_torrents b) torrent (bmut_metadata block) in
      let b := bt_with_pool pool b in
      match r with
      | Some (peer_id, request_id) =>
          (bt_send peer_id (HI_GetPieceRes (BlockMut_into_piece block) request_id) b, None)
      | None => (b, None)
      end
  | DO_PieceWritten torrent_id block =>
      match torrents (bt_torrents b) !! torrent_id with
      | Some torrent =>
          let index := wrap 32 (bm_piece_index (block_metadata block)) in
          let '(torrent, _) :=
            Torrent_set_piece torrent (Z.to_nat (bm_piece_index (block_metadata block))) in
          let b := bt_with_pool
            (with_torrents (<[torrent_id := torrent]> (torrents (bt_torrents b))) (bt_torrents b)) b
          in
          (foldl (fun b peer => bt_send peer (HI_Have index) b) b (Torrent_iter_peer_ids torrent),
           None)
      | None => (b, None)
      end
  | DO_TorrentError _ _ => (b, None)
  | DO_ReadBlockError id err =>
      (b, Some (GenerateEvent (EV_DiskResult (Ok (DO_ReadBlockError id err)))))
  | DO_WriteBlockError _ _ => (b, None)
  | DO_MovedTorrent _ _ => (b, None)
  end.

(** The loop of [poll] over the disk manager; [disk_fuel] are the rounds each
    of its polls may take. *)
Fixpoint disk_loop (fuel disk_fuel : nat) b : outcome (option (Bt * option Action)) :=
  match fuel with
  | O => Ret None
  | S fuel =>
      res ← DiskManager_poll disk_fuel (disk_manager b);
      match res with
      | None => Ret None
      | Some (dm, p) =>
          let b := bt_with_disk dm b in
          match p with
          | Ready (Ok msg) =>
              let '(b, r) := on_disk_message msg b in
              match r with
              | Some action => Ret (Some (b, Some action))
              | None => disk_loop fuel disk_fuel b
              end
          | Ready (Err _) => Ret (Some (b, Some (GenerateEvent (EV_DiskResult (Err tt)))))
          | Pending => Ret (Some (b, None))
          end
      end
  end.

(** [poll], with the rounds of its outer loop, and those of the loops in it *)
Fixpoint bt_poll (fuel loop_fuel disk_fuel : nat) (rnd : nat -> nat -> list nat -> list nat)
    (clock : nat -> nat -> Instant) (now : Instant) b : outcome (option (Bt * poll Action)) :=
  match fuel with
  | O => Ret None
  | S fuel =>
      match bt_queued_events b with
      | event :: q => Ret (Some (bt_with_queue q b, Ready event))
      | [] =>
          res ← pool_loop loop_fuel (rnd fuel) (clock fuel) now b;
          match res with
          | None => Ret None
          | Some (b, Some action) => Ret (Some (b, Ready action))
          | Some (b, None) =>
              res ← disk_loop loop_fuel disk_fuel b;
              match res with
              | None => Ret None
              | Some (b, Some action) => Ret (Some (b, Ready action))
              | Some (b, None) =>
                  if bool_decide (length (bt_queued_events b) = 0%nat) then
                    Ret (Some (b, Pending))
                  else bt_poll fuel loop_fuel disk_fuel rnd clock now b
              end
          end
      end
  end.
End Behavior.

(** ** Specification *)

Section BehaviorSpec.
Context `{Countable PeerId} {Multiaddr : Type} `{BitVec BV} `{Sha1 Hasher} `{Clock Instant}.
Context `{FileSystem Fs File FsError} `{LruCache TorrentFileId (FileState File) C} `{Profile}.
Context `{!MapOrder PeerId (BitTorrentPeer BV Instant)}.
Context `{!MapOrder Z (Torrent PeerId BV Instant)} `{!SetOrder FileEntry}.
#[local] Abbreviation Bt := (BitTorrent PeerId Multiaddr BV Hasher Instant Fs File C).
Implicit Types b : Bt.

(** The torrent that [add_leech] or [add_seed] adds with this metadata: none
    when the pool has it already *)
Definition newly_added (m : MetaInfo Hasher) b b' : list (TorrentId * MetaInfo Hasher) :=
  let id := next_unique_torrent (bt_torrents b) in
  if decide (next_unique_torrent (bt_torrents b') = id) then [] else [(id, m)].

(** The calls of the behaviour other than [poll]: what the user calls, and what
    the swarm and the handlers tell it.  The label of a call is the torrents it
    adds.  The peers of [K] are those that may answer a handshake although a
    torrent tracks them already; the counter of torrents stays within 64 bits. *)
Inductive bt_call {UpgrErr : Type} (K : PeerId -> Prop) :
    list (TorrentId * MetaInfo Hasher) -> Bt -> Bt -> Prop :=
| bcall_add_address b p a l : bt_call K [] b (add_address_torrents p a l b).1
| bcall_handshake b p h : bt_call K [] b (handshake_known_peer p h b).1
| bcall_choke b p : bt_call K [] b (choke_peer p b)
| bcall_unchoke b p : bt_call K [] b (unchoke_peer p b)
| bcall_add_leech b now m st b' :
    next_unique_torrent (bt_torrents b) + 1 < 2 ^ 64 -> add_leech now m st b = Ret b' ->
    bt_call K (newly_added m b b') b b'
| bcall_add_seed b now m st b' :
    next_unique_torrent (bt_torrents b) + 1 < 2 ^ 64 -> add_seed now m st b = Ret b' ->
    bt_call K (newly_added (seed_torrent m) b b') b b'
| bcall_connected b p e : bt_call K [] b (inject_connected p e b)
| bcall_disconnected b p : bt_call K [] b (inject_disconnected p b)
| bcall_node_event b n1 n2 p (ev : BitTorrentHandlerEvent BV TorrentId Instant UpgrErr) b' :
    match ev with
    | HO_HandshakeRes _ _ => ~ K p -> is_associated (bt_torrents b) p = false
    | _ => True
    end ->
    inject_node_event n1 n2 p ev b = Ret b' -> bt_call K [] b b'.

(** The steps of the behaviour: the calls and [poll] *)
Inductive bt_step {UpgrErr : Type} (K : PeerId -> Prop) :
    list (TorrentId * MetaInfo Hasher) -> Bt -> Bt -> Prop :=
| bstep_call l b b' : bt_call (UpgrErr := UpgrErr) K l b b' -> bt_step K l b b'
| bstep_poll b fuel loop_fuel disk_fuel rnd clock now b' r :
    bt_poll fuel loop_fuel disk_fuel rnd clock now b = Ret (Some (b', r)) -> bt_step K [] b b'.

Definition bt_reachable (UpgrErr : Type) (K : PeerId -> Prop) b : Prop :=
  exists random id fs (config : BitTorrentConfig Hasher),
    rtc (fun b b' => exists l, bt_step (UpgrErr := UpgrErr) K l b b')
      (BitTorrent_with_config random id fs config) b.

(** A behaviour with one torrent, nothing to report, and no peer that is timed
    out *)
Record bt_quiet (id : TorrentId) (t : Torrent PeerId BV Instant) (now : Instant) b : Prop := {
  bq_queue : bt_queued_events b = [];
  bq_torrents : torrents (bt_torrents b) = {[id := t]};
  bq_id : torrent_id t = id;
  bq_timeout : first_timeout now (map_iter (peers (piece_handler t))) = None;
}.

(** A torrent that has nothing to report and that polls leave as it is *)
Definition at_rest (now : Instant) (t : Torrent PeerId BV Instant) : Prop :=
  forall shuffle now', exists r : TorrentPoolState PeerId Hasher,
    Torrent_poll shuffle now' now t = Ret (t, r) /\
    match r with TPS_Idle | TPS_Waiting _ => True | _ => False end.

(** A torrent that is complete *)
Definition complete (t : Torrent PeerId BV Instant) : Prop :=
  piece_buffer (piece_handler t) = None /\ finished (piece_handler t) = true.
End BehaviorSpec.

(** ** Lemmas *)

(** Opens the handling of one event of a handler. *)
Ltac node_event :=
  cbv beta iota zeta delta [inject_node_event node_handshake_req node_handshake_res node_bitfield_req node_bitfield_res
       node_get_piece_req node_get_piece_res node_cancel_piece node_choke node_interest
       node_have node_keep_alive].
Ltac node_event_in H :=
  cbv beta iota zeta delta [inject_node_event node_handshake_req node_handshake_res node_bitfield_req node_bitfield_res
       node_get_piece_req node_get_piece_res node_cancel_piece node_choke node_interest
       node_have node_keep_alive] in H.

Section BehaviorLemmas.
Context `{Countable PeerId} {Multiaddr : Type} `{BitVec BV} `{Sha1 Hasher} `{Clock Instant}.
Context `{FileSystemLaws Fs File FsError} `{LruCacheLaws TorrentFileId (FileState File) C} `{Profile}.
Context `{!MapOrder PeerId (BitTorrentPeer BV Instant)}.
Context `{!MapOrder Z (Torrent PeerId BV Instant)} `{!SetOrder FileEntry}.
#[local] Abbreviation Bt := (BitTorrent PeerId Multiaddr BV Hasher Instant Fs File C).
#[local] Abbreviation step := (pool_step (Hasher := Hasher)).
Implicit Types b : Bt.
Implicit Types s : TorrentPool PeerId BV Instant.
Implicit Types t : Torrent PeerId BV Instant.

(** *** What the behaviour does to the pool *)

Lemma foldl_send_pool l (f : PeerId -> BitTorrentHandlerIn BV TorrentId Instant) b :
  bt_torrents (foldl (fun b p => bt_send p (f p) b) b l) = bt_torrents b.
Proof. revert b. induction l as [|p l IH]; intros b; simpl; [done|]. by rewrite IH. Qed.

Lemma on_disk_message_pool K msg b :
  rtc (step K) (bt_torrents b) (bt_torrents (on_disk_message msg b).1).
Proof.
  destruct msg as [id|id m|id d|id|id blk|id blk|id e|id e|id e]; simpl; try apply rtc_refl.
  - pose proof (pstep_block_read (Hasher := Hasher) K (bt_torrents b) id (bmut_metadata blk)) as Hs.
    destruct (on_block_read _ _ _) as [pool [[p r]|]]; by apply rtc_once.
  - destruct (torrents (bt_torrents b) !! id) as [t|] eqn:Et; [|apply rtc_refl].
    pose proof (pstep_set_piece (Hasher := Hasher) K (bt_torrents b) id
      (Z.to_nat (bm_piece_index (block_metadata blk)))) as Hs.
    unfold update_torrent in Hs. rewrite Et in Hs.
    simpl in *. rewrite foldl_send_pool. by apply rtc_once.
Qed.

Lemma disk_loop_pool K fuel disk_fuel b b' r :
  disk_loop fuel disk_fuel b = Ret (Some (b', r)) -> rtc (step K) (bt_torrents b) (bt_torrents b').
Proof.
  revert b. induction fuel as [|fuel IH]; cbn [disk_loop]; intros b Hp; [done|].
  inv_bind Hp. destruct a as [[dm [[msg|e]|]]|]; [| | |done].
  - pose proof (on_disk_message_pool K msg (bt_with_disk dm b)) as Hs.
    destruct (on_disk_message msg _) as [b1 [act|]]; [by injection Hp as <- <-|].
    etrans; [exact Hs|]. by apply IH.
  - injection Hp as <- _. apply rtc_refl.
  - injection Hp as <- _. apply rtc_refl.
Qed.

Lemma pool_loop_pool K fuel rnd clock now b b' r :
  pool_loop fuel rnd clock now b = Ret (Some (b', r)) ->
  rtc (step K) (bt_torrents b) (bt_torrents b').
Proof.
  revert b. induction fuel as [|fuel IH]; cbn [pool_loop]; intros b Hp; [done|].
  inv_bind Hp. destruct a as [pool st].
  apply (pstep_poll K (rnd fuel) (clock fuel) now (bt_torrents b) pool st) in Ha.
  eapply rtc_l; [exact Ha|].
  destruct st as [|t|[[t blk]|e]|t|t p|t p|nb]; simpl in Hp;
    first [by injection Hp as <- _; apply rtc_refl | by apply IH in Hp].
Qed.

Lemma bt_poll_pool K fuel loop_fuel disk_fuel rnd clock now b b' r :
  bt_poll fuel loop_fuel disk_fuel rnd clock now b = Ret (Some (b', r)) ->
  rtc (step K) (bt_torrents b) (bt_torrents b').
Proof.
  revert b. induction fuel as [|fuel IH]; cbn [bt_poll]; intros b Hp; [done|].
  destruct (bt_queued_events b) as [|ev q]; [|by injection Hp as <- _; apply rtc_refl].
  inv_bind Hp. destruct a as [[b1 [act|]]|]; [| |done].
  - injection Hp as <- _. by eapply (pool_loop_pool K).
  - inv_bind Hp. apply (pool_loop_pool K) in Ha. etrans; [exact Ha|].
    destruct a as [[b2 [act|]]|]; [| |done].
    + injection Hp as <- _. by eapply (disk_loop_pool K).
    + apply (disk_loop_pool K) in Ha0. etrans; [exact Ha0|].
      case_bool_decide; [by injection Hp as <- _; apply rtc_refl|]. by apply IH.
Qed.

Lemma inject_node_event_pool {UpgrErr} K n1 n2 p
    (ev : BitTorrentHandlerEvent BV TorrentId Instant UpgrErr) b b' :
  match ev with
  | HO_HandshakeRes _ _ => ~ K p -> is_associated (bt_torrents b) p = false
  | _ => True
  end ->
  inject_node_event n1 n2 p ev b = Ret b' -> rtc (step K) (bt_torrents b) (bt_torrents b').
Proof.
  intros Hcond He. set (s := bt_torrents b).
  destruct ev as [hs r|hs u|f r|f u|rq r|pc u|rq r|c|i|i|e u|t]; node_event_in He.
  - pose proof (pstep_handshake_request (Hasher := Hasher) K n1 n2 s p hs) as Hs. unfold s in *.
    destruct (on_handshake_request _ _ _ _ _) as [pool [x|x]]; injection He as <-;
      by apply rtc_once.
  - pose proof (pstep_handshake_response (Hasher := Hasher) K n1 n2 s p u hs Hcond) as Hs.
    unfold s in *. destruct (on_handshake_response _ _ _ _ _ _) as [pool [[x y]|x]];
      injection He as <-; by apply rtc_once.
  - pose proof (pstep_bitfield_request (Hasher := Hasher) K s p f) as Hs. unfold s in *.
    destruct (on_bitfield_request _ _ _) as [pool [x|]]; injection He as <-; by apply rtc_once.
  - pose proof (pstep_set_bitfield (Hasher := Hasher) K s p u f) as Hs. unfold s in *.
    destruct (set_peer_bitfield _ _ _ _) as [pool [|]]; [|injection He as <-; by apply rtc_once].
    eapply rtc_l; [exact Hs|]. inv_bind He. destruct a; injection He as <-; [|apply rtc_refl].
    simpl. apply rtc_once, pstep_set_client_interest.
  - pose proof (pstep_piece_request (Hasher := Hasher) K s p (BlockMetadata_from_request rq) r) as Hs.
    unfold s in *. destruct (on_piece_request _ _ _ _) as [pool [[x y]|[[x y] z]]];
      injection He as <-; by apply rtc_once.
  - pose proof (pstep_block_response (Hasher := Hasher) K s u p (Block_from_piece pc)) as Hs.
    unfold s in *. destruct (on_block_response _ _ _ _) as [pool [x|x]]; injection He as <-;
      by apply rtc_once.
  - pose proof (pstep_cancel (Hasher := Hasher) K s r) as Hs. unfold s in *.
    destruct (on_cancel_request _ _) as [pool [x|]]; injection He as <-; by apply rtc_once.
  - pose proof (pstep_choke_by_remote (Hasher := Hasher) K s p c) as Hs. unfold s in *.
    destruct (on_choke_by_remote _ _ _) as [pool [[x y]|]]; injection He as <-; by apply rtc_once.
  - pose proof (pstep_interest (Hasher := Hasher) K s p i) as Hs. unfold s in *.
    destruct (on_interest_by_remote _ _ _) as [pool x]; injection He as <-; by apply rtc_once.
  - pose proof (pstep_have (Hasher := Hasher) K s p (Z.to_nat i)) as Hs. unfold s in *.
    destruct (on_remote_have _ _ _) as [pool [[|]|]]; injection He as <-; by apply rtc_once.
  - injection He as <-. apply rtc_refl.
  - pose proof (pstep_keep_alive (Hasher := Hasher) K s p t) as Hs. unfold s in *.
    destruct (on_keep_alive_by_remote _ _ _) as [pool x]; injection He as <-; by apply rtc_once.
Qed.

Lemma add_torrent_pool K now b cfg pool r :
  next_unique_torrent (bt_torrents b) + 1 < 2 ^ 64 ->
  add_torrent now (bt_torrents b) cfg = Ret (pool, r) -> rtc (step K) (bt_torrents b) pool.
Proof. intros Hm Ha. by eapply rtc_once, pstep_add_torrent. Qed.

Lemma send_handshake_pool hs p b : bt_torrents (send_handshake hs p b) = bt_torrents b.
Proof. unfold send_handshake. by destruct (get_for_info_hash _ _) as [[]|]. Qed.

Lemma bt_call_pool {UpgrErr} K l b b' :
  bt_call (UpgrErr := UpgrErr) K l b b' -> rtc (step K) (bt_torrents b) (bt_torrents b').
Proof.
  destruct 1 as [b p a ks|b p h|b p|b p|b now m st b' Hm Ha|b now m st b' Hm Ha|b p e|b p
    |b n1 n2 p ev b' Hc Hn].
  - unfold add_address_torrents. destruct (known_peers b !! p) as [[]|]; apply rtc_refl.
  - unfold handshake_known_peer. repeat case_match; apply rtc_refl.
  - unfold choke_peer. pose proof (pstep_choke (Hasher := Hasher) K (bt_torrents b) p) as Hs.
    destruct (pool_choke_remote _ _) as [pool [x|x]]; by apply rtc_once.
  - unfold unchoke_peer. pose proof (pstep_unchoke (Hasher := Hasher) K (bt_torrents b) p) as Hs.
    destruct (pool_unchoke_remote _ _) as [pool [x|x]]; by apply rtc_once.
  - unfold add_leech in Ha. inv_bind Ha. inv_bind Ha. destruct a0 as [pool r].
    apply (add_torrent_pool K) in Ha1; [|done]. destruct r as [[id st']|hs]; by injection Ha as <-.
  - unfold add_seed in Ha. inv_bind Ha. inv_bind Ha. destruct a0 as [pool r].
    apply (add_torrent_pool K) in Ha1; [|done]. destruct r as [[id st']|hs]; by injection Ha as <-.
  - unfold inject_connected. simpl. destruct e as [|addr].
    + destruct (pending_handshakes b !! p); [rewrite send_handshake_pool|]; apply rtc_refl.
    + unfold add_address_torrents. destruct (known_peers b !! p) as [[]|]; apply rtc_refl.
  - apply rtc_once, (pstep_remove_peer (Hasher := Hasher) K (bt_torrents b) p).
  - by eapply inject_node_event_pool.
Qed.

Lemma bt_step_pool {UpgrErr} K l b b' :
  bt_step (UpgrErr := UpgrErr) K l b b' -> rtc (step K) (bt_torrents b) (bt_torrents b').
Proof.
  destruct 1 as [l b b' Hc|b fuel lf df rnd clock now b' r Hp]; [by eapply bt_call_pool|].
  by eapply (bt_poll_pool K).
Qed.

(** *** Pools of one torrent *)

Lemma iter_active_singleton s id t :
  torrents s = {[id := t]} ->
  iter_active s = if Torrent_is_active t then [(id, t)] else [].
Proof. intros Ht. unfold iter_active. rewrite Ht, map_iter_singleton. done. Qed.

(** A torrent that does nothing leaves the pool as it is. *)
Lemma iter_active_lookup s e : e ∈ iter_active s -> torrents s !! e.1 = Some e.2.
Proof.
  intros He%list_elem_of_In. apply filter_In in He as [He _]. by apply map_iter_lookup, list_elem_of_In.
Qed.

(** The first torrent that has something to report, and does not change, leaves
    the pool as it is. *)
Lemma pool_poll_first shuffle now' now s l1 id t l2 (r : TorrentPoolState PeerId Hasher) :
  iter_active s = l1 ++ (id, t) :: l2 -> Forall (fun e => at_rest (Hasher := Hasher) now e.2) l1 ->
  Torrent_poll shuffle now' now t = Ret (t, r) ->
  match r with TPS_Idle | TPS_Waiting _ => False | _ => True end ->
  pool_poll shuffle now' now s = Ret (s, r).
Proof.
  intros Ha Hrest Ht Hr. unfold pool_poll.
  assert (forall e, e ∈ iter_active s -> torrents s !! e.1 = Some e.2) as Hl by apply iter_active_lookup.
  rewrite Ha in *. assert (poll_torrents shuffle now' now (l1 ++ (id, t) :: l2) (torrents s) =
    Ret (torrents s, r)) as ->; [|by rewrite bind_ret, with_torrents_same].
  clear Ha. induction Hrest as [|[i u] l1 Hu _ IH]; cbn [app poll_torrents].
  - rewrite Ht, bind_ret, insert_id by apply (Hl (id, t) (list_elem_of_here _ _)). by destruct r.
  - destruct (Hu shuffle now') as (r' & Hp & Hr'). cbn [snd] in Hp. rewrite Hp, bind_ret.
    rewrite insert_id by apply (Hl (i, u) (list_elem_of_here _ _)).
    destruct r'; try done; apply IH; intros e He; apply Hl; by right.
Qed.

Lemma pool_poll_quiet shuffle now' now s id t (r : TorrentPoolState PeerId Hasher) :
  torrents s = {[id := t]} -> Torrent_is_active t = true ->
  Torrent_poll shuffle now' now t = Ret (t, r) ->
  pool_poll shuffle now' now s =
  Ret (s, match r with TPS_Waiting _ => TPS_Idle | r => r end).
Proof.
  intros Ht Ha Hp. unfold pool_poll. rewrite (iter_active_singleton s id t Ht), Ha. simpl.
  rewrite Hp, bind_ret.
  assert (<[id := t]> (torrents s) = torrents s) as Hi by (rewrite Ht; apply insert_singleton_eq).
  destruct r; simpl; by rewrite Hi, with_torrents_same.
Qed.

(** A torrent that is complete *)
Lemma pool_poll_seed shuffle now' now s id t :
  torrents s = {[id := t]} -> piece_buffer (piece_handler t) = None ->
  finished (piece_handler t) = true ->
  first_timeout now (map_iter (peers (piece_handler t))) = None ->
  pool_poll (Hasher := Hasher) shuffle now' now s = Ret (s, TPS_Idle).
Proof.
  intros Ht Hb Hf Hto. destruct (Torrent_is_active t) eqn:Ha.
  - apply (pool_poll_quiet shuffle now' now s id t TPS_Idle Ht Ha).
    unfold Torrent_poll. rewrite Hto. unfold th_poll. rewrite Hb, Hf, bind_ret. by destruct t.
  - unfold pool_poll. rewrite (iter_active_singleton s id t Ht), Ha. simpl.
    by rewrite with_torrents_same.
Qed.

Lemma pool_poll_single shuffle now' now s id t t' (r : TorrentPoolState PeerId Hasher) :
  torrents s = {[id := t]} -> Torrent_is_active t = true ->
  Torrent_poll shuffle now' now t = Ret (t', r) ->
  match r with TPS_Idle | TPS_Waiting _ => False | _ => True end ->
  pool_poll shuffle now' now s = Ret (with_torrents {[id := t']} s, r).
Proof.
  intros Ht Ha Hp Hr. unfold pool_poll. rewrite (iter_active_singleton s id t Ht), Ha. simpl.
  rewrite Hp, bind_ret. rewrite Ht, insert_singleton_eq. by destruct r.
Qed.

(** A call of [poll] on the pool, in the loop of the behaviour *)
Lemma pool_loop_quiet fuel rnd clock now b id t (r : TorrentPoolState PeerId Hasher) :
  bt_quiet id t now b -> Torrent_is_active t = true ->
  Torrent_poll (rnd fuel) (clock fuel) now t = Ret (t, r) ->
  match r with TPS_Idle | TPS_Waiting _ => True | _ => False end ->
  pool_loop (S fuel) rnd clock now b = Ret (Some (b, None)).
Proof.
  intros [Hq Ht Hid Hto] Ha Hp Hr. cbn [pool_loop].
  rewrite (pool_poll_quiet _ _ now (bt_torrents b) id t r Ht Ha Hp), bind_ret.
  replace (bt_with_pool (bt_torrents b) b) with b by (by destruct b). by destruct r.
Qed.

Lemma pool_loop_next fuel rnd clock now b id t t' nb :
  bt_quiet id t now b -> Torrent_is_active t = true ->
  Torrent_poll (Hasher := Hasher) (rnd fuel) (clock fuel) now t = Ret (t', TPS_NextBlock nb) ->
  pool_loop (S fuel) rnd clock now b =
  Ret (Some (bt_with_pool (with_torrents {[id := t']} (bt_torrents b)) b,
    Some (SendEvent (nb_peer_id nb)
      (HI_GetPieceReq (BlockMetadata_into_request (nb_block_metadata nb)) (nb_torrent_id nb))))).
Proof.
  intros [Hq Ht Hid Hto] Ha Hp. cbn [pool_loop].
  by rewrite (pool_poll_single _ _ now (bt_torrents b) id t t' _ Ht Ha Hp I), bind_ret.
Qed.

Lemma pool_loop_ready fuel rnd clock now b id t t' block :
  bt_quiet id t now b -> Torrent_is_active t = true ->
  Torrent_poll (Hasher := Hasher) (rnd fuel) (clock fuel) now t =
    Ret (t', TPS_PieceReady (Ok (id, block))) ->
  pool_loop (S fuel) rnd clock now b =
  pool_loop fuel rnd clock now (bt_with_disk (dm_write_block id block (disk_manager b))
    (bt_with_pool (with_torrents {[id := t']} (bt_torrents b)) b)).
Proof.
  intros [Hq Ht Hid Hto] Ha Hp. cbn [pool_loop].
  by rewrite (pool_poll_single _ _ now (bt_torrents b) id t t' _ Ht Ha Hp I), bind_ret.
Qed.

(** The piece that completes a torrent, and the poll after it *)
Lemma Torrent_poll_last_piece shuffle now' now t buf block :
  first_timeout now (map_iter (peers (piece_handler t))) = None ->
  piece_buffer (piece_handler t) = Some buf -> is_full_piece buf = true ->
  try_finalize_piece (Hasher := Hasher) buf = Ok block ->
  Torrent_poll (Hasher := Hasher) shuffle now' now t =
  Ret (with_piece_handler
         (set_piece (with_piece_buffer None (piece_handler t))
            (Z.to_nat (bm_piece_index (block_metadata block)))).1 t,
       TPS_PieceReady (Ok (torrent_id t, block))).
Proof.
  intros Hto Hb Hfull Hfin. unfold Torrent_poll. rewrite Hto. unfold th_poll.
  rewrite Hb, Hfull, Hfin. simpl. by destruct (set_piece _ _).
Qed.

Lemma Torrent_poll_finishes shuffle now' now t :
  first_timeout now (map_iter (peers (piece_handler t))) = None ->
  piece_buffer (piece_handler t) = None -> finished (piece_handler t) = false ->
  bf_all (th_bitfield (piece_handler t)) = true ->
  Torrent_poll (Hasher := Hasher) shuffle now' now t =
  Ret (with_seed_leech SeedOnly (with_piece_handler (with_finished true (piece_handler t)) t),
       TPS_Finished (torrent_id t)).
Proof.
  intros Hto Hb Hf Hall. unfold Torrent_poll. rewrite Hto. unfold th_poll. by rewrite Hb, Hf, Hall.
Qed.

(** The poll after the last block of the last piece *)
Lemma poll_last_piece b id t buf block fuel lf disk_fuel rnd clock now :
  bt_queued_events b = [] -> torrents (bt_torrents b) = {[id := t]} -> torrent_id t = id ->
  Torrent_is_active t = true -> first_timeout now (map_iter (peers (piece_handler t))) = None ->
  finished (piece_handler t) = false -> piece_buffer (piece_handler t) = Some buf ->
  is_full_piece buf = true -> try_finalize_piece (Hasher := Hasher) buf = Ok block ->
  bf_all (th_bitfield (set_piece (piece_handler t)
    (Z.to_nat (bm_piece_index (block_metadata block)))).1) = true ->
  exists t2,
    bt_poll (S fuel) (S (S lf)) disk_fuel rnd clock now b =
      Ret (Some (bt_with_pool (with_torrents {[id := t2]} (bt_torrents b))
                   (bt_with_disk (dm_write_block id block (disk_manager b)) b),
                 Ready (GenerateEvent (EV_TorrentFinished id)))) /\
    peers (piece_handler t2) = peers (piece_handler t) /\ piece_buffer (piece_handler t2) = None /\
    finished (piece_handler t2) = true /\ bf_all (Torrent_bitfield t2) = true /\ torrent_id t2 = id.
Proof.
  intros Hq Ht Hid Ha Hto Hf Hb Hfull Hfin Hall.
  set (i := Z.to_nat (bm_piece_index (block_metadata block))) in *.
  set (h1 := (set_piece (with_piece_buffer None (piece_handler t)) i).1).
  set (t1 := with_piece_handler h1 t).
  assert (peers h1 = peers (piece_handler t) /\ piece_buffer h1 = None /\ finished h1 = false /\
    bf_all (th_bitfield h1) = true) as (Hp1 & Hb1 & Hf1 & Hall1).
  { unfold h1, set_piece in *. simpl in *. destruct (i <? _)%nat; done. }
  pose proof (Torrent_poll_last_piece (rnd fuel (S lf)) (clock fuel (S lf)) now t buf block
    Hto Hb Hfull Hfin) as Hpoll1. rewrite Hid in Hpoll1.
  assert (first_timeout now (map_iter (peers (piece_handler t1))) = None) as Hto1
    by (unfold t1; simpl; by rewrite Hp1).
  set (t2 := with_seed_leech SeedOnly (with_piece_handler (with_finished true h1) t1)).
  set (s1 := with_torrents {[id := t1]} (bt_torrents b)).
  exists t2. split_and!; [|done..].
  cbn [bt_poll]. rewrite Hq. cbn [pool_loop].
  rewrite (pool_poll_single _ _ now (bt_torrents b) id t t1 _ Ht Ha Hpoll1 I), bind_ret.
  cbn [bt_torrents bt_with_pool bt_with_disk].
  rewrite (pool_poll_single _ _ now s1 id t1 t2 (TPS_Finished id)); [by rewrite !bind_ret|done|done| |done].
  rewrite (Torrent_poll_finishes _ _ now t1) by done. by replace (torrent_id t1) with id.
Qed.

(** *** Serving a block *)

(** The request of a peer that may have the block, in a pool of one torrent *)
Lemma on_piece_request_single s id t p m r :
  torrents s = {[id := t]} -> torrent_id t = id ->
  can_seed_piece_to t p (Z.to_nat (bm_piece_index m)) = true ->
  on_piece_request s p m r =
  (with_torrents {[id := with_piece_handler (insert_block_seed (piece_handler t) p m r) t]} s,
   Ok (id, m)).
Proof.
  intros Ht Hid Hc. unfold on_piece_request, visit_torrents. rewrite Ht, map_iter_singleton.
  simpl. by rewrite Hc, Hid, insert_singleton_eq.
Qed.

(** The block that was read is the one the last peer asked for. *)
Lemma clear_pending_seed_block_last (h : TorrentPieceHandler PeerId BV Instant) p m r :
  m ∉ (pending_seed_blocks h).*2 ->
  clear_pending_seed_block (insert_block_seed h p m r) m = (h, Some (p, r)).
Proof.
  intros Hm. unfold clear_pending_seed_block, insert_block_seed. simpl.
  set (l := pending_seed_blocks h) in *.
  destruct (position _ _) as [pos|] eqn:Ep; last first.
  { apply (proj1 (position_None _ _)) with (x := (p, r, m)) in Ep; [|apply elem_of_app; right; left].
    by rewrite bool_decide_true in Ep. }
  apply position_Some in Ep as ([[q r'] m'] & Hpos & Heq & _). apply bool_decide_eq_true in Heq as ->.
  assert (pos = length l) as ->.
  { apply lookup_app_Some in Hpos as [Hl|[Hl Hpos]].
    - exfalso. apply Hm, list_elem_of_fmap. exists (q, r', m). split; [done|].
      by eapply list_elem_of_lookup_2.
    - apply list_lookup_singleton_Some in Hpos as [Hz _]. lia. }
  rewrite list_lookup_middle by done. rewrite delete_take_drop.
  rewrite take_app_length, drop_ge, app_nil_r by (rewrite length_app; simpl; lia).
  by destruct h.
Qed.

(** A block that was read is sent to the peer that asked for it last. *)
Lemma on_block_read_last s id t p m r :
  torrents s = {[id := t]} -> m ∉ (pending_seed_blocks (piece_handler t)).*2 ->
  on_block_read (with_torrents {[id :=
    with_piece_handler (insert_block_seed (piece_handler t) p m r) t]} s) id m =
  (s, Some (p, r)).
Proof.
  intros Ht Hm. unfold on_block_read, update_torrent. simpl. rewrite lookup_singleton_eq.
  unfold on_handler. simpl. rewrite clear_pending_seed_block_last by done. simpl.
  rewrite insert_singleton_eq. unfold with_torrents. simpl.
  f_equal. destruct s. simpl in *. subst. by destruct t.
Qed.

(** The request of a peer, and the poll after it *)
Lemma serve_request {UpgrErr} b id t p rq r tf e bytes n1 n2 rnd clock now :
  let m := BlockMetadata_from_request rq in
  bt_quiet id t now b -> complete t -> PeerRequest_wf rq ->
  can_seed_piece_to t p (Z.to_nat (bm_piece_index m)) = true ->
  m ∉ (pending_seed_blocks (piece_handler t)).*2 ->
  disk_ready id tf (disk_manager b) -> in_one_file id tf m e ->
  0 < lru_capacity (file_cache (disk_manager b)) ->
  has_bytes e bytes (disk_manager b) ->
  block_place tf m e + bm_block_length m <= Z.of_nat (length bytes) ->
  prompt (Z.to_nat (bm_block_length m)) (fe_path e) ->
  exists b1 b2,
    inject_node_event n1 n2 p (HO_GetPieceReq rq r : BitTorrentHandlerEvent _ _ _ UpgrErr) b =
      Ret b1 /\
    bt_poll 2 2 2 rnd clock now b1 =
      Ret (Some (b2, Ready (SendEvent p (HI_GetPieceRes
        {| piece_idx := req_index rq; piece_begin := req_begin rq;
           piece_block := take (Z.to_nat (req_length rq))
                            (drop (Z.to_nat (block_place tf m e)) bytes) |} r)))) /\
    bt_torrents b2 = bt_torrents b /\ bt_queued_events b2 = [] /\
    disk_ready id tf (disk_manager b2) /\
    lru_capacity (file_cache (disk_manager b2)) = lru_capacity (file_cache (disk_manager b)) /\
    has_bytes e bytes (disk_manager b2).
Proof.
  intros m [Hq Ht Hid Hto] [Hbuf Hfin] Hwf Hcan Hm Hdisk Hone Hcap Hbytes Hlen Hprompt.
  set (t1 := with_piece_handler (insert_block_seed (piece_handler t) p m r) t).
  set (s1 := with_torrents {[id := t1]} (bt_torrents b)).
  set (b1 := bt_with_disk (dm_read_block id m (disk_manager b)) (bt_with_pool s1 b)).
  destruct Hwf as (Hwi & Hwb & Hwl).
  destruct (read_block_of_torrent id tf m e bytes (disk_manager b)) as
    (dm2 & Hread & Hdisk2 & Hcap2 & Hbytes2); try done.
  { change (bm_block_length m) with (req_length rq). unfold is_u32 in Hwl. lia. }
  pose proof Hdisk2 as [[Hact2 Hdq2] _].
  set (b2 := bt_with_disk dm2 (bt_with_pool (bt_torrents b) b1)).
  exists b1, b2. split_and!; try done.
  - node_event. fold m. rewrite (on_piece_request_single _ id t p _ r Ht Hid Hcan). done.
  - assert (bt_queued_events b1 = []) as Hq1 by exact Hq.
    cbn [bt_poll]. rewrite Hq1. cbn [pool_loop].
    rewrite (pool_poll_seed _ _ now (bt_torrents b1) id t1); [|done..]. rewrite bind_ret.
    replace (bt_with_pool (bt_torrents b1) b1) with b1 by done. rewrite bind_ret.
    cbn [disk_loop]. replace (disk_manager b1) with (dm_read_block id m (disk_manager b)) by done.
    rewrite Hread, bind_ret. cbn [on_disk_message bmut_metadata BlockMut_new].
    replace (bt_torrents (bt_with_disk dm2 b1)) with s1 by done. unfold s1, t1.
    rewrite (on_block_read_last _ id t p m r Ht Hm).
    rewrite (poll_idle dm2 1 Hact2 Hdq2), !bind_ret.
    rewrite bool_decide_false by (simpl; rewrite Hq; done).
    cbn [bt_poll bt_queued_events bt_send bt_push bt_with_queue bt_with_disk bt_with_pool].
    rewrite Hq1. simpl. do 3 f_equal.
    + unfold b2, b1, bt_with_queue, bt_send, bt_push, bt_with_disk, bt_with_pool. simpl. by rewrite Hq.
    + unfold BlockMut_into_piece, Block_into_piece. simpl. by rewrite !wrap_small by done.
Qed.
End BehaviorLemmas.

(** ** Properties *)

Section BehaviorProperties.
Context `{Countable PeerId} {Multiaddr : Type} `{BitVec BV} `{Sha1 Hasher} `{Clock Instant}.
Context `{FileSystemLaws Fs File FsError} `{LruCacheLaws TorrentFileId (FileState File) C}.
Context `{Profile} `{!MapOrder PeerId (BitTorrentPeer BV Instant)}.
Context `{!MapOrder Z (Torrent PeerId BV Instant)} `{!SetOrder FileEntry}.
#[local] Abbreviation Bt := (BitTorrent PeerId Multiaddr BV Hasher Instant Fs File C).
Implicit Types b : Bt.


(** C37: [poll] never comes back when no event is queued and an active torrent has
    a peer that is timed out, if this is the first of its peers that needs
    attention and the active torrents that are polled before it have nothing
    to report: the pool reports the same timeout on every call. *)
Theorem timeout_spins b l1 id t l2 p peer fuel loop_fuel disk_fuel rnd clock now :
  bt_queued_events b = [] -> iter_active (bt_torrents b) = l1 ++ (id, t) :: l2 ->
  Forall (fun e => at_rest (Hasher := Hasher) now e.2) l1 ->
  first_timeout now (map_iter (peers (piece_handler t))) = Some (p, peer, false) ->
  bt_poll fuel loop_fuel disk_fuel rnd clock now b = Ret None.
Proof.
  intros Hq Ha Hrest Hto. destruct fuel as [|fuel]; [done|]. cbn [bt_poll]. rewrite Hq.
  assert (forall lf, pool_loop lf (rnd fuel) (clock fuel) now b = Ret None) as Hloop.
  { induction lf as [|lf IH]; [done|]. cbn [pool_loop].
    rewrite (pool_poll_first _ _ now (bt_torrents b) l1 id t l2 (TPS_Timeout (torrent_id t) p))
      by (done || unfold Torrent_poll; by rewrite Hto).
    rewrite bind_ret. simpl. replace (bt_with_pool (bt_torrents b) b) with b by (by destruct b).
    exact IH. }
  by rewrite Hloop.
Qed.

(** C36: A torrent is reported as finished when its last piece has arrived, even
    if the disk manager then rejects this piece because of its hash: the error
    is dropped, the client goes on to own the piece, and nothing is written. *)
Theorem finished_without_last_piece b id t buf block fuel loop_fuel disk_fuel rnd clock now :
  bt_queued_events b = [] -> torrents (bt_torrents b) = {[id := t]} -> torrent_id t = id ->
  Torrent_is_active t = true -> first_timeout now (map_iter (peers (piece_handler t))) = None ->
  finished (piece_handler t) = false -> piece_buffer (piece_handler t) = Some buf ->
  is_full_piece buf = true -> try_finalize_piece (Hasher := Hasher) buf = Ok block ->
  let i := Z.to_nat (bm_piece_index (block_metadata block)) in
  bf_all (th_bitfield (set_piece (piece_handler t) i).1) = true ->
  active_blocks (disk_manager b) = [] -> queued_events (disk_manager b) = [] ->
  dm_is_good_piece id block (disk_manager b) = false ->
  (2 <= loop_fuel)%nat ->
  exists b1 b2 t2,
    bt_poll (S fuel) loop_fuel (S disk_fuel) rnd clock now b =
      Ret (Some (b1, Ready (GenerateEvent (EV_TorrentFinished id)))) /\
    bt_poll (S fuel) loop_fuel (S disk_fuel) rnd clock now b1 = Ret (Some (b2, Pending)) /\
    torrents (bt_torrents b2) = {[id := t2]} /\ bf_all (Torrent_bitfield t2) = true /\
    finished (piece_handler t2) = true /\ disk_manager b2 = disk_manager b.
Proof.
  intros Hq Ht Hid Ha Hto Hf Hb Hfull Hfin i Hall Hact Hdq Hbad Hlf.
  destruct loop_fuel as [|[|lf]]; [lia|lia|].
  destruct (poll_last_piece b id t buf block fuel lf (S disk_fuel) rnd clock now)
    as (t2 & Hpoll & Hp2 & Hb2 & Hf2 & Hall2 & _); [done..|].
  match type of Hpoll with _ = Ret (Some (?x, _)) => set (b1 := x) in * end.
  exists b1, (bt_with_disk (disk_manager b) b1), t2. split_and!; try done.
  assert (bt_queued_events b1 = []) as Hq1 by exact Hq.
  cbn [bt_poll]. rewrite Hq1. cbn [pool_loop].
  rewrite (pool_poll_seed _ _ now (bt_torrents b1) id t2); [|done..|by rewrite Hp2].
  rewrite bind_ret. replace (bt_with_pool (bt_torrents b1) b1) with b1 by done.
  rewrite bind_ret. cbn [disk_loop].
  rewrite (bad_piece_poll id block (disk_manager b) disk_fuel Hact Hdq Hbad), bind_ret.
  cbn [on_disk_message].
  rewrite (poll_idle (disk_manager b) disk_fuel Hact Hdq), !bind_ret.
  rewrite bool_decide_true; [done|]. simpl. by rewrite Hq.
Qed.

(** C8: A block that a peer asks for is sent to this peer, as the answer to this
    request and with the bytes of the file, by the next poll of a
    behaviour with one torrent, which is complete, with no event queued, with
    a disk manager that has nothing to do, and with no peer that is timed out.
    The client may seed the piece to the peer, owes nobody this block yet, the
    block lies in one file, which is open or can be opened and has the bytes,
    and the file system is prompt.  Afterwards the torrents are as before. *)
Theorem request_served {UpgrErr} b id t p rq r tf e bytes n1 n2 rnd clock now :
  let m := BlockMetadata_from_request rq in
  bt_quiet id t now b -> complete t -> PeerRequest_wf rq ->
  can_seed_piece_to t p (Z.to_nat (bm_piece_index m)) = true ->
  m ∉ (pending_seed_blocks (piece_handler t)).*2 ->
  disk_ready id tf (disk_manager b) -> in_one_file id tf m e ->
  0 < lru_capacity (file_cache (disk_manager b)) ->
  has_bytes e bytes (disk_manager b) ->
  block_place tf m e + bm_block_length m <= Z.of_nat (length bytes) ->
  prompt (Z.to_nat (bm_block_length m)) (fe_path e) ->
  exists b1 b2,
    inject_node_event n1 n2 p (HO_GetPieceReq rq r : BitTorrentHandlerEvent _ _ _ UpgrErr) b =
      Ret b1 /\
    bt_poll 2 2 2 rnd clock now b1 =
      Ret (Some (b2, Ready (SendEvent p (HI_GetPieceRes
        {| piece_idx := req_index rq; piece_begin := req_begin rq;
           piece_block := take (Z.to_nat (req_length rq))
                            (drop (Z.to_nat (block_place tf m e)) bytes) |} r)))) /\
    bt_torrents b2 = bt_torrents b.
Proof.
  intros m Hb Hc Hwf Hcan Hm Hdisk Hone Hcap Hbytes Hlen Hprompt.
  destruct (serve_request (UpgrErr := UpgrErr) b id t p rq r tf e bytes n1 n2 rnd clock now)
    as (b1 & b2 & ? & ? & ? & _); try done.
  by exists b1, b2.
Qed.

(** The answer to a handshake makes its torrent track the peer, even when
    another torrent does already: a peer whose own handshake crossed ours is
    tracked twice. *)
Theorem crossing_handshakes {UpgrErr} b id1 id2 t1 t2 p hs n1 n2 :
  torrents (bt_torrents b) !! id1 = Some t1 -> torrents (bt_torrents b) !! id2 = Some t2 ->
  id1 <> id2 -> torrent_info_hash t1 = info_hash hs -> tracks t2 p ->
  exists b' t1',
    inject_node_event n1 n2 p (HO_HandshakeRes hs id1 : BitTorrentHandlerEvent _ _ _ UpgrErr) b =
      Ret b' /\
    bt_queued_events b' = bt_queued_events b ++
      [SendEvent p (HI_BitfieldReq (Torrent_bitfield t1) id1);
       GenerateEvent (EV_HandshakeResult (Ok p))] /\
    torrents (bt_torrents b') !! id1 = Some t1' /\ tracks t1' p /\
    torrents (bt_torrents b') !! id2 = Some t2 /\ tracks t2 p.
Proof.
  intros Ht1 Ht2 Hne Hh Htr. node_event. unfold on_handshake_response.
  rewrite Ht1, bool_decide_true by done.
  set (peer := BitTorrentPeer_new _ n1 n2).
  pose proof (insert_peer_fields (piece_handler t1) p peer) as (_ & Hp & _).
  assert (th_bitfield (insert_peer (piece_handler t1) p peer).1 = th_bitfield (piece_handler t1))
    as Hbf by (unfold insert_peer; simpl; repeat case_match; done).
  destruct (insert_peer (piece_handler t1) p peer) as [h old]. simpl in Hp, Hbf.
  eexists _, (with_piece_handler h t1). split; [done|]. simpl. split_and!.
  - unfold Torrent_bitfield. simpl. by rewrite Hbf, <- app_assoc.
  - apply lookup_insert_eq.
  - unfold tracks. simpl. rewrite Hp, lookup_insert_eq. by eexists.
  - by rewrite lookup_insert_ne.
  - done.
Qed.

(** A message that cancels a request carries the identifier of its own
    substream, and handlers number substreams from zero: when a cancel message
    of any peer has the identifier under which another peer waits for a block,
    it is the other peer that gets no block, and the first one is reported. *)
Theorem cancel_hits_any_peer {UpgrErr} b id t p q rq m r n1 n2 :
  torrents (bt_torrents b) = {[id := t]} ->
  pending_seed_blocks (piece_handler t) = [(q, r, m)] ->
  exists b' t',
    inject_node_event n1 n2 p (HO_CancelPiece rq r : BitTorrentHandlerEvent _ _ _ UpgrErr) b =
      Ret b' /\
    torrents (bt_torrents b') = {[id := t']} /\
    pending_seed_blocks (piece_handler t') = [] /\ disk_manager b' = disk_manager b /\
    bt_queued_events b' = bt_queued_events b ++ [GenerateEvent (EV_SeedBlockResult (Ok
      (SBO_CancelledByRemote p (BlockMetadata_from_request rq))))].
Proof.
  intros Ht Hs. node_event. unfold on_cancel_request, visit_torrents.
  rewrite Ht, map_iter_singleton. cbn [visit]. unfold on_handler, remove_pending_seed_by_request.
  rewrite Hs. unfold position. simpl. rewrite decide_True by by apply bool_decide_pack.
  simpl. eexists _, _. split; [done|]. simpl. rewrite insert_singleton_eq. done.
Qed.
End BehaviorProperties.

(** ** Witnesses *)

Section BehaviorWitnesses.
#[local] Existing Instances list_bitvec list_bitvec_laws toy_sha1 seconds debug_build
  ex_order ex_torrent_order ex_dm_order ex_dm_fs ex_dm_contents ex_dm_fs_laws ex_dm_cache
  ex_dm_cache_laws.

Definition ex_behaviour : Type :=
  BitTorrent Z Z (list bool) (list byte) Z (list byte) Z (Z * list (TorrentFileId * FileState Z)).
Definition ex_bt0 : ex_behaviour :=
  BitTorrent_with_config (ex_hash 9) 1 [] (BitTorrentConfig_default (Hasher := list byte)).

(** The behaviour with one torrent in its pool, and this disk manager *)
Definition ex_bt (t : Torrent Z (list bool) Z) (dm : ex_manager) : ex_behaviour :=
  bt_with_disk dm (bt_with_pool (with_torrents {[0 := t]} (bt_torrents ex_bt0)) ex_bt0).
Definition ex_bt_torrent (bits : list bool) : Torrent Z (list bool) Z :=
  Torrent_new 0 0 (ex_hash 1)
    (TorrentPieceHandler_new 0 Random {| inner := bits |} 5 5) SeedAndLeech Active.

Definition ex_bt1 : ex_behaviour :=
  match add_leech 0 ex_dm_meta Active ex_bt0 with Ret b => b | Panic => ex_bt0 end.


(** A peer that was last heard of 1000 seconds ago *)
Definition ex_silent_peer : BitTorrentPeer (list bool) Z :=
  with_client_heartbeat 1000 (BitTorrentPeer_new (ex_hash 7) 0 0).
Definition ex_silent_torrent : Torrent Z (list bool) Z :=
  let t := ex_bt_torrent [true; false] in
  with_piece_handler (set_peer 7 ex_silent_peer (piece_handler t)) t.

Lemma timeout_spins_witness :
  bt_poll 10 1000 10 (fun _ _ l => l) (fun _ _ => 1000) 1000 (ex_bt ex_silent_torrent ex_dm) =
  Ret None.
Proof.
  apply (timeout_spins (ex_bt ex_silent_torrent ex_dm) [] 0 ex_silent_torrent [] 7 ex_silent_peer);
    [done|by vm_compute|constructor|by vm_compute].
Defined.

(** A torrent whose last piece has arrived, with bytes of another hash *)
Definition ex_bad_block : Block := Block_new (BlockMetadata_new 1 0 5) (replicate 5 Byte.xff).
Definition ex_last_buffer : PieceBuffer Z :=
  (PieceBuffer_add_block (PieceBuffer_next (PieceBuffer_new 1 5 0 [7])).1 7 ex_bad_block).1.
Definition ex_last_torrent : Torrent Z (list bool) Z :=
  let t := ex_bt_torrent [true; false] in
  with_piece_handler (with_piece_buffer (Some ex_last_buffer) (piece_handler t)) t.

Lemma finished_without_last_piece_witness :
  exists b1 b2 : ex_behaviour,
    bt_poll 1 2 1 (fun _ _ l => l) (fun _ _ => 0) 0 (ex_bt ex_last_torrent ex_dm) =
      Ret (Some (b1, Ready (GenerateEvent (EV_TorrentFinished 0)))) /\
    bt_poll 1 2 1 (fun _ _ l => l) (fun _ _ => 0) 0 b1 = Ret (Some (b2, Pending)) /\
    disk_manager b2 = ex_dm.
Proof.
  destruct (finished_without_last_piece (ex_bt ex_last_torrent ex_dm) 0 ex_last_torrent
    ex_last_buffer ex_bad_block 0 2 0 (fun _ _ l => l) (fun _ _ => 0) 0)
    as (b1 & b2 & t2 & H1 & H2 & _ & _ & _ & H3);
    [vm_compute; reflexivity..|lia|exact (ex_intro _ b1 (ex_intro _ b2 (conj H1 (conj H2 H3))))].
Defined.

(** A complete torrent whose file is open, and a peer that may have its blocks *)
Definition ex_leecher : BitTorrentPeer (list bool) Z :=
  with_client_choke UnChoked (with_remote_interest Interested (BitTorrentPeer_new (ex_hash 7) 0 0)).
Definition ex_seed_torrent : Torrent Z (list bool) Z :=
  let t := ex_bt_torrent [true; true] in
  with_piece_handler (with_finished true (set_peer 7 ex_leecher (piece_handler t))) t.
Definition ex_seed_bytes : list byte := byte_of_Z <$> [0; 0; 0; 0; 0; 1; 2; 3; 4; 5].
Definition ex_seed_dm : ex_manager :=
  dm_with_cache (lru_insert (4, []) (TorrentFileId_new 0 0) (FS_Ready 0))
    (dm_with_fs ex_seed_bytes ex_dm).

Lemma request_served_witness :
  exists b1 b2 : ex_behaviour,
    inject_node_event 0 0 7 (HO_GetPieceReq {| req_index := 1; req_begin := 0; req_length := 5 |} 3
      : BitTorrentHandlerEvent _ _ _ unit) (ex_bt ex_seed_torrent ex_seed_dm) = Ret b1 /\
    bt_poll 2 2 2 (fun _ _ l => l) (fun _ _ => 0) 0 b1 =
      Ret (Some (b2, Ready (SendEvent 7 (HI_GetPieceRes
        {| piece_idx := 1; piece_begin := 0; piece_block := ex_data |} 3)))).
Proof.
  destruct (request_served (UpgrErr := unit) (ex_bt ex_seed_torrent ex_seed_dm) 0 ex_seed_torrent 7
    {| req_index := 1; req_begin := 0; req_length := 5 |} 3 ex_dm_torrent ex_dm_entry ex_seed_bytes 0 0
    (fun _ _ l => l) (fun _ _ => 0) 0) as (b1 & b2 & H1 & H2 & _).
  - split; vm_compute; reflexivity.
  - split; vm_compute; reflexivity.
  - vm_compute. repeat split; discriminate.
  - vm_compute; reflexivity.
  - apply not_elem_of_nil.
  - split; [split|]; vm_compute; reflexivity.
  - by apply ex_dm_in_file.
  - vm_compute; reflexivity.
  - vm_compute; reflexivity.
  - vm_compute. discriminate.
  - apply ex_dm_prompt.
  - exact (ex_intro _ b1 (ex_intro _ b2 (conj H1 H2))).
Defined.

(** Two torrents, the second of which tracks the peer 7 *)
Definition ex_bt2 : ex_behaviour :=
  bt_with_pool (with_torrents {[0 := ex_bt_torrent [true; false]; 1 := ex_silent_torrent]}
    (bt_torrents ex_bt0)) ex_bt0.

Lemma crossing_handshakes_witness :
  exists (b' : ex_behaviour) t1',
    inject_node_event 0 0 7 (HO_HandshakeRes (Handshake_new (ex_hash 1) (ex_hash 7)) 0
      : BitTorrentHandlerEvent _ _ _ unit) ex_bt2 = Ret b' /\
    torrents (bt_torrents b') !! 0 = Some t1' /\ tracks t1' 7 /\
    torrents (bt_torrents b') !! 1 = Some ex_silent_torrent /\ tracks ex_silent_torrent 7.
Proof.
  destruct (crossing_handshakes (UpgrErr := unit) ex_bt2 0 1 (ex_bt_torrent [true; false])
    ex_silent_torrent 7 (Handshake_new (ex_hash 1) (ex_hash 7)) 0 0)
    as (b' & t1' & ? & _ & ? & ? & ? & ?); try done.
  - by eexists.
  - by exists b', t1'.
Defined.

Definition ex_waiting_torrent : Torrent Z (list bool) Z :=
  with_piece_handler (with_pending_seed_blocks [(7, 0, BlockMetadata_new 1 0 5)]
    (piece_handler ex_seed_torrent)) ex_seed_torrent.

Lemma cancel_hits_any_peer_witness :
  exists (b' : ex_behaviour) t',
    inject_node_event 0 0 8 (HO_CancelPiece {| req_index := 0; req_begin := 0; req_length := 5 |} 0
      : BitTorrentHandlerEvent _ _ _ unit) (ex_bt ex_waiting_torrent ex_dm) = Ret b' /\
    torrents (bt_torrents b') = {[0 := t']} /\ pending_seed_blocks (piece_handler t') = [].
Proof.
  destruct (cancel_hits_any_peer (UpgrErr := unit) (ex_bt ex_waiting_torrent ex_dm) 0
    ex_waiting_torrent 8 7 {| req_index := 0; req_begin := 0; req_length := 5 |}
    (BlockMetadata_new 1 0 5) 0 0 0) as (b' & t' & ? & ? & ? & _); [done..|].
  by exists b', t'.
Defined.
End BehaviorWitnesses.
