(* ===== verification/Announce.v ===== *)
(** * What the behaviour announces

    The composition of the behaviour, the pool, the piece buffers and the disk
    manager: runs of the behaviour with the torrents that were added, and the
    pieces the peers are told about. *)

From S2P Require Import Prelude Crates DiskFs Util Message MetaInfo Block Peer DiskError PieceBuffer.
From S2P Require Import PieceHandler Events Torrent Pool DiskFile BlockIO DiskManager Handler Behavior.
Local Open Scope Z_scope.

(** ** Specification *)

Section AnnounceSpec.
Context `{Countable PeerId} {Multiaddr : Type} `{BitVec BV} `{Sha1 Hasher} `{Clock Instant}.
Context `{FileSystem Fs File FsError} `{LruCache TorrentFileId (FileState File) C} `{Profile}.
Context `{!MapOrder PeerId (BitTorrentPeer BV Instant)}.
Context `{!MapOrder Z (Torrent PeerId BV Instant)} `{!SetOrder FileEntry}.
#[local] Abbreviation Bt := (BitTorrent PeerId Multiaddr BV Hasher Instant Fs File C).
#[local] Abbreviation Action := (NetworkBehaviourAction PeerId BV Hasher Instant).
Implicit Types b : Bt.

(** The bytes of the blocks of a piece buffer fit into one buffer: no buffer is
    longer than [isize::MAX]. *)
Definition buffer_fits (buf : PieceBuffer PeerId) : Prop :=
  Z.of_nat (length (concat (block_data <$> (pb_blocks buf).*2))) < 2 ^ 63.
Definition torrent_fits (t : Torrent PeerId BV Instant) : Prop :=
  forall buf, piece_buffer (piece_handler t) = Some buf -> buffer_fits buf.
Definition pool_fits (s : TorrentPool PeerId BV Instant) : Prop :=
  forall id t, torrents s !! id = Some t -> torrent_fits t.

(** What the disk manager reported as written: the torrent, the block, and the
    peers the torrent tracked at that time *)
#[local] Abbreviation Written := (TorrentId * Block * list PeerId)%type.

Definition written_now (msg : DiskMessageOut Hasher) b : list Written :=
  match msg with
  | DO_PieceWritten id block =>
      match torrents (bt_torrents b) !! id with
      | Some t => [(id, block, Torrent_iter_peer_ids t)]
      | None => []
      end
  | _ => []
  end.

(** [poll] with a log of what the disk manager reports as written: the log does
    not change what [poll] does. *)
Fixpoint disk_loop_log (fuel disk_fuel : nat) (log : list Written) b :
    outcome (option (Bt * option Action * list Written)) :=
  match fuel with
  | O => Ret None
  | S fuel =>
      res ← DiskManager_poll disk_fuel (disk_manager b);
      match res with
      | None => Ret None
      | Some (dm, p) =>
          let b := bt_with_disk dm b in
          match p with
          | Ready (Ok msg) =>
              let log := log ++ written_now msg b in
              let '(b, r) := on_disk_message msg b in
              match r with
              | Some action => Ret (Some (b, Some action, log))
              | None => disk_loop_log fuel disk_fuel log b
              end
          | Ready (Err _) => Ret (Some (b, Some (GenerateEvent (EV_DiskResult (Err tt))), log))
          | Pending => Ret (Some (b, None, log))
          end
      end
  end.

Fixpoint bt_poll_log (fuel loop_fuel disk_fuel : nat) (rnd : nat -> nat -> list nat -> list nat)
    (clock : nat -> nat -> Instant) (now : Instant) (log : list Written) b :
    outcome (option (Bt * poll Action * list Written)) :=
  match fuel with
  | O => Ret None
  | S fuel =>
      match bt_queued_events b with
      | event :: q => Ret (Some (bt_with_queue q b, Ready event, log))
      | [] =>
          res ← pool_loop loop_fuel (rnd fuel) (clock fuel) now b;
          match res with
          | None => Ret None
          | Some (b, Some action) => Ret (Some (b, Ready action, log))
          | Some (b, None) =>
              res ← disk_loop_log loop_fuel disk_fuel log b;
              match res with
              | None => Ret None
              | Some (b, Some action, log) => Ret (Some (b, Ready action, log))
              | Some (b, None, log) =>
                  if bool_decide (length (bt_queued_events b) = 0%nat) then
                    Ret (Some (b, Pending, log))
                  else bt_poll_log fuel loop_fuel disk_fuel rnd clock now log b
              end
          end
      end
  end.

(** The runs of the behaviour, with the torrents that were added and what was
    written.  A peer may answer a handshake at any time. *)
Inductive bt_run {UpgrErr : Type} :
    list (TorrentId * MetaInfo Hasher) -> list Written -> Bt -> Prop :=
| run_new random id fs config : bt_run [] [] (BitTorrent_with_config random id fs config)
| run_call added log l b b' :
    bt_run added log b -> bt_call (UpgrErr := UpgrErr) (fun _ => True) l b b' ->
    bt_run (l ++ added) log b'
| run_poll added log b fuel loop_fuel disk_fuel rnd clock now b' r log' :
    bt_run added log b -> pool_fits (bt_torrents b) ->
    bt_poll_log fuel loop_fuel disk_fuel rnd clock now log b = Ret (Some (b', r, log')) ->
    bt_run added log' b'.

(** A peer is told of a piece only when the disk manager has reported that it
    wrote this piece of a torrent that tracked the peer then, with bytes of the
    hash that the metadata of the torrent list. *)
Definition announce_ok (added : list (TorrentId * MetaInfo Hasher)) (log : list Written)
    (a : Action) : Prop :=
  match a with
  | SendEvent p (HI_Have i) =>
      exists id block ps, (id, block, ps) ∈ log /\ p ∈ ps /\
        i = wrap 32 (bm_piece_index (block_metadata block)) /\
        verified added id (bm_piece_index (block_metadata block)) (block_data block)
  | _ => True
  end.

Record bt_safe (added : list (TorrentId * MetaInfo Hasher)) (log : list Written) b : Prop := {
  safe_disk : dm_inv added (disk_manager b);
  safe_queue : Forall (announce_ok added log) (bt_queued_events b);
}.

(** Each torrent that was added has an id of its own. *)
Record ids_safe (added : list (TorrentId * MetaInfo Hasher)) b : Prop := {
  ids_unique : NoDup added.*1;
  ids_given : Forall (fun e => e.1 < next_unique_torrent (bt_torrents b)) added;
  ids_next : 0 <= next_unique_torrent (bt_torrents b);
}.
End AnnounceSpec.

(** ** Lemmas *)

Section AnnouncePool.
Context `{Countable PeerId} `{BitVec BV} `{Clock Instant} `{Profile} {Hasher : Type}.
Context `{!MapOrder PeerId (BitTorrentPeer BV Instant)}.
Context `{!MapOrder Z (Torrent PeerId BV Instant)}.
Implicit Types s : TorrentPool PeerId BV Instant.
Implicit Types t : Torrent PeerId BV Instant.
Implicit Types h : TorrentPieceHandler PeerId BV Instant.

(** *** The pieces of the pool *)

(** A piece that is ready has the bytes of its blocks. *)
Lemma try_finalize_fits (buf : PieceBuffer PeerId) block :
  buffer_fits buf -> try_finalize_piece (Hasher := Hasher) buf = Ok block ->
  Z.of_nat (length (block_data block)) < 2 ^ 63.
Proof.
  unfold try_finalize_piece, buffer_fits. rewrite finalize_loop_eq. intros Hf Hp.
  destruct (forallb _ _); [|done]. injection Hp as <-. exact Hf.
Qed.

(** Asking for a block does not add any. *)
Lemma PieceBuffer_next_fits (buf buf' : PieceBuffer PeerId) nb :
  PieceBuffer_next buf = (buf', nb) -> buffer_fits buf -> buffer_fits buf'.
Proof. unfold PieceBuffer_next. intros Hn. by repeat (case_match; simplify_eq/=). Qed.

Lemma next_piece_buffer_empty shuffle h buf :
  next_piece_buffer shuffle h = Ret (Some buf) -> pb_blocks buf = [].
Proof.
  assert (forall i ids, buffer_for h i ids = Ret (Some buf) -> pb_blocks buf = []) as Hb.
  { unfold buffer_for. intros i ids Hf. inv_bind Hf. by injection Hf as <-. }
  unfold next_piece_buffer, next_random_piece, next_least_common_piece.
  set (l := shuffle _). clearbody l. destruct (selection_strategy h).
  - induction l as [|i l IH]; cbn [random_piece_loop]; [done|].
    destruct (peers_with_piece h i); [apply Hb|apply IH].
  - destruct (negb _); [done|]. generalize (@None (list PeerId)) 0%nat.
    induction l as [|i l IH]; cbn [least_common_loop]; intros o r.
    + destruct o; [apply Hb|done].
    + repeat case_match; eauto.
Qed.

(** What a poll of a torrent keeps and yields *)
Definition piece_fits (r : TorrentPoolState PeerId Hasher) : Prop :=
  match r with
  | TPS_PieceReady (Ok (_, block)) => Z.of_nat (length (block_data block)) < 2 ^ 63
  | _ => True
  end.

Lemma th_poll_fits shuffle h h' r :
  (forall buf, piece_buffer h = Some buf -> buffer_fits buf) ->
  th_poll (Hasher := Hasher) shuffle h = Ret (h', r) ->
  (forall buf, piece_buffer h' = Some buf -> buffer_fits buf) /\
  forall block, r = TPH_PieceFinished (Ok block) -> Z.of_nat (length (block_data block)) < 2 ^ 63.
Proof.
  intros Hf Hp. unfold th_poll in Hp. destruct (piece_buffer h) as [buf|] eqn:Eb.
  - specialize (Hf buf eq_refl). destruct (is_full_piece buf).
    + destruct (try_finalize_piece buf) as [block|e] eqn:Ef.
      * destruct (set_piece _ _) as [h1 r1] eqn:Es. injection Hp as <- <-. split.
        -- unfold set_piece in Es. by case_match; injection Es as <- _.
        -- intros ? [= <-]. by eapply try_finalize_fits.
      * by injection Hp as <- <-.
    + destruct (PieceBuffer_next buf) as [buf' nb] eqn:En. injection Hp as <- <-.
      split; [|done]. intros ? [= <-]. by eapply PieceBuffer_next_fits.
  - destruct (finished h); [by injection Hp as <- <-; rewrite Eb|].
    destruct (bf_all _); [by injection Hp as <- <-; simpl; rewrite Eb|].
    inv_bind Hp. destruct a as [buf|]; [|by injection Hp as <- <-; rewrite Eb].
    apply next_piece_buffer_empty in Ha.
    destruct (PieceBuffer_next buf) as [buf' nb] eqn:En. injection Hp as <- <-.
    split; [|done]. intros ? [= <-]. eapply PieceBuffer_next_fits; [exact En|].
    unfold buffer_fits. by rewrite Ha.
Qed.

Lemma Torrent_poll_fits shuffle now' now t t' r :
  torrent_fits t -> Torrent_poll (Hasher := Hasher) shuffle now' now t = Ret (t', r) ->
  torrent_fits t' /\ piece_fits r.
Proof.
  intros Hf Hp. unfold Torrent_poll in Hp.
  destruct (first_timeout _ _) as [[[id p] [|]]|]; [by injection Hp as <- <-..|].
  inv_bind Hp. destruct a as [h st]. apply th_poll_fits in Ha as [Hh Hr]; [|done].
  destruct st as [|[nb|]|[blk|e]| | |]; try done; injection Hp as <- <-; split; try done.
  simpl. by apply Hr.
Qed.

Lemma pool_poll_fits shuffle now' now s s' r :
  pool_fits s -> pool_poll (Hasher := Hasher) shuffle now' now s = Ret (s', r) ->
  pool_fits s' /\ piece_fits r.
Proof.
  intros Hs Hp. unfold pool_poll in Hp. inv_bind Hp. destruct a as [ts st]. injection Hp as <- <-.
  assert (Forall (fun e => torrent_fits e.2) (iter_active s)) as Hl.
  { apply Forall_forall. intros [id t] Hin. apply list_elem_of_In, filter_In in Hin as [Hin _].
    apply list_elem_of_In, map_iter_elem in Hin. by eapply Hs. }
  unfold pool_fits in *. simpl. set (ts0 := torrents s) in *. clearbody ts0.
  revert ts0 Hs Ha. induction Hl as [|[id t] l Ht Hl IH]; cbn [poll_torrents]; intros ts0 Hs Hp.
  - by injection Hp as <- <-.
  - inv_bind Hp. destruct a as [t' r']. apply Torrent_poll_fits in Ha as [Ht' Hr']; [|done].
    assert (forall id' u, <[id := t']> ts0 !! id' = Some u -> torrent_fits u) as Hs'.
    { intros id' u Hu. apply lookup_insert_Some in Hu as [[_ <-]|[_ Hu]]; [done|by eapply Hs]. }
    destruct r' as [|x|[[x blk]|e]|x|x y|x y|nb]; (by injection Hp as <- <-) || by eapply IH.
Qed.
End AnnouncePool.

Section AnnounceLemmas.
Context `{Countable PeerId} {Multiaddr : Type} `{BitVec BV} `{Sha1 Hasher} `{Clock Instant}.
Context `{FileSystemLaws Fs File FsError} `{LruCacheLaws TorrentFileId (FileState File) C}.
Context `{Profile} `{!MapOrder PeerId (BitTorrentPeer BV Instant)}.
Context `{!MapOrder Z (Torrent PeerId BV Instant)} `{!SetOrder FileEntry}.
#[local] Abbreviation Bt := (BitTorrent PeerId Multiaddr BV Hasher Instant Fs File C).
#[local] Abbreviation Action := (NetworkBehaviourAction PeerId BV Hasher Instant).
Implicit Types b : Bt.
Implicit Types added : list (TorrentId * MetaInfo Hasher).

(** *** Changes of the parts of the behaviour *)

Lemma bt_safe_push added log a b :
  announce_ok added log a -> bt_safe added log b -> bt_safe added log (bt_push a b).
Proof. intros Ha [Hd Hq]. split; [done|]. by apply Forall_app_2; [|constructor]. Qed.

Lemma bt_safe_disk added log dm b :
  dm_inv added dm -> bt_safe added log b -> bt_safe added log (bt_with_disk dm b).
Proof. intros Hd [_ Hq]. by split. Qed.

Lemma bt_safe_pool added log s b : bt_safe added log b -> bt_safe added log (bt_with_pool s b).
Proof. by intros [Hd Hq]. Qed.

Lemma bt_safe_connected added log l b :
  bt_safe added log b -> bt_safe added log (bt_with_connected l b).
Proof. by intros [Hd Hq]. Qed.

Lemma announce_ok_mono added added' log log' (a : Action) :
  added ⊆ added' -> log ⊆ log' -> announce_ok added log a -> announce_ok added' log' a.
Proof.
  intros Hs Hl. destruct a as [| |p []]; simpl; try done.
  intros (id & block & ps & Hin & Hp & Hi & Hv). exists id, block, ps.
  split_and!; [by apply Hl|done..|]. by eapply verified_mono.
Qed.

Lemma bt_safe_mono added added' log log' b :
  added ⊆ added' -> log ⊆ log' -> bt_safe added log b -> bt_safe added' log' b.
Proof.
  intros Hs Hl [Hd Hq]. split; [by eapply dm_inv_mono|].
  eapply Forall_impl; [exact Hq|]. intros a. by apply announce_ok_mono.
Qed.

(** The torrents, the addresses and the handshakes play no part. *)
Lemma bt_safe_same added log b b' :
  disk_manager b' = disk_manager b -> bt_queued_events b' = bt_queued_events b ->
  bt_safe added log b -> bt_safe added log b'.
Proof. intros Hd Hq [H1' H2']. split; by rewrite ?Hd, ?Hq. Qed.

(** *** [poll] *)

Lemma pool_loop_safe added log fuel rnd clock now b b' r :
  bt_safe added log b -> pool_fits (bt_torrents b) ->
  pool_loop fuel rnd clock now b = Ret (Some (b', r)) ->
  bt_safe added log b' /\ forall a, r = Some a -> announce_ok added log a.
Proof.
  revert b. induction fuel as [|fuel IH]; cbn [pool_loop]; intros b Hb Hf Hp; [done|].
  inv_bind Hp. destruct a as [pool st]. apply pool_poll_fits in Ha as [Hf' Hr]; [|done].
  destruct st as [|t|[[t blk]|e]|t|t p|t p|nb]; simpl in Hp;
    try (injection Hp as <- <-; split; [exact (bt_safe_pool _ _ pool _ Hb)|by intros ? [= <-]]).
  - by apply IH in Hp; [|apply bt_safe_disk; [apply dm_inv_push, Hb|apply bt_safe_pool]|].
  - by apply IH in Hp; [|apply bt_safe_pool|].
  - by apply IH in Hp; [|apply bt_safe_pool|].
Qed.

Lemma foldl_have_safe added log i l b :
  (forall p, p ∈ l -> announce_ok added log (SendEvent p (HI_Have i) : Action)) ->
  bt_safe added log b -> bt_safe added log (foldl (fun b peer => bt_send peer (HI_Have i) b) b l).
Proof.
  revert b. induction l as [|p l IH]; intros b Hi Hb; simpl; [done|].
  apply IH; [intros q Hq; apply Hi; by right|]. apply bt_safe_push; [|done]. apply Hi. left.
Qed.

Lemma set_piece_peer_ids (t : Torrent PeerId BV Instant) i :
  Torrent_iter_peer_ids (Torrent_set_piece t i).1 = Torrent_iter_peer_ids t.
Proof. unfold Torrent_set_piece, on_handler, set_piece. by case_match. Qed.

Lemma on_disk_message_safe added log msg b b' r :
  bt_safe added log b -> msg_ok added msg -> on_disk_message msg b = (b', r) ->
  bt_safe added (log ++ written_now msg b) b' /\
  forall a, r = Some a -> announce_ok added (log ++ written_now msg b) a.
Proof.
  intros Hb Hm Hd.
  apply (bt_safe_mono _ added _ (log ++ written_now msg b)) in Hb;
    [|done|intros x Hx; apply elem_of_app; by left].
  destruct msg as [id|id m|id d|id|id blk|id blk|id e|id e|id e]; simpl in Hd;
    try (injection Hd as <- <-; split; [exact Hb|by intros ? [= <-]]).
  - injection Hd as <- <-. split; [by apply bt_safe_push|done].
  - destruct (on_block_read _ _ _) as [pool [[p x]|]]; injection Hd as <- <-; (split; [|done]).
    + by apply bt_safe_push, bt_safe_pool.
    + by apply bt_safe_pool.
  - simpl in Hb |- *. destruct (torrents (bt_torrents b) !! id) as [t|]; [|by injection Hd as <- <-].
    injection Hd as <- <-. split; [|done].
    apply foldl_have_safe; [|by apply bt_safe_pool]. intros p Hp.
    exists id, blk, (Torrent_iter_peer_ids t). split_and!; [| |done|done].
    + apply elem_of_app. right. left.
    + erewrite <- set_piece_peer_ids. exact Hp.
Qed.

Lemma disk_loop_safe added log fuel disk_fuel b b' r log' :
  bt_safe added log b -> disk_loop_log fuel disk_fuel log b = Ret (Some (b', r, log')) ->
  bt_safe added log' b' /\ forall a, r = Some a -> announce_ok added log' a.
Proof.
  revert b log. induction fuel as [|fuel IH]; cbn [disk_loop_log]; intros b log Hb Hp; [done|].
  inv_bind Hp. destruct a as [[dm p]|]; [|done].
  apply (DiskManager_poll_ok added) in Ha as [Hdm Hmsg]; [|apply Hb].
  assert (bt_safe added log (bt_with_disk dm b)) as Hb1 by by apply bt_safe_disk.
  destruct p as [[msg|e]|].
  - destruct (on_disk_message msg _) as [b1 r1] eqn:Ed.
    apply (on_disk_message_safe added log) in Ed as [Hb2 Hr]; [|done|by apply Hmsg].
    destruct r1 as [act|]; [injection Hp as <- <- <-; by split|exact (IH b1 _ Hb2 Hp)].
  - injection Hp as <- <- <-. by split; [|intros ? [= <-]].
  - by injection Hp as <- <- <-.
Qed.

(** A call of [poll] never polls the pool twice: the second round finds a
    queued event. *)
Lemma bt_poll_safe added log fuel loop_fuel disk_fuel rnd clock now b b' r log' :
  bt_safe added log b -> pool_fits (bt_torrents b) ->
  bt_poll_log fuel loop_fuel disk_fuel rnd clock now log b = Ret (Some (b', r, log')) ->
  bt_safe added log' b' /\ forall a, r = Ready a -> announce_ok added log' a.
Proof.
  assert (forall fuel rnd clock b log, bt_safe added log b -> bt_queued_events b <> [] ->
    bt_poll_log fuel loop_fuel disk_fuel rnd clock now log b = Ret (Some (b', r, log')) ->
    bt_safe added log' b' /\ forall a, r = Ready a -> announce_ok added log' a) as Hqueue.
  { intros [|n] rnd' clock' b1 log1 [Hd Hq] Hne; cbn [bt_poll_log]; [done|].
    destruct (bt_queued_events b1) as [|ev q]; [done|]. inversion_clear Hq. intros [= <- <- <-].
    split; [by split|by intros ? [= <-]]. }
  destruct fuel as [|fuel]; intros Hb Hf Hp; [done|].
  destruct (bt_queued_events b) as [|ev q] eqn:Eq;
    [|eapply Hqueue; [exact Hb|by rewrite Eq|exact Hp]].
  cbn [bt_poll_log] in Hp. rewrite Eq in Hp. inv_bind Hp. destruct a as [[b1 r1]|]; [|done].
  apply (pool_loop_safe added log) in Ha as [Hb1 Hr1]; [|done..].
  destruct r1 as [act|]; [injection Hp as <- <- <-; split; [done|intros ? [= <-]; auto]|].
  inv_bind Hp. destruct a as [[[b2 r2] log2]|]; [|done].
  apply (disk_loop_safe added) in Ha as [Hb2 Hr2]; [|done].
  destruct r2 as [act|]; [injection Hp as <- <- <-; split; [done|intros ? [= <-]; auto]|].
  case_bool_decide as Hl; [by injection Hp as <- <- <-|].
  eapply Hqueue; [exact Hb2| |exact Hp]. intros He. by rewrite He in Hl.
Qed.

(** The log aside, these are the loop over the disk manager and [poll]. *)
Definition forget_log {A L} (m : outcome (option (A * L))) : outcome (option A) :=
  match m with Ret o => Ret (option_map fst o) | Panic => Panic end.

Lemma disk_loop_log_erase fuel disk_fuel log b :
  forget_log (disk_loop_log fuel disk_fuel log b) = disk_loop fuel disk_fuel b.
Proof.
  revert log b. induction fuel as [|fuel IH]; intros log b; [done|].
  cbn [disk_loop_log disk_loop]. destruct (DiskManager_poll _ _) as [[[dm p]|]|]; [|done..].
  rewrite !bind_ret. destruct p as [[msg|e]|]; [|done..].
  destruct (on_disk_message msg _) as [b1 [act|]]; [done|apply IH].
Qed.

Lemma bt_poll_log_erase fuel loop_fuel disk_fuel rnd clock now log b :
  forget_log (bt_poll_log fuel loop_fuel disk_fuel rnd clock now log b) =
  bt_poll fuel loop_fuel disk_fuel rnd clock now b.
Proof.
  revert log b. induction fuel as [|fuel IH]; intros log b; [done|]. cbn [bt_poll_log bt_poll].
  destruct (bt_queued_events b); [|done].
  destruct (pool_loop _ _ _ _ _) as [[[b1 [act|]]|]|]; [done| |done..]. rewrite !bind_ret.
  rewrite <- (disk_loop_log_erase _ _ log).
  destruct (disk_loop_log _ _ _ _) as [[[[b2 [act|]] log2]|]|]; [done| |done..]. simpl.
  case_bool_decide; [done|apply IH].
Qed.

Lemma foldl_have_eq i l b :
  foldl (fun b peer => bt_send peer (HI_Have i) b) b l =
  bt_with_queue (bt_queued_events b ++ ((fun p => SendEvent p (HI_Have i)) <$> l)) b.
Proof.
  revert b. induction l as [|p l IH]; intros b; simpl.
  - rewrite app_nil_r. by destruct b.
  - rewrite IH. unfold bt_send, bt_push, bt_with_queue. simpl. by rewrite <- app_assoc.
Qed.

(** A block that was asked for, in a pool of one torrent *)
Lemma on_block_response_single b id t p block buf :
  torrents (bt_torrents b) = {[id := t]} -> piece_buffer (piece_handler t) = Some buf ->
  pending_blocks buf !! p = Some (block_metadata block) ->
  on_block_response (bt_torrents b) id p block =
  (with_torrents {[id := with_piece_handler (with_piece_buffer
      (Some (PieceBuffer_add_block buf p block).1) (piece_handler t)) t]} (bt_torrents b),
   Ok (block_metadata block)).
Proof.
  intros Ht Hb Hp. unfold on_block_response, update_torrent. rewrite Ht, lookup_singleton_eq.
  unfold Torrent_add_block, on_handler, th_add_block. rewrite Hb.
  unfold PieceBuffer_add_block. rewrite Hp, bool_decide_true by done.
  by rewrite insert_singleton_eq.
Qed.

(** A piece that was written, in a pool of one torrent: all its peers are told. *)
Lemma on_piece_written b id t block :
  torrents (bt_torrents b) = {[id := t]} ->
  let m := block_metadata block in
  on_disk_message (DO_PieceWritten id block) b =
  (bt_with_queue (bt_queued_events b ++
       ((fun p => SendEvent p (HI_Have (wrap 32 (bm_piece_index m)))) <$> Torrent_iter_peer_ids t))
     (bt_with_pool (with_torrents {[id :=
        (Torrent_set_piece t (Z.to_nat (bm_piece_index m))).1]} (bt_torrents b)) b), None).
Proof.
  intros Ht m. cbn [on_disk_message]. rewrite Ht, lookup_singleton_eq. fold m.
  assert (Torrent_iter_peer_ids (Torrent_set_piece t (Z.to_nat (bm_piece_index m))).1 =
    Torrent_iter_peer_ids t) as Hp.
  { unfold Torrent_iter_peer_ids, Torrent_set_piece, on_handler, set_piece. simpl. by case_match. }
  destruct (Torrent_set_piece t _) as [t' r]. simpl in Hp.
  by rewrite foldl_have_eq, Hp, insert_singleton_eq.
Qed.

(** *** The end of a download *)

(** A torrent with this piece in progress *)
Definition with_buffer (buf : PieceBuffer PeerId) (t : Torrent PeerId BV Instant) :
    Torrent PeerId BV Instant :=
  with_piece_handler (with_piece_buffer (Some buf) (piece_handler t)) t.

Lemma set_piece_with_buffer o (h : TorrentPieceHandler PeerId BV Instant) i :
  th_bitfield (set_piece (with_piece_buffer o h) i).1 = th_bitfield (set_piece h i).1.
Proof. unfold set_piece. simpl. by case_match. Qed.

(** A block arrives from the peer that was asked for it, and is reported. *)
Lemma block_arrives {UpgrErr} b id t buf pc p n1 n2 fuel lf df rnd clock now :
  bt_quiet id t now b -> piece_buffer (piece_handler t) = Some buf ->
  pending_blocks buf !! p = Some (block_metadata (Block_from_piece pc)) ->
  exists b1 b2,
    inject_node_event n1 n2 p (HO_GetPieceRes pc id : BitTorrentHandlerEvent _ _ _ UpgrErr) b =
      Ret b1 /\
    bt_poll (S fuel) lf df rnd clock now b1 = Ret (Some (b2, Ready (GenerateEvent
      (EV_LeechBlockResult (Ok (mkBlockOk p (block_metadata (Block_from_piece pc)) id)))))) /\
    bt_quiet id (with_buffer (PieceBuffer_add_block buf p (Block_from_piece pc)).1 t) now b2 /\
    disk_manager b2 = disk_manager b.
Proof.
  intros [Hq Ht Hid Hto] Hbuf Hpend.
  set (t1 := with_buffer (PieceBuffer_add_block buf p (Block_from_piece pc)).1 t).
  eexists _, (bt_with_pool (with_torrents {[id := t1]} (bt_torrents b)) b). split_and!.
  - node_event. rewrite (on_block_response_single b id t p (Block_from_piece pc) buf) by done. done.
  - cbn [bt_poll]. simpl. rewrite Hq. simpl. do 3 f_equal. destruct b. simpl in *. by subst.
  - by split.
  - done.
Qed.

(** A piece was written while the pool has nothing to do: the peers are told. *)
Lemma bt_poll_written b id t block dm p0 ps rnd clock now :
  bt_queued_events b = [] -> torrents (bt_torrents b) = {[id := t]} ->
  pool_loop 2 (rnd 1%nat) (clock 1%nat) now b = Ret (Some (b, None)) ->
  DiskManager_poll 2 (disk_manager b) = Ret (Some (dm, Ready (Ok (DO_PieceWritten id block)))) ->
  active_blocks dm = [] /\ queued_events dm = [] -> Torrent_iter_peer_ids t = p0 :: ps ->
  let i := bm_piece_index (block_metadata block) in
  let have := fun q => SendEvent q (HI_Have (wrap 32 i)) in
  bt_poll 2 2 2 rnd clock now b =
  Ret (Some (bt_with_queue (have <$> ps) (bt_with_pool (with_torrents
    {[id := (Torrent_set_piece t (Z.to_nat i)).1]} (bt_torrents b)) (bt_with_disk dm b)),
    Ready (have p0))).
Proof.
  intros Hq Ht Hpool Hwrite [Ha Hdq] Hps i have. cbn [bt_poll]. rewrite Hq, Hpool, bind_ret.
  cbn [disk_loop]. rewrite Hwrite, bind_ret, (on_piece_written _ id t block) by done.
  replace (bt_queued_events (bt_with_disk dm b)) with (bt_queued_events b) by done.
  rewrite Hq, Hps, (poll_idle dm 1 Ha Hdq), !bind_ret, bool_decide_false by done. done.
Qed.

(** Neither the pool nor the disk manager has anything to do. *)
Lemma bt_poll_pending b rnd clock now :
  bt_queued_events b = [] -> pool_loop 2 (rnd 1%nat) (clock 1%nat) now b = Ret (Some (b, None)) ->
  active_blocks (disk_manager b) = [] /\ queued_events (disk_manager b) = [] ->
  bt_poll 2 2 2 rnd clock now b = Ret (Some (b, Pending)).
Proof.
  intros Hq Hpool [Ha Hdq]. cbn [bt_poll]. rewrite Hq, Hpool, bind_ret. cbn [disk_loop].
  rewrite (poll_idle _ _ Ha Hdq), !bind_ret.
  replace (bt_with_disk (disk_manager b) b) with b by (by destruct b).
  by rewrite Hq.
Qed.

(** The last piece is complete: the torrent is reported as finished, the piece
    is written, and the peers are told. *)
Lemma full_piece_stored b id t buf block p0 ps tf e rnd clock now :
  bt_quiet id t now b -> Torrent_is_active t = true -> finished (piece_handler t) = false ->
  piece_buffer (piece_handler t) = Some buf -> is_full_piece buf = true ->
  try_finalize_piece (Hasher := Hasher) buf = Ok block -> Torrent_iter_peer_ids t = p0 :: ps ->
  let m := block_metadata block in
  bf_all (th_bitfield (set_piece (piece_handler t) (Z.to_nat (bm_piece_index m))).1) = true ->
  disk_ready id tf (disk_manager b) -> TorrentFile_is_good_piece tf block = true ->
  in_one_file id tf m e ->
  bm_block_length m = Z.of_nat (length (block_data block)) -> bm_block_length m < 2 ^ 63 ->
  (lru_get (file_cache (disk_manager b)) (fe_id e) = None \/
   exists f, lru_get (file_cache (disk_manager b)) (fe_id e) = Some (FS_Ready f)) ->
  0 < lru_capacity (file_cache (disk_manager b)) ->
  prompt (length (block_data block)) (fe_path e) ->
  let have := fun q => SendEvent q (HI_Have (wrap 32 (bm_piece_index m))) in
  exists b3 b4 t4 f,
    bt_poll 2 2 2 rnd clock now b = Ret (Some (b3, Ready (GenerateEvent (EV_TorrentFinished id)))) /\
    bt_poll 2 2 2 rnd clock now b3 = Ret (Some (b4, Ready (have p0))) /\
    bt_queued_events b4 = have <$> ps /\ torrents (bt_torrents b4) = {[id := t4]} /\
    torrent_id t4 = id /\ complete t4 /\ peers (piece_handler t4) = peers (piece_handler t) /\
    disk_ready id tf (disk_manager b4) /\
    lru_get (file_cache (disk_manager b4)) (fe_id e) = Some (FS_Ready f) /\
    window_bytes (file_system (disk_manager b4)) f
      (FileWindow_new (block_place tf m e) (bm_block_length m)) (bm_block_length m) =
      block_data block.
Proof.
  intros [Hq Ht Hid Hto] Ha Hf Hbuf Hfull Hfin Hps m Hall Hdisk Hgood Hone Hlen Hmax Hc Hcap
    Hprompt have.
  destruct (write_block_of_torrent id tf block e (disk_manager b) Hdisk Hone Hgood Hlen Hmax Hc
    Hcap Hprompt) as (dm & f & Hwrite & [Hidle Ht'] & Hcache & Hbytes).
  destruct (poll_last_piece b id t buf block 1 0 2 rnd clock now)
    as (t2 & Hpoll & Hp2 & Hb2 & Hf2 & _ & Hid2); try done.
  match type of Hpoll with _ = Ret (Some (?x, _)) => set (b3 := x) in * end.
  assert (bt_queued_events b3 = []) as Hq3 by exact Hq.
  set (t4 := (Torrent_set_piece t2 (Z.to_nat (bm_piece_index m))).1).
  assert (complete t4 /\ torrent_id t4 = id /\ peers (piece_handler t4) = peers (piece_handler t2))
    as (Hc4 & Hid4 & Hp4).
  { unfold t4, complete, Torrent_set_piece, on_handler, set_piece. simpl. by case_match. }
  set (b4 := bt_with_pool (with_torrents {[id := t4]} (bt_torrents b)) (bt_with_disk dm b3)).
  exists b3, (bt_with_queue (have <$> ps) b4), t4, f.
  split_and!; try done; [|by rewrite Hp4, Hp2].
  rewrite (bt_poll_written b3 id t2 block dm p0 ps); try done.
  - cbn [pool_loop]. rewrite (pool_poll_seed _ _ now (bt_torrents b3) id t2); [|done..|by rewrite Hp2].
    by rewrite bind_ret.
  - rewrite <- Hps. unfold Torrent_iter_peer_ids. by rewrite Hp2.
Qed.

(** *** The other steps *)

Lemma inject_node_event_safe {UpgrErr} added log n1 n2 p
    (ev : BitTorrentHandlerEvent BV TorrentId Instant UpgrErr) b b' :
  bt_safe added log b -> inject_node_event n1 n2 p ev b = Ret b' -> bt_safe added log b'.
Proof.
  intros Hb He.
  destruct ev as [hs x|hs u|f x|f u|rq x|pc u|rq x|c|i|i|e u|t]; node_event_in He;
    repeat (inv_bind He || (case_match; simplify_eq)); simplify_eq;
    repeat first [ exact Hb | apply bt_safe_push; [done|]
      | apply bt_safe_disk; [apply dm_inv_push; [done|apply Hb]|] | apply bt_safe_pool ].
Qed.

(** A torrent that is added gets the next id. *)
Lemma add_torrent_id now (s s' : TorrentPool PeerId BV Instant) cfg id st :
  add_torrent now s cfg = Ret (s', Ok (id, st)) ->
  id = next_unique_torrent s /\ next_unique_torrent s' <> id.
Proof.
  unfold add_torrent. destruct (existsb _ _); [done|]. intros Ha. inv_bind Ha.
  injection Ha as <- <- _. split; [done|]. simpl. revert Ha0. unfold checked.
  destruct (_ && _); [intros [= <-]; lia|]. destruct overflow_checks; [done|]. intros [= <-].
  unfold wrap. intros He. pose proof (Z.div_mod (next_unique_torrent s + 1) (2 ^ 64)). lia.
Qed.

Lemma bt_add_safe added log (m : MetaInfo Hasher) now cfg ok err b b' :
  bt_safe added log b ->
  ('(pool, r) ← add_torrent now (bt_torrents b) cfg;
   let b := bt_with_pool pool b in
   match r with
   | Ok (id, st) =>
       Ret (bt_with_disk (dm_add_torrent id m (disk_manager b)) (bt_report (ok id st) b))
   | Err hash => Ret (bt_report (err hash) b)
   end) = Ret b' ->
  bt_safe (newly_added m b b' ++ added) log b'.
Proof.
  intros Hb Ha. apply (bt_safe_mono _ (newly_added m b b' ++ added) _ log) in Hb;
    [|intros x Hx; by apply elem_of_app; right|done].
  inv_bind Ha. destruct a as [pool [[id st]|hash]].
  - apply add_torrent_id in Ha0 as [Hid Hnext].
    assert ((id, m) ∈ newly_added m b b' ++ added) as Hin.
    { apply elem_of_app. left. injection Ha as <-. unfold newly_added. simpl.
      rewrite decide_False by congruence. rewrite <- Hid. by left. }
    injection Ha as Ha. rewrite <- Ha at 2. apply bt_safe_disk; [apply dm_inv_push; [done|apply Hb]|].
    by apply bt_safe_push, bt_safe_pool.
  - injection Ha as Ha. rewrite <- Ha at 2. by apply bt_safe_push, bt_safe_pool.
Qed.

Lemma bt_call_safe {UpgrErr} K added log l b b' :
  bt_safe added log b -> bt_call (UpgrErr := UpgrErr) K l b b' -> bt_safe (l ++ added) log b'.
Proof.
  intros Hb. destruct 1 as [b p a ks|b p h|b p|b p|b now m st b' _ Ha|b now m st b' _ Ha|b p e|b p
    |b n1 n2 p ev b' _ Hn]; simpl.
  - unfold add_address_torrents. repeat case_match; by apply (bt_safe_same _ _ b).
  - unfold handshake_known_peer. case_match; [done|]. case_match; [|done].
    apply (bt_safe_same _ _ (bt_push (DialPeer p) b)); [done..|]. by apply bt_safe_push.
  - unfold choke_peer. destruct (pool_choke_remote _ _) as [pool [x|x]];
      by apply bt_safe_push, bt_safe_pool.
  - unfold unchoke_peer. destruct (pool_unchoke_remote _ _) as [pool [x|x]];
      by apply bt_safe_push, bt_safe_pool.
  - unfold add_leech in Ha. inv_bind Ha. eapply bt_add_safe; [exact Hb|exact Ha].
  - unfold add_seed in Ha. inv_bind Ha. eapply bt_add_safe; [exact Hb|exact Ha].
  - apply bt_safe_connected. destruct e as [|addr].
    + destruct (pending_handshakes b !! p) as [hash|]; [|done]. unfold send_handshake.
      destruct (get_for_info_hash _ _) as [[i t]|]; (apply bt_safe_push; [done|]); by apply (bt_safe_same _ _ b).
    + unfold add_address_torrents. repeat case_match; by apply (bt_safe_same _ _ b).
  - by apply bt_safe_connected, bt_safe_pool.
  - eapply inject_node_event_safe; [exact Hb|exact Hn].
Qed.

Lemma bt_run_safe {UpgrErr} added log b :
  bt_run (UpgrErr := UpgrErr) added log b -> bt_safe added log b.
Proof.
  induction 1 as [random id fs config|added log l b b' Hr IH Hs
    |added log b fuel lf df rnd clock now b' r log' Hr IH Hf Hp].
  - split; [|constructor]. apply (dm_reach_inv fs 100), reach_new.
  - by eapply bt_call_safe.
  - by eapply bt_poll_safe.
Qed.

(** *** The ids of the torrents *)

Lemma pool_steps_next K s s' :
  0 <= next_unique_torrent s -> rtc (pool_step (Hasher := Hasher) K) s s' ->
  next_unique_torrent s <= next_unique_torrent s'.
Proof.
  intros Hn Hs. induction Hs as [s|s1 s2 s3 Hs _ IH]; [done|].
  apply pool_step_next in Hs; [|done]. etrans; [exact Hs|]. apply IH. lia.
Qed.

Lemma ids_safe_steps K added b b' :
  ids_safe added b -> rtc (pool_step (Hasher := Hasher) K) (bt_torrents b) (bt_torrents b') ->
  ids_safe added b' /\
  next_unique_torrent (bt_torrents b) <= next_unique_torrent (bt_torrents b').
Proof.
  intros [Hu Hg Hn] Hs. apply pool_steps_next in Hs; [|done]. split; [|done].
  split; [done| |lia]. eapply Forall_impl; [exact Hg|]. simpl. lia.
Qed.

Lemma newly_added_safe added (m : MetaInfo Hasher) b b' :
  ids_safe added b -> ids_safe added b' ->
  next_unique_torrent (bt_torrents b) <= next_unique_torrent (bt_torrents b') ->
  ids_safe (newly_added m b b' ++ added) b'.
Proof.
  intros [Hu Hg Hn] Hs Hle. unfold newly_added. destruct (decide _) as [|Hne]; [done|].
  destruct Hs as [_ Hg' Hn']. split; [|constructor; [simpl; lia|done]|done].
  simpl. constructor; [|done]. intros (e & He & Hin)%list_elem_of_fmap.
  rewrite Forall_forall in Hg. specialize (Hg _ Hin). simpl in *. lia.
Qed.

Lemma bt_run_ids {UpgrErr} added log b : bt_run (UpgrErr := UpgrErr) added log b -> ids_safe added b.
Proof.
  induction 1 as [random id fs config|added log l b b' Hr IH Hs
    |added log b fuel lf df rnd clock now b' r log' Hr IH Hf Hp].
  - split; simpl; [constructor..|done].
  - pose proof (bt_call_pool _ _ _ _ Hs) as Hp. eapply ids_safe_steps in Hp as [IH' Hle]; [|done].
    destruct Hs; try exact IH'; by apply newly_added_safe.
  - pose proof (bt_poll_log_erase fuel lf df rnd clock now log b) as He. rewrite Hp in He.
    symmetry in He. apply (bt_poll_pool nobody) in He. by eapply ids_safe_steps in He as [? _].
Qed.
End AnnounceLemmas.

(** ** Properties *)

Section AnnounceProperties.
Context `{Countable PeerId} {Multiaddr : Type} `{BitVec BV} `{Sha1 Hasher} `{Clock Instant}.
Context `{FileSystemLaws Fs File FsError} `{LruCacheLaws TorrentFileId (FileState File) C}.
Context `{Profile} `{!MapOrder PeerId (BitTorrentPeer BV Instant)}.
Context `{!MapOrder Z (Torrent PeerId BV Instant)} `{!SetOrder FileEntry}.
#[local] Abbreviation Bt := (BitTorrent PeerId Multiaddr BV Hasher Instant Fs File C).
Implicit Types b : Bt.

(** C5: Whatever the user, the swarm, the remote peers and the file system
    do, the behaviour tells a peer that it has a piece only when the disk manager
    has reported a block as written that is this piece of a torrent, the peer
    was one of the peers of this torrent at that time, and the bytes of the
    block have the hash that the metadata of the torrent, the only ones that
    were added under its id, list for the piece.  The counter of torrents stays
    within 64 bits, and no piece is longer than a buffer can be. *)
Theorem announced_pieces_verified {UpgrErr} added log b fuel loop_fuel disk_fuel rnd clock now b' p i log' :
  bt_run (UpgrErr := UpgrErr) added log b -> pool_fits (bt_torrents b) ->
  bt_poll_log fuel loop_fuel disk_fuel rnd clock now log b =
    Ret (Some (b', Ready (SendEvent p (HI_Have i)), log')) ->
  bt_poll fuel loop_fuel disk_fuel rnd clock now b =
    Ret (Some (b', Ready (SendEvent p (HI_Have i)))) /\
  exists id meta block peers,
    (id, block, peers) ∈ log' /\ p ∈ peers /\
    i = wrap 32 (bm_piece_index (block_metadata block)) /\
    (id, meta) ∈ added /\ (forall meta', (id, meta') ∈ added -> meta' = meta) /\
    pieces (info meta) !! Z.to_nat (bm_piece_index (block_metadata block)) =
      Some (ShaHash_from_bytes (block_data block)).
Proof.
  intros Hr Hf Hp. split; [by rewrite <- (bt_poll_log_erase _ _ _ _ _ _ log), Hp|].
  pose proof (bt_run_ids _ _ _ Hr) as [Hu _ _]. apply bt_run_safe in Hr.
  destruct (bt_poll_safe _ _ _ _ _ _ _ _ _ _ _ _ Hr Hf Hp) as [_ Ha].
  destruct (Ha _ eq_refl) as (id & block & ps & Hin & Hps & Hi & meta & Hadd & Hm).
  exists id, meta, block, ps. split_and!; try done. intros meta' Hadd'.
  exact (NoDup_fst_unique _ _ _ _ Hu Hadd Hadd').
Qed.

(** When the last block of a download arrives, with bytes of the hash the
    metadata lists, the block is reported, then the torrent is reported as
    finished, then the piece is written and all peers of the torrent are told:
    its bytes are at their place in the file, which is open for reading. *)
Theorem last_piece_stored {UpgrErr} b id t buf pc block p p0 ps tf e n1 n2 rnd clock now :
  bt_quiet id t now b -> Torrent_is_active t = true -> finished (piece_handler t) = false ->
  piece_buffer (piece_handler t) = Some buf -> Torrent_iter_peer_ids t = p0 :: ps ->
  pending_blocks buf !! p = Some (block_metadata (Block_from_piece pc)) ->
  let buf' := (PieceBuffer_add_block buf p (Block_from_piece pc)).1 in
  is_full_piece buf' = true -> try_finalize_piece (Hasher := Hasher) buf' = Ok block ->
  let m := block_metadata block in
  bf_all (th_bitfield (set_piece (piece_handler t) (Z.to_nat (bm_piece_index m))).1) = true ->
  disk_ready id tf (disk_manager b) -> TorrentFile_is_good_piece tf block = true ->
  in_one_file id tf m e ->
  bm_block_length m = Z.of_nat (length (block_data block)) -> bm_block_length m < 2 ^ 63 ->
  (lru_get (file_cache (disk_manager b)) (fe_id e) = None \/
   exists f, lru_get (file_cache (disk_manager b)) (fe_id e) = Some (FS_Ready f)) ->
  0 < lru_capacity (file_cache (disk_manager b)) ->
  prompt (length (block_data block)) (fe_path e) ->
  let have := fun q => SendEvent q (HI_Have (wrap 32 (bm_piece_index m))) in
  exists b1 b2 b3 b4 f,
    inject_node_event n1 n2 p (HO_GetPieceRes pc id : BitTorrentHandlerEvent _ _ _ UpgrErr) b =
      Ret b1 /\
    bt_poll 2 2 2 rnd clock now b1 = Ret (Some (b2, Ready (GenerateEvent (EV_LeechBlockResult
      (Ok (mkBlockOk p (block_metadata (Block_from_piece pc)) id)))))) /\
    bt_poll 2 2 2 rnd clock now b2 =
      Ret (Some (b3, Ready (GenerateEvent (EV_TorrentFinished id)))) /\
    bt_poll 2 2 2 rnd clock now b3 = Ret (Some (b4, Ready (have p0))) /\
    bt_queued_events b4 = have <$> ps /\
    lru_get (file_cache (disk_manager b4)) (fe_id e) = Some (FS_Ready f) /\
    window_bytes (file_system (disk_manager b4)) f
      (FileWindow_new (block_place tf m e) (bm_block_length m)) (bm_block_length m) =
      block_data block.
Proof.
  intros Hb Ha Hf Hbuf Hps Hpend buf' Hfull Hfin m Hall Hdisk Hgood Hone Hlen Hmax Hc Hcap Hprompt
    have.
  destruct (block_arrives (UpgrErr := UpgrErr) b id t buf pc p n1 n2 1 2 2 rnd clock now Hb Hbuf Hpend)
    as (b1 & b2 & Hinj & Hpoll & Hb2 & Hdm). rewrite <- Hdm in *.
  destruct (full_piece_stored b2 id (with_buffer buf' t) buf' block p0 ps tf e rnd clock now)
    as (b3 & b4 & t4 & f & ? & ? & ? & _ & _ & _ & _ & _ & ? & ?); try done.
  { simpl. by rewrite set_piece_with_buffer. }
  by exists b1, b2, b3, b4, f.
Qed.
End AnnounceProperties.

(** ** Witnesses *)

Section AnnounceWitnesses.
#[local] Existing Instances list_bitvec list_bitvec_laws toy_sha1 seconds debug_build
  ex_order ex_torrent_order ex_dm_order ex_dm_fs ex_dm_contents ex_dm_fs_laws ex_dm_cache
  ex_dm_cache_laws.
#[local] Abbreviation ex_event := (BitTorrentHandlerEvent (list bool) TorrentId Z unit).

(** A download of the piece 1 from the peer 7: events of its handler, and calls
    of [poll] *)
Definition ex_inject (ev : ex_event) (b : ex_behaviour) : ex_behaviour :=
  match inject_node_event 0 0 7 ev b with Ret b => b | Panic => b end.
#[local] Abbreviation ex_log := (list (TorrentId * Block * list Z)).
Definition ex_bt_poll (s : ex_behaviour * ex_log) : ex_behaviour * ex_log :=
  match bt_poll_log 2 5 5 (fun _ _ => @rev nat) (fun _ _ => 0) 0 s.2 s.1 with
  | Ret (Some (b, _, log)) => (b, log)
  | _ => s
  end.
Definition ex_do (step : option ex_event) (s : ex_behaviour * ex_log) : ex_behaviour * ex_log :=
  match step with Some ev => (ex_inject ev s.1, s.2) | None => ex_bt_poll s end.

Definition fits_b (s : TorrentPool Z (list bool) Z) : bool :=
  forallb (fun e => match piece_buffer (piece_handler e.2) with
    | Some buf => Z.of_nat (length (concat (block_data <$> (pb_blocks buf).*2))) <? 2 ^ 63
    | None => true
    end) (map_to_list (torrents s)).
Fixpoint ex_steps (l : list (option ex_event)) (s : ex_behaviour * ex_log) :
    option (ex_behaviour * ex_log) :=
  match l with
  | [] => Some s
  | step :: l => if fits_b (bt_torrents s.1) then ex_steps l (ex_do step s) else None
  end.

Lemma fits_b_spec s : fits_b s = true -> pool_fits s.
Proof.
  unfold fits_b. rewrite forallb_forall. intros Hf id t Ht buf Hb.
  specialize (Hf (id, t)). simpl in Hf. rewrite Hb in Hf. apply Z.ltb_lt, Hf.
  by apply list_elem_of_In, elem_of_map_to_list.
Qed.

Lemma ex_steps_run added l s s' :
  bt_run (UpgrErr := unit) added s.2 s.1 -> ex_steps l s = Some s' ->
  bt_run (UpgrErr := unit) added s'.2 s'.1.
Proof.
  revert s. induction l as [|step l IH]; cbn [ex_steps]; intros s Hr Hl; [by injection Hl as <-|].
  destruct (fits_b _) eqn:Hf; [|done]. apply fits_b_spec in Hf.
  apply IH in Hl; [done|]. destruct step as [ev|]; simpl.
  - unfold ex_inject. destruct (inject_node_event _ _ _ _ _) as [b1|] eqn:Ei; [|done].
    eapply (run_call _ _ []); [exact Hr|]. eapply bcall_node_event; [|exact Ei].
    by destruct ev; intros.
  - unfold ex_bt_poll. destruct (bt_poll_log _ _ _ _ _ _ _ _) as [[[[b1 r] log]|]|] eqn:Ep; [|done..].
    by eapply run_poll.
Qed.

Definition ex_download : list (option ex_event) :=
  [None; None;
   Some (HO_HandshakeRes (Handshake_new (MetaInfo_sha_hash ex_dm_meta) (ex_hash 7)) 0);
   Some (HO_BitfieldRes {| inner := [true; true] |} 0);
   Some (HO_Choke UnChoked);
   None; None; None; None; None; None;
   Some (HO_GetPieceRes {| piece_idx := 1; piece_begin := 0; piece_block := ex_data |} 0);
   None; None].
Definition ex_announcing : ex_behaviour * ex_log := default (ex_bt1, []) (ex_steps ex_download (ex_bt1, [])).

Lemma announced_pieces_verified_witness :
  exists id meta block peers,
    (id, block, peers) ∈ (ex_bt_poll ex_announcing).2 /\ 7 ∈ peers /\
    (id, meta) ∈ [(0, ex_dm_meta)] /\
    pieces (info meta) !! Z.to_nat (bm_piece_index (block_metadata block)) =
      Some (ShaHash_from_bytes (block_data block)).
Proof.
  destruct (announced_pieces_verified (UpgrErr := unit) [(0, ex_dm_meta)] ex_announcing.2
    ex_announcing.1 2 5 5 (fun _ _ => @rev nat) (fun _ _ => 0) 0 (ex_bt_poll ex_announcing).1 7 1
    (ex_bt_poll ex_announcing).2) as (_ & id & meta & block & peers & Hin & Hp & _ & Hadd & _ & Hm).
  - apply (ex_steps_run _ ex_download (ex_bt1, [])); [|vm_compute; reflexivity].
    apply (run_call [] [] (newly_added ex_dm_meta ex_bt0 ex_bt1) ex_bt0); [apply run_new|].
    apply (bcall_add_leech (fun _ => True) ex_bt0 0 ex_dm_meta Active ex_bt1); vm_compute; reflexivity.
  - apply fits_b_spec. vm_compute; reflexivity.
  - vm_compute; reflexivity.
  - by exists id, meta, block, peers.
Defined.

(** A torrent that waits for the piece 1 from the peer 7 *)
Definition ex_waiting_buffer : PieceBuffer Z := (PieceBuffer_next (PieceBuffer_new 1 5 0 [7])).1.
Definition ex_last_block_torrent : Torrent Z (list bool) Z :=
  let t := ex_bt_torrent [true; false] in
  with_piece_handler (with_piece_buffer (Some ex_waiting_buffer)
    (set_peer 7 ex_leecher (piece_handler t))) t.
Definition ex_last_piece : Piece := {| piece_idx := 1; piece_begin := 0; piece_block := ex_data |}.

Lemma last_piece_stored_witness :
  exists b1 b2 b3 b4 : ex_behaviour,
    inject_node_event 0 0 7 (HO_GetPieceRes ex_last_piece 0 : ex_event)
      (ex_bt ex_last_block_torrent ex_dm) = Ret b1 /\
    bt_poll 2 2 2 (fun _ _ l => l) (fun _ _ => 0) 0 b1 = Ret (Some (b2, Ready (GenerateEvent
      (EV_LeechBlockResult (Ok (mkBlockOk 7 (BlockMetadata_new 1 0 5) 0)))))) /\
    bt_poll 2 2 2 (fun _ _ l => l) (fun _ _ => 0) 0 b2 =
      Ret (Some (b3, Ready (GenerateEvent (EV_TorrentFinished 0)))) /\
    bt_poll 2 2 2 (fun _ _ l => l) (fun _ _ => 0) 0 b3 =
      Ret (Some (b4, Ready (SendEvent 7 (HI_Have 1)))) /\
    bt_queued_events b4 = [].
Proof.
  destruct (last_piece_stored (UpgrErr := unit) (ex_bt ex_last_block_torrent ex_dm) 0
    ex_last_block_torrent ex_waiting_buffer ex_last_piece ex_dm_block 7 7 [] ex_dm_torrent
    ex_dm_entry 0 0 (fun _ _ l => l) (fun _ _ => 0) 0) as (b1 & b2 & b3 & b4 & f & H1 & H2 & H3 & H4 & H5 & _).
  - split; vm_compute; reflexivity.
  - vm_compute; reflexivity.
  - vm_compute; reflexivity.
  - vm_compute; reflexivity.
  - vm_compute; reflexivity.
  - vm_compute; reflexivity.
  - vm_compute; reflexivity.
  - vm_compute; reflexivity.
  - vm_compute; reflexivity.
  - split; [split|]; vm_compute; reflexivity.
  - vm_compute; reflexivity.
  - by apply ex_dm_in_file.
  - vm_compute; reflexivity.
  - vm_compute; reflexivity.
  - left. vm_compute; reflexivity.
  - vm_compute; reflexivity.
  - apply ex_dm_prompt.
  - exists b1, b2, b3, b4. exact (conj H1 (conj H2 (conj H3 (conj H4 H5)))).
Defined.
End AnnounceWitnesses.
