(* ===== verification/SafePool.v ===== *)
(** * The pool does not panic

    What holds of the piece buffers, the piece handlers and the torrents of the
    pool whatever the remote peers send, and that it keeps the polls of the pool
    from panicking.  It is weaker than the invariants of PieceBuffer.v and
    PieceHandler.v, which a peer that unchokes the client twice breaks. *)

From S2P Require Import Prelude Crates Util Message MetaInfo Block Peer DiskError PieceBuffer.
From S2P Require Import PieceHandler Events Torrent Pool.
Local Open Scope Z_scope.

(** ** Specification *)

(** The torrents this is about: one file, sizes that agree, and pieces that end
    within [i64::MAX]. *)
Record info_sound (i : TorrentInfo) : Prop := {
  info_wf : TorrentInfo_wf i;
  info_single : InfoContent_is_file (content i) = true;
  info_size : piece_length i * Z.of_nat (length (pieces i)) < 2 ^ 63;
}.

Definition last_len (i : TorrentInfo) : Z :=
  content_total (content i) - (Z.of_nat (length (pieces i)) - 1) * piece_length i.

(** The length of the piece with the index [k] *)
Definition info_piece_len (i : TorrentInfo) (k : Z) : Z :=
  if k + 1 =? Z.of_nat (length (pieces i)) then last_len i else piece_length i.

(** The block is a whole piece. *)
Definition whole_piece (i : TorrentInfo) (blk : Block) : Prop :=
  let m := block_metadata blk in
  0 <= bm_piece_index m /\ bm_block_offset m = 0 /\
  bm_block_length m = info_piece_len i (bm_piece_index m) /\
  Z.of_nat (length (block_data blk)) = bm_block_length m.

Section SafeSpec.
Context `{Countable PeerId} `{BitVec BV} {Instant : Type}.

(** A buffer may lose blocks and ask for one twice, but it knows no block that
    is not one of its piece. *)
Record buffer_sound (i : TorrentInfo) (b : PieceBuffer PeerId) : Prop := {
  bs_index : 0 <= pb_piece_index b;
  bs_length : pb_piece_length b = info_piece_len i (pb_piece_index b);
  bs_blocks : Forall (fun m => m ∈ piece_blocks (pb_piece_index b) (pb_piece_length b))
    (missing_blocks b ++ received b);
  bs_pending : map_Forall (fun _ m => m ∈ piece_blocks (pb_piece_index b) (pb_piece_length b))
    (pending_blocks b);
  bs_total :
    total_blocks b = Z.of_nat (length (piece_blocks (pb_piece_index b) (pb_piece_length b)));
  bs_sorted : btree_sorted (pb_blocks b);
  bs_keys : Forall (fun e => e.1 = bm_block_offset (block_metadata e.2)) (pb_blocks b);
}.

Record handler_sound (i : TorrentInfo) (h : TorrentPieceHandler PeerId BV Instant) : Prop := {
  hs_field : bf_len (th_bitfield h) = length (pieces i);
  hs_piece : th_piece_length h = piece_length i;
  hs_last : th_last_piece_length h = last_len i;
  hs_buffer : forall b, piece_buffer h = Some b -> buffer_sound i b;
}.

(** A torrent of the pool, with the metadata that was added under its id *)
Definition torrent_sound (metas : gmap TorrentId TorrentInfo) (id : TorrentId)
    (t : Torrent PeerId BV Instant) : Prop :=
  torrent_id t = id /\
  exists i, metas !! id = Some i /\ info_sound i /\ handler_sound i (piece_handler t).

Definition pool_sound (metas : gmap TorrentId TorrentInfo) (s : TorrentPool PeerId BV Instant) :
    Prop := map_Forall (torrent_sound metas) (torrents s).
End SafeSpec.

(** ** Lemmas *)

Section SafeInfo.
Implicit Types i : TorrentInfo.

Lemma info_bounds i :
  info_sound i ->
  let n := Z.of_nat (length (pieces i)) in
  0 < n /\ 0 < piece_length i < 2 ^ 63 /\ n < 2 ^ 63 /\ 0 < last_len i <= piece_length i.
Proof.
  intros [Hwf _ Hs]. pose proof (pieces_bounds i Hwf) as [Hn Hb]. destruct Hwf as (Hp & _).
  cbv zeta. unfold last_len. nia.
Qed.

Lemma info_piece_len_bounds i k :
  info_sound i -> 0 < info_piece_len i k <= piece_length i /\
  (0 <= k < Z.of_nat (length (pieces i)) ->
   piece_length i * k + info_piece_len i k <= content_total (content i)).
Proof.
  intros Hi. pose proof (info_bounds i Hi) as (Hn & Hp & _ & Hl).
  pose proof (pieces_bounds i (info_wf i Hi)) as [_ Hb]. unfold info_piece_len.
  destruct (Z.eqb_spec (k + 1) (Z.of_nat (length (pieces i)))) as [He|He].
  - split; [done|]. unfold last_len in *. nia.
  - split; [lia|]. nia.
Qed.
End SafeInfo.

Section SafeBuffer.
Context `{Countable PeerId}.
Implicit Types b : PieceBuffer PeerId.
Implicit Types i : TorrentInfo.

Lemma new_sound i idx tid (ids : list PeerId) :
  info_sound i -> 0 <= idx -> buffer_sound i (PieceBuffer_new idx (info_piece_len i idx) tid ids).
Proof.
  intros Hi Hidx. pose proof (info_piece_len_bounds i idx Hi) as [Hl _].
  pose proof (new_missing_blocks idx (info_piece_len i idx) tid ids ltac:(lia)) as Hm.
  split; try done.
  - rewrite Hm, app_nil_r. by apply Forall_forall.
  - change (total_blocks _) with
      (Z.of_nat (length (missing_blocks (PieceBuffer_new idx (info_piece_len i idx) tid ids)))).
    by rewrite Hm.
  - constructor.
Qed.

Lemma with_peers_sound i b l : buffer_sound i b -> buffer_sound i (with_peers l b).
Proof. intros []. by split. Qed.

Lemma push_peer_sound i b p : buffer_sound i b -> buffer_sound i (PieceBuffer_push_peer b p).
Proof. apply with_peers_sound. Qed.

Lemma next_sound i b : buffer_sound i b -> buffer_sound i (PieceBuffer_next b).1.
Proof.
  intros Hb. destruct (PieceBuffer_next b) as [b' [nb|]] eqn:En; simpl.
  2: { by apply next_None in En as [-> _]. }
  apply next_Some in En as (ps & ms & _ & Hm & _ & ->). destruct Hb as [? ? Hall Hp ? ? ?].
  rewrite Hm, <- app_assoc in Hall. apply Forall_app in Hall as [Hms Hr].
  inversion Hr as [|? ? Hnb Hr']; subst. split; try done; simpl.
  - by apply Forall_app_2.
  - by apply map_Forall_insert_2.
Qed.

(** A block that is waited for goes back to the missing ones. *)
Lemma take_back_sound i b p m :
  pending_blocks b !! p = Some m -> buffer_sound i b ->
  buffer_sound i (with_missing_pending (missing_blocks b ++ [m]) (delete p (pending_blocks b)) b).
Proof.
  intros Hm [? ? Hall Hp ? ? ?]. pose proof (Hp _ _ Hm) as Hin. simpl in Hin.
  apply Forall_app in Hall as [? ?]. split; try done; simpl.
  - repeat apply Forall_app_2; [done|by constructor|done].
  - by apply map_Forall_delete.
Qed.

Lemma remove_peer_sound i b p : buffer_sound i b -> buffer_sound i (PieceBuffer_remove_peer b p).1.
Proof.
  intros Hb. unfold PieceBuffer_remove_peer.
  destruct (position _ _); [by apply with_peers_sound|].
  destruct (pending_blocks b !! p) eqn:Em; [|done]. by apply take_back_sound.
Qed.

Lemma add_block_sound i b p blk : buffer_sound i b -> buffer_sound i (PieceBuffer_add_block b p blk).1.
Proof.
  intros Hb. unfold PieceBuffer_add_block. destruct (pending_blocks b !! p) as [m|] eqn:Em; [|done].
  case_bool_decide as Hm; simpl; apply push_peer_sound.
  2: { by apply (take_back_sound i b p m). }
  destruct Hb as [? ? Hall Hp ? ? Hk]. pose proof (Hp _ _ Em) as Hin. simpl in Hin.
  apply Forall_app in Hall as [Hms Hr]. split; try done; simpl.
  - apply Forall_app_2; [done|]. unfold received in *. simpl. apply Forall_fmap.
    apply Forall_fmap in Hr. apply (btree_insert_Forall (fun x => block_metadata x ∈ _)); [|done].
    by rewrite Hm.
  - by apply map_Forall_delete.
  - by apply btree_insert_sorted.
  - rewrite Forall_forall in *. intros e [->|He]%btree_insert_elem; [done|by apply Hk].
Qed.

(** A full buffer makes a whole piece. *)
Lemma full_received_perm i b :
  buffer_sound i b -> is_full_piece b = true ->
  received b ≡ₚ piece_blocks (pb_piece_index b) (pb_piece_length b).
Proof.
  intros Hb Hf. pose proof (keys_received_sorted b (bs_sorted i b Hb) (bs_keys i b Hb)) as Hs.
  unfold is_full_piece in Hf. rewrite (bs_total i b Hb), Z.eqb_eq in Hf.
  pose proof (bs_blocks i b Hb) as Hall. apply Forall_app in Hall as [_ Hall].
  rewrite Forall_forall in Hall. apply submseteq_length_Permutation.
  - apply NoDup_submseteq; [|done]. clear -Hs.
    induction Hs as [|m l Hl IH Hm]; constructor; [|done].
    intros Hin. rewrite Forall_forall in Hm. specialize (Hm _ Hin). unfold offset_lt in Hm. lia.
  - unfold received. rewrite !length_fmap. lia.
Qed.

Lemma finalize_whole {Hasher} i b blk :
  info_sound i -> buffer_sound i b -> is_full_piece b = true ->
  try_finalize_piece (Hasher := Hasher) b = Ok blk -> whole_piece i blk.
Proof.
  intros Hi Hb Hf. pose proof (info_piece_len_bounds i (pb_piece_index b) Hi) as [Hl _].
  rewrite <- (bs_length i b Hb) in Hl.
  pose proof (full_received_perm i b Hb Hf) as Hp.
  unfold try_finalize_piece. rewrite finalize_loop_eq.
  destruct (forallb Block_is_correct_len (pb_blocks b).*2) eqn:Ec; [|done]. intros [= <-].
  split_and!; simpl; [apply (bs_index i b Hb)|done|apply (bs_length i b Hb)|].
  rewrite length_concat_correct by done. fold (received b).
  etrans; [|apply (piece_blocks_total (pb_piece_index b) (pb_piece_length b)); lia].
  clear -Hp. induction Hp; simpl; lia.
Qed.
End SafeBuffer.

Section SafeHandler.
Context `{Countable PeerId} `{BitVecLaws BV} `{Clock Instant} `{Profile}.
Context `{!MapOrder PeerId (BitTorrentPeer BV Instant)}.
Implicit Types h : TorrentPieceHandler PeerId BV Instant.
Implicit Types i : TorrentInfo.

(** *** Operations of the piece handler *)

(** A handler that differs in its buffer, its peers and its requests only *)
Lemma other_buffer_sound i h h' :
  handler_sound i h -> th_bitfield h' = th_bitfield h ->
  th_piece_length h' = th_piece_length h -> th_last_piece_length h' = th_last_piece_length h ->
  (forall b', piece_buffer h' = Some b' ->
     (exists b, piece_buffer h = Some b /\ (buffer_sound i b -> buffer_sound i b'))) ->
  handler_sound i h'.
Proof.
  intros [Hf Hp Hl Hb] Ef Ep El Hbuf. split; [by rewrite Ef|by rewrite Ep|by rewrite El|].
  intros b' (b & Hb0 & Hs)%Hbuf. auto.
Qed.

(** Closes a goal on an operation that keeps the buffer or changes it soundly. *)
Ltac buffer_sound :=
  eapply other_buffer_sound; [eassumption|done..|]; simpl; intros ?b' ?Hb';
  simplify_eq/=; eexists; (split; [eassumption|]);
  first [done | apply push_peer_sound | apply remove_peer_sound].

Lemma insert_peer_sound i h p peer :
  handler_sound i h -> handler_sound i (insert_peer h p peer).1.
Proof. intros Hh. unfold insert_peer. simpl. repeat case_match; buffer_sound. Qed.

Lemma set_choke_sound i h p c :
  handler_sound i h -> handler_sound i (set_choke_on_remote h p c).1.
Proof. intros Hh. unfold set_choke_on_remote. simpl. repeat (case_match; simpl); buffer_sound. Qed.

Lemma th_remove_peer_sound i h p : handler_sound i h -> handler_sound i (th_remove_peer h p).1.
Proof. intros Hh. unfold th_remove_peer. simpl. repeat (case_match; simpl); buffer_sound. Qed.

Lemma set_peer_sound i h p peer : handler_sound i h -> handler_sound i (set_peer p peer h).
Proof. intros Hh. buffer_sound. Qed.

Lemma with_seeds_sound i h l : handler_sound i h -> handler_sound i (with_pending_seed_blocks l h).
Proof. intros Hh. buffer_sound. Qed.

Lemma th_add_block_sound i h p blk : handler_sound i h -> handler_sound i (th_add_block h p blk).1.
Proof.
  intros Hh. unfold th_add_block. destruct (piece_buffer h) as [b|] eqn:Eb; [|done].
  pose proof (add_block_sound i b p blk) as Ha. destruct (PieceBuffer_add_block b p blk) as [b' r].
  eapply other_buffer_sound; [exact Hh|done..|]. intros ? [= <-]. by exists b.
Qed.

Lemma set_piece_sound i h k : handler_sound i h -> handler_sound i (set_piece h k).1.
Proof.
  intros Hh. unfold set_piece. destruct (Nat.ltb_spec k (bf_len (th_bitfield h))); [|done].
  destruct Hh as [Hf Hp Hl Hb]. split; try done. simpl. by rewrite bf_len_set.
Qed.

Lemma no_buffer_sound i h : handler_sound i h -> handler_sound i (with_piece_buffer None h).
Proof. intros []. by split. Qed.

Lemma with_buffer_sound i h b :
  handler_sound i h -> buffer_sound i b -> handler_sound i (with_piece_buffer (Some b) h).
Proof. intros [] Hb. split; try done. by intros ? [= <-]. Qed.

(** *** The next piece *)

(** A buffer of any piece, out of range or not *)
Lemma buffer_for_returns i h k ids :
  info_sound i -> handler_sound i h ->
  returns (buffer_for h k ids) (fun o => forall b, o = Some b -> buffer_sound i b).
Proof.
  intros Hi Hh. pose proof (info_bounds i Hi) as (Hn & _ & Hm & _). unfold buffer_for.
  assert (th_piece_length_at h k = Ret (info_piece_len i (Z.of_nat k))) as ->.
  { unfold th_piece_length_at, info_piece_len. destruct Hh as [-> -> -> _].
    rewrite checked_in_range, bind_ret by (unfold in_range; lia).
    destruct (Z.eqb_spec (Z.of_nat k) (Z.of_nat (length (pieces i)) - 1)),
      (Z.eqb_spec (Z.of_nat k + 1) (Z.of_nat (length (pieces i)))); done || lia. }
  intros b [= <-]. apply new_sound; [done|lia].
Qed.

Lemma next_piece_returns i shuffle h :
  info_sound i -> handler_sound i h ->
  returns (next_piece_buffer shuffle h) (fun o => forall b, o = Some b -> buffer_sound i b).
Proof.
  intros Hi Hh. pose proof (fun k ids => buffer_for_returns i h k ids Hi Hh) as Hb.
  unfold next_piece_buffer, next_random_piece, next_least_common_piece.
  set (l := shuffle _). clearbody l. destruct (selection_strategy h).
  - induction l as [|k l IH]; cbn [random_piece_loop]; [done|]. by destruct (peers_with_piece h k).
  - destruct (negb _); [done|]. generalize (@None (list PeerId)) 0%nat.
    induction l as [|k l IH]; cbn [least_common_loop]; intros o r; [by destruct o|].
    repeat case_match; auto.
Qed.

Lemma th_poll_returns {Hasher} i shuffle h :
  info_sound i -> handler_sound i h ->
  returns (th_poll (Hasher := Hasher) shuffle h) (fun '(h', r) =>
    handler_sound i h' /\ r <> TPH_Endgame /\
    forall blk, r = TPH_PieceFinished (Ok blk) -> whole_piece i blk).
Proof.
  intros Hi Hh. unfold th_poll. destruct (piece_buffer h) as [b|] eqn:Eb.
  - pose proof (hs_buffer i h Hh b Eb) as Hb. apply no_buffer_sound in Hh.
    destruct (is_full_piece b) eqn:Ef.
    + destruct (try_finalize_piece b) as [blk|e] eqn:Ep; [|by split_and!].
      pose proof (set_piece_sound i _ (Z.to_nat (bm_piece_index (block_metadata blk))) Hh) as Hs.
      destruct (set_piece _ _) as [h' r]. split_and!; [done|done|]. intros ? [= <-].
      by eapply finalize_whole.
    + pose proof (next_sound i b Hb) as Hn. destruct (PieceBuffer_next b) as [b' nb].
      split_and!; [by apply with_buffer_sound|done|done].
  - destruct (finished h); [by split_and!|]. destruct (bf_all _).
    { split_and!; try done. destruct Hh. by split. }
    returns_step next_piece_returns; [done..|]. intros [b|] Hb; [|by split_and!].
    pose proof (next_sound i b (Hb b eq_refl)) as Hn. destruct (PieceBuffer_next b) as [b' nb].
    split_and!; [by apply with_buffer_sound|done|done].
Qed.
End SafeHandler.

Section SafeTorrents.
Context `{Countable PeerId} `{BitVecLaws BV} `{Clock Instant} `{Profile}.
Context `{!MapOrder PeerId (BitTorrentPeer BV Instant)}.
Context `{!MapOrder Z (Torrent PeerId BV Instant)}.
Implicit Types s : TorrentPool PeerId BV Instant.
Implicit Types t : Torrent PeerId BV Instant.
Implicit Types metas : gmap TorrentId TorrentInfo.

(** *** Torrents *)

Lemma with_handler_sound metas id t h :
  torrent_sound metas id t ->
  (forall i, handler_sound i (piece_handler t) -> handler_sound i h) ->
  torrent_sound metas id (with_piece_handler h t).
Proof. intros [Hid (i & Hm & Hi & Hh)] Hs. split; [done|]. exists i. auto. Qed.

(** The metadata of more torrents *)
Lemma torrent_sound_mono metas metas' id t :
  metas ⊆ metas' -> torrent_sound metas id t -> torrent_sound metas' id t.
Proof.
  intros Hs [Hid (i & Hm & ?)]. split; [done|]. exists i. split; [|done]. by eapply lookup_weaken.
Qed.

(** What an operation that keeps torrents sound is *)
Definition keeps_sound {A} (f : Torrent PeerId BV Instant -> Torrent PeerId BV Instant * A) : Prop :=
  forall metas id t, torrent_sound metas id t -> torrent_sound metas id (f t).1.

Lemma keeps_handler {A}
    (f : Torrent PeerId BV Instant -> TorrentPieceHandler PeerId BV Instant * A) :
  (forall i t, handler_sound i (piece_handler t) -> handler_sound i (f t).1) ->
  keeps_sound (fun t => on_handler t (f t)).
Proof. intros Hf metas id t Ht. apply with_handler_sound; [done|]. auto. Qed.

(** Closes a goal on an operation that changes a peer or the requests. *)
Ltac peer_sound :=
  intros ? ? ? ?; repeat (case_match; simplify_eq/=); try done;
  apply with_handler_sound; [assumption|]; intros ? ?; auto using set_peer_sound, with_seeds_sound.

Lemma set_choke_for_keeps p c : keeps_sound (fun t => Torrent_set_choke_for_remote t p c).
Proof. unfold Torrent_set_choke_for_remote. peer_sound. Qed.

Lemma keep_alive_keeps p now : keeps_sound (fun t => Torrent_on_keep_alive_by_remote t p now).
Proof. unfold Torrent_on_keep_alive_by_remote. peer_sound. Qed.

Lemma have_keeps p k : keeps_sound (fun t => Torrent_on_remote_have t p k).
Proof. unfold Torrent_on_remote_have. peer_sound. Qed.

Lemma set_bitfield_keeps p f : keeps_sound (fun t => Torrent_set_peer_bitfield t p f).
Proof. unfold Torrent_set_peer_bitfield. peer_sound. Qed.

Lemma set_client_interest_sound i (h : TorrentPieceHandler PeerId BV Instant) p x :
  handler_sound i h -> handler_sound i (set_client_interest h p x).1.
Proof. intros Hh. unfold set_client_interest. case_match; [by apply set_peer_sound|done]. Qed.

Lemma set_interest_sound i (h : TorrentPieceHandler PeerId BV Instant) p x :
  handler_sound i h -> handler_sound i (set_interest_on_remote h p x).1.
Proof. intros Hh. unfold set_interest_on_remote. case_match; [by apply set_peer_sound|done]. Qed.

Lemma cancel_sound i (h : TorrentPieceHandler PeerId BV Instant) r :
  handler_sound i h -> handler_sound i (remove_pending_seed_by_request h r).1.
Proof.
  intros Hh. unfold remove_pending_seed_by_request. case_match; [by apply with_seeds_sound|done].
Qed.

Lemma block_read_sound i (h : TorrentPieceHandler PeerId BV Instant) m :
  handler_sound i h -> handler_sound i (clear_pending_seed_block h m).1.
Proof. intros Hh. unfold clear_pending_seed_block. case_match; [by apply with_seeds_sound|done]. Qed.

Lemma Torrent_poll_returns {Hasher} metas id shuffle now' now t :
  torrent_sound metas id t ->
  returns (Torrent_poll (Hasher := Hasher) shuffle now' now t) (fun '(t', r) =>
    torrent_sound metas id t' /\
    forall id' blk, r = TPS_PieceReady (Ok (id', blk)) ->
      exists i, metas !! id' = Some i /\ whole_piece i blk).
Proof.
  intros Ht. unfold Torrent_poll. destruct (first_timeout _ _) as [[[p peer] [|]]|].
  - split; [|done]. apply with_handler_sound; [done|]. intros i. apply set_peer_sound.
  - by split.
  - destruct Ht as [Hid (i & Hm & Hi & Hh)].
    returns_step (th_poll_returns (Hasher := Hasher)); [done..|]. intros [h st] (Hh' & Hend & Hp).
    assert (forall c, torrent_sound metas id (with_seed_leech c (with_piece_handler h t))) as Ht'
      by (intros c; split; [done|]; by exists i).
    specialize (Ht' (seed_leech t)) as Ht''.
    destruct st as [|[nb|]|[blk|e]| | |]; simpl; try done.
    split; [done|]. intros ? ? [= <- <-]. exists i. rewrite Hid. auto.
Qed.

(** *** Loops over the torrents *)

Lemma insert_sound metas id t (ts : gmap Z (Torrent PeerId BV Instant)) :
  torrent_sound metas id t -> map_Forall (torrent_sound metas) ts ->
  map_Forall (torrent_sound metas) (<[id := t]> ts).
Proof. by apply map_Forall_insert_2. Qed.

Lemma visit_torrents_sound {A}
    (f : Torrent PeerId BV Instant -> Torrent PeerId BV Instant * option A) metas s :
  keeps_sound f -> pool_sound metas s -> pool_sound metas (visit_torrents f s).1.
Proof.
  intros Hf Hs. unfold visit_torrents.
  assert (forall e, e ∈ map_iter (torrents s) -> torrent_sound metas e.1 e.2) as Hl.
  { intros [id t] Hin%map_iter_elem. by apply Hs. }
  unfold pool_sound in *. set (l := map_iter _) in *. clearbody l.
  set (ts := torrents s) in *. clearbody ts.
  assert (map_Forall (torrent_sound metas) (visit f l ts).1) as Hv; [|by destruct (visit f l ts)].
  revert ts Hs. induction l as [|[id t] l IH]; intros ts Hs; simpl; [done|].
  pose proof (Hf metas id t (Hl (id, t) ltac:(left))) as Ht. destruct (f t) as [t' r].
  pose proof (insert_sound metas id t' ts Ht Hs). destruct r; [done|].
  apply IH; [|done]. intros e He. apply Hl. by right.
Qed.

Lemma update_torrent_sound {A} id (d : A) f metas s :
  keeps_sound f -> pool_sound metas s -> pool_sound metas (update_torrent id d f s).1.
Proof.
  intros Hf Hs. unfold update_torrent. destruct (torrents s !! id) as [t|] eqn:Et; [|done].
  pose proof (Hf metas id t (Hs _ _ Et)). destruct (f t). by apply insert_sound.
Qed.

Lemma pool_poll_returns {Hasher} metas shuffle now' now s :
  pool_sound metas s ->
  returns (pool_poll (Hasher := Hasher) shuffle now' now s) (fun '(s', r) =>
    pool_sound metas s' /\ next_unique_torrent s' = next_unique_torrent s /\
    forall id blk, r = TPS_PieceReady (Ok (id, blk)) ->
      exists i, metas !! id = Some i /\ whole_piece i blk).
Proof.
  intros Hs. unfold pool_poll.
  assert (Forall (fun e => torrent_sound metas e.1 e.2) (iter_active s)) as Hl.
  { apply Forall_forall. intros [id t] Hin. apply list_elem_of_In, filter_In in Hin as [Hin _].
    apply list_elem_of_In, map_iter_elem in Hin. by apply Hs. }
  eapply returns_bind with (P := fun '(ts, r) => map_Forall (torrent_sound metas) ts /\
    forall id blk, r = TPS_PieceReady (Ok (id, blk)) ->
      exists i, metas !! id = Some i /\ whole_piece i blk); [|by intros [ts r] [? ?]].
  unfold pool_sound in Hs. revert Hs. generalize (torrents s).
  induction Hl as [|[id t] l Ht Hl IH]; cbn [poll_torrents]; intros ts Hs; [by split|].
  returns_step (Torrent_poll_returns (Hasher := Hasher)); [exact Ht|]. intros [t' r] [Ht' Hr].
  pose proof (insert_sound metas id t' ts Ht' Hs).
  destruct r; try by split. all: by apply IH.
Qed.

(** *** The operations of the pool *)

(** [s'] is [s] after operations that add no torrent. *)
Record pool_keeps s s' : Prop := {
  pk_next : next_unique_torrent s' = next_unique_torrent s;
  pk_sound metas : pool_sound metas s -> pool_sound metas s';
}.

#[export] Instance pool_keeps_preorder : PreOrder pool_keeps.
Proof.
  split; [by split|]. intros s1 s2 s3 [Hn1 Hs1] [Hn2 Hs2]. split; [congruence|auto].
Qed.

Lemma visit_pool_keeps {A}
    (f : Torrent PeerId BV Instant -> Torrent PeerId BV Instant * option A) s :
  keeps_sound f -> pool_keeps s (visit_torrents f s).1.
Proof.
  intros Hf. split; [apply visit_torrents_next|]. intros metas. by apply visit_torrents_sound.
Qed.

Lemma update_pool_keeps {A} id (d : A) f s :
  keeps_sound f -> pool_keeps s (update_torrent id d f s).1.
Proof.
  intros Hf. split.
  - unfold update_torrent. case_match; [|done]. by case_match.
  - intros metas. by apply update_torrent_sound.
Qed.

(** An operation whose result is turned into something else *)
Lemma keeps_fst_let {A B} (f : Torrent PeerId BV Instant -> Torrent PeerId BV Instant * A)
    (g : Torrent PeerId BV Instant -> A -> B) :
  keeps_sound f -> keeps_sound (fun t => let '(t, r) := f t in (t, g t r)).
Proof. intros Hf metas id t Ht. rewrite fst_let. by apply Hf. Qed.

Lemma unchoke_keeps s p : pool_keeps s (pool_unchoke_remote s p).1.
Proof.
  unfold pool_unchoke_remote. rewrite fst_let.
  apply visit_pool_keeps, keeps_fst_let, set_choke_for_keeps.
Qed.

Lemma choke_keeps s p : pool_keeps s (pool_choke_remote s p).1.
Proof.
  unfold pool_choke_remote. rewrite fst_let.
  apply visit_pool_keeps, keeps_fst_let, set_choke_for_keeps.
Qed.

Lemma client_interest_keeps s id p x : pool_keeps s (pool_set_client_interest s id p x).1.
Proof.
  apply update_pool_keeps, keeps_handler. intros i t. apply set_client_interest_sound.
Qed.

Lemma choke_by_remote_keeps s p c : pool_keeps s (on_choke_by_remote s p c).1.
Proof.
  apply visit_pool_keeps, keeps_fst_let. unfold Torrent_on_choke_by_remote.
  destruct c; apply keeps_handler; intros i t; apply set_choke_sound.
Qed.

Lemma keep_alive_by_remote_keeps s p now : pool_keeps s (on_keep_alive_by_remote s p now).1.
Proof.
  unfold on_keep_alive_by_remote. rewrite fst_let.
  apply visit_pool_keeps, keeps_fst_let, keep_alive_keeps.
Qed.

Lemma interest_by_remote_keeps s p x : pool_keeps s (on_interest_by_remote s p x).1.
Proof.
  unfold on_interest_by_remote. rewrite fst_let. apply visit_pool_keeps.
  destruct x; apply keeps_handler; intros i t; apply set_interest_sound.
Qed.

Lemma piece_request_keeps s p m r : pool_keeps s (on_piece_request s p m r).1.
Proof.
  unfold on_piece_request. rewrite fst_let. apply visit_pool_keeps. intros metas id t Ht.
  case_match; [|done]. apply with_handler_sound; [done|]. intros i. apply with_seeds_sound.
Qed.

(** A request that is accepted is one for a torrent of the pool. *)
Lemma visit_Some {A} (f : Torrent PeerId BV Instant -> Torrent PeerId BV Instant * option A) l ts a :
  (visit f l ts).2 = Some a -> exists e, e ∈ l /\ (f e.2).2 = Some a.
Proof.
  revert ts. induction l as [|[id t] l IH]; intros ts Hv; simpl in Hv; [done|].
  destruct (f t) as [t' [x|]] eqn:Ef.
  - injection Hv as ->. exists (id, t). split; [left|]. simpl. by rewrite Ef.
  - destruct (IH _ Hv) as (e & He & Hf). exists e. split; [by right|done].
Qed.

Lemma piece_request_torrent metas s s' p m r id m' :
  pool_sound metas s -> on_piece_request s p m r = (s', Ok (id, m')) ->
  m' = m /\ exists i, metas !! id = Some i.
Proof.
  intros Hs. unfold on_piece_request, visit_torrents.
  destruct (visit _ _ _) as [ts o] eqn:Ev. intros [= <- Ho]. destruct o as [a|]; [|done].
  injection Ho as ->. pose proof (f_equal snd Ev) as Hv. simpl in Hv.
  apply visit_Some in Hv as ([id' t] & Hin%map_iter_elem & Hf). simpl in Hf.
  case_match; [|done]. injection Hf as <- <-. destruct (Hs _ _ Hin) as [-> (i & Hi & _)]. eauto.
Qed.

Lemma block_response_keeps s id p blk : pool_keeps s (on_block_response s id p blk).1.
Proof. apply update_pool_keeps, keeps_handler. intros i t. apply th_add_block_sound. Qed.

Lemma cancel_request_keeps s r : pool_keeps s (on_cancel_request s r).1.
Proof.
  apply visit_pool_keeps, keeps_handler. intros i t. apply cancel_sound.
Qed.

Lemma block_read_keeps_sound s id m : pool_keeps s (on_block_read s id m).1.
Proof. apply update_pool_keeps, keeps_handler. intros i t. apply block_read_sound. Qed.

Lemma remote_have_keeps s p k : pool_keeps s (on_remote_have s p k).1.
Proof. apply visit_pool_keeps, have_keeps. Qed.

Lemma set_peer_bitfield_keeps s p id f : pool_keeps s (set_peer_bitfield s p id f).1.
Proof. unfold set_peer_bitfield. rewrite fst_let. apply update_pool_keeps, set_bitfield_keeps. Qed.

Lemma bitfield_request_keeps s p f : pool_keeps s (on_bitfield_request s p f).1.
Proof. apply visit_pool_keeps, set_bitfield_keeps. Qed.

Lemma remove_peer_keeps s p : pool_keeps s (pool_remove_peer s p).1.
Proof.
  apply visit_pool_keeps, keeps_handler. intros i t. apply th_remove_peer_sound.
Qed.

Lemma insert_torrent_keeps s id t t' :
  torrents s !! id = Some t -> (forall metas, torrent_sound metas id t -> torrent_sound metas id t') ->
  pool_keeps s (with_torrents (<[id := t']> (torrents s)) s).
Proof.
  intros Ht Hk. split; [done|]. intros metas Hs. apply insert_sound; [|done].
  by apply Hk, Hs.
Qed.

Lemma handshake_request_keeps n1 n2 s p hs : pool_keeps s (on_handshake_request n1 n2 s p hs).1.
Proof.
  unfold on_handshake_request. destruct (is_associated s p); [done|].
  destruct (get_for_info_hash s (info_hash hs)) as [[id t]|] eqn:Eg; [|done].
  apply get_for_info_hash_Some in Eg as [Ht _].
  pose proof (fun i => insert_peer_sound i (piece_handler t) p
    (BitTorrentPeer_new (Message.peer_id hs) n1 n2)) as Hp.
  destruct (insert_peer _ _ _) as [h o]. apply (insert_torrent_keeps s id t); [done|].
  intros metas Hs. by apply with_handler_sound.
Qed.

Lemma handshake_response_keeps n1 n2 s p id hs :
  pool_keeps s (on_handshake_response n1 n2 s p id hs).1.
Proof.
  unfold on_handshake_response. destruct (torrents s !! id) as [t|] eqn:Ht; [|done].
  case_bool_decide; [|done].
  pose proof (fun i => insert_peer_sound i (piece_handler t) p
    (BitTorrentPeer_new (Message.peer_id hs) n1 n2)) as Hp.
  destruct (insert_peer _ _ _) as [h o]. apply (insert_torrent_keeps s id t); [done|].
  intros metas Hs. by apply with_handler_sound.
Qed.

(** A torrent that is added *)
Lemma add_torrent_returns metas now s cfg i :
  pool_sound metas s -> 0 <= next_unique_torrent s -> next_unique_torrent s + 1 < 2 ^ 64 ->
  info_sound i -> bf_len (cfg_bitfield cfg) = length (pieces i) ->
  cfg_piece_length cfg = piece_length i -> cfg_last_piece_length cfg = last_len i ->
  metas !! next_unique_torrent s = None ->
  returns (add_torrent now s cfg) (fun '(s', r) =>
    match r with
    | Ok (id, _) => id = next_unique_torrent s /\ next_unique_torrent s' = id + 1 /\
        pool_sound (<[id := i]> metas) s'
    | Err _ => s' = s
    end).
Proof.
  intros Hs Hn Hm Hi Hf Hp Hl Hfresh. rewrite add_torrent_eq by done.
  destruct (existsb _ _); [done|]. split_and!; [done|done|].
  apply insert_sound.
  - split; [done|]. exists i. rewrite lookup_insert_eq. split_and!; [done..|]. by split.
  - intros id t Ht. eapply torrent_sound_mono; [|by apply Hs]. by apply insert_subseteq.
Qed.
End SafeTorrents.
