(* ===== verification/SafeDisk.v ===== *)
(** * The disk manager does not panic

    For torrents of one file, the requests the behaviour makes of the disk
    manager keep its polls from panicking: whole pieces are written, and blocks
    are read that do not start behind the end of the file, or in a build
    without overflow checks. *)

From S2P Require Import Prelude Crates DiskFs Util Message MetaInfo Block DiskError Peer PieceBuffer Events.
From S2P Require Import DiskFile BlockIO DiskManager SafePool.
Local Open Scope Z_scope.

(** ** Specification *)

(** The single file of a torrent *)
Definition single_entry (id : TorrentId) (i : TorrentInfo) : FileEntry :=
  {| fe_path := name i; fe_id := TorrentFileId_new id 0; fe_offset := 0;
     fe_size := content_total (content i) |}.

(** The block is outside of the pieces, which is an error, or it starts inside
    the file, at its end at the latest. *)
Definition starts_inside (i : TorrentInfo) (m : BlockMetadata) : Prop :=
  Z.of_nat (length (pieces i)) <= bm_piece_index m \/
  piece_length i < bm_block_offset m + bm_block_length m \/
  block_start_of (piece_length i) m <= content_total (content i).

Section SafeDiskSpec.
Context `{FileSystem Fs File FsError} `{Profile} {Hasher C : Type}.
Implicit Types dm : DiskManager Hasher Fs File C.

(** A block that a peer asked for: its fields are what 32 bits give, and a
    build with overflow checks needs it to start inside the file. *)
Definition readable (i : TorrentInfo) (m : BlockMetadata) : Prop :=
  0 <= bm_piece_index m /\ is_u32 (bm_block_offset m) /\ is_u32 (bm_block_length m) /\
  (overflow_checks = false \/ starts_inside i m).

Definition event_sound (metas : gmap TorrentId TorrentInfo) (msg : DiskMessageIn Hasher) : Prop :=
  match msg with
  | DI_AddTorrent id meta => metas !! id = Some (info meta) /\ info_sound (info meta)
  | DI_WriteBlock id block => exists i, metas !! id = Some i /\ whole_piece i block
  | DI_ReadBlock id m => exists i, metas !! id = Some i /\ readable i m
  | _ => True
  end.

Definition file_sound (metas : gmap TorrentId TorrentInfo) (id : TorrentId)
    (t : TorrentFile Hasher) : Prop :=
  let i := info (tf_meta_info t) in
  metas !! id = Some i /\ info_sound i /\ tf_files t = [single_entry id i].

(** The jobs are for one file, and their counters are in range. *)
Definition job_sound (j : BlockJob File) : Prop :=
  match j with
  | BJ_Read (BR_Single _ r) =>
      bfr_read r < 2 ^ 63 /\ 0 <= bfr_read r /\ fw_length (bfr_window r) < 2 ^ 63
  | BJ_Write (BW_Single _ w) =>
      0 <= bfw_written w <= fw_length (bfw_window w) /\
      fw_length (bfw_window w) = Z.of_nat (length (bfw_block w)) /\
      fw_length (bfw_window w) < 2 ^ 64
  | _ => False
  end.

Record disk_sound (metas : gmap TorrentId TorrentInfo) dm : Prop := {
  sound_torrents : map_Forall (file_sound metas) (dm_torrents dm);
  sound_queue : Forall (event_sound metas) (queued_events dm);
  sound_jobs : Forall job_sound (active_blocks dm);
}.

(** A read gives no more bytes than a buffer can have, [isize::MAX]. *)
Definition reads_fit : Prop :=
  forall (fs : Fs) (f : File) cap buf fs' f' buf' n,
    poll_read_block fs f cap buf = (fs', f', buf', Ready (Ok n)) -> 0 <= n < 2 ^ 63.
End SafeDiskSpec.

(** ** Lemmas *)

Lemma memory_reads_fit limit :
  Z.of_nat limit < 2 ^ 63 ->
  @reads_fit (list byte) Z unit (memory_fs limit).
Proof.
  intros Hl fs f cap buf fs' f' buf' n [= <- <- <- <-]. rewrite length_take. lia.
Qed.

(** *** The window of a block of a single file *)

Lemma single_files_loop `{Profile} id i start len :
  info_sound i -> 0 <= start -> 0 <= len -> start < 2 ^ 63 ->
  (overflow_checks = false \/ start <= content_total (content i)) ->
  files_loop start (start + len) len [] [single_entry id i] =
  Ret [(single_entry id i, FileWindow_new start
    (if start + len <=? content_total (content i) then len else start))].
Proof.
  intros Hi Hs Hl Hmax Hp. pose proof (info_wf i Hi) as (_ & Ht & [_ Hu] & _).
  cbn [files_loop fe_offset fe_size single_entry].
  rewrite (proj2 (Z.leb_le 0 start)) by done.
  rewrite Z.add_0_l, (checked_in_range 64 (content_total (content i))), bind_ret
    by (unfold in_range; lia).
  destruct (start + len <=? content_total (content i)).
  - by rewrite checked_in_range, bind_ret, Z.sub_0_r by (unfold in_range; lia).
  - rewrite checked_in_range, bind_ret, Z.sub_0_r by (unfold in_range; lia). rewrite bind_ret.
    destruct (checked_total 64 (content_total (content i) - start)) as [v ->]; [|done].
    destruct Hp as [?|?]; [by left|right]. unfold in_range. lia.
Qed.

Section SafeFiles.
Context `{Sha1 Hasher} `{Profile} `{SetOrder FileEntry}.
Implicit Types t : TorrentFile Hasher.

Lemma set_iter_singleton (e : FileEntry) : set_iter [e] = [e].
Proof. apply Permutation_singleton_r, set_iter_perm. Qed.

(** The positions of a block in a piece of the torrent *)
Lemma single_files_for_block_eq metas id t m :
  file_sound metas id t -> 0 <= bm_piece_index m < Z.of_nat (length (pieces (info (tf_meta_info t)))) ->
  0 <= bm_block_offset m -> 0 <= bm_block_length m ->
  bm_block_offset m + bm_block_length m <= piece_length (info (tf_meta_info t)) ->
  let start := block_start_of (piece_length (info (tf_meta_info t))) m in
  0 <= start < 2 ^ 63 /\
  files_for_block t m =
  (files ← files_loop start (start + bm_block_length m) (bm_block_length m) []
             [single_entry id (info (tf_meta_info t))]; Ret (Ok files)).
Proof.
  intros (_ & Hi & Hf) Hk Ho Hl Hle. set (i := info (tf_meta_info t)) in *.
  pose proof (info_bounds i Hi) as (Hn & HP & _ & _). pose proof (info_size i Hi) as Hs.
  assert (0 <= piece_length i * bm_piece_index m < 2 ^ 63 - piece_length i) as Hstart by nia.
  unfold block_start_of. cbv zeta. split; [lia|].
  unfold files_for_block. fold i. rewrite (proj2 (Z.ltb_lt _ _)) by lia.
  rewrite (checked_in_range 64 (bm_block_offset m + _)), bind_ret by (unfold in_range; lia).
  rewrite (proj2 (Z.leb_le _ _)) by done.
  rewrite (checked_in_range 64 (piece_length i * _)), bind_ret by (unfold in_range; lia).
  rewrite (checked_in_range 64 (piece_length i * _ + _)), !bind_ret by (unfold in_range; lia).
  rewrite (checked_in_range 64 (piece_length i * _ + _ + _)), bind_ret by (unfold in_range; lia).
  by rewrite Hf, set_iter_singleton.
Qed.

(** A block is an error, or it has one window. *)
Lemma single_files_for_block metas id t m :
  file_sound metas id t -> 0 <= bm_piece_index m -> 0 <= bm_block_offset m ->
  0 <= bm_block_length m -> bm_block_offset m + bm_block_length m < 2 ^ 64 ->
  (overflow_checks = false \/ starts_inside (info (tf_meta_info t)) m) ->
  returns (files_for_block t m) (fun res =>
    match res with
    | Ok files => exists w, files = [(single_entry id (info (tf_meta_info t)), w)] /\
        fw_length w < 2 ^ 63 /\
        (block_start_of (piece_length (info (tf_meta_info t))) m + bm_block_length m <=
           content_total (content (info (tf_meta_info t))) -> fw_length w = bm_block_length m)
    | Err _ => True
    end).
Proof.
  intros Ht Hk Ho Hl Hol Hp. pose proof Ht as (_ & Hi & _).
  pose proof (info_bounds _ Hi) as (_ & HP & _ & _).
  destruct (Z.lt_ge_cases (bm_piece_index m) (Z.of_nat (length (pieces (info (tf_meta_info t))))))
    as [Hlt|Hge]; [|unfold files_for_block; by rewrite (proj2 (Z.ltb_ge _ _) Hge)].
  destruct (Z.le_gt_cases (bm_block_offset m + bm_block_length m) (piece_length (info (tf_meta_info t))))
    as [Hle|Hgt].
  2: { unfold files_for_block. rewrite (proj2 (Z.ltb_lt _ _) Hlt).
       rewrite (checked_in_range 64 (bm_block_offset m + _)), bind_ret by (unfold in_range; lia).
       by rewrite (proj2 (Z.leb_gt _ _) Hgt). }
  destruct (single_files_for_block_eq metas id t m Ht) as [Hs ->]; [lia|done..|].
  rewrite single_files_loop; [|done|lia|done|lia|].
  - rewrite bind_ret. eexists. split; [done|]. simpl.
    destruct (Z.leb_spec (block_start_of (piece_length (info (tf_meta_info t))) m + bm_block_length m)
      (content_total (content (info (tf_meta_info t))))); split; done || lia.
  - destruct Hp as [?|[?|[?|?]]]; [by left|lia|lia|by right].
Qed.

(** A block that starts behind the end of the file *)
Lemma single_files_panics metas id t m :
  file_sound metas id t -> 0 <= bm_piece_index m -> 0 <= bm_block_offset m ->
  0 <= bm_block_length m -> overflow_checks = true ->
  ~ starts_inside (info (tf_meta_info t)) m -> files_for_block t m = Panic.
Proof.
  intros Ht Hk Ho Hl Hp Hn. unfold starts_inside in Hn. pose proof Ht as (_ & Hi & _).
  pose proof (info_wf _ Hi) as (_ & Htot & [_ Hu] & _).
  destruct (single_files_for_block_eq metas id t m Ht) as [Hs ->]; [lia|done|done|lia|].
  set (start := block_start_of _ m) in *. cbn [files_loop fe_offset fe_size single_entry].
  rewrite (proj2 (Z.leb_le 0 start)) by lia.
  rewrite Z.add_0_l, (checked_in_range 64 (content_total _)), bind_ret by (unfold in_range; lia).
  rewrite (proj2 (Z.leb_gt (start + bm_block_length m) _)) by lia.
  rewrite checked_in_range, !bind_ret by (unfold in_range; lia).
  unfold checked at 1. rewrite (proj2 (Z.leb_gt 0 (content_total _ - start))) by lia.
  simpl. by rewrite Hp.
Qed.

(** A whole piece has a window of its length. *)
Lemma piece_window metas id t block :
  file_sound metas id t -> whole_piece (info (tf_meta_info t)) block ->
  returns (files_for_block t (block_metadata block)) (fun res =>
    match res with
    | Ok files => exists w, files = [(single_entry id (info (tf_meta_info t)), w)] /\
        fw_length w < 2 ^ 63 /\ fw_length w = Z.of_nat (length (block_data block))
    | Err _ => True
    end).
Proof.
  intros Ht (Hk & Ho & Hl & Hd). pose proof Ht as (_ & Hi & _).
  pose proof (info_bounds _ Hi) as (_ & HP & _ & _).
  destruct (info_piece_len_bounds _ (bm_piece_index (block_metadata block)) Hi) as [Hb Hin].
  destruct (Z.ltb_spec (bm_piece_index (block_metadata block))
    (Z.of_nat (length (pieces (info (tf_meta_info t)))))) as [Hlt|Hge].
  - specialize (Hin ltac:(lia)).
    eapply returns_weaken; [apply (single_files_for_block metas id); try done; try lia|].
    + right; right; right. unfold block_start_of. lia.
    + intros [files|e]; [|done]. intros (w & -> & Hw & Hlen). exists w. split_and!; [done..|].
      rewrite Hd. apply Hlen. unfold block_start_of. lia.
  - unfold files_for_block. by rewrite (proj2 (Z.ltb_ge _ _) Hge).
Qed.
End SafeFiles.

Section SafeDiskLemmas.
Context `{Sha1 Hasher} `{FileSystemLaws Fs File FsError}.
Context `{LruCacheLaws TorrentFileId (FileState File) C} `{Profile} `{SetOrder FileEntry}.
Implicit Types dm : DiskManager Hasher Fs File C.
Implicit Types metas : gmap TorrentId TorrentInfo.

Lemma disk_sound_mono metas metas' dm : metas ⊆ metas' -> disk_sound metas dm -> disk_sound metas' dm.
Proof.
  intros Hs [Ht Hq Hj]. split; [| |done].
  - intros id t Hid. destruct (Ht id t Hid) as (Hm & ?). split; [|done]. by eapply lookup_weaken.
  - eapply Forall_impl; [exact Hq|]. intros [] Hm; simpl in *; try done.
    + destruct Hm. split; [|done]. by eapply lookup_weaken.
    + destruct Hm as (i & ? & ?). exists i. split; [|done]. by eapply lookup_weaken.
    + destruct Hm as (i & ? & ?). exists i. split; [|done]. by eapply lookup_weaken.
Qed.

Lemma push_sound metas msg dm :
  event_sound metas msg -> disk_sound metas dm -> disk_sound metas (dm_push_event msg dm).
Proof. intros Hm [? ? ?]. split; try done. simpl. by apply Forall_app_2; [|constructor]. Qed.

Lemma same_disk_sound metas dm dm' :
  disk_sound metas dm -> dm_torrents dm' = dm_torrents dm ->
  queued_events dm' = queued_events dm -> active_blocks dm' = active_blocks dm ->
  disk_sound metas dm'.
Proof. intros [? ? ?] Ht Hq Ha. split; by rewrite ?Ht, ?Hq, ?Ha. Qed.

(** *** Opening files *)

(** A block of one file has one handle, with its window. *)
Lemma poll_files_returns metas id m dm (Q : FileWindow -> Prop) :
  disk_sound metas dm ->
  (forall t, dm_torrents dm !! id = Some t ->
     returns (files_for_block t m) (fun res =>
       match res with Ok files => exists e w, files = [(e, w)] /\ Q w | Err _ => True end)) ->
  returns (poll_files id m dm) (fun '(dm', p) =>
    disk_sound metas dm' /\ active_blocks dm' = active_blocks dm /\
    forall files, p = Ready (Ok files) -> exists w f, files = [(w, f)] /\ Q w).
Proof.
  intros Hs Hf. unfold poll_files. destruct (dm_torrents dm !! id) as [t|] eqn:Et; [|by split_and!].
  eapply returns_bind; [by apply Hf|]. cbv beta. intros [files|e] Hfiles; [|by split_and!].
  destruct Hfiles as (e & w & -> & Hw).
  destruct (acquire_files _ _ _ _ _) as [[fs c] [[queued [|]]|err]] eqn:Ea;
    (split; [by apply (same_disk_sound metas dm)|]); (split; [done|]); try done.
  intros files [= <-]. apply acquire_files_ready in Ea as [_ Ea]. simpl in Ea.
  destruct queued as [|[[k f] w'] [|]]; try done. injection Ea as _ ->. simpl. eauto.
Qed.

Lemma create_write_returns metas id block dm i :
  disk_sound metas dm -> metas !! id = Some i -> whole_piece i block ->
  returns (poll_create_block_write id block dm) (fun '(dm', p) =>
    disk_sound metas dm' /\ forall j, p = Ready (Ok j) -> job_sound j).
Proof.
  intros Hs Hm Hb. unfold poll_create_block_write. destruct (negb _); [by split|].
  eapply returns_bind; [apply (poll_files_returns metas id _ dm
    (fun w => fw_length w < 2 ^ 63 /\ fw_length w = Z.of_nat (length (block_data block)))); [done|]|].
  - intros t Ht. pose proof (sound_torrents _ _ Hs id t Ht) as Hft. pose proof Hft as (Hm' & _).
    assert (info (tf_meta_info t) = i) as Hi by congruence.
    eapply returns_weaken; [apply (piece_window metas id t block Hft); by rewrite Hi|].
    intros [files|e]; [|done]. intros (w & -> & ? & ?). by eexists _, w.
  - intros [dm' p] (Hs' & _ & Hp). destruct p as [[files|e]|].
    + destruct (Hp files eq_refl) as (w & f & -> & Hw & Hl). split; [done|].
      intros j [= <-]. simpl. unfold Block_into_bytes. lia.
    + by split.
    + split; [|done]. apply push_sound; [|done]. by exists i.
Qed.

Lemma create_read_returns metas id m dm i :
  disk_sound metas dm -> metas !! id = Some i -> readable i m ->
  returns (poll_create_block_read id m dm) (fun '(dm', p) =>
    disk_sound metas dm' /\ forall j, p = Ready (Ok j) -> job_sound j).
Proof.
  intros Hs Hm Hr. unfold poll_create_block_read.
  eapply returns_bind; [apply (poll_files_returns metas id _ dm (fun w => fw_length w < 2 ^ 63));
    [done|]|].
  - intros t Ht. pose proof (sound_torrents _ _ Hs id t Ht) as Hft. pose proof Hft as (Hm' & _).
    assert (info (tf_meta_info t) = i) as Hi by congruence.
    destruct Hr as (? & [? ?] & [? ?] & Hp).
    eapply returns_weaken; [apply (single_files_for_block metas id t m Hft); try done; [lia|by rewrite Hi]|].
    intros [files|e]; [|done]. intros (w & -> & ? & _). by eexists _, w.
  - intros [dm' p] (Hs' & _ & Hp). destruct p as [[files|e]|].
    + destruct (Hp files eq_refl) as (w & f & -> & Hw). split; [done|].
      intros j [= <-]. simpl. lia.
    + by split.
    + split; [|done]. apply push_sound; [|done]. by exists i.
Qed.

(** *** Polling jobs *)

Lemma read_step_returns st fs (r : BlockFileRead File) :
  reads_fit (Fs := Fs) (File := File) -> bfr_read r < 2 ^ 63 -> 0 <= bfr_read r ->
  fw_length (bfr_window r) < 2 ^ 63 ->
  returns (read_step st fs r) (fun '(fs', r', p) => p = Pending ->
    bfr_read r' < 2 ^ 63 /\ 0 <= bfr_read r' /\ fw_length (bfr_window r') < 2 ^ 63).
Proof.
  intros Hfit Hr Hr0 Hw. unfold read_step.
  destruct (poll_read_block fs _ _ _) as [[[fs1 f1] b1] [[n|e]|]] eqn:Ep; [|done|done].
  apply Hfit in Ep. simpl. rewrite checked_in_range, bind_ret by (unfold in_range; lia). simpl.
  destruct (Z.ltb_spec (bfr_read r + n) (fw_length (bfr_window r))); [|done].
  intros _. simpl. lia.
Qed.

Lemma write_step_returns st fs (w : BlockFileWrite File) :
  job_sound (BJ_Write (BW_Single BlockMetadata_default w)) ->
  returns (write_step st fs w) (fun '(fs', w', p) => p = Pending ->
    job_sound (BJ_Write (BW_Single BlockMetadata_default w'))).
Proof.
  intros (Hw & Hl & Hmax). unfold write_step. rewrite slice_ok, bind_ret by lia.
  destruct (poll_write_block fs _ _) as [[fs1 f1] [[n|e]|]] eqn:Ep; [|done|done].
  apply write_count in Ep. rewrite length_take, length_drop in Ep. simpl.
  rewrite checked_in_range, bind_ret by (unfold in_range; lia). simpl.
  destruct (Z.ltb_spec (bfw_written w + n) (fw_length (bfw_window w))); [|done].
  intros _. simpl. lia.
Qed.

Lemma BlockJob_poll_returns fs (j : BlockJob File) :
  reads_fit (Fs := Fs) (File := File) -> job_sound j ->
  returns (BlockJob_poll fs j) (fun '(fs', j', p) => p = Pending -> job_sound j').
Proof.
  intros Hfit Hj. destruct j as [[m r|t m rs]|[m w|t m ws]]; cbn [BlockJob_poll]; [|done| |done].
  - destruct Hj as (? & ? & ?).
    eapply returns_bind with (P := fun '(fs', r', p) => p = Pending ->
      bfr_read r' < 2 ^ 63 /\ 0 <= bfr_read r' /\ fw_length (bfr_window r') < 2 ^ 63).
    + unfold BlockFileRead_poll. destruct (bfr_state r); [|by apply read_step_returns|done].
      destruct (poll_seek fs _ _) as [[fs1 f1] [x|]]; [by apply read_step_returns|done].
    + by intros [[fs' r'] p] Hp.
  - eapply returns_bind with (P := fun '(fs', w', p) => p = Pending ->
      job_sound (BJ_Write (BW_Single BlockMetadata_default w'))).
    + unfold BlockFileWrite_poll. destruct (bfw_state w); [|by apply write_step_returns|done].
      destruct (poll_seek fs _ _) as [[fs1 f1] [[x|e]|]]; [by apply write_step_returns|done|exact (fun _ => Hj)].
    + by intros [[fs' w'] p] Hp.
Qed.

(** *** [poll] *)

Lemma finalize_disk_sound metas (j : BlockJob File) dm :
  disk_sound metas dm -> disk_sound metas (finalize_block j dm).1.
Proof. intros Hs. unfold finalize_block. case_match; by apply (same_disk_sound metas dm). Qed.

Lemma poll_active_returns metas n dm :
  reads_fit (Fs := Fs) (File := File) -> disk_sound metas dm ->
  (n <= length (active_blocks dm))%nat ->
  returns (poll_active n dm) (fun '(dm', _) => disk_sound metas dm').
Proof.
  intros Hfit. revert dm. induction n as [|k IH]; cbn [poll_active]; intros dm Hs Hn; [done|].
  destruct (swap_remove_in_range k (active_blocks dm)) as (j & rest & Hsw & Hp); [lia|].
  rewrite Hsw. simpl. pose proof Hs as [Ht Hq Hj]. rewrite Hp in Hj.
  inversion Hj as [|? ? Hj1 Hrest]; subst. apply Permutation_length in Hp. simpl in Hp.
  eapply returns_bind; [by apply BlockJob_poll_returns|]. cbv beta.
  intros [[fs j'] p] Hj'. destruct p as [x|]; simpl.
  - assert (disk_sound metas (dm_with_fs fs (dm_with_active rest dm))) as Hs' by by split.
    apply (finalize_disk_sound metas j') in Hs'. by destruct (finalize_block _ _).
  - apply IH; simpl; [|rewrite length_app; simpl; lia].
    split; [done..|]. simpl. apply Forall_app_2; [done|]. constructor; [by apply Hj'|done].
Qed.

Lemma TorrentFile_new_returns metas id (meta : MetaInfo Hasher) :
  metas !! id = Some (info meta) -> info_sound (info meta) ->
  returns (TorrentFile_new id meta) (file_sound metas id).
Proof.
  intros Hm Hi. unfold TorrentFile_new. pose proof (info_single _ Hi) as Hs.
  destruct (content (info meta)) as [len|] eqn:Ec; [|done]. split_and!; [done..|].
  unfold single_entry. simpl. by rewrite Ec.
Qed.

Lemma poll_queue_returns metas q dm :
  disk_sound metas dm -> Forall (event_sound metas) q ->
  returns (poll_queue (FsError := FsError) q dm) (fun '(dm', _) => disk_sound metas dm').
Proof.
  intros Hs Hq. revert dm Hs. induction Hq as [|msg q Hm Hq IH]; cbn [poll_queue]; intros dm Hs;
    [done|].
  assert (disk_sound metas (dm_with_queue q dm)) as Hs1 by (destruct Hs; by split).
  assert (forall j dm1, disk_sound metas dm1 -> job_sound j ->
    disk_sound metas (dm_with_active (active_blocks dm1 ++ [j]) dm1)) as Hpush.
  { intros j dm1 [? ? ?] Hj. split; [done..|]. simpl. by apply Forall_app_2; [|constructor]. }
  destruct msg as [id meta|id|id dest|id|id m|id block]; simpl in Hm.
  - destruct (decide _); [done|]. destruct Hm as [Hm Hi].
    eapply returns_bind; [by apply (TorrentFile_new_returns metas)|]. intros t Ht.
    destruct Hs1 as [Hts ? ?]. split; [|done..]. by apply map_Forall_insert_2.
  - unfold dm_remove_torrent. destruct (_ !! id); [|done]. destruct Hs1 as [Hts ? ?].
    split; [|done..]. by apply map_Forall_delete.
  - by apply IH.
  - by apply IH.
  - destruct Hm as (i & Hm & Hr). eapply returns_bind; [by eapply create_read_returns|].
    intros [dm1 p] [Hs2 Hj]. destruct p as [[j|e]|]; [|done|done]. apply IH. auto.
  - destruct Hm as (i & Hm & Hr). eapply returns_bind; [by eapply create_write_returns|].
    intros [dm1 p] [Hs2 Hj]. destruct p as [[j|e]|]; [|done|done]. apply IH. auto.
Qed.

Lemma DiskManager_poll_returns metas fuel dm :
  reads_fit (Fs := Fs) (File := File) -> disk_sound metas dm ->
  returns (DiskManager_poll (FsError := FsError) fuel dm) (fun o =>
    forall dm' p, o = Some (dm', p) -> disk_sound metas dm').
Proof.
  intros Hfit. revert dm. induction fuel as [|fuel IH]; cbn [DiskManager_poll]; intros dm Hs; [done|].
  eapply returns_bind; [by apply (poll_active_returns metas)|]. intros [dm1 [msg|]] Hs1.
  - by intros ? ? [= <- _].
  - eapply returns_bind; [apply (poll_queue_returns metas); [done|apply Hs1]|].
    intros [dm2 [p|]] Hs2; [by intros ? ? [= <- _]|].
    case_bool_decide; [by intros ? ? [= <- _]|by apply IH].
Qed.
End SafeDiskLemmas.
