(* ===== verification/Panics.v ===== *)
(** * Panics

    Runs of the behaviour in which nothing panics but the calls that are not
    implemented, whatever the remote peers, the swarm and the file system do,
    and the one request of a peer that makes a build with overflow checks
    panic. *)

From S2P Require Import Prelude Crates DiskFs Util Message MetaInfo Block Peer DiskError PieceBuffer.
From S2P Require Import PieceHandler Events Torrent Pool DiskFile BlockIO DiskManager Handler Behavior.
From S2P Require Import SafePool SafeDisk.
Local Open Scope Z_scope.

(** ** Specification *)

(** The calls of the behaviour: of the user, of the swarm and the handlers of
    the connections, and [poll] with its fuel.  [IN_remove], [IN_pause] and
    [IN_restart] are the calls that are not implemented. *)
Inductive bt_input (PeerId Multiaddr BV Hasher Instant UpgrErr : Type) :=
| IN_address (peer : PeerId) (address : Multiaddr) (torrents : list ShaHash)
| IN_handshake (peer : PeerId) (torrent : ShaHash)
| IN_choke (peer : PeerId)
| IN_unchoke (peer : PeerId)
| IN_add_leech (now : Instant) (torrent : MetaInfo Hasher) (state : TorrentState)
| IN_add_seed (now : Instant) (seed : TorrentSeed Hasher) (state : TorrentState)
| IN_remove (torrent : ShaHash)
| IN_pause (torrent : ShaHash)
| IN_restart (torrent : ShaHash)
| IN_connected (peer : PeerId) (endpoint : ConnectedPoint Multiaddr)
| IN_disconnected (peer : PeerId)
| IN_event (now1 now2 : Instant) (peer : PeerId)
    (event : BitTorrentHandlerEvent BV TorrentId Instant UpgrErr)
| IN_poll (fuel loop_fuel disk_fuel : nat) (rnd : nat -> nat -> list nat -> list nat)
    (clock : nat -> nat -> Instant) (now : Instant).
Arguments IN_address {PeerId Multiaddr BV Hasher Instant UpgrErr}.
Arguments IN_handshake {PeerId Multiaddr BV Hasher Instant UpgrErr}.
Arguments IN_choke {PeerId Multiaddr BV Hasher Instant UpgrErr}.
Arguments IN_unchoke {PeerId Multiaddr BV Hasher Instant UpgrErr}.
Arguments IN_add_leech {PeerId Multiaddr BV Hasher Instant UpgrErr}.
Arguments IN_add_seed {PeerId Multiaddr BV Hasher Instant UpgrErr}.
Arguments IN_remove {PeerId Multiaddr BV Hasher Instant UpgrErr}.
Arguments IN_pause {PeerId Multiaddr BV Hasher Instant UpgrErr}.
Arguments IN_restart {PeerId Multiaddr BV Hasher Instant UpgrErr}.
Arguments IN_connected {PeerId Multiaddr BV Hasher Instant UpgrErr}.
Arguments IN_disconnected {PeerId Multiaddr BV Hasher Instant UpgrErr}.
Arguments IN_event {PeerId Multiaddr BV Hasher Instant UpgrErr}.
Arguments IN_poll {PeerId Multiaddr BV Hasher Instant UpgrErr}.

Section PanicSpec.
Context `{Countable PeerId} {Multiaddr : Type} `{BitVec BV} `{Sha1 Hasher} `{Clock Instant}.
Context `{FileSystem Fs File FsError} `{LruCache TorrentFileId (FileState File) C} `{Profile}.
Context `{!MapOrder PeerId (BitTorrentPeer BV Instant)}.
Context `{!MapOrder Z (Torrent PeerId BV Instant)} `{!SetOrder FileEntry} {UpgrErr : Type}.
#[local] Abbreviation Bt := (BitTorrent PeerId Multiaddr BV Hasher Instant Fs File C).
#[local] Abbreviation Input := (bt_input PeerId Multiaddr BV Hasher Instant UpgrErr).
Implicit Types b : Bt.
Implicit Types x : Input.

(** The behaviour after a call: none when the fuel of a [poll] is used up *)
Definition bt_do x b : outcome (option Bt) :=
  match x with
  | IN_address p a l => Ret (Some (add_address_torrents p a l b).1)
  | IN_handshake p h => Ret (Some (handshake_known_peer p h b).1)
  | IN_choke p => Ret (Some (choke_peer p b))
  | IN_unchoke p => Ret (Some (unchoke_peer p b))
  | IN_add_leech now m st => b ← add_leech now m st b; Ret (Some b)
  | IN_add_seed now m st => b ← add_seed now m st b; Ret (Some b)
  | IN_remove h => b ← bt_remove_torrent h b; Ret (Some b)
  | IN_pause h => b ← bt_pause_torrent h b; Ret (Some b)
  | IN_restart h => b ← bt_restart_torrent h b; Ret (Some b)
  | IN_connected p e => Ret (Some (inject_connected p e b))
  | IN_disconnected p => Ret (Some (inject_disconnected p b))
  | IN_event n1 n2 p ev => b ← inject_node_event n1 n2 p ev b; Ret (Some b)
  | IN_poll fuel lf df rnd clock now =>
      o ← bt_poll fuel lf df rnd clock now b;
      Ret (match o with Some (b, _) => Some b | None => None end)
  end.

Fixpoint bt_inputs (l : list Input) b : outcome (option Bt) :=
  match l with
  | [] => Ret (Some b)
  | x :: l =>
      o ← bt_do x b;
      match o with Some b => bt_inputs l b | None => Ret None end
  end.

(** The calls that are not implemented *)
Definition unimplemented x : Prop :=
  match x with IN_remove _ | IN_pause _ | IN_restart _ => True | _ => False end.

(** The torrents a run adds *)
Definition input_infos x : list TorrentInfo :=
  match x with
  | IN_add_leech _ m _ => [info m]
  | IN_add_seed _ m _ => [info (seed_torrent m)]
  | _ => []
  end.

(** Torrents that are added have one file and sizes that agree.  A request for
    a block has fields of 32 bits; only a build with overflow checks asks more
    of it: that it does not start behind the end of an added file. *)
Definition input_sound (infos : list TorrentInfo) x : Prop :=
  Forall info_sound (input_infos x) /\
  match x with
  | IN_event _ _ _ (HO_GetPieceReq rq _) =>
      PeerRequest_wf rq /\ (overflow_checks = false \/
        Forall (fun i => starts_inside i (BlockMetadata_from_request rq)) infos)
  | _ => True
  end.

Record bt_sound (infos : list TorrentInfo) (n : Z) (metas : gmap TorrentId TorrentInfo) b : Prop := {
  sound_pool : pool_sound metas (bt_torrents b);
  sound_disk : disk_sound metas (disk_manager b);
  sound_next : 0 <= next_unique_torrent (bt_torrents b) <= n;
  sound_metas : map_Forall (fun id i => i ∈ infos /\ id < next_unique_torrent (bt_torrents b)) metas;
}.
End PanicSpec.

(** ** Lemmas *)

Section PanicLemmas.
Context `{Countable PeerId} {Multiaddr : Type} `{BitVecLaws BV} `{Sha1 Hasher} `{Clock Instant}.
Context `{FileSystemLaws Fs File FsError} `{LruCacheLaws TorrentFileId (FileState File) C}.
Context `{Profile} `{!MapOrder PeerId (BitTorrentPeer BV Instant)}.
Context `{!MapOrder Z (Torrent PeerId BV Instant)} `{!SetOrder FileEntry}.
#[local] Abbreviation Bt := (BitTorrent PeerId Multiaddr BV Hasher Instant Fs File C).
Implicit Types b : Bt.
Implicit Types metas : gmap TorrentId TorrentInfo.
Implicit Types infos : list TorrentInfo.

(** *** Changes of the parts of the behaviour *)

Lemma same_bt_sound infos n metas b b' :
  bt_sound infos n metas b -> disk_manager b' = disk_manager b -> bt_torrents b' = bt_torrents b ->
  bt_sound infos n metas b'.
Proof. intros [? ? ? ?] Hd Ht. split; by rewrite ?Hd, ?Ht. Qed.

Lemma bt_push_sound infos n metas a b :
  bt_sound infos n metas b -> bt_sound infos n metas (bt_push a b).
Proof. intros Hb. by apply (same_bt_sound _ _ _ b). Qed.

Lemma with_pool_sound infos n metas s b :
  bt_sound infos n metas b -> pool_keeps (bt_torrents b) s -> bt_sound infos n metas (bt_with_pool s b).
Proof. intros [Hp ? Hn Hm] [Hnext Hk]. split; simpl; rewrite ?Hnext; auto. Qed.

Lemma with_disk_sound infos n metas dm b :
  bt_sound infos n metas b -> disk_sound metas dm -> bt_sound infos n metas (bt_with_disk dm b).
Proof. intros [? ? ? ?] ?. by split. Qed.

#[local] Hint Resolve bt_push_sound with_pool_sound : core.

(** *** [poll] *)

Lemma pool_loop_returns infos n metas fuel rnd clock now b :
  bt_sound infos n metas b ->
  returns (pool_loop fuel rnd clock now b) (fun o =>
    forall b' r, o = Some (b', r) -> bt_sound infos n metas b').
Proof.
  revert b. induction fuel as [|fuel IH]; cbn [pool_loop]; intros b Hb; [done|].
  eapply returns_bind; [apply (pool_poll_returns (Hasher := Hasher) metas), Hb|].
  intros [s st] (Hs & Hn & Hr). set (b1 := bt_with_pool s b).
  assert (bt_sound infos n metas b1) as Hb1.
  { destruct Hb. split; simpl; rewrite ?Hn; done. }
  destruct st as [|t|[[t blk]|e]|t|t p|t p|nb]; simpl; try (by intros ? ? [= <- _]);
    try (by apply IH).
  apply IH, with_disk_sound; [done|]. apply push_sound; [by apply Hr|apply Hb1].
Qed.

Lemma foldl_have_sound infos n metas i l b :
  bt_sound infos n metas b -> bt_sound infos n metas (foldl (fun b p => bt_send p (HI_Have i) b) b l).
Proof.
  revert b. induction l as [|p l IH]; intros b Hb; simpl; [done|]. by apply IH, bt_push_sound.
Qed.

Lemma on_disk_message_sound infos n metas msg b :
  bt_sound infos n metas b -> bt_sound infos n metas (on_disk_message msg b).1.
Proof.
  intros Hb. destruct msg as [id|id m|id d|id|id blk|id blk|id e|id e|id e]; simpl; auto.
  - by apply bt_push_sound.
  - match goal with |- context [on_block_read ?s ?i ?m] => pose proof (block_read_keeps_sound s i m) as Hk end.
    destruct (on_block_read _ _ _) as [s [[p r]|]]; simpl; auto.
    by apply bt_push_sound, with_pool_sound.
  - destruct (torrents (bt_torrents b) !! id) as [t|] eqn:Et; [|done]. simpl.
    apply foldl_have_sound, with_pool_sound; [done|]. apply (insert_torrent_keeps _ _ t); [done|].
    intros metas' Ht. apply with_handler_sound; [done|]. intros i. apply set_piece_sound.
Qed.

Lemma disk_loop_returns infos n metas fuel disk_fuel b :
  reads_fit (Fs := Fs) (File := File) -> bt_sound infos n metas b ->
  returns (disk_loop fuel disk_fuel b) (fun o =>
    forall b' r, o = Some (b', r) -> bt_sound infos n metas b').
Proof.
  intros Hfit. revert b. induction fuel as [|fuel IH]; cbn [disk_loop]; intros b Hb; [done|].
  eapply returns_bind; [apply (DiskManager_poll_returns metas); [done|apply Hb]|].
  intros [[dm p]|] Hdm; [|done].
  pose proof (with_disk_sound _ _ _ dm b Hb (Hdm _ _ eq_refl)) as Hb1.
  destruct p as [[msg|e]|]; [|by intros ? ? [= <- _]..].
  pose proof (on_disk_message_sound _ _ _ msg _ Hb1) as Hb2.
  destruct (on_disk_message msg _) as [b2 [a|]]; [by intros ? ? [= <- _]|by apply IH].
Qed.

Lemma bt_poll_returns infos n metas fuel loop_fuel disk_fuel rnd clock now b :
  reads_fit (Fs := Fs) (File := File) -> bt_sound infos n metas b ->
  returns (bt_poll fuel loop_fuel disk_fuel rnd clock now b) (fun o =>
    forall b' r, o = Some (b', r) -> bt_sound infos n metas b').
Proof.
  intros Hfit. revert b. induction fuel as [|fuel IH]; cbn [bt_poll]; intros b Hb; [done|].
  destruct (bt_queued_events b) as [|ev q].
  2: { intros ? ? [= <- _]. by apply (same_bt_sound _ _ _ b). }
  eapply returns_bind; [by apply (pool_loop_returns infos n metas)|].
  intros [[b1 [a|]]|] Hb1; [by intros ? ? [= <- _]; eapply Hb1| |done].
  specialize (Hb1 _ _ eq_refl).
  eapply returns_bind; [by apply (disk_loop_returns infos n metas)|].
  intros [[b2 [a|]]|] Hb2; [by intros ? ? [= <- _]; eapply Hb2| |done].
  specialize (Hb2 _ _ eq_refl).
  case_bool_decide; [by intros ? ? [= <- _]|by apply IH].
Qed.

(** *** Events of the handlers *)

(** Closes a goal on a state with another pool and more to report. *)
Ltac bt_keep := simpl; unfold bt_send, bt_report; eauto 6.

(** Opens an operation of the pool whose state is kept. *)
Ltac pool_op K :=
  let Hk := fresh "Hk" in
  pose proof K as Hk;
  match type of Hk with pool_keeps _ ?op.1 => destruct op as [? ?] end; simpl in Hk.

Lemma inject_node_event_returns {UpgrErr} infos n metas n1 n2 p
    (ev : BitTorrentHandlerEvent BV TorrentId Instant UpgrErr) b :
  bt_sound infos n metas b ->
  input_sound (Hasher := Hasher) (Multiaddr := Multiaddr) infos (IN_event n1 n2 p ev) ->
  returns (inject_node_event n1 n2 p ev b) (bt_sound infos n metas).
Proof.
  intros Hb [_ Hev].
  destruct ev as [hs r|hs u|f r|f u|rq r|pc u|rq r|c|i|i|e u|t]; simpl in Hev; node_event.
  - pool_op (handshake_request_keeps n1 n2 (bt_torrents b) p hs). case_match; simpl; bt_keep.
  - pool_op (handshake_response_keeps n1 n2 (bt_torrents b) p u hs). repeat case_match; simpl; bt_keep.
  - pool_op (bitfield_request_keeps (bt_torrents b) p f). case_match; simpl; bt_keep.
  - pool_op (set_peer_bitfield_keeps (bt_torrents b) p u f). case_match; simpl; [|by bt_keep].
    assert (exists i, is_remote_interesting t u p = Ret i) as [i ->].
    { unfold is_remote_interesting. repeat case_match; try by eexists.
      match goal with |- context [is_having_missing_pieces_for ?q ?o] =>
        destruct (is_having_missing_pieces_for_iff q o) as (i & Hi & _) end. by exists i. }
    rewrite bind_ret. destruct i; simpl; [|by bt_keep].
    apply bt_push_sound, bt_push_sound, with_pool_sound; [eauto|]. apply client_interest_keeps.
  - destruct Hev as [Hwf Hin].
    pose proof (piece_request_keeps (bt_torrents b) p (BlockMetadata_from_request rq) r) as Hk.
    destruct (on_piece_request _ _ _ _) as [s' [[id m]|[[q m] x]]] eqn:Er; simpl in *; [|by bt_keep].
    apply with_disk_sound; [eauto|]. apply push_sound; [|apply Hb].
    destruct (piece_request_torrent metas _ _ _ _ _ _ _ (sound_pool _ _ _ _ Hb) Er) as [-> [i Hi]].
    exists i. split; [done|]. destruct Hwf as ([? _] & ? & ?). split_and!; [done..|].
    destruct Hin as [?|Hin]; [by left|right]. rewrite Forall_forall in Hin. apply Hin.
    apply (sound_metas _ _ _ _ Hb id i Hi).
  - pool_op (block_response_keeps (bt_torrents b) u p (Block_from_piece pc)). case_match; simpl; bt_keep.
  - pool_op (cancel_request_keeps (bt_torrents b) r). case_match; simpl; bt_keep.
  - pool_op (choke_by_remote_keeps (bt_torrents b) p c). repeat case_match; simpl; bt_keep.
  - pool_op (interest_by_remote_keeps (bt_torrents b) p i). simpl; bt_keep.
  - pool_op (remote_have_keeps (bt_torrents b) p (Z.to_nat i)). repeat case_match; simpl; bt_keep.
  - done.
  - pool_op (keep_alive_by_remote_keeps (bt_torrents b) p t). simpl; bt_keep.
Qed.

(** *** Torrents that are added *)

Lemma bt_sound_mono infos n n' metas b :
  n <= n' -> bt_sound infos n metas b -> bt_sound infos n' metas b.
Proof. intros Hn [? ? ? ?]. split; done || lia. Qed.

Lemma last_piece_length_last i : info_sound i -> last_piece_length i = Ret (last_len i).
Proof.
  intros Hi. destruct (last_piece_length_spec i (info_wf i Hi)) as (v & -> & _ & Hv).
  unfold last_len. f_equal. lia.
Qed.

(** What [add_leech] and [add_seed] do with the configuration of a torrent *)
Lemma bt_add_returns infos n metas (m : MetaInfo Hasher) now cfg ok err b :
  bt_sound infos n metas b -> n + 1 < 2 ^ 64 -> info_sound (info m) -> info m ∈ infos ->
  bf_len (cfg_bitfield cfg) = length (pieces (info m)) ->
  cfg_piece_length cfg = piece_length (info m) -> cfg_last_piece_length cfg = last_len (info m) ->
  returns
    ('(pool, r) ← add_torrent now (bt_torrents b) cfg;
     let b := bt_with_pool pool b in
     match r with
     | Ok (id, st) =>
         Ret (bt_with_disk (dm_add_torrent id m (disk_manager b)) (bt_report (ok id st) b))
     | Err hash => Ret (bt_report (err hash) b)
     end)
    (fun b' => exists metas', bt_sound infos (n + 1) metas' b').
Proof.
  intros [Hp Hd Hn Hm] Hmax Hi Hin Hf Hpl Hl. set (next := next_unique_torrent (bt_torrents b)) in *.
  assert (metas !! next = None) as Hfresh.
  { apply eq_None_not_Some. intros [i Hx]. destruct (Hm _ _ Hx). lia. }
  eapply returns_bind; [apply (add_torrent_returns metas now _ cfg (info m)); try done; lia|].
  intros [s [[id st]|hash]] Hs.
  - destruct Hs as (-> & Hnext & Hs). fold next in Hnext, Hs. exists (<[next := info m]> metas).
    split; simpl; rewrite ?Hnext; [done| |lia|].
    + apply push_sound; [split; [apply lookup_insert_eq|done]|].
      eapply disk_sound_mono; [|exact Hd]. by apply insert_subseteq.
    + apply map_Forall_insert_2; [split; [done|unfold next; lia]|].
      eapply map_Forall_impl; [exact Hm|]. intros id i [? ?]. split; [done|lia].
  - simpl in Hs. subst s. exists metas. apply (bt_sound_mono infos n); [lia|].
    apply bt_push_sound. by split.
Qed.

Lemma bf_len_new_all_set k : bf_len (BitField_new_all_set (BV := BV) k) = k.
Proof.
  rewrite bf_len_iter. unfold bf_iter. simpl. by rewrite bv_iter_from_elem, length_replicate.
Qed.

(** *** Any call *)

Lemma bt_do_returns {UpgrErr} infos n metas (x : bt_input PeerId Multiaddr BV Hasher Instant UpgrErr) b :
  reads_fit (Fs := Fs) (File := File) -> n + 1 < 2 ^ 64 -> input_sound infos x ->
  ~ unimplemented x -> (forall i, i ∈ input_infos x -> i ∈ infos) -> bt_sound infos n metas b ->
  returns (bt_do x b) (fun o => forall b', o = Some b' ->
    exists metas', bt_sound infos (n + 1) metas' b').
Proof.
  intros Hfit Hn Hx Hun Hinf Hb.
  assert (forall m (m0 : outcome Bt), returns m0 (bt_sound infos n m) ->
    returns (b ← m0; Ret (Some b)) (fun o => forall b', o = Some b' ->
      exists metas', bt_sound infos (n + 1) metas' b')) as Hsame.
  { intros m m0 Hm. eapply returns_bind; [exact Hm|]. intros b' Hb' ? [= <-]. exists m.
    apply (bt_sound_mono infos n); [lia|done]. }
  destruct x as [p a l|p h|p|p|now m st|now m st|hs|hs|hs|p e|p|n1 n2 p ev|fuel lf df rnd clock now]; simpl.
  - apply (Hsame metas (Ret _)). simpl. unfold add_address_torrents.
    repeat case_match; by apply (same_bt_sound _ _ _ b).
  - apply (Hsame metas (Ret _)). simpl. unfold handshake_known_peer.
    repeat case_match; by apply (same_bt_sound _ _ _ b).
  - apply (Hsame metas (Ret _)). simpl. unfold choke_peer.
    pool_op (choke_keeps (bt_torrents b) p). case_match; simpl; bt_keep.
  - apply (Hsame metas (Ret _)). simpl. unfold unchoke_peer.
    pool_op (unchoke_keeps (bt_torrents b) p). case_match; simpl; bt_keep.
  - destruct Hx as [Hi _]. inversion Hi as [|? ? Hi' _]; subst.
    eapply returns_bind with (P := fun b' => exists metas', bt_sound infos (n + 1) metas' b');
      [|by intros b' Hb' ? [= <-]].
    unfold add_leech, TorrentConfig_new_leech. rewrite last_piece_length_last, !bind_ret by done.
    eapply bt_add_returns; try done; [apply Hinf; left|apply bf_len_new_all_clear].
  - destruct Hx as [Hi _]. inversion Hi as [|? ? Hi' _]; subst.
    eapply returns_bind with (P := fun b' => exists metas', bt_sound infos (n + 1) metas' b');
      [|by intros b' Hb' ? [= <-]].
    unfold add_seed, TorrentConfig_new_seed. rewrite last_piece_length_last, !bind_ret by done.
    eapply bt_add_returns; try done; [apply Hinf; left|apply bf_len_new_all_set].
  - by destruct Hun.
  - by destruct Hun.
  - by destruct Hun.
  - apply (Hsame metas (Ret _)). simpl. apply (same_bt_sound _ _ _ b); [done|..];
      unfold inject_connected, send_handshake, add_address_torrents; by repeat case_match.
  - apply (Hsame metas (Ret _)). simpl.
    apply (same_bt_sound _ _ _ (bt_with_pool (pool_remove_peer (bt_torrents b) p).1 b)); [|done..].
    apply with_pool_sound; [done|]. apply remove_peer_keeps.
  - eapply Hsame. by apply inject_node_event_returns.
  - eapply returns_bind; [by apply (bt_poll_returns infos n metas)|].
    intros [[b1 r]|] Hb1 b' Hb'; [|done]. injection Hb' as <-. exists metas.
    apply (bt_sound_mono infos n); [lia|]. by eapply Hb1.
Qed.

Lemma bt_do_unimplemented {UpgrErr}
    (x : bt_input PeerId Multiaddr BV Hasher Instant UpgrErr) b :
  unimplemented x -> bt_do x b = Panic.
Proof. by destruct x. Qed.

Lemma unimplemented_dec {UpgrErr} (x : bt_input PeerId Multiaddr BV Hasher Instant UpgrErr) :
  Decision (unimplemented x).
Proof. destruct x; unfold unimplemented; apply _. Defined.

(** A run panics when it comes to a call that is not implemented. *)
Definition reaches_unimplemented {UpgrErr}
    (l : list (bt_input PeerId Multiaddr BV Hasher Instant UpgrErr)) b : Prop :=
  exists l1 x l2 b', l = l1 ++ x :: l2 /\ unimplemented x /\ bt_inputs l1 b = Ret (Some b').

Lemma bt_inputs_panic {UpgrErr} infos
    (l : list (bt_input PeerId Multiaddr BV Hasher Instant UpgrErr)) n metas b :
  reads_fit (Fs := Fs) (File := File) -> n + Z.of_nat (length l) < 2 ^ 64 ->
  Forall (input_sound infos) l -> (forall i, i ∈ l ≫= input_infos -> i ∈ infos) ->
  bt_sound infos n metas b -> bt_inputs l b = Panic -> reaches_unimplemented l b.
Proof.
  intros Hfit Hn Hl. revert n metas b Hn.
  induction Hl as [|x l Hx Hl IH]; cbn [bt_inputs]; intros n metas b Hn Hinf Hb Hp; [done|].
  simpl in Hn, Hinf.
  destruct (unimplemented_dec x) as [Hun|Hun]; [by exists [], x, l, b|].
  assert (returns (bt_do x b) (fun o => forall b', o = Some b' ->
    exists metas', bt_sound infos (n + 1) metas' b')) as Hr.
  { apply (bt_do_returns infos n metas); try done; [lia|].
    intros i Hi. apply Hinf, elem_of_app. by left. }
  destruct (bt_do x b) as [[b'|]|] eqn:Ex; simpl in Hp, Hr; [|done|by destruct Hr].
  destruct (Hr b' eq_refl) as [metas' Hs].
  apply (IH (n + 1) metas') in Hp as (l1 & y & l2 & b'' & -> & Hy & Hl1);
    [|lia|by intros i Hi; apply Hinf, elem_of_app; right|done].
  exists (x :: l1), y, l2, b''. split_and!; [done..|]. cbn [bt_inputs]. by rewrite Ex, bind_ret.
Qed.

Lemma unimplemented_panics {UpgrErr}
    (l : list (bt_input PeerId Multiaddr BV Hasher Instant UpgrErr)) b :
  reaches_unimplemented l b -> bt_inputs l b = Panic.
Proof.
  intros (l1 & x & l2 & b' & -> & Hx & Hl1). revert b Hl1.
  induction l1 as [|y l1 IH]; cbn [app bt_inputs]; intros b Hl1.
  - by rewrite bt_do_unimplemented.
  - destruct (bt_do y b) as [[b1|]|]; [|done..]. rewrite bind_ret in *. by apply IH.
Qed.
End PanicLemmas.

(** ** Properties *)

Section PanicProperties.
Context `{Countable PeerId} {Multiaddr : Type} `{BitVecLaws BV} `{Sha1 Hasher} `{Clock Instant}.
Context `{FileSystemLaws Fs File FsError} `{LruCacheLaws TorrentFileId (FileState File) C}.
Context `{Profile} `{!MapOrder PeerId (BitTorrentPeer BV Instant)}.
Context `{!MapOrder Z (Torrent PeerId BV Instant)} `{!SetOrder FileEntry}.
#[local] Abbreviation Bt := (BitTorrent PeerId Multiaddr BV Hasher Instant Fs File C).
Implicit Types b : Bt.

(** C6: Whatever the user, the swarm, the remote peers and the file system do,
    the behaviour panics exactly when the user calls [remove_torrent],
    [pause_torrent] or [restart_torrent], which are not implemented, whatever the
    order of its maps and the choice of pieces.  The torrents that are added
    have one file each, pieces that end within 2^63 bytes, and sizes that agree;
    a read returns a number of bytes below 2^63, and there are less than 2^64
    calls.  A build with overflow checks needs besides that no peer asks for a
    block that starts behind the end of a file; a build without needs nothing of
    the peers. *)
Theorem panics_iff_unimplemented {UpgrErr} random id fs config
    (l : list (bt_input PeerId Multiaddr BV Hasher Instant UpgrErr)) :
  let b : Bt := BitTorrent_with_config random id fs config in
  reads_fit (Fs := Fs) (File := File) -> Z.of_nat (length l) < 2 ^ 64 ->
  Forall (input_sound (l ≫= input_infos)) l ->
  bt_inputs l b = Panic <->
  exists l1 x l2 b', l = l1 ++ x :: l2 /\ unimplemented x /\ bt_inputs l1 b = Ret (Some b').
Proof.
  intros b Hfit Hlen Hl. split; [|apply unimplemented_panics].
  by apply (bt_inputs_panic (l ≫= input_infos) l 0 ∅).
Qed.

(** C27: A peer that may download makes a build with overflow checks panic: it asks
    for a block of the last piece that starts behind the end of the file.  The
    request is accepted, and the next [poll] of the behaviour panics. *)
Theorem request_past_end_panics {UpgrErr} b id t tf p rq r n1 n2 fuel loop_fuel disk_fuel rnd clock now :
  let i := info (tf_meta_info tf) in
  let m := BlockMetadata_from_request rq in
  overflow_checks = true -> info_sound i -> tf_files tf = [single_entry id i] ->
  disk_ready id tf (disk_manager b) -> bt_quiet id t now b -> complete t ->
  PeerRequest_wf rq -> can_seed_piece_to t p (Z.to_nat (bm_piece_index m)) = true ->
  bm_piece_index m < Z.of_nat (length (pieces i)) ->
  bm_block_offset m + bm_block_length m <= piece_length i ->
  content_total (content i) < block_start_of (piece_length i) m ->
  exists b',
    inject_node_event n1 n2 p (HO_GetPieceReq rq r : BitTorrentHandlerEvent _ _ _ UpgrErr) b = Ret b' /\
    bt_poll (S fuel) (S loop_fuel) (S disk_fuel) rnd clock now b' = Panic.
Proof.
  intros i m Hchk Hi Hf [[Hact Hdq] Htor] [Hq Ht Hid Hto] [Hbuf Hfin] ([? _] & [? _] & [? _]) Hcan Hk Hle Hpast.
  eexists. split; [node_event; rewrite (on_piece_request_single _ id t) by done; done|].
  set (t1 := with_piece_handler _ t).
  match goal with |- bt_poll _ _ _ _ _ _ ?x = _ => set (b1 := x) end.
  assert (bt_queued_events b1 = []) as Hq1 by exact Hq.
  cbn [bt_poll]. rewrite Hq1. cbn [pool_loop].
  rewrite (pool_poll_seed _ _ now (bt_torrents b1) id t1) by done.
  rewrite !bind_ret. cbn [disk_loop DiskManager_poll].
  change (active_blocks (disk_manager _)) with (active_blocks (disk_manager b)).
  rewrite Hact. cbn [length poll_active]. rewrite bind_ret.
  change (queued_events (disk_manager _)) with (queued_events (disk_manager b) ++ [DI_ReadBlock id m]).
  rewrite Hdq. cbn [app poll_queue]. unfold poll_create_block_read, poll_files.
  change (dm_torrents _) with (dm_torrents (disk_manager b)). rewrite Htor.
  rewrite (single_files_panics {[id := i]} id tf m); [done|split_and!; [apply lookup_singleton_eq|done..]|done..|].
  unfold starts_inside. fold i. lia.
Qed.
End PanicProperties.

(** ** Witnesses *)

Section PanicWitnesses.
#[local] Existing Instances list_bitvec list_bitvec_laws toy_sha1 seconds debug_build
  ex_order ex_torrent_order ex_dm_order ex_dm_fs ex_dm_contents ex_dm_fs_laws ex_dm_cache
  ex_dm_cache_laws.

(** Seven bytes in pieces of five: the last piece has two. *)
Definition ex_short_meta : MetaInfo (list byte) :=
  {| announce := None; announce_list := []; encoding := None; comment := None;
     created_by := None; creation_date := None; httpseeds := []; webseeds := [];
     info := {| pieces := [ShaHash_from_bytes []; ShaHash_from_bytes ex_data];
                piece_length := 5; content := Single 7; name := "f" |};
     nodes := []; meta_info_hash := [] |}.

Lemma ex_short_sound : info_sound (info ex_short_meta).
Proof. split; [split_and!|..]; by vm_compute. Qed.

Lemma ex_reads_fit : reads_fit (Fs := list byte) (File := Z).
Proof. by apply (memory_reads_fit 64). Qed.

(** A run with a peer that joins, unchokes the client twice, asks for blocks in
    and outside of the torrent, and leaves *)
Definition ex_rude_inputs : list (bt_input Z Z (list bool) (list byte) Z unit) :=
  [IN_add_seed 0 {| seed_path := "d"; seed_torrent := ex_short_meta |} Active;
   IN_poll 2 5 5 (fun _ _ l => rev l) (fun _ _ => 0) 0;
   IN_event 0 0 7 (HO_HandshakeReq (Handshake_new (MetaInfo_sha_hash ex_short_meta) (ex_hash 7)) 0);
   IN_event 0 0 7 (HO_Choke UnChoked);
   IN_event 0 0 7 (HO_Choke UnChoked);
   IN_unchoke 7;
   IN_event 0 0 7 (HO_Interest Interested);
   IN_event 0 0 7 (HO_GetPieceReq {| req_index := 9; req_begin := 0; req_length := 5 |} 1);
   IN_event 0 0 7 (HO_GetPieceReq {| req_index := 1; req_begin := 1; req_length := 3 |} 1);
   IN_poll 2 5 5 (fun _ _ l => rev l) (fun _ _ => 0) 0;
   IN_disconnected 7].

Lemma panics_iff_unimplemented_witness :
  bt_inputs ex_rude_inputs
    (BitTorrent_with_config (ex_hash 9) 1 [] (BitTorrentConfig_default (Hasher := list byte)) :
       ex_behaviour) <> Panic /\
  bt_inputs (ex_rude_inputs ++ [IN_pause (ex_hash 1)])
    (BitTorrent_with_config (ex_hash 9) 1 [] (BitTorrentConfig_default (Hasher := list byte)) :
       ex_behaviour) = Panic.
Proof.
  assert (Forall (input_sound [info ex_short_meta]) ex_rude_inputs) as Hsound.
  { repeat apply Forall_cons_2; [| | | | | | | | | | |apply Forall_nil_2];
      (split; [repeat constructor; apply ex_short_sound|]); try exact I;
      (split; [vm_compute; repeat split; discriminate|]); right; (apply Forall_cons_2; [|apply Forall_nil_2]).
    + left. vm_compute. discriminate.
    + right; right. vm_compute. discriminate. }
  split.
  - rewrite (panics_iff_unimplemented (UpgrErr := unit) (ex_hash 9) 1 [] BitTorrentConfig_default
      ex_rude_inputs); [|exact ex_reads_fit|vm_compute; reflexivity|exact Hsound].
    intros (l1 & x & l2 & b' & Heq & Hx & _).
    assert (Exists unimplemented ex_rude_inputs) as He
      by (rewrite Heq; apply Exists_app; right; by apply Exists_cons_hd).
    unfold ex_rude_inputs in He. repeat (apply Exists_cons in He as [He|He]; [done|]).
    by apply Exists_nil in He.
  - rewrite (panics_iff_unimplemented (UpgrErr := unit) (ex_hash 9) 1 [] BitTorrentConfig_default
      (ex_rude_inputs ++ [IN_pause (ex_hash 1)])); [|exact ex_reads_fit|vm_compute; reflexivity|].
    + eexists ex_rude_inputs, _, [], _. split_and!; [reflexivity|exact I|]. vm_compute. reflexivity.
    + apply Forall_app_2; [exact Hsound|]. apply Forall_cons_2; [|apply Forall_nil_2]. by split; [constructor|].
Defined.

(** A complete torrent whose file is shorter than its pieces *)
Definition ex_short_torrent : TorrentFile (list byte) :=
  {| tf_id := 0; tf_meta_info := ex_short_meta;
     tf_files := [single_entry 0 (info ex_short_meta)] |}.
Definition ex_short_dm : ex_manager := dm_with_torrents {[0 := ex_short_torrent]} ex_dm_new.
Definition ex_past_end : PeerRequest := {| req_index := 1; req_begin := 3; req_length := 1 |}.

Lemma request_past_end_panics_witness :
  exists b' : ex_behaviour,
    inject_node_event 0 0 7 (HO_GetPieceReq ex_past_end 3 : BitTorrentHandlerEvent _ _ _ unit)
      (ex_bt ex_seed_torrent ex_short_dm) = Ret b' /\
    bt_poll 2 2 2 (fun _ _ l => l) (fun _ _ => 0) 0 b' = Panic.
Proof.
  apply (request_past_end_panics (UpgrErr := unit) (ex_bt ex_seed_torrent ex_short_dm) 0
    ex_seed_torrent ex_short_torrent 7 ex_past_end 3 0 0 1 1 1 (fun _ _ l => l) (fun _ _ => 0) 0).
  - vm_compute; reflexivity.
  - exact ex_short_sound.
  - vm_compute; reflexivity.
  - split; [split|]; vm_compute; reflexivity.
  - split; vm_compute; reflexivity.
  - split; vm_compute; reflexivity.
  - vm_compute. repeat split; discriminate.
  - vm_compute; reflexivity.
  - vm_compute; reflexivity.
  - vm_compute. discriminate.
  - vm_compute; reflexivity.
Defined.
End PanicWitnesses.
