(* ===== verification/Client.v ===== *)
(** * The example client

    The program of src/examples/bittorrent.rs around the library: it seeds a
    file of random bytes, or leeches a torrent from the peer its arguments name,
    and lets every peer that is interested have its pieces.  Keys, the transport
    and the runtime are left out; the swarm of libp2p is an interface. *)

From S2P Require Import Prelude Crates DiskFs Strings Bencode Util Message MetaInfo Block Peer.
From S2P Require Import DiskError Events TorrentFile Tracker Builder Torrent Pool DiskFile DiskManager.
From S2P Require Import Handler Behavior.
Local Open Scope Z_scope.

(** ** Interfaces *)

(** [libp2p::Swarm] over a behaviour [B]: it drives the behaviour and the
    network, and yields the events that the behaviour generates.  It gives access
    to its behaviour.  A poll may panic, as the one of the behaviour does; none
    when it does not come back. *)
Class Swarm (Sw B Ev Addr : Type) := {
  swarm_new : B -> Sw;
  swarm_behaviour : Sw -> B;
  swarm_set_behaviour : B -> Sw -> Sw;
  swarm_listen_on : Sw -> Addr -> Sw * result unit string;
  swarm_listeners : Sw -> list Addr;
  swarm_poll_next : Sw -> outcome (option (Sw * poll (option Ev)));
}.

(** Addresses and peers as text *)
Class ClientText (Addr PeerId : Type) := {
  multiaddr_parse : string -> result Addr string;
  peer_id_to_string : PeerId -> string;
}.

(** What the client does with files, apart from torrent files: it opens a new
    one for writing, and the builder of torrents reads them. *)
Class ClientFiles (Files : Type) := {
  open_new : Files -> PathBuf -> Files * result unit io_error;
  files_tree : Files -> FileTree;
}.

(** A regular file with these bytes *)
Definition file_holds `{ClientFiles Files} (fs : Files) (path : PathBuf) (bytes : list byte) : Prop :=
  let H := files_tree fs in
  let len := Ok (Z.of_nat (length bytes)) in
  let entry := mkDirEntry path (path_file_name path) true in
  path_is_dir path = false /\ path_len path = len /\ open_file path = Ok (bytes, None) /\
  entry_len entry = len /\ forall keep, walk path keep = if keep entry then [Ok entry] else [].

(** A file that was not there before is empty when it is opened, and what is
    written to it is added at its end. *)
Class ClientFilesLaws (Files : Type) `{StdFs Files} `{!ClientFiles Files} := {
  absent : Files -> PathBuf -> Prop;
  open_new_empty s path s' :
    absent s path -> open_new s path = (s', Ok tt) -> file_holds s' path [];
  write_all_appends s path bytes more s' :
    file_holds s path bytes -> std_write_all s path more = (s', Ok tt) ->
    file_holds s' path (bytes ++ more);
}.

(** ** Operations *)

Section Client.
Context `{Countable PeerId} {Multiaddr : Type} `{BitVec BV} `{Sha1 Hasher} `{Clock Instant}.
Context `{FileSystem Fs File FsError} `{LruCache TorrentFileId (FileState File) C} `{Profile}.
Context `{!MapOrder PeerId (BitTorrentPeer BV Instant)}.
Context `{!MapOrder Z (Torrent PeerId BV Instant)} `{!SetOrder FileEntry}.
Context `{Bendy DecodingError EncodingError} `{StdFs Files} `{!ClientFiles Files}.
Context `{!PeerIdText PeerId} `{!ClientText Multiaddr PeerId}.
#[local] Abbreviation Bt := (BitTorrent PeerId Multiaddr BV Hasher Instant Fs File C).
#[local] Abbreviation Event := (BitTorrentEvent PeerId Hasher Instant).
Context `{!Swarm Sw Bt Event Multiaddr}.
Implicit Types b : Bt.
Implicit Types sw : Sw.

(** What the client prints: a text and what is shown of an event, the address it
    listens on, or the command that leeches its torrent *)
Inductive client_line :=
| L_Event (text : string) (event : Event)
| L_Listening (addr : Multiaddr)
| L_Command (addr : Multiaddr) (peer_id torrent_file : string).

(** The events of the swarm: what is printed, and what is done about them *)
Definition client_event (event : Event) b : Bt * list client_line :=
  match event with
  | EV_TorrentAddedResult (Ok _) => (b, [L_Event "Added new Seed: " event])
  | EV_TorrentAddedResult (Err _) => (b, [L_Event "Failed to add new seed: " event])
  | EV_HandshakeResult (Ok _) => (b, [L_Event "Handshake ok: " event])
  | EV_HandshakeResult (Err _) => (b, [L_Event "Failed to handshake: " event])
  | EV_InterestResult (Ok (IO_Interested peer)) =>
      (unchoke_peer peer b, [L_Event "interested: " event])
  | EV_InterestResult (Ok (IO_NotInterested _)) => (b, [L_Event "not interested: " event])
  | EV_InterestResult (Err _) => (b, [L_Event "interest error: " event])
  | EV_BitfieldResult (Ok _) => (b, [L_Event "bitfield ok: " event])
  | EV_BitfieldResult (Err _) => (b, [L_Event "bitfield error: " event])
  | EV_ChokeResult (Ok _) => (b, [L_Event "choke ok: " event])
  | EV_ChokeResult (Err _) => (b, [L_Event "choke error: " event])
  | EV_HaveResult (Ok _) => (b, [L_Event "have ok: " event])
  | EV_HaveResult (Err _) => (b, [L_Event "have error: " event])
  | EV_TorrentFinished _ => (b, [L_Event "Torrent finished " event])
  | EV_DiskResult _ => (b, [L_Event "Disk result " event])
  | EV_LeechBlockResult _ | EV_SeedBlockResult _ | EV_KeepAliveResult _ => (b, [])
  end.

(** The loop over the events of the swarm, until it has none: whether the
    address was printed, the swarm, and what is printed *)
Fixpoint client_loop (fuel : nat) (peer_id torrent_file : string) (listening : bool) sw :
    outcome (option (bool * Sw * list client_line)) :=
  match fuel with
  | O => Ret None
  | S fuel =>
      polled ← swarm_poll_next sw;
      match polled with
      | None => Ret None
      | Some (sw, Ready (Some event)) =>
          let '(b, lines) := client_event event (swarm_behaviour sw) in
          rest ← client_loop fuel peer_id torrent_file listening (swarm_set_behaviour b sw);
          Ret ((fun '(listening, sw, lines') => (listening, sw, lines ++ lines')) <$> rest)
      | Some (sw, _) =>
          Ret (Some (
            if listening then (listening, sw, [])
            else
              match swarm_listeners sw with
              | a :: _ => (true, sw, [L_Listening a; L_Command a peer_id torrent_file])
              | [] => (listening, sw, [])
              end))
      end
  end.

(** The client leeches the torrent of this file from this peer. *)
Definition client_leech (now : Instant) (fs : Files) (addr peer_id torrent : string) b :
    outcome Bt :=
  peer_id ← unwrap_result (peer_id_parse peer_id);
  torrent ← unwrap_result (from_torrent_file (EncodingError := EncodingError) fs torrent);
  let info_hash := MetaInfo_sha_hash torrent in
  b ← add_leech now torrent Active b;
  addr ← unwrap_result (multiaddr_parse addr);
  let b := (add_address_torrents peer_id addr [info_hash] b).1 in
  let '(b, r) := handshake_known_peer peer_id info_hash b in
  _ ← unwrap_result r;
  Ret b.

(** The loop that writes the random bytes *)
Fixpoint write_rubbish (fs : Files) (seed : PathBuf) (rubbish : list (list byte)) : outcome Files :=
  match rubbish with
  | [] => Ret fs
  | buf :: rubbish =>
      let '(fs, r) := std_write_all fs seed buf in
      _ ← unwrap_result r;
      write_rubbish fs seed rubbish
  end.

(** The client seeds a new file in its directory, of these random bytes; it also
    has the path of the torrent file that it writes. *)
Definition client_seed (now : Instant) (fs : Files) (tmp_dir : PathBuf) (rubbish : list (list byte))
    b : outcome (Files * PathBuf * Bt) :=
  let seed := path_join tmp_dir "rubbish.txt" in
  let '(fs, r) := open_new fs seed in
  _ ← unwrap_result r;
  fs ← write_rubbish fs seed rubbish;
  built ← tb_build (H := files_tree fs) (EncodingError := EncodingError) (TorrentBuilder_new seed);
  meta_info ← unwrap_result built;
  let torrent := path_join tmp_dir "rubbish.torrent" in
  let '(fs, r) := write_torrent_file (EncodingError := EncodingError) fs meta_info torrent in
  _ ← unwrap_result r;
  b ← add_seed now (TorrentSeed_new seed meta_info) Active b;
  Ret (fs, torrent, b).

(** What [main] does before its loop; [args] are the arguments of the program,
    with its name in front, and [random] is the hash of a client that has none. *)
Definition client_start (now : Instant) (random : ShaHash) (local_peer_id : PeerId) (native_fs : Fs)
    (fs : Files) (tmp_dir : PathBuf) (rubbish : list (list byte)) (args : list string) :
    outcome (Files * Sw * string * string) :=
  let peer_id := peer_id_to_string local_peer_id in
  let sw := swarm_new
    (BitTorrent_with_config random local_peer_id native_fs BitTorrentConfig_default) in
  '(fs, torrent_file, b) ←
    (match args !! 1%nat with
     | Some addr =>
         peer ← unwrap (args !! 2%nat);
         torrent ← unwrap (args !! 3%nat);
         b ← client_leech now fs addr peer torrent (swarm_behaviour sw);
         Ret (fs, "", b)
     | None => client_seed now fs tmp_dir rubbish (swarm_behaviour sw)
     end);
  addr ← unwrap_result (multiaddr_parse "/ip4/0.0.0.0/tcp/0");
  let '(sw, r) := swarm_listen_on (swarm_set_behaviour b sw) addr in
  _ ← unwrap_result r;
  Ret (fs, sw, peer_id, torrent_file).
End Client.

(** ** Lemmas *)

Section ClientSeeds.
Context `{Countable PeerId} {Multiaddr : Type} `{BitVec BV} `{Sha1Laws Hasher} `{Clock Instant}.
Context `{FileSystem Fs File FsError} `{LruCache TorrentFileId (FileState File) C} `{Profile}.
Context `{!MapOrder PeerId (BitTorrentPeer BV Instant)}.
Context `{!MapOrder Z (Torrent PeerId BV Instant)} `{!SetOrder FileEntry}.
Context `{BendyLaws DecodingError EncodingError} `{StdFsLaws Files} `{!ClientFiles Files}.
Context `{!ClientFilesLaws Files}.
#[local] Abbreviation Bt := (BitTorrent PeerId Multiaddr BV Hasher Instant Fs File C).
Implicit Types b : Bt.

Lemma write_rubbish_holds fs seed bytes rubbish fs' :
  file_holds fs seed bytes -> write_rubbish fs seed rubbish = Ret fs' ->
  file_holds fs' seed (bytes ++ concat rubbish).
Proof.
  revert fs bytes. induction rubbish as [|buf rubbish IH]; intros fs bytes Hf; simpl.
  - intros [= <-]. by rewrite app_nil_r.
  - destruct (std_write_all fs seed buf) as [fs1 [[]|e]] eqn:Hw; simpl; [|done]. intros Hr.
    rewrite app_assoc. eapply IH; [|exact Hr]. by eapply write_all_appends.
Qed.

(** What the builder is told of a regular file *)
Lemma file_readable fs path bytes (b : TorrentBuilder) (Hf : file_holds fs path bytes) :
  tb_content_root b = path -> is_u64 (Z.of_nat (length bytes)) ->
  readable (H := files_tree fs) b path bytes /\
  (is_hidden (mkDirEntry path (path_file_name path) true) = false ->
   compute_piece_length (H := files_tree fs) b = Ret (Ok (piece_length_for (Z.of_nat (length bytes))))).
Proof.
  intros <- Hu. destruct Hf as (_ & Hl & Ho & He & Hw). split.
  - split_and!; try done. eexists. unfold file_info_paths. by rewrite strip_components_self.
  - intros Hh. unfold compute_piece_length. rewrite Hw. unfold keep_entry. rewrite Hh.
    cbn [negb andb de_is_file sum_entries]. rewrite try_bind_ok, He, try_bind_ok.
    by rewrite Z.add_0_l, checked_in_range, bind_ret, try_bind_ok by done.
Qed.

(** The torrent that the client seeds, and that is read from the file it writes *)
Lemma client_seed_built now fs tmp rubbish b fs' torrent b' :
  let seed := path_join tmp "rubbish.txt" in
  let bytes := concat rubbish in
  let P := piece_length_for (Z.of_nat (length bytes)) in
  absent fs seed -> is_u64 (Z.of_nat (length bytes)) -> 0 < P -> is_u64 P ->
  client_seed (EncodingError := EncodingError) now fs tmp rubbish b = Ret (fs', torrent, b') ->
  exists m : MetaInfo Hasher,
    content (info m) = Single (Z.of_nat (length bytes)) /\
    hash <$> pieces (info m) = sha1 <$> chunks (Z.to_nat P) bytes /\ piece_length (info m) = P /\
    name (info m) = "rubbish.txt" /\ ShaHash_wf (MetaInfo_sha_hash m) /\
    from_torrent_file (EncodingError := EncodingError) fs' torrent = Ok m /\
    add_seed now (TorrentSeed_new seed m) Active b = Ret b'.
Proof.
  intros seed bytes P Habs Hu HP HPu Hseed. unfold client_seed in Hseed. fold seed in Hseed.
  assert (path_file_name seed = Some "rubbish.txt") as Hname
    by (apply path_file_name_join; [by apply (bool_decide_eq_true_1 (_ ∉ _))|done..]).
  destruct (open_new fs seed) as [fs1 [[]|e]] eqn:Ho; simpl in Hseed; [|done].
  pose proof (open_new_empty _ _ _ Habs Ho) as Hf. inv_bind Hseed. rename a into fs2.
  apply (write_rubbish_holds _ _ _ _ _ Hf) in Ha. simpl in Ha. fold bytes in Ha.
  destruct (file_readable fs2 seed bytes (TorrentBuilder_new seed) Ha) as (Hr & Hc); [done..|].
  destruct (built_single (H := files_tree fs2) (Hasher := Hasher) (EncodingError := EncodingError)
    (TorrentBuilder_new seed) bytes P "rubbish.txt")
    as (m & Hb & Hct & Hp & Hpl & Hn & Hh & Hback); try done.
  - apply Ha.
  - apply Hc. unfold is_hidden. simpl. by rewrite Hname.
  - rewrite Hb in Hseed. simpl in Hseed.
    destruct (write_torrent_file fs2 m (path_join tmp "rubbish.torrent")) as [fs3 [data|e]] eqn:Hw;
      simpl in Hseed; [|done].
    inv_bind Hseed. injection Hseed as <- <- <-. exists m. split_and!; try done. by eapply Hback.
Qed.
End ClientSeeds.
