(* ===== verification/Network.v ===== *)
(** * Two clients and what is between them

    Two clients as in src/examples/bittorrent.rs, each a behaviour
    (src/src/behavior.rs) with its pool and its disk manager; the handlers of the
    connection between them (src/src/handler.rs), which turn actions into
    messages and messages into events; and the codec (src/src/proto/codec.rs).
    Connect and Exchange prove what comes of it. *)

From S2P Require Import Prelude Crates DiskFs Util Message Codec MetaInfo Block Peer DiskError.
From S2P Require Import PieceBuffer PieceHandler Events Torrent Pool DiskFile BlockIO.
From S2P Require Import DiskManager Handler Behavior Announce Client.
Local Open Scope Z_scope.

(** ** Specification *)

(** A step of the exchange: a panic, no result, or a result *)
Definition obind {A B} (m : outcome (option A)) (f : A -> outcome (option B)) :
    outcome (option B) :=
  o ← m; match o with Some x => f x | None => Ret None end.
Local Notation "x ⇇ m ; f" := (obind m (fun x => f))
  (at level 20, m at level 100, f at level 200, right associativity).
Local Notation "' p ⇇ m ; f" := (obind m (fun 'p => f))
  (at level 20, p pattern, m at level 100, f at level 200, right associativity).

Section NetworkSpec.
Context `{Countable PeerId} {Multiaddr : Type} `{BitVec BV} `{Sha1 Hasher} `{Clock Instant}.
Context `{FileSystem Fs File FsError} `{LruCache TorrentFileId (FileState File) C} `{Profile}.
Context `{!MapOrder PeerId (BitTorrentPeer BV Instant)}.
Context `{!MapOrder Z (Torrent PeerId BV Instant)} `{!SetOrder FileEntry} `{ByteOrder}.
Context `{MessageStream Strm (PeerMessage BV)}.
#[local] Abbreviation Bt := (BitTorrent PeerId Multiaddr BV Hasher Instant Fs File C).
#[local] Abbreviation Action := (NetworkBehaviourAction PeerId BV Hasher Instant).
Implicit Types l s b : Bt.

(** A message that is written by one client and read by the other *)
Definition on_wire (m : PeerMessage BV) : outcome (option (PeerMessage BV)) :=
  bytes ← encode m [];
  '(_, r) ← decode bytes;
  Ret (match r with Ok m => m | Err _ => None end).

(** The two clients, the time, the random choices, a substream of a connection
    and the id the handler of the seeder gives to it when a message opens it *)
Context (UpgrErr : Type) (leecher seeder : PeerId) (now : Instant).
Context (rnd : nat -> nat -> list nat -> list nat) (clock : nat -> nat -> Instant).
Context (strm : Strm) (request_id : PeerMessage BV -> BitTorrentRequestId).
#[local] Abbreviation Handler := (BitTorrentHandler Strm BV TorrentId Instant UpgrErr).

(** The message the handler of a connection sends for an action, and what it
    knows the answer by; the substreams of other messages play no part. *)
Definition sent (ev : BitTorrentHandlerIn BV TorrentId Instant) :
    option (PeerMessage BV * option TorrentId) :=
  match substreams (inject_event ev (handler_seed_and_leech : Handler)) with
  | [OutPendingOpen m user_data] => Some (m, user_data)
  | _ => None
  end.

(** The message with which the handler answers this request *)
Definition answered (id : BitTorrentRequestId) (ev : BitTorrentHandlerIn BV TorrentId Instant) :
    option (PeerMessage BV) :=
  match substreams (inject_event ev
          (push_substream (InWaitingUser id strm) (handler_seed_and_leech : Handler))) with
  | [InPendingSend _ _ m] => Some m
  | _ => None
  end.

Definition inject (p : PeerId) (ev : BitTorrentHandlerEvent BV TorrentId Instant UpgrErr) b :
    outcome (option Bt) :=
  b ← inject_node_event now now p ev b; Ret (Some b).

(** A message of [p] that opens a substream arrives. *)
Definition hears (p : PeerId) (m : PeerMessage BV) b : outcome (option Bt) :=
  let id := request_id m in
  m ⇇ on_wire m;
  ev ← process_btt_in now m id;
  inject p ev b.

(** The answer of [p] to a request of this torrent arrives. *)
Definition hears_answer (p : PeerId) (id : TorrentId) (m : PeerMessage BV) b : outcome (option Bt) :=
  m ⇇ on_wire m;
  ev ← process_btt_out m id;
  inject p ev b.

(** Calls of [poll] until there is nothing to do: what the client does.  It
    handles its events as the example does. *)
Fixpoint drain (fuel : nat) b : outcome (option (list Action * Bt)) :=
  match fuel with
  | O => Ret None
  | S fuel =>
      '(b, p) ⇇ bt_poll 2 2 2 rnd clock now b;
      match p with
      | Pending => Ret (Some ([], b))
      | Ready a =>
          let b := match a with GenerateEvent ev => (client_event ev b).1 | _ => b end in
          '(acts, b) ⇇ drain fuel b; Ret (Some (a :: acts, b))
      end
  end.

Definition says_to (p : PeerId) (a : Action) : bool :=
  match a with SendEvent q _ => bool_decide (q = p) | _ => false end.

(** What the seeder says of its own accord is carried to the leecher. *)
Fixpoint carry_back (acts : list Action) l : outcome (option Bt) :=
  match acts with
  | [] => Ret (Some l)
  | SendEvent p ev :: acts =>
      if decide (p = leecher) then
        match sent ev with
        | Some (m, None) => l ⇇ hears seeder m l; carry_back acts l
        | _ => Ret None
        end
      else carry_back acts l
  | _ :: acts => carry_back acts l
  end.

(** A message of the leecher is carried to the seeder, and what the seeder says
    back: its answer, when it is a request. *)
Definition carry (a : Action) l s : outcome (option (Bt * Bt)) :=
  match a with
  | SendEvent p ev =>
      if decide (p = seeder) then
        match sent ev with
        | Some (m, user_data) =>
            s ⇇ hears leecher m s;
            '(acts, s) ⇇ drain 3 s;
            match user_data, acts with
            | Some id, [SendEvent q ans] =>
                if decide (q = leecher) then
                  match answered (request_id m) ans with
                  | Some m => l ⇇ hears_answer seeder id m l; Ret (Some (l, s))
                  | None => Ret None
                  end
                else Ret None
            | Some _, _ => Ret None
            | None, acts => l ⇇ carry_back acts l; Ret (Some (l, s))
            end
        | None => Ret None
        end
      else Ret (Some (l, s))
  | _ => Ret (Some (l, s))
  end.

Fixpoint carry_all (acts : list Action) l s : outcome (option (Bt * Bt)) :=
  match acts with
  | [] => Ret (Some (l, s))
  | a :: acts => '(l, s) ⇇ carry a l s; carry_all acts l s
  end.

(** Rounds in which the messages of the leecher are carried, and it is polled
    until it waits again; they end when it says nothing more.  The result is
    all the leecher did, and the two clients. *)
Fixpoint exchange (rounds : nat) (acts : list Action) l s :
    outcome (option (list Action * Bt * Bt)) :=
  match rounds with
  | O => Ret None
  | S rounds =>
      '(l, s) ⇇ carry_all acts l s;
      '(acts, l) ⇇ drain 4 l;
      if existsb (says_to seeder) acts then
        '(rest, l, s) ⇇ exchange rounds acts l s; Ret (Some (acts ++ rest, l, s))
      else Ret (Some (acts, l, s))
  end.

End NetworkSpec.

(** ** Lemmas *)

Lemma obind_some {A B} (x : A) (f : A -> outcome (option B)) : obind (Ret (Some x)) f = f x.
Proof. done. Qed.

Lemma obind_inv {A B} m (f : A -> outcome (option B)) y :
  obind m f = Ret (Some y) -> exists x, m = Ret (Some x) /\ f x = Ret (Some y).
Proof. destruct m as [[x|]|]; [by exists x|done..]. Qed.

(** *** Handlers and the wire *)

Section Wire.
Context `{BitVecLaws BV} `{ByteOrderLaws} `{Profile} `{MessageStream Strm (PeerMessage BV)}.
Context {Instant UpgrErr : Type}.

Lemma on_wire_same (m : PeerMessage BV) :
  PeerMessage_wf m -> PeerMessage_fits m -> ~ bitfield_collides m -> on_wire m = Ret (Some m).
Proof.
  intros Hwf Hfit Hcol. destruct (as_bytes_total m Hfit) as [bytes Hb].
  unfold on_wire, encode. rewrite Hb, !bind_ret. simpl.
  by rewrite (decode_as_bytes m bytes Hwf Hfit Hcol Hb), bind_ret.
Qed.

(** The messages of the behaviour *)
Lemma sent_handshake hs id :
  sent (Strm := Strm) (Instant := Instant) UpgrErr (HI_HandshakeReq hs id) = Some (PM_Handshake hs, Some id).
Proof. done. Qed.
Lemma sent_bitfield f id :
  sent (Strm := Strm) (Instant := Instant) UpgrErr (HI_BitfieldReq f id) = Some (PM_Bitfield f, Some id).
Proof. done. Qed.
Lemma sent_request rq id :
  sent (Strm := Strm) (Instant := Instant) UpgrErr (HI_GetPieceReq rq id) = Some (PM_Request rq, Some id).
Proof. done. Qed.
Lemma sent_have i :
  sent (Strm := Strm) (Instant := Instant) UpgrErr (HI_Have i) = Some (PM_Have i, None).
Proof. done. Qed.
Lemma sent_interest :
  sent (Strm := Strm) (Instant := Instant) UpgrErr (HI_Interest Interested) = Some (PM_Interested, None).
Proof. done. Qed.
Lemma sent_unchoke :
  sent (Strm := Strm) (Instant := Instant) UpgrErr (HI_Choke UnChoked) = Some (PM_UnChoke, None).
Proof. done. Qed.

(** The answers of the behaviour to the requests *)
Definition answer_message (ev : BitTorrentHandlerIn BV TorrentId Instant) :
    option (PeerMessage BV * BitTorrentRequestId) :=
  match ev with
  | HI_HandshakeRes hs id => Some (PM_Handshake hs, id)
  | HI_BitfieldRes f id => Some (PM_Bitfield f, id)
  | HI_GetPieceRes pc id => Some (PM_Piece pc, id)
  | _ => None
  end.

Lemma answered_same (strm : Strm) id ev m :
  answer_message ev = Some (m, id) -> answered UpgrErr strm id ev = Some m.
Proof.
  destruct ev; simpl; try done; intros [= <- <-]; unfold answered, inject_event, answer_request,
    waiting_position, position; simpl; by rewrite Z.eqb_refl.
Qed.
End Wire.

(** *** Calls of [poll] *)

(** What the example does nothing about *)
Definition inert {PeerId BV Hasher Instant} (a : NetworkBehaviourAction PeerId BV Hasher Instant) :
    Prop :=
  match a with GenerateEvent (EV_InterestResult (Ok (IO_Interested _))) => False | _ => True end.

Section Polls.
Context `{Countable PeerId} {Multiaddr : Type} `{BitVec BV} `{Sha1 Hasher} `{Clock Instant}.
Context `{FileSystem Fs File FsError} `{LruCache TorrentFileId (FileState File) C} `{Profile}.
Context `{!MapOrder PeerId (BitTorrentPeer BV Instant)}.
Context `{!MapOrder Z (Torrent PeerId BV Instant)} `{!SetOrder FileEntry}.
#[local] Abbreviation Bt := (BitTorrent PeerId Multiaddr BV Hasher Instant Fs File C).
#[local] Abbreviation Action := (NetworkBehaviourAction PeerId BV Hasher Instant).
Implicit Types b : Bt.
Context (now : Instant).
Context (rnd : nat -> nat -> list nat -> list nat) (clock : nat -> nat -> Instant).
#[local] Abbreviation drain := (drain now rnd clock).

Lemma drain_step fuel b b' a :
  bt_poll 2 2 2 rnd clock now b = Ret (Some (b', Ready a)) ->
  drain (S fuel) b = obind
    (drain fuel (match a with GenerateEvent ev => (client_event ev b').1 | _ => b' end))
    (fun '(acts, b) => Ret (Some (a :: acts, b))).
Proof. intros Hp. cbn [Network.drain]. by rewrite Hp, obind_some. Qed.

Lemma drain_more fuel b b' a :
  inert a -> bt_poll 2 2 2 rnd clock now b = Ret (Some (b', Ready a)) ->
  drain (S fuel) b = obind (drain fuel b') (fun '(acts, b) => Ret (Some (a :: acts, b))).
Proof.
  intros Ha Hp. rewrite (drain_step _ _ _ _ Hp). destruct a as [ev|p|p ev]; [|done..].
  assert ((client_event ev b').1 = b') as ->; [|done].
  by destruct ev as [[]|[]|[]|[]|[]|[]|[]|[[]|]|[]|?|[]].
Qed.

Lemma drain_end fuel b b' :
  bt_poll 2 2 2 rnd clock now b = Ret (Some (b', Pending)) -> drain (S fuel) b = Ret (Some ([], b')).
Proof. intros Hp. cbn [Network.drain]. by rewrite Hp, obind_some. Qed.

(** What waits in the queue is what the client does next. *)
Lemma drain_queue fuel b acts b' q :
  bt_queued_events b = q -> Forall inert q ->
  drain fuel (bt_with_queue [] b) = Ret (Some (acts, b')) ->
  drain (length q + fuel) b = Ret (Some (q ++ acts, b')).
Proof.
  intros Hq Hin. symmetry in Hq. revert b Hq.
  induction Hin as [|a q Ha Hin IH]; intros b Hq Hd.
  - replace (bt_with_queue [] b) with b in Hd; [done|]. destruct b. simpl in *. by subst.
  - cbn [length Nat.add]. rewrite (drain_more _ b (bt_with_queue q b) a Ha).
    + rewrite (IH (bt_with_queue q b)); [by rewrite obind_some|done|done].
    + cbn [bt_poll]. by rewrite <- Hq.
Qed.

Lemma bt_poll_acts b b' a :
  bt_queued_events b = [] ->
  pool_loop 2 (rnd 1%nat) (clock 1%nat) now b = Ret (Some (b', Some a)) ->
  bt_poll 2 2 2 rnd clock now b = Ret (Some (b', Ready a)).
Proof. intros Hq Hp. cbn [bt_poll]. by rewrite Hq, Hp, bind_ret. Qed.

(** A client that has its torrent is quiet. *)
Lemma drain_complete fuel id t b :
  bt_quiet id t now b -> complete t ->
  active_blocks (disk_manager b) = [] /\ queued_events (disk_manager b) = [] ->
  drain (S fuel) b = Ret (Some ([], b)).
Proof.
  intros [Hq Ht Hid Hto] [Hb Hf] Hidle. apply drain_end, bt_poll_pending; [done| |done].
  cbn [pool_loop]. rewrite (pool_poll_seed _ _ now (bt_torrents b) id t), bind_ret by done.
  do 3 f_equal. by destruct b.
Qed.
End Polls.

(** *** Peers of the only torrent *)

Section OneTorrent.
Context `{Countable PeerId} `{BitVec BV} `{Clock Instant} `{Profile}.
Context `{!MapOrder PeerId (BitTorrentPeer BV Instant)}.
Context `{!MapOrder Z (Torrent PeerId BV Instant)}.
Implicit Types t : Torrent PeerId BV Instant.
Implicit Types h : TorrentPieceHandler PeerId BV Instant.

Lemma visit_single {A} (f : Torrent PeerId BV Instant -> Torrent PeerId BV Instant * option A)
    (s : TorrentPool PeerId BV Instant) id t :
  torrents s = {[id := t]} ->
  visit_torrents f s = (with_torrents {[id := (f t).1]} s, (f t).2).
Proof.
  intros Ht. unfold visit_torrents. rewrite Ht, map_iter_singleton. cbn [visit].
  destruct (f t) as [t' [r|]]; simpl; by rewrite insert_singleton_eq.
Qed.

(** Nobody is timed out. *)
Definition in_time (now : Instant) (peer : BitTorrentPeer BV Instant) : Prop :=
  is_client_timeout peer now = false /\ is_remote_timeout peer now = false.

Lemma first_timeout_None now l :
  first_timeout now l = None <-> Forall (fun e : PeerId * BitTorrentPeer BV Instant => in_time now e.2) l.
Proof.
  induction l as [|[p peer] l IH]; simpl; [by split; [constructor|]|].
  rewrite Forall_cons, <- IH. unfold in_time. simpl.
  destruct (is_client_timeout _ _); [split; [done|by intros [[] _]]|].
  destruct (is_remote_timeout _ _); [split; [done|by intros [[] _]]|].
  split; [by split|by intros [_ ?]].
Qed.

Lemma set_peer_in_time now p peer h :
  first_timeout now (map_iter (peers h)) = None -> in_time now peer ->
  first_timeout now (map_iter (peers (set_peer p peer h))) = None.
Proof.
  rewrite !first_timeout_None, !Forall_forall. intros Hall Hp [q r] Hin. simpl.
  apply map_iter_elem in Hin. simpl in Hin.
  apply lookup_insert_Some in Hin as [[_ <-]|[_ Hin]]; [done|].
  apply (Hall (q, r)). by apply map_iter_elem.
Qed.

Lemma peer_in_time now p peer h :
  first_timeout now (map_iter (peers h)) = None -> peers h !! p = Some peer -> in_time now peer.
Proof.
  rewrite first_timeout_None, Forall_forall. intros Hall Hp. apply (Hall (p, peer)).
  by apply map_iter_elem.
Qed.
End OneTorrent.
