(* ===== verification/Exchange.v ===== *)
(** * A download from another client

    What becomes of two clients of Network.v, one of which has a torrent that
    the other one downloads.  The theorem is the purpose of the program: the
    bytes of the one's file end up in the file of the other. *)

From S2P Require Import Prelude Crates DiskFs Util Message Codec MetaInfo Block Peer DiskError.
From S2P Require Import PieceBuffer PieceHandler Download Events Torrent Pool DiskFile BlockIO.
From S2P Require Import DiskManager Store Handler Behavior Announce Network.
Local Open Scope Z_scope.

(** ** Specification *)

Section ExchangeSpec.
Context `{Countable PeerId} {Multiaddr : Type} `{BitVec BV} `{Sha1 Hasher} `{Clock Instant}.
Context `{FileSystem Fs File FsError} `{LruCache TorrentFileId (FileState File) C} `{Profile}.
Context `{!MapOrder PeerId (BitTorrentPeer BV Instant)}.
Context `{!MapOrder Z (Torrent PeerId BV Instant)} `{!SetOrder FileEntry}.
#[local] Abbreviation Bt := (BitTorrent PeerId Multiaddr BV Hasher Instant Fs File C).
Implicit Types l s b : Bt.
Context (leecher seeder : PeerId) (now : Instant).

(** What the buffer knows of the peer: it has not joined, it is idle, or it is
    asked for a block. *)
Inductive asked_peer :=
| AP_Away
| AP_Idle
| AP_Asked (m : BlockMetadata).

(** A buffer of the piece [D] that has one peer at most: [n] blocks are missing,
    apart from the one the peer is asked for. *)
Record buffer_asks (p : PeerId) (D : list byte) (idx id : Z) (n : nat) (asked : asked_peer)
    (buf : PieceBuffer PeerId) : Prop := {
  ba_inv : PieceBuffer_inv buf;
  ba_index : pb_piece_index buf = idx;
  ba_length : pb_piece_length buf = Z.of_nat (length D);
  ba_torrent : pb_torrent_id buf = id;
  ba_received : received_from D buf;
  ba_missing : length (missing_blocks buf) = n;
  ba_asked : match asked with
    | AP_Away => pending_blocks buf = ∅ /\ pb_peers buf = []
    | AP_Idle => pending_blocks buf = ∅ /\ pb_peers buf = [p]
    | AP_Asked m => pending_blocks buf = {[p := m]} /\ pb_peers buf = []
    end;
}.

(** The blocks of a piece, and of the pieces that are missing, without the one
    in progress *)
Definition blocks_of (h : TorrentPieceHandler PeerId BV Instant) (i : nat) : nat :=
  length (piece_blocks (Z.of_nat i) (piece_len h i)).
Definition blocks_left (h : TorrentPieceHandler PeerId BV Instant) : nat :=
  sum_list_with (blocks_of h) (missing_piece_indices h).

(** *** The clients before the exchange *)

(** The bytes of a piece, in the file of a torrent of one file *)
Definition piece_bytes (P : Z) (h : TorrentPieceHandler PeerId BV Instant) (bytes : list byte)
    (i : nat) : list byte :=
  take (Z.to_nat (piece_len h i)) (drop (Z.to_nat (P * Z.of_nat i)) bytes).

(** A client that has the torrent, in a file that is open or can be opened, and
    lets the leecher have these pieces *)
Record can_serve (id : TorrentId) (t : Torrent PeerId BV Instant) (tf : TorrentFile Hasher)
    (e : FileEntry) (bytes : list byte) `{FileContents Fs File} (ps : list nat) s : Prop := {
  cs_quiet : bt_quiet id t now s;
  cs_complete : complete t;
  cs_allowed : forall i, i ∈ ps -> can_seed_piece_to t leecher i = true;
  cs_pending : pending_seed_blocks (piece_handler t) = [];
  cs_disk : disk_ready id tf (disk_manager s);
  cs_single : single_file id tf e;
  cs_capacity : 0 < lru_capacity (file_cache (disk_manager s));
  cs_file : has_bytes e bytes (disk_manager s);
}.

(** A client that tracks the seeder only.  It has no piece in progress, or the
    piece it started with, of which nothing was asked for yet; [h] is the
    handler without this piece, and [D] are the bytes its metadata promises. *)
Record can_leech (id : TorrentId) (t : Torrent PeerId BV Instant)
    (h : TorrentPieceHandler PeerId BV Instant) (tf : TorrentFile Hasher) (e : FileEntry)
    (D : nat -> list byte) `{FileContents Fs File} σ l : Prop := {
  cl_quiet : bt_quiet id t now l;
  cl_active : Torrent_is_active t = true;
  cl_handler : piece_handler t = h \/ exists i buf,
    piece_handler t = with_piece_buffer (Some buf) h /\ bf_get (th_bitfield h) i = Some false /\
    buffer_asks seeder (D i) (Z.of_nat i) id (blocks_of h i) AP_Idle buf;
  cl_ready : downloadable D h;
  cl_peers : exists peer, peers h = {[seeder := peer]};
  cl_id : th_id h = id;
  cl_single : single_file id tf e;
  cl_store : store_rel id tf e σ (disk_manager l);
}.
End ExchangeSpec.

(** ** Lemmas *)

Lemma piece_blocks_bounds idx len m :
  m ∈ piece_blocks idx len ->
  bm_piece_index m = idx /\ 0 <= bm_block_offset m /\ 0 < bm_block_length m <= BLOCK_SIZE /\
  bm_block_offset m + bm_block_length m <= len.
Proof.
  intros [k Hk]%list_elem_of_lookup. apply piece_blocks_lookup in Hk as [-> Hk].
  unfold piece_block_at, BLOCK_SIZE in *. simpl. split_and!; div_lia.
Qed.

(** *** The buffer of a peer *)

Section OnePeer.
Context `{Countable PeerId}.
Implicit Types b : PieceBuffer PeerId.

(** The next block is asked for. *)
Lemma buffer_asks_next p D idx id n b :
  buffer_asks p D idx id (S n) AP_Idle b ->
  exists b' m, PieceBuffer_next b = (b', Some (mkNextBlock id m p)) /\
    buffer_asks p D idx id n (AP_Asked m) b' /\ is_full_piece b = false.
Proof.
  intros [Hi Hidx Hlen Hid Hrec Hn [Hpend Hp]].
  pose proof (next_inv b Hi) as Hi'. destruct (PieceBuffer_next b) as [b' [[id' m p']|]] eqn:En.
  2: { apply next_None in En as [_ [He|He]]; [by rewrite He in Hp|by rewrite He in Hn]. }
  apply next_Some in En as (ps & ms & Hps & Hms & Ht & ->). simpl in *.
  rewrite Hp in Hps. apply (app_inj_2 [] ps [p]) in Hps as [<- [= <-]]; [|done].
  eexists _, m. split; [by rewrite <- Hid, <- Ht|]. split.
  - split; try done; simpl.
    + rewrite Hms, length_app in Hn. simpl in Hn. lia.
    + by rewrite Hpend.
  - apply not_true_iff_false. rewrite is_full_piece_iff by done. intros [He _]. by rewrite He in Hn.
Qed.

(** The peer joins. *)
Lemma buffer_asks_join p D idx id n b :
  buffer_asks p D idx id n AP_Away b ->
  buffer_asks p D idx id n AP_Idle (PieceBuffer_push_peer b p).
Proof.
  intros [Hi Hidx Hlen Hid Hrec Hn [Hpend Hp]]. split; try done; simpl.
  - apply push_peer_inv; [done|]. unfold peer_known. rewrite Hp, Hpend, lookup_empty.
    intros [Hin|[]]; [by apply not_elem_of_nil in Hin|done].
  - by rewrite Hp.
Qed.

(** While the peer is asked for a block, nothing more is. *)
Lemma buffer_asks_waits p D idx id n m b :
  buffer_asks p D idx id n (AP_Asked m) b ->
  PieceBuffer_next b = (b, None) /\ is_full_piece b = false /\ pending_blocks b !! p = Some m /\
  m ∈ piece_blocks idx (Z.of_nat (length D)).
Proof.
  intros [Hi Hidx Hlen Hid Hrec Hn [Hpend Hp]]. split_and!.
  - unfold PieceBuffer_next. by rewrite Hp.
  - apply not_true_iff_false. rewrite is_full_piece_iff by done. intros [_ He].
    rewrite He in Hpend. by apply symmetry, map_non_empty_singleton in Hpend.
  - by rewrite Hpend, lookup_singleton_eq.
  - rewrite <- Hidx, <- Hlen. apply inv_in_piece; [done|]. right. left.
    apply pending_list_elem. exists p. by rewrite Hpend, lookup_singleton_eq.
Qed.

(** The block arrives. *)
Lemma buffer_asks_add p D idx id n m b :
  buffer_asks p D idx id n (AP_Asked m) b ->
  buffer_asks p D idx id n AP_Idle (PieceBuffer_add_block b p (block_of D m)).1.
Proof.
  intros Hb. pose proof (add_block_inv b p (block_of D m) (ba_inv _ _ _ _ _ _ _ Hb)) as Hi'.
  pose proof (buffer_asks_waits _ _ _ _ _ _ _ Hb) as (_ & _ & Hpm & _).
  destruct Hb as [Hi Hidx Hlen Hid Hrec Hn [Hpend Hp]]. unfold PieceBuffer_add_block in *.
  rewrite Hpm, bool_decide_true in * by done. split; try done; simpl.
  - by apply btree_insert_Forall.
  - by rewrite Hpend, delete_singleton_eq, Hp.
Qed.

(** All blocks arrived. *)
Lemma buffer_asks_full {Hasher} p D idx id b :
  buffer_asks p D idx id 0 AP_Idle b ->
  is_full_piece b = true /\
  try_finalize_piece (Hasher := Hasher) b =
  Ok (Block_new (BlockMetadata_new idx 0 (Z.of_nat (length D))) D).
Proof.
  intros [Hi Hidx Hlen Hid Hrec Hn [Hpend Hp]].
  assert (is_full_piece b = true) as Hf.
  { apply is_full_piece_iff; [done|]. by apply nil_length_inv in Hn. }
  split; [done|]. by rewrite (finalize_full b D Hi Hf Hrec), Hidx, Hlen.
Qed.
End OnePeer.

(** *** The pieces that are left *)

Section Left.
Context `{Countable PeerId} `{BitVecLaws BV} `{Clock Instant} `{Profile}.
Context `{!MapOrder PeerId (BitTorrentPeer BV Instant)}.
Implicit Types h : TorrentPieceHandler PeerId BV Instant.

Lemma blocks_of_done h i j :
  (i < bf_len (th_bitfield h))%nat -> blocks_of (piece_done h i) j = blocks_of h j.
Proof. intros Hi. unfold blocks_of. by rewrite piece_done_len. Qed.

Lemma sum_blocks_of_done h i l :
  (i < bf_len (th_bitfield h))%nat ->
  sum_list_with (blocks_of (piece_done h i)) l = sum_list_with (blocks_of h) l.
Proof.
  intros Hi. induction l as [|j l IH]; simpl; [done|]. by rewrite IH, blocks_of_done.
Qed.

Lemma blocks_left_done h i :
  piece_buffer h = None -> bf_get (th_bitfield h) i = Some false ->
  blocks_left h = (blocks_of h i + blocks_left (piece_done h i))%nat.
Proof.
  intros Hb Hget. unfold blocks_left. rewrite (missing_piece_done h i Hb Hget). simpl.
  by rewrite sum_blocks_of_done by by apply bf_get_Some in Hget.
Qed.

Lemma blocks_of_pos h i :
  0 < th_piece_length h /\ 0 < th_last_piece_length h -> blocks_of h i <> 0%nat.
Proof.
  intros [Hp Hl] Hk.
  assert (0 < piece_len h i) as Hlen by (unfold piece_len; by case_match).
  pose proof (length_piece_blocks (Z.of_nat i) (piece_len h i) (Z.lt_le_incl _ _ Hlen)) as Hlp.
  unfold blocks_of in Hk. rewrite Hk in Hlp. unfold BLOCK_SIZE in Hlp. cbn [Z.of_nat] in Hlp.
  revert Hlp Hlen. generalize (piece_len h i). intros z Hz Hzp. div_lia.
Qed.

(** A piece that is set twice *)
Lemma blocks_left_again h i :
  piece_buffer h = None -> bf_get (th_bitfield h) i = Some true ->
  blocks_left (piece_done h i) = blocks_left h.
Proof.
  intros Hb Hget. pose proof (bf_get_Some _ _ _ Hget) as Hlt. unfold blocks_left.
  rewrite sum_blocks_of_done by done.
  assert (missing_piece_indices (piece_done h i) ≡ₚ missing_piece_indices h) as ->; [|done].
  apply NoDup_Permutation; [apply missing_from_NoDup..|]. intros j.
  rewrite !missing_piece_indices_elem, Hb. simpl. rewrite bf_get_set by done.
  destruct (decide (i = j)) as [->|?]; [|done]. rewrite Hget. split; intros [[=] _].
Qed.

Lemma piece_done_get h i j :
  (i < bf_len (th_bitfield h))%nat ->
  bf_get (th_bitfield (piece_done h i)) j = if decide (i = j) then Some true else bf_get (th_bitfield h) j.
Proof. intros Hi. simpl. by rewrite bf_get_set. Qed.
End Left.

(** *** The seeder *)

Section Clients.
Context `{Countable PeerId} {Multiaddr : Type} `{BitVecLaws BV} `{Sha1 Hasher} `{Clock Instant}.
Context `{FileSystemLaws Fs File FsError} `{LruCacheLaws TorrentFileId (FileState File) C}.
Context `{Profile} `{!MapOrder PeerId (BitTorrentPeer BV Instant)}.
Context `{!MapOrder Z (Torrent PeerId BV Instant)} `{!SetOrder FileEntry} `{ByteOrderLaws}.
Context `{MessageStream Strm (PeerMessage BV)}.
#[local] Abbreviation Bt := (BitTorrent PeerId Multiaddr BV Hasher Instant Fs File C).
#[local] Abbreviation Action := (NetworkBehaviourAction PeerId BV Hasher Instant).
Implicit Types l s b : Bt.
Context (UpgrErr : Type) (leecher seeder : PeerId) (now : Instant).
Context (rnd : nat -> nat -> list nat -> list nat) (clock : nat -> nat -> Instant).
Context (rnd_perm : forall i j (ps : list nat), rnd i j ps ≡ₚ ps).
Context (strm : Strm) (request_id : PeerMessage BV -> BitTorrentRequestId).
#[local] Abbreviation hears := (hears UpgrErr now request_id).
#[local] Abbreviation carry := (carry UpgrErr leecher seeder now rnd clock strm request_id).
#[local] Abbreviation drain := (drain now rnd clock).

(** The block of a piece as it goes over the wire *)
Definition wire_block (D : list byte) (m : BlockMetadata) : Piece :=
  {| piece_idx := bm_piece_index m; piece_begin := bm_block_offset m; piece_block := block_slice D m |}.

Lemma wire_block_from D idx m :
  m ∈ piece_blocks idx (Z.of_nat (length D)) -> Block_from_piece (wire_block D m) = block_of D m.
Proof.
  intros (_ & ? & ? & ?)%piece_blocks_bounds. unfold Block_from_piece, wire_block, block_of. simpl.
  f_equal. destruct m. unfold BlockMetadata_new. f_equal. unfold block_slice. simpl in *.
  rewrite length_take, length_drop. lia.
Qed.

(** The bounds of the fields of the requests *)
Definition fields_fit (meta : MetaInfo Hasher) : Prop :=
  piece_length (info meta) <= 2 ^ 32 /\ Z.of_nat (length (pieces (info meta))) <= 2 ^ 32.

Lemma request_of_block (meta : MetaInfo Hasher) size i D m :
  fields_fit meta -> piece_wf meta size i D -> m ∈ piece_blocks i (Z.of_nat (length D)) ->
  let rq := BlockMetadata_into_request m in
  PeerRequest_wf rq /\ BlockMetadata_from_request rq = m /\ req_index rq = bm_piece_index m /\
  req_begin rq = bm_block_offset m.
Proof.
  intros [HP Hn] (Hi & _ & HD & _) (Hidx & Ho & Hl & Hol)%piece_blocks_bounds rq.
  unfold BLOCK_SIZE in Hl.
  assert (is_u32 (bm_piece_index m) /\ is_u32 (bm_block_offset m) /\ is_u32 (bm_block_length m))
    as (Hu1 & Hu2 & Hu3) by (unfold is_u32, in_range; lia).
  subst rq. unfold BlockMetadata_into_request, BlockMetadata_from_request, PeerRequest_wf. simpl.
  rewrite !wrap_small by done. split_and!; try done. by destruct m.
Qed.

Section Serve.
Context (id : TorrentId) (tf : TorrentFile Hasher) (e : FileEntry).
Context (bytes : list byte) (ps : list nat) (D : nat -> list byte).
Hypothesis Hfit : fields_fit (tf_meta_info tf).
Hypothesis Hwf : forall i, i ∈ ps ->
  piece_wf (tf_meta_info tf) (fe_size e) (Z.of_nat i) (D i).
Hypothesis Hbytes : forall i, i ∈ ps -> take (length (D i))
  (drop (Z.to_nat (piece_length (info (tf_meta_info tf)) * Z.of_nat i)) bytes) = D i.
Hypothesis Hprompt : forall n, Z.of_nat n <= piece_length (info (tf_meta_info tf)) ->
  prompt n (fe_path e).

(** The bytes of a block in the file *)
Lemma block_in_bytes i m :
  i ∈ ps -> m ∈ piece_blocks (Z.of_nat i) (Z.of_nat (length (D i))) ->
  let place := piece_length (info (tf_meta_info tf)) * Z.of_nat i + bm_block_offset m in
  take (Z.to_nat (bm_block_length m)) (drop (Z.to_nat place) bytes) = block_slice (D i) m /\
  place + bm_block_length m <= Z.of_nat (length bytes).
Proof.
  intros Hi (_ & Ho & Hl & Hol)%piece_blocks_bounds place.
  pose proof (Hbytes i Hi) as HD. destruct (Hwf i Hi) as (_ & _ & HDl & _).
  set (P := piece_length _) in *. assert (0 <= P * Z.of_nat i) by nia.
  destruct (stored_in_file _ _ _ HD) as [Hin|He]; [|rewrite He in HDl; simpl in HDl; lia].
  split; [|lia]. unfold block_slice. rewrite <- HD.
  rewrite skipn_firstn_comm, take_take, drop_drop, Nat.min_l by lia.
  unfold place. by rewrite Z2Nat.inj_add by lia.
Qed.

(** A block of a piece goes over the wire. *)
Lemma block_on_wire i m :
  i ∈ ps -> m ∈ piece_blocks (Z.of_nat i) (Z.of_nat (length (D i))) ->
  on_wire (BV := BV) (PM_Request (BlockMetadata_into_request m)) =
    Ret (Some (PM_Request (BlockMetadata_into_request m))) /\
  on_wire (BV := BV) (PM_Piece (wire_block (D i) m)) = Ret (Some (PM_Piece (wire_block (D i) m))).
Proof.
  intros Hi Hm.
  destruct (request_of_block _ _ _ _ _ Hfit (Hwf i Hi) Hm) as (Hrwf & _ & Hri & Hrb).
  pose proof Hrwf as (Hu1 & Hu2 & _). rewrite Hri in Hu1. rewrite Hrb in Hu2.
  apply piece_blocks_bounds in Hm as (_ & _ & Hl & _).
  split; apply on_wire_same; try done; [simpl; tauto| |simpl; tauto].
  apply prefix_fits_small. unfold wire_block, block_slice, FRAME_LIMIT, BLOCK_SIZE in *. simpl.
  rewrite length_take. lia.
Qed.

(** A request is answered with the block of the piece, and the seeder is as
    before. *)
Lemma seeder_answers i m t s :
  can_serve leecher now id t tf e bytes ps s -> i ∈ ps ->
  m ∈ piece_blocks (Z.of_nat i) (Z.of_nat (length (D i))) ->
  let rq := PM_Request (BlockMetadata_into_request m) in
  exists s1 s', hears leecher rq s = Ret (Some s1) /\
    drain 3 s1 =
      Ret (Some ([SendEvent leecher (HI_GetPieceRes (wire_block (D i) m) (request_id rq))], s')) /\
    can_serve leecher now id t tf e bytes ps s'.
Proof.
  intros [Hquiet Hc Hall Hpend Hdisk Hsf Hcap Hfile] Hi Hm.
  pose proof (Hwf i Hi) as Hpw.
  destruct (request_of_block _ _ _ _ _ Hfit Hpw Hm) as (Hrwf & Hfrom & Hri & Hrb).
  destruct (block_in_bytes i m Hi Hm) as [Hblk Hend].
  destruct (block_on_wire i m Hi Hm) as [Hwire _].
  pose proof (piece_blocks_bounds _ _ _ Hm) as (Hidx & Ho & Hl & Hol).
  destruct (single_file_block id tf e m (D i) Hsf ltac:(by rewrite Hidx) Hol Ho ltac:(lia))
    as [Hone Hplace].
  set (rq := BlockMetadata_into_request m) in *.
  assert (req_length rq = bm_block_length m) as Hrl by by rewrite <- Hfrom.
  destruct (serve_request (UpgrErr := UpgrErr) s id t leecher rq (request_id (PM_Request rq)) tf e bytes
    now now rnd clock now) as (s1 & s2 & Hinj & Hpoll & Ht2 & Hq2 & Hdisk2 & Hcap2 & Hbytes2);
    rewrite ?Hfrom; try done.
  - rewrite Hidx, Nat2Z.id. by apply Hall.
  - rewrite Hpend. apply not_elem_of_nil.
  - by rewrite Hplace, Hidx.
  - apply Hprompt. destruct Hpw as (_ & _ & ? & _). lia.
  - rewrite Hfrom, Hplace, Hidx, Hri, Hrb, Hrl, Hblk in Hpoll.
    assert (bt_quiet id t now s2) as Hquiet2 by (destruct Hquiet; split; by rewrite ?Ht2).
    exists s1, s2. split_and!.
    + unfold hears. rewrite Hwire, obind_some. cbn [process_btt_in]. rewrite bind_ret.
      unfold inject. by rewrite Hinj, bind_ret.
    + rewrite (drain_more now rnd clock _ _ _ (SendEvent _ _) I Hpoll),
        (drain_complete now rnd clock 1 id t s2 Hquiet2 Hc), obind_some by by destruct Hdisk2.
      unfold wire_block. by rewrite Hidx.
    + split; try done. by rewrite Hcap2.
Qed.

(** The seeder is told of a piece: it only notes which pieces the leecher has. *)
Lemma seeder_notes i t s :
  can_serve leecher now id t tf e bytes ps s -> is_u32 i ->
  exists s1 ev s' t', hears leecher (PM_Have i) s = Ret (Some s1) /\
    drain 3 s1 = Ret (Some ([GenerateEvent ev], s')) /\
    can_serve leecher now id t' tf e bytes ps s'.
Proof.
  intros [Hquiet Hc Hall Hpend Hdisk Hsf Hcap Hfile] Hi.
  pose proof Hquiet as [Hq Ht Hid Hto].
  set (f := fun u : Torrent PeerId BV Instant => Torrent_on_remote_have u leecher (Z.to_nat i)).
  set (s0 := bt_with_pool (with_torrents {[id := (f t).1]} (bt_torrents s)) s).
  assert (exists ev, inert (GenerateEvent ev : Action) /\
    hears leecher (PM_Have i) s = Ret (Some (bt_report ev s0))) as (ev & Hev & Hhears).
  { unfold hears. rewrite on_wire_same by (done || tauto). rewrite obind_some. cbn [process_btt_in].
    rewrite bind_ret. unfold inject. node_event. unfold on_remote_have. fold f.
    rewrite (visit_single f (bt_torrents s) id t Ht). fold s0.
    destruct (f t).2 as [[]|]; rewrite bind_ret; eexists; (split; [|reflexivity]); done. }
  assert (complete (f t).1 /\ torrent_id (f t).1 = id /\
    first_timeout now (map_iter (peers (piece_handler (f t).1))) = None /\
    (forall k, can_seed_piece_to t leecher k = true -> can_seed_piece_to (f t).1 leecher k = true) /\
    pending_seed_blocks (piece_handler (f t).1) = []) as (Hc' & Hid' & Hto' & Hall' & Hpend').
  { unfold f, Torrent_on_remote_have, complete, can_seed_piece_to.
    destruct (get_peer (piece_handler t) leecher) as [peer|] eqn:Hp; [|done].
    pose proof (peer_in_time now leecher peer (piece_handler t) Hto Hp) as Htime.
    assert (in_time now (add_piece peer (Z.to_nat i)).1 /\
      remote_can_leech (add_piece peer (Z.to_nat i)).1 = remote_can_leech peer) as [Htime' Hleech].
    { unfold add_piece. by repeat case_match. }
    destruct (add_piece peer (Z.to_nat i)) as [peer' r]. simpl in *.
    split_and!; try done; [apply Hc..|by apply set_peer_in_time|].
    intros k Hk. unfold get_peer. simpl. rewrite lookup_insert_eq. by rewrite Hleech. }
  assert (bt_quiet id (f t).1 now s0) as Hquiet' by by split.
  exists (bt_report ev s0), ev, s0, (f t).1. split_and!; [done| |].
  - assert (bt_with_queue [] (bt_report ev s0) = s0) as Hback
      by (unfold s0; destruct s; simpl in *; by subst).
    apply (drain_queue now rnd clock 2 (bt_report ev s0) [] s0 [GenerateEvent ev]);
      [simpl; by rewrite Hq|by constructor|].
    rewrite Hback. apply (drain_complete now rnd clock 1 id (f t).1); [done|done|by destruct Hdisk].
  - split; try done. intros k Hk. by apply Hall', Hall.
Qed.
End Serve.

(** *** The leecher *)

Section Leech.
Context (id : TorrentId) (tf : TorrentFile Hasher) (e : FileEntry) (ps : list nat).
Context (D : nat -> list byte).
Hypothesis Hfit : fields_fit (tf_meta_info tf).
Hypothesis Hpieces : forall i, i ∈ ps ->
  piece_wf (tf_meta_info tf) (fe_size e) (Z.of_nat i) (D i) /\
  pieces (info (tf_meta_info tf)) !! i = Some (ShaHash_from_bytes (D i)).
Hypothesis Hprompt : forall n, Z.of_nat n <= piece_length (info (tf_meta_info tf)) ->
  prompt n (fe_path e).
Hypothesis Hsingle : single_file id tf e.
Implicit Types t : Torrent PeerId BV Instant.
Implicit Types h : TorrentPieceHandler PeerId BV Instant.

(** The pieces of the client are stored, apart from those it will have. *)
Definition pieces_stored (f : BitField BV) (σ : gmap Z (list byte)) : Prop :=
  forall i, i ∈ ps -> bf_get f i <> Some false -> σ !! Z.of_nat i = Some (D i).

(** The leecher while the piece [i] is in progress; [h] is its handler without
    this piece. *)
Record leeching σ h i (buf : PieceBuffer PeerId) t l : Prop := {
  lg_quiet : bt_quiet id t now l;
  lg_active : Torrent_is_active t = true;
  lg_handler : piece_handler t = with_piece_buffer (Some buf) h;
  lg_ready : downloadable D h;
  lg_peers : exists peer, peers h = {[seeder := peer]};
  lg_id : th_id h = id;
  lg_missing : forall j, bf_get (th_bitfield h) j = Some false -> j ∈ ps;
  lg_piece : bf_get (th_bitfield h) i = Some false;
  lg_store : store_rel id tf e σ (disk_manager l);
  lg_stored : pieces_stored (th_bitfield h) σ;
}.

(** The leecher waits for a block, and [n] more are to be asked for. *)
Definition waiting (n : nat) (m : BlockMetadata) l : Prop :=
  exists σ h i buf t k,
    leeching σ h i buf t l /\ buffer_asks seeder (D i) (Z.of_nat i) id k (AP_Asked m) buf /\
    n = (k + blocks_left (piece_done h i))%nat.

(** The leecher at the end *)
Definition leeched l : Prop :=
  exists σ t, bt_quiet id t now l /\ complete t /\ bf_all (Torrent_bitfield t) = true /\
    store_rel id tf e σ (disk_manager l) /\ forall i, i ∈ ps -> σ !! Z.of_nat i = Some (D i).

Definition ask_for (m : BlockMetadata) : Action :=
  SendEvent seeder (HI_GetPieceReq (BlockMetadata_into_request m) id).

(** The torrent without the data of its handler *)
Lemma th_quiet t h l :
  bt_quiet id t now l -> peers h = peers (piece_handler t) ->
  bt_quiet id (with_piece_handler h t) now
    (bt_with_pool (with_torrents {[id := with_piece_handler h t]} (bt_torrents l)) l).
Proof. intros [Hq Ht Hid Hto] Hp. split; try done. simpl. by rewrite Hp. Qed.

Lemma quiet_disk t dm l : bt_quiet id t now l -> bt_quiet id t now (bt_with_disk dm l).
Proof. by intros []; split. Qed.

(** The pool after the leecher asked for a block: nothing happens until the
    answer comes. *)
Lemma waits_quiet h i buf t l k m fuel clk rn :
  bt_quiet id t now l -> Torrent_is_active t = true ->
  piece_handler t = with_piece_buffer (Some buf) h ->
  buffer_asks seeder (D i) (Z.of_nat i) id k (AP_Asked m) buf ->
  pool_loop (S fuel) rn clk now l = Ret (Some (l, None)).
Proof.
  intros Hquiet Ha Hh Hb. apply buffer_asks_waits in Hb as (Hnext & Hfull & _).
  apply (pool_loop_quiet fuel rn clk now l id t (TPS_Waiting (torrent_id t))); try done.
  unfold Torrent_poll. rewrite (bq_timeout _ _ _ _ Hquiet). unfold th_poll.
  rewrite Hh. cbn [piece_buffer with_piece_buffer]. rewrite Hfull, Hnext, bind_ret.
  assert (with_piece_handler (with_piece_buffer (Some buf) h) t = t) as Ht
    by (rewrite <- Hh; by destruct t).
  exact (f_equal (fun t' => Ret (t', TPS_Waiting (torrent_id t))) Ht).
Qed.

(** The handler of the torrent asks for a block, and so does the pool. *)
Lemma pool_asks t h buf m l fuel rn clk :
  bt_quiet id t now l -> Torrent_is_active t = true ->
  th_poll (Hasher := Hasher) (rn fuel) (piece_handler t) =
    Ret (with_piece_buffer (Some buf) h, TPH_LeechBlock (Some (mkNextBlock id m seeder))) ->
  pool_loop (S fuel) rn clk now l =
  Ret (Some (bt_with_pool (with_torrents {[id :=
    with_piece_handler (with_piece_buffer (Some buf) h) t]} (bt_torrents l)) l, Some (ask_for m))).
Proof.
  intros Hquiet Ha Hp.
  rewrite (pool_loop_next fuel rn clk now l id t
    (with_piece_handler (with_piece_buffer (Some buf) h) t) (mkNextBlock id m seeder)); try done.
  unfold Torrent_poll. by rewrite (bq_timeout _ _ _ _ Hquiet), Hp, bind_ret.
Qed.

(** A piece is started, and its first block asked for. *)
Lemma piece_starts shuffle h peer :
  (forall ps : list nat, shuffle ps ≡ₚ ps) -> downloadable D h -> peers h = {[seeder := peer]} ->
  th_id h = id -> missing_piece_indices h <> [] ->
  exists i buf m k, bf_get (th_bitfield h) i = Some false /\
    th_poll (Hasher := Hasher) shuffle h =
      Ret (with_piece_buffer (Some buf) h, TPH_LeechBlock (Some (mkNextBlock id m seeder))) /\
    buffer_asks seeder (D i) (Z.of_nat i) id k (AP_Asked m) buf /\ blocks_of h i = S k.
Proof.
  intros Hs Hd Hp Hid Hm.
  destruct (th_poll_starts (Hasher := Hasher) shuffle Hs D h Hd Hm) as (i & Hin & Hpoll & Hinv & Hmb & Hfull).
  set (b := PieceBuffer_new _ _ _ _) in *. apply missing_piece_indices_elem in Hin as [Hget _].
  assert (Z.of_nat (length (D i)) = piece_len h i) as HD
    by by eapply (dl_data _ _ Hd), bf_get_Some.
  destruct (blocks_of h i) as [|k] eqn:Hk.
  { unfold blocks_of in Hk. rewrite <- Hmb in Hk. apply nil_length_inv in Hk.
    exfalso. apply not_true_iff_false in Hfull. apply Hfull, is_full_piece_iff; [done|]. by split. }
  assert (buffer_asks seeder (D i) (Z.of_nat i) id (S k) AP_Idle b) as Hb.
  { split; try done; simpl; [by constructor| |].
    - rewrite <- Hk. unfold blocks_of. by rewrite <- Hmb.
    - by rewrite Hp, map_iter_singleton. }
  destruct (buffer_asks_next _ _ _ _ _ _ Hb) as (buf & m & Hnext & Hbuf & _).
  exists i, buf, m, k. by rewrite Hpoll, Hnext.
Qed.

(** A piece that is complete *)
Definition piece_of (i : nat) : Block :=
  Block_new (BlockMetadata_new (Z.of_nat i) 0 (Z.of_nat (length (D i)))) (D i).

Lemma piece_complete σ h i buf t l shuffle now' :
  leeching σ h i buf t l -> buffer_asks seeder (D i) (Z.of_nat i) id 0 AP_Idle buf ->
  Torrent_poll (Hasher := Hasher) shuffle now' now t =
  Ret (with_piece_handler (piece_done h i) t, TPS_PieceReady (Ok (id, piece_of i))).
Proof.
  intros [Hquiet _ Hh _ _ _ _ Hget _ _] Hb.
  apply (buffer_asks_full (Hasher := Hasher)) in Hb as [Hfull Hfin].
  unfold Torrent_poll. rewrite (bq_timeout _ _ _ _ Hquiet). unfold th_poll.
  rewrite Hh. cbn [piece_buffer with_piece_buffer]. rewrite Hfull, Hfin. simpl.
  unfold set_piece. rewrite Nat2Z.id. simpl.
  rewrite (proj2 (Nat.ltb_lt _ _)) by by eapply bf_get_Some.
  by rewrite bind_ret, (bq_id _ _ _ _ Hquiet).
Qed.

(** The request to write the piece *)
Lemma piece_written σ i dm :
  i ∈ ps -> store_rel id tf e σ dm ->
  exists dm', DiskManager_poll 2 (dm_write_block id (piece_of i) dm) =
      Ret (Some (dm', Ready (Ok (DO_PieceWritten id (piece_of i))))) /\
    store_rel id tf e (<[Z.of_nat i := D i]> σ) dm'.
Proof.
  intros Hi Hr. destruct (Hpieces i Hi) as [Hwf Hhash].
  apply (store_write id tf e σ dm (piece_of i)); try done.
  - unfold TorrentFile_is_good_piece. simpl. rewrite Nat2Z.id, Hhash. by apply bool_decide_true.
  - apply Hprompt. destruct Hwf as (_ & _ & ? & _). simpl. lia.
Qed.

(** *** The polls of the leecher *)

(** A round that asks for one more block of the piece in progress *)
Lemma round_next σ h i buf t l k fuel :
  leeching σ h i buf t l -> buffer_asks seeder (D i) (Z.of_nat i) id (S k) AP_Idle buf ->
  exists m l', drain (S (S fuel)) l = Ret (Some ([ask_for m], l')) /\
    waiting (k + blocks_left (piece_done h i)) m l'.
Proof.
  intros Hl Hb. pose proof Hl as [Hquiet Ha Hh Hd Hp Hid Hms Hget Hst Hstored].
  destruct (buffer_asks_next _ _ _ _ _ _ Hb) as (buf' & m & Hnext & Hb' & Hfull).
  set (t' := with_piece_handler (with_piece_buffer (Some buf') h) t).
  set (l' := bt_with_pool (with_torrents {[id := t']} (bt_torrents l)) l).
  assert (bt_quiet id t' now l') as Hquiet' by (apply th_quiet; [done|by rewrite Hh]).
  exists m, l'. split; [|by exists σ, h, i, buf', t', k].
  rewrite (drain_more now rnd clock _ l l' (ask_for m) I).
  - rewrite (drain_end now rnd clock _ l' l'), obind_some; [done|]. apply bt_poll_pending; [apply Hquiet'| |].
    + by apply (waits_quiet h i buf' t' l' k m).
    + split; [apply (sr_active _ _ _ _ _ Hst)|apply (sr_queue _ _ _ _ _ Hst)].
  - apply bt_poll_acts; [apply Hquiet|].
    apply (pool_asks t h buf' m l 1 (rnd 1%nat) (clock 1%nat)); try done.
    unfold th_poll. rewrite Hh. cbn [piece_buffer with_piece_buffer]. by rewrite Hfull, Hnext.
Qed.

(** A round that starts with a piece, or goes on with the one in progress *)
Lemma round_first σ t h l fuel :
  can_leech seeder now id t h tf e D σ l -> ps = missing_piece_indices h -> ps <> [] ->
  exists n m l', drain (S (S fuel)) l = Ret (Some ([ask_for m], l')) /\
    waiting n m l' /\ blocks_left h = S n.
Proof.
  intros [Hquiet Ha Hh Hd [peer Hp] Hid _ Hst] Hps Hne.
  assert (forall j, j ∈ ps <-> bf_get (th_bitfield h) j = Some false) as Hiff.
  { intros j. rewrite Hps, missing_piece_indices_elem, (dl_idle _ _ Hd). simpl.
    split; [by intros [? _]|by split]. }
  assert (pieces_stored (th_bitfield h) σ) as Hstored by (intros j Hj Hno; by apply Hiff in Hj).
  destruct Hh as [Hh|(i & buf & Hh & Hget & Hb)].
  - destruct (piece_starts (rnd 1%nat 1%nat) h peer) as (i & buf & m & k & Hget & Hpoll & Hb & Hk);
      try done; [congruence|].
    set (t' := with_piece_handler (with_piece_buffer (Some buf) h) t).
    set (l' := bt_with_pool (with_torrents {[id := t']} (bt_torrents l)) l).
    assert (bt_quiet id t' now l') as Hquiet' by (apply th_quiet; [done|by rewrite Hh]).
    exists (k + blocks_left (piece_done h i))%nat, m, l'. split_and!.
    + rewrite (drain_more now rnd clock _ l l' (ask_for m) I).
      * rewrite (drain_end now rnd clock _ l' l'), obind_some; [done|].
        apply bt_poll_pending; [apply Hquiet'| |].
        -- by apply (waits_quiet h i buf t' l' k m).
        -- split; [apply (sr_active _ _ _ _ _ Hst)|apply (sr_queue _ _ _ _ _ Hst)].
      * apply bt_poll_acts; [apply Hquiet|].
        apply (pool_asks t h buf m l 1 (rnd 1%nat) (clock 1%nat)); [done|done|by rewrite Hh].
    + exists σ, h, i, buf, t', k. split; [|done].
      split; try done; [by exists peer|]. intros j Hj. by apply Hiff.
    + rewrite (blocks_left_done h i); [lia|apply Hd|done].
  - assert (leeching σ h i buf t l) as Hl.
    { split; try done; [by exists peer|]. intros j Hj. by apply Hiff. }
    destruct (blocks_of h i) as [|k] eqn:Hk.
    { exfalso. by apply (blocks_of_pos h i (dl_lengths _ _ Hd)). }
    destruct (round_next σ h i buf t l k fuel Hl Hb) as (m & l' & Hdr & Hw).
    exists (k + blocks_left (piece_done h i))%nat, m, l'. split_and!; try done.
    rewrite (blocks_left_done h i); [lia|apply Hd|done].
Qed.

Definition tells (i : nat) : Action := SendEvent seeder (HI_Have (wrap 32 (Z.of_nat i))).

(** The leecher after the poll in which a piece was complete: the request to
    write it waits in the queue of the disk manager. *)
Definition after_piece (h : TorrentPieceHandler PeerId BV Instant) t i l : Bt :=
  bt_with_disk (dm_write_block id (piece_of i) (disk_manager l))
    (bt_with_pool (with_torrents {[id := with_piece_handler h t]} (bt_torrents l)) l).

(** The pieces that are stored, when one more is *)
Lemma pieces_stored_insert h i σ :
  (i < bf_len (th_bitfield h))%nat -> pieces_stored (th_bitfield h) σ ->
  pieces_stored (th_bitfield (piece_done h i)) (<[Z.of_nat i := D i]> σ).
Proof.
  intros Hi Hs j Hj. rewrite piece_done_get by done. case_decide as Hd; [subst j|].
  - intros _. apply lookup_insert_eq.
  - intros Hget. rewrite lookup_insert_ne by lia. by apply Hs.
Qed.

(** A round in which a piece is complete, and the next one is started *)
Lemma round_piece σ h i buf t l fuel :
  leeching σ h i buf t l -> buffer_asks seeder (D i) (Z.of_nat i) id 0 AP_Idle buf ->
  missing_piece_indices (piece_done h i) <> [] ->
  exists n m l', drain (S (S (S fuel))) l = Ret (Some ([ask_for m; tells i], l')) /\
    waiting n m l' /\ blocks_left (piece_done h i) = S n.
Proof.
  intros Hl Hb Hm. pose proof Hl as [Hquiet Ha Hh Hd [peer Hp] Hid Hms Hget Hst Hstored].
  pose proof (bf_get_Some _ _ _ Hget) as Hlt. set (h1 := piece_done h i) in *.
  set (t1 := with_piece_handler h1 t). set (l0 := after_piece h1 t i l).
  assert (downloadable D h1) as Hd1 by by apply piece_done_downloadable.
  assert (bt_quiet id t1 now l0) as Hq0
    by (apply (th_quiet t h1 (bt_with_disk _ l) (quiet_disk _ _ _ Hquiet)); by rewrite Hh).
  destruct (piece_starts (rnd 1%nat 0%nat) h1 peer) as (i' & buf' & m & k & Hget' & Hpoll & Hb' & Hk);
    try done.
  set (t2 := with_piece_handler (with_piece_buffer (Some buf') h1) t1).
  set (l1 := bt_with_pool (with_torrents {[id := t2]} (bt_torrents l0)) l0).
  assert (bt_quiet id t2 now l1) as Hq1 by by apply (th_quiet t1 _ l0 Hq0).
  destruct (piece_written σ i (disk_manager l) (Hms i Hget) Hst) as (dm & Hwrite & Hst').
  assert (active_blocks dm = [] /\ queued_events dm = []) as Hidle
    by (split; [apply (sr_active _ _ _ _ _ Hst')|apply (sr_queue _ _ _ _ _ Hst')]).
  set (h2 := piece_done h1 i). set (t3 := with_piece_handler (with_piece_buffer (Some buf') h2) t2).
  set (l2 := bt_with_pool (with_torrents {[id := t3]} (bt_torrents l1)) (bt_with_disk dm l1)).
  assert (bt_quiet id t3 now l2) as Hq2 
    by by apply (th_quiet t2 _ (bt_with_disk dm l1) (quiet_disk _ _ _ Hq1)).
  assert (bf_get (th_bitfield h1) i = Some true) as Hset
    by (unfold h1; rewrite piece_done_get by done; by rewrite decide_True).
  pose proof (bf_get_Some _ _ _ Hset) as Hlt1.
  assert (i <> i') as Hne by (intros <-; congruence).
  exists (k + blocks_left (piece_done h2 i'))%nat, m, l2. split_and!.
  - rewrite (drain_more now rnd clock _ l l1 (ask_for m) I).
    2: { apply bt_poll_acts; [apply Hquiet|].
         rewrite (pool_loop_ready 1 _ _ now l id t t1 (piece_of i)); [|done|done|by eapply piece_complete].
         by apply (pool_asks t1 h1 buf' m l0 0). }
    rewrite (drain_more now rnd clock _ l1 l2 (tells i) I).
    2: { rewrite (bt_poll_written l1 id t2 (piece_of i) dm seeder []); try done.
         - unfold Torrent_set_piece, set_piece, on_handler. simpl. rewrite Nat2Z.id.
           rewrite (proj2 (Nat.ltb_lt _ _)) by done. simpl. do 3 f_equal.
           unfold l2. by rewrite <- (bq_queue _ _ _ _ Hq1).
         - apply Hq1.
         - by apply (waits_quiet h1 i' buf' t2 l1 k m).
         - unfold Torrent_iter_peer_ids. simpl. by rewrite Hp, map_iter_singleton. }
    rewrite (drain_end now rnd clock _ l2 l2), !obind_some; [done|]. apply bt_poll_pending; [apply Hq2| |done].
    by apply (waits_quiet h2 i' buf' t3 l2 k m).
  - exists (<[Z.of_nat i := D i]> σ), h2, i', buf', t3, k. split; [|done]. split; try done.
    + by apply piece_done_downloadable.
    + by exists peer.
    + intros j. unfold h2, h1. rewrite !piece_done_get by done. case_decide; [done|apply Hms].
    + unfold h2. rewrite piece_done_get by done. by rewrite decide_False.
    + intros j Hj Hj'. apply (pieces_stored_insert h i σ Hlt Hstored j Hj).
      revert Hj'. unfold h2. rewrite piece_done_get by done. fold h1. case_decide; [subst j; by rewrite Hset|done].
  - rewrite (blocks_left_done h1 i') by done. rewrite Hk.
    assert (blocks_left (piece_done h2 i') = blocks_left (piece_done h1 i')) as ->; [|lia].
    assert (blocks_left h2 = blocks_left h1) as He by by apply blocks_left_again.
    rewrite (blocks_left_done h1 i'), (blocks_left_done h2 i') in He; try done.
    + unfold h2 in He at 1. rewrite blocks_of_done in He by done. lia.
    + unfold h2. rewrite piece_done_get by done. by rewrite decide_False.
Qed.

(** The round in which the last piece is complete *)
Lemma round_last σ h i buf t l fuel :
  leeching σ h i buf t l -> buffer_asks seeder (D i) (Z.of_nat i) id 0 AP_Idle buf ->
  missing_piece_indices (piece_done h i) = [] ->
  exists l', drain (S (S (S fuel))) l =
      Ret (Some ([GenerateEvent (EV_TorrentFinished id); tells i], l')) /\ leeched l'.
Proof.
  intros Hl Hb Hm. pose proof Hl as [Hquiet Ha Hh Hd [peer Hp] Hid Hms Hget Hst Hstored].
  pose proof (bf_get_Some _ _ _ Hget) as Hlt.
  destruct (buffer_asks_full (Hasher := Hasher) _ _ _ _ _ Hb) as [Hfull Hfin].
  assert (bf_all (th_bitfield (piece_done h i)) = true) as Hall by by apply nothing_missing.
  assert (th_bitfield (set_piece (piece_handler t) i).1 = th_bitfield (piece_done h i)) as Hset.
  { unfold set_piece. rewrite Hh. simpl. by rewrite (proj2 (Nat.ltb_lt _ _) Hlt). }
  destruct (poll_last_piece l id t buf (piece_of i) 1 0 2 rnd clock now)
    as (t2 & Hpoll & Hp2 & Hb2 & Hf2 & Hall2 & Hid2);
    [apply Hquiet..|done|apply Hquiet|by rewrite Hh; apply Hd|by rewrite Hh|done|done| |].
  { simpl. by rewrite Nat2Z.id, Hset. }
  match type of Hpoll with _ = Ret (Some (?x, _)) => set (l1 := x) in * end.
  destruct (piece_written σ i (disk_manager l) (Hms i Hget) Hst) as (dm & Hwrite & Hst').
  assert (active_blocks dm = [] /\ queued_events dm = []) as Hidle
    by (split; [apply (sr_active _ _ _ _ _ Hst')|apply (sr_queue _ _ _ _ _ Hst')]).
  assert (first_timeout now (map_iter (peers (piece_handler t2))) = None) as Hto2
    by (rewrite Hp2; apply Hquiet).
  set (t3 := (Torrent_set_piece t2 i).1).
  set (l2 := bt_with_pool (with_torrents {[id := t3]} (bt_torrents l1)) (bt_with_disk dm l1)).
  assert (complete t3 /\ torrent_id t3 = id /\ peers (piece_handler t3) = peers (piece_handler t2) /\
    bf_all (Torrent_bitfield t3) = true) as (Hc3 & Hid3 & Hp3 & Hall3).
  { unfold t3, complete, Torrent_set_piece, on_handler, set_piece. unfold Torrent_bitfield in *.
    destruct (i <? bf_len (th_bitfield (piece_handler t2)))%nat eqn:Hi; simpl; split_and!; try done.
    apply Nat.ltb_lt in Hi.
    apply bf_all_true. rewrite bf_len_set by done. intros j Hj. rewrite bf_get_set by done.
    case_decide; [done|]. by apply bf_all_true. }
  assert (bt_quiet id t3 now l2) as Hq2 by (split; [apply Hquiet|done|done|by rewrite Hp3]).
  exists l2. split.
  - rewrite (drain_more now rnd clock _ l l1 (GenerateEvent (EV_TorrentFinished id)) I Hpoll).
    rewrite (drain_more now rnd clock _ l1 l2 (tells i) I).
    2: { rewrite (bt_poll_written l1 id t2 (piece_of i) dm seeder []); try done.
         - simpl. rewrite Nat2Z.id. fold t3. do 3 f_equal. unfold l2.
           by rewrite <- (bq_queue _ _ _ _ Hquiet).
         - apply Hquiet.
         - cbn [pool_loop]. by rewrite (pool_poll_seed _ _ now (bt_torrents l1) id t2), bind_ret.
         - unfold Torrent_iter_peer_ids. by rewrite Hp2, Hh; simpl; rewrite Hp, map_iter_singleton. }
    rewrite (drain_end now rnd clock _ l2 l2), !obind_some; [done|]. apply bt_poll_pending; [apply Hq2| |done].
    cbn [pool_loop]. rewrite (pool_poll_seed _ _ now (bt_torrents l2) id t3), bind_ret;
      [done|done|apply Hc3|apply Hc3|by rewrite Hp3].
  - exists (<[Z.of_nat i := D i]> σ), t3. split_and!; try done; [apply Hc3..|].
    intros j Hj. apply (pieces_stored_insert h i σ Hlt Hstored j Hj).
    intros Hno. pose proof (bf_get_Some _ _ _ Hno) as Hj'. 
    pose proof (proj1 (bf_all_true _) Hall j Hj'). congruence.
Qed.

(** *** The exchange *)

Context (sid : TorrentId) (stf : TorrentFile Hasher) (se : FileEntry) (bytes : list byte).
Hypothesis Hmeta : tf_meta_info stf = tf_meta_info tf.
Hypothesis Hsize : fe_size se = fe_size e.
Hypothesis Hbytes : forall i, i ∈ ps -> take (length (D i))
  (drop (Z.to_nat (piece_length (info (tf_meta_info tf)) * Z.of_nat i)) bytes) = D i.
Hypothesis Hsprompt : forall n, Z.of_nat n <= piece_length (info (tf_meta_info tf)) ->
  prompt n (fe_path se).
#[local] Abbreviation carry_all := (carry_all UpgrErr leecher seeder now rnd clock strm request_id).

(** The other client can serve; which pieces it knows the leecher has changes. *)
Definition seeding s : Prop := exists st, can_serve leecher now sid st stf se bytes ps s.

(** Actions that only tell the seeder of pieces *)
Definition only_tells (acts : list Action) : Prop :=
  forall l s, seeding s -> exists s', carry_all acts l s = Ret (Some (l, s')) /\ seeding s'.

(** Actions that ask for this block, and for nothing else *)
Definition asks (m : BlockMetadata) (acts : list Action) : Prop :=
  existsb (says_to seeder) acts = true /\
  forall l s l1 s1, carry (ask_for m) l s = Ret (Some (l1, s1)) -> seeding s1 ->
    exists s2, carry_all acts l s = Ret (Some (l1, s2)) /\ seeding s2.

Lemma only_tells_nil : only_tells [].
Proof. intros l s Hs. by exists s. Qed.

Lemma only_tells_report ev acts : only_tells acts -> only_tells (GenerateEvent ev :: acts).
Proof. done. Qed.

Lemma only_tells_have i acts : only_tells acts -> only_tells (tells i :: acts).
Proof.
  intros Ht l s [st Hs].
  destruct (seeder_notes sid stf se bytes ps (wrap 32 (Z.of_nat i)) st s Hs) as
    (s1 & ev & s2 & st' & Hh & Hd & Hs2); [apply Z.mod_pos_bound; lia|].
  destruct (Ht l s2) as (s3 & Hc & Hs3); [by exists st'|]. exists s3. split; [|done].
  cbn [Network.carry_all]. unfold tells, carry. rewrite decide_True, sent_have by done.
  rewrite Hh, obind_some, Hd, obind_some. exact Hc.
Qed.

Lemma asks_request m acts : only_tells acts -> asks m (ask_for m :: acts).
Proof.
  intros Ht. split; [simpl; by rewrite bool_decide_true|]. intros l s l1 s1 Hc Hs.
  cbn [Network.carry_all]. rewrite Hc, obind_some. by apply Ht.
Qed.

Lemma asks_before m ev acts : asks m acts -> asks m (GenerateEvent ev :: acts).
Proof. intros [Hr Hc]. split; [done|]. intros l s. by apply Hc. Qed.

(** The answer to the request the leecher waits for *)
Lemma carry_answered n m l s :
  waiting n m l -> seeding s ->
  exists l1 s1 ev l2 σ h i buf t k,
    carry (ask_for m) l s = Ret (Some (l1, s1)) /\ seeding s1 /\
    bt_poll 2 2 2 rnd clock now l1 = Ret (Some (l2, Ready (GenerateEvent ev))) /\
    inert (GenerateEvent ev : Action) /\ leeching σ h i buf t l2 /\ buffer_asks seeder (D i) (Z.of_nat i) id k AP_Idle buf /\
    n = (k + blocks_left (piece_done h i))%nat.
Proof.
  intros (σ & h & i & buf & t & k & Hl & Hb & Hn) [st Hs].
  pose proof Hl as [Hquiet Ha Hh Hd Hp Hid Hms Hget Hst Hstored].
  pose proof (buffer_asks_waits _ _ _ _ _ _ _ Hb) as (_ & _ & Hpend & Hm).
  pose proof (Hms i Hget) as Hi.
  destruct (block_on_wire tf e ps D Hfit (fun i Hi => proj1 (Hpieces i Hi)) i m Hi Hm) as [_ Hw].
  destruct (seeder_answers sid stf se bytes ps D) with (i := i) (m := m) (s := s) (t := st)
    as (s1 & s2 & Hhears & Hserve & Hs2); rewrite ?Hmeta, ?Hsize; try done;
    [by intros; apply Hpieces|].
  destruct (block_arrives (UpgrErr := UpgrErr) l id t buf (wire_block (D i) m) seeder now now 1 2 2
    rnd clock now Hquiet) as (l1 & l2 & Hinj & Hpoll & Hquiet2 & Hdm);
    rewrite ?(wire_block_from (D i) (Z.of_nat i)) by done; [by rewrite Hh|done|].
  rewrite (wire_block_from (D i) (Z.of_nat i)) in Hquiet2 by done.
  eexists l1, s2, _, l2, σ, h, i, _, _, k. split_and!; [|by exists st|exact Hpoll|done| | |exact Hn].
  - unfold carry, ask_for. rewrite decide_True, sent_request by done.
    rewrite Hhears, obind_some, Hserve, obind_some, decide_True by done.
    rewrite (answered_same (UpgrErr := UpgrErr) strm _ _ (PM_Piece (wire_block (D i) m))) by done.
    unfold hears_answer. rewrite Hw, obind_some. cbn [process_btt_out]. rewrite bind_ret.
    unfold inject. by rewrite Hinj, bind_ret, obind_some.
  - split; [exact Hquiet2|done| |done..|by rewrite Hdm|done].
    unfold with_buffer. simpl. by rewrite Hh.
  - by apply buffer_asks_add.
Qed.

(** One round *)
Lemma exchange_round n m acts l s :
  asks m acts -> waiting n m l -> seeding s ->
  exists l1 s1 acts' l', carry_all acts l s = Ret (Some (l1, s1)) /\ seeding s1 /\
    drain 4 l1 = Ret (Some (acts', l')) /\ existsb (says_to seeder) acts' = true /\
    match n with
    | S n => exists m', asks m' acts' /\ waiting n m' l'
    | O => only_tells acts' /\ GenerateEvent (EV_TorrentFinished id) ∈ acts' /\ leeched l'
    end.
Proof.
  intros [_ Hcarry] Hl Hs. destruct (carry_answered n m l s Hl Hs) as
    (l1 & s1 & ev & l2 & σ & h & i & buf & t & k & Hc & Hs1 & Hpoll & Hin & Hl2 & Hb & ->).
  destruct (Hcarry _ _ _ _ Hc Hs1) as (s2 & Hca & Hs2).
  exists l1, s2. rewrite (drain_more now rnd clock _ l1 l2 _ Hin Hpoll).
  destruct k as [|k].
  - destruct (decide (missing_piece_indices (piece_done h i) = [])) as [Hm|Hm].
    + destruct (round_last σ h i buf t l2 0 Hl2 Hb Hm) as (l' & Hd & Hl').
      rewrite Hd, obind_some. eexists _, l'. split_and!; try done.
      { simpl. by rewrite bool_decide_true. }
      assert (blocks_left (piece_done h i) = 0%nat) as -> by (unfold blocks_left; by rewrite Hm).
      split_and!; [|right; left|done].
      by apply only_tells_report, only_tells_report, only_tells_have, only_tells_nil.
    + destruct (round_piece σ h i buf t l2 0 Hl2 Hb Hm) as (n & m' & l' & Hd & Hl' & ->).
      assert (asks m' (GenerateEvent ev :: [ask_for m'; tells i])) as Hasks
        by by apply asks_before, asks_request, only_tells_have, only_tells_nil.
      rewrite Hd, obind_some. eexists _, l'. split_and!; [done..|apply Hasks|by exists m'].
  - destruct (round_next σ h i buf t l2 k 1 Hl2 Hb) as (m' & l' & Hd & Hl').
    assert (asks m' (GenerateEvent ev :: [ask_for m'])) as Hasks
      by by apply asks_before, asks_request, only_tells_nil.
    rewrite Hd, obind_some. eexists _, l'. split_and!; [done..|apply Hasks|by exists m'].
Qed.

#[local] Abbreviation exchange :=
  (exchange UpgrErr leecher seeder now rnd clock strm request_id).

(** Nothing more happens when the torrent is there. *)
Lemma exchange_end rounds acts l s :
  only_tells acts -> leeched l -> seeding s ->
  exists s', exchange (S rounds) acts l s = Ret (Some ([], l, s')) /\ seeding s'.
Proof.
  intros Ht (σ & t & Hq & Hc & _ & Hst & _) Hs. destruct (Ht l s Hs) as (s' & Hca & Hs').
  exists s'. split; [|done]. cbn [Network.exchange]. rewrite Hca, obind_some.
  rewrite (drain_complete now rnd clock 3 id t l Hq Hc), obind_some; [done|].
  split; [apply (sr_active _ _ _ _ _ Hst)|apply (sr_queue _ _ _ _ _ Hst)].
Qed.

Lemma exchange_waiting n m acts l s :
  asks m acts -> waiting n m l -> seeding s ->
  exists acts' l' s', exchange (S (S n)) acts l s = Ret (Some (acts', l', s')) /\
    GenerateEvent (EV_TorrentFinished id) ∈ acts' /\ leeched l' /\ seeding s'.
Proof.
  revert m acts l s. induction n as [|n IH]; intros m acts l s Hasks Hl Hs;
    destruct (exchange_round _ m acts l s Hasks Hl Hs) as
      (l1 & s1 & acts' & l' & Hc & Hs1 & Hd & Hsays & Hrest);
    cbn [Network.exchange]; rewrite Hc, obind_some, Hd, obind_some, Hsays.
  - destruct Hrest as (Ht & Hfin & Hl').
    destruct (exchange_end 0 acts' l' s1 Ht Hl' Hs1) as (s2 & He & Hs2).
    cbn [Network.exchange] in He. rewrite He, obind_some.
    exists (acts' ++ []), l', s2. split_and!; [done| |done..]. apply elem_of_app. by left.
  - destruct Hrest as (m' & Ha & Hl').
    destruct (IH m' acts' l' s1 Ha Hl' Hs1) as (acts2 & l2 & s2 & He & Hfin & Hl2 & Hs2).
    cbn [Network.exchange] in He. cbn [Network.exchange]. rewrite He, obind_some.
    exists (acts' ++ acts2), l2, s2. split_and!; [done| |done..].
    apply elem_of_app. by right.
Qed.

(** The first round: the leecher reports what it has to, and asks for a block. *)
Lemma exchange_starts n m reports l l1 s :
  drain 4 l = Ret (Some (reports ++ [ask_for m], l1)) ->
  Forall (fun a => exists ev, a = GenerateEvent ev) reports -> waiting n m l1 -> seeding s ->
  exists acts l' s', exchange (S (S (S n))) [] l s = Ret (Some (acts, l', s')) /\
    GenerateEvent (EV_TorrentFinished id) ∈ acts /\ leeched l' /\ seeding s'.
Proof.
  intros Hd Hr Hw Hs. assert (asks m (reports ++ [ask_for m])) as Hasks.
  { clear Hd. induction Hr as [|a reports [ev ->] Hr IH]; [|by apply asks_before].
    apply asks_request, only_tells_nil. }
  destruct (exchange_waiting n m _ l1 s Hasks Hw Hs) as (acts & l' & s' & He & Hfin & Hl' & Hs').
  remember (S (S n)) as k eqn:Hk. cbn [Network.exchange]. rewrite Hk in He |- *.
  cbn [Network.carry_all]. rewrite obind_some, Hd, obind_some, (proj1 Hasks), He, obind_some.
  eexists _, l', s'. split_and!; [done| |done..]. apply elem_of_app. by right.
Qed.

(** The download of everything that is missing; the leecher may have to report
    something first. *)
Lemma exchange_downloads σ t h l s reports :
  bt_queued_events l = reports -> Forall (fun a => exists ev, a = GenerateEvent ev) reports ->
  Forall inert reports -> (length reports <= 2)%nat -> can_leech seeder now id t h tf e D σ (bt_with_queue [] l) ->
  ps = missing_piece_indices h -> ps <> [] -> seeding s ->
  exists acts l' s', exchange (S (S (blocks_left h))) [] l s = Ret (Some (acts, l', s')) /\
    GenerateEvent (EV_TorrentFinished id) ∈ acts /\ leeched l' /\ seeding s'.
Proof.
  intros Hq Hr Hin Hlen Hl Hps Hne Hs.
  destruct (round_first σ t h (bt_with_queue [] l) (2 - length reports) Hl Hps Hne) as
    (n & m & l1 & Hd & Hw & ->).
  apply (exchange_starts n m reports l l1 s); try done.
  pose proof (drain_queue now rnd clock _ l _ _ reports Hq Hin Hd) as Hdr.
  by replace (length reports + S (S (2 - length reports)))%nat with 4%nat in Hdr by lia.
Qed.

(** What the leecher has in the end *)
Lemma leeched_file l :
  leeched l -> ps <> [] ->
  exists t f, torrents (bt_torrents l) = {[id := t]} /\ bf_all (Torrent_bitfield t) = true /\
    lru_get (file_cache (disk_manager l)) (fe_id e) = Some (FS_Ready f) /\
    forall i, i ∈ ps -> take (length (D i))
      (drop (Z.to_nat (piece_length (info (tf_meta_info tf)) * Z.of_nat i))
        (file_data (file_system (disk_manager l)) f)) = D i.
Proof.
  intros (σ & t & Hq & _ & Hall & Hst & Hstored) Hne.
  destruct (sr_file _ _ _ _ _ Hst) as [[_ ->]|(f & Hf & Hdata)].
  { exfalso. apply Hne, elem_of_nil_inv. intros i Hi. by specialize (Hstored i Hi). }
  exists t, f. split_and!; [apply Hq|done|done|]. intros i Hi. apply (Hdata _ _ (Hstored i Hi)).
Qed.
End Leech.
End Clients.

(** ** Properties *)

Section ExchangeProperties.
Context `{Countable PeerId} {Multiaddr : Type} `{BitVecLaws BV} `{Sha1 Hasher} `{Clock Instant}.
Context `{FileSystemLaws Fs File FsError} `{LruCacheLaws TorrentFileId (FileState File) C}.
Context `{Profile} `{!MapOrder PeerId (BitTorrentPeer BV Instant)}.
Context `{!MapOrder Z (Torrent PeerId BV Instant)} `{!SetOrder FileEntry} `{ByteOrderLaws}.
Context `{MessageStream Strm (PeerMessage BV)}.
#[local] Abbreviation Bt := (BitTorrent PeerId Multiaddr BV Hasher Instant Fs File C).

(** C2: A torrent of one file is transferred.  A client that tracks one torrent
    and one peer downloads the pieces it lacks from a client that seeds this
    torrent only, has its file and lets the first one download these pieces;
    what they say goes through the handlers and the codec.  When both start
    with nothing queued, no block asked for and an idle disk, no peer is timed
    out, piece lengths and numbers of pieces fit the fields of the messages, the
    missing pieces lie inside the file, the metadata list the hashes of the
    seeder's bytes, and both file systems are prompt for every size up to a
    piece (the one of disk/native.rs is not, see NativeFs), then
    after a round for each missing block, and two more, the torrent is reported
    as finished, the client owns every piece, its file has the bytes of the
    seeder's file at the places of the missing pieces, and the seeder can go on
    to serve. *)
Theorem torrent_transferred (UpgrErr : Type) (leecher seeder : PeerId) (now : Instant) rnd clock
    (strm : Strm) request_id (l s : Bt) id t h tf e σ sid st stf se bytes :
  (forall i j (ps : list nat), rnd i j ps ≡ₚ ps) ->
  let ps := missing_piece_indices h in
  let P := piece_length (info (tf_meta_info tf)) in
  let D := piece_bytes P h bytes in
  ps <> [] ->
  can_leech seeder now id t h tf e D σ l ->
  can_serve leecher now sid st stf se bytes ps s ->
  tf_meta_info stf = tf_meta_info tf -> fe_size se = fe_size e -> fields_fit (tf_meta_info tf) ->
  (forall i, i ∈ ps -> piece_wf (tf_meta_info tf) (fe_size e) (Z.of_nat i) (D i) /\
     pieces (info (tf_meta_info tf)) !! i = Some (ShaHash_from_bytes (D i))) ->
  (forall n, Z.of_nat n <= P -> prompt n (fe_path e) /\ prompt n (fe_path se)) ->
  exists acts l' s' t' st' f,
    exchange UpgrErr leecher seeder now rnd clock strm request_id (S (S (blocks_left h))) [] l s =
      Ret (Some (acts, l', s')) /\
    GenerateEvent (EV_TorrentFinished id) ∈ acts /\
    torrents (bt_torrents l') = {[id := t']} /\ bf_all (Torrent_bitfield t') = true /\
    can_serve leecher now sid st' stf se bytes ps s' /\
    lru_get (file_cache (disk_manager l')) (fe_id e) = Some (FS_Ready f) /\
    forall i, i ∈ ps ->
      take (length (D i)) (drop (Z.to_nat (P * Z.of_nat i)) (file_data (file_system (disk_manager l')) f)) =
      take (length (D i)) (drop (Z.to_nat (P * Z.of_nat i)) bytes).
Proof.
  intros Hperm ps P D Hne Hl Hserve Hmeta Hsize Hfit Hpieces Hprompt.
  assert (forall i, take (length (D i)) (drop (Z.to_nat (P * Z.of_nat i)) bytes) = D i) as Hbytes.
  { intros i. unfold D, piece_bytes. apply take_length_take. }
  destruct (exchange_downloads UpgrErr leecher seeder now rnd clock Hperm strm request_id id tf e ps D
    Hfit Hpieces (fun n Hn => proj1 (Hprompt n Hn)) (cl_single _ _ _ _ _ _ _ _ _ _ Hl) sid stf se bytes
    Hmeta Hsize (fun i _ => Hbytes i) (fun n Hn => proj2 (Hprompt n Hn)) σ t h l s [])
    as (acts & l' & s' & Hex & Hfin & Hl' & (st' & Hs')); try done.
  - apply Hl.
  - simpl. lia.
  - replace (bt_with_queue [] l) with l; [done|].
    pose proof (bq_queue _ _ _ _ (cl_quiet _ _ _ _ _ _ _ _ _ _ Hl)). destruct l. simpl in *. by subst.
  - by exists st.
  - destruct (leeched_file now id tf e ps D l' Hl' Hne) as (t' & f & Ht' & Hall & Hf & Hdata).
    exists acts, l', s', t', st', f. split_and!; try done. intros i Hi. rewrite Hbytes. by apply Hdata.
Qed.
End ExchangeProperties.

(** ** Witnesses *)

Section ExchangeWitnesses.
#[local] Existing Instances list_bitvec list_bitvec_laws toy_sha1 seconds debug_build
  ex_order ex_torrent_order ex_dm_order ex_dm_fs ex_dm_contents ex_dm_fs_laws ex_dm_cache
  ex_dm_cache_laws std_byteorder std_byteorder_laws mem_message_stream.

(** The file of [ex_store_meta], and the clients 7 and 8: 8 has the file, and
    lets 7 have its pieces *)
Definition ex_shared : list byte := byte_of_Z <$> [10; 11; 12; 13; 14; 20; 21; 22].
Definition ex_shared_entry : FileEntry :=
  {| fe_path := "f"; fe_id := TorrentFileId_new 0 0; fe_offset := 0; fe_size := 8 |}.
Definition ex_shared_file : TorrentFile (list byte) :=
  {| tf_id := 0; tf_meta_info := ex_store_meta; tf_files := [ex_shared_entry] |}.
Definition ex_shared_dm (fs : list byte) : ex_manager :=
  dm_with_fs fs (dm_with_torrents {[0 := ex_shared_file]} ex_dm_new).
Definition ex_seeding_peer : BitTorrentPeer (list bool) Z :=
  with_bitfield (Some {| inner := [true; true] |}) (with_client_interest Interested
    (with_remote_choke UnChoked (BitTorrentPeer_new (ex_hash 8) 0 0))).
Definition ex_shared_torrent (bits : list bool) (done : bool) (p : Z)
    (peer : BitTorrentPeer (list bool) Z) : Torrent Z (list bool) Z :=
  Torrent_new 0 0 (ex_hash 1) (with_finished done (set_peer p peer
    (TorrentPieceHandler_new 0 Random {| inner := bits |} 5 3))) SeedAndLeech Active.
Definition ex_leech_torrent : Torrent Z (list bool) Z :=
  ex_shared_torrent [false; false] false 8 ex_seeding_peer.
Definition ex_serve_torrent : Torrent Z (list bool) Z :=
  ex_shared_torrent [true; true] true 7 ex_leecher.
Definition ex_leech_client : ex_behaviour := ex_bt ex_leech_torrent (ex_shared_dm []).
Definition ex_serve_client : ex_behaviour := ex_bt ex_serve_torrent
  (dm_with_cache (lru_insert (4, []) (TorrentFileId_new 0 0) (FS_Ready 0)) (ex_shared_dm ex_shared)).

Lemma ex_missing i : i ∈ missing_piece_indices (piece_handler ex_leech_torrent) <-> (i < 2)%nat.
Proof.
  change (missing_piece_indices _) with [0%nat; 1%nat].
  rewrite !elem_of_cons, elem_of_nil. lia.
Qed.

Lemma ex_leech_ready : downloadable
  (piece_bytes 5 (piece_handler ex_leech_torrent) ex_shared) (piece_handler ex_leech_torrent).
Proof.
  assert (forall i, (i < bf_len (th_bitfield (piece_handler ex_leech_torrent)))%nat -> (i < 2)%nat)
    as Hlt by done.
  split; try (vm_compute; reflexivity).
  - by split.
  - by vm_compute.
  - intros [|[|i]] Hi%Hlt; [vm_compute; reflexivity|vm_compute; reflexivity|lia].
  - by vm_compute.
  - intros [|[|i]] Hi%Hlt; [vm_compute; reflexivity|vm_compute; reflexivity|lia].
Qed.

Definition ex_substream : mem_stream := {| ms_in := []; ms_out := [] |}.

(** The first one downloads the file from the second one. *)
Lemma torrent_transferred_witness :
  exists acts (l' s' : ex_behaviour),
    exchange unit 7 8 0 (fun _ _ => @rev nat) (fun _ _ => 0) ex_substream (fun _ => 3) 4 []
      ex_leech_client ex_serve_client = Ret (Some (acts, l', s')) /\
    GenerateEvent (EV_TorrentFinished 0) ∈ acts /\
    take 5 (file_system (disk_manager l')) = take 5 ex_shared /\
    take 3 (drop 5 (file_system (disk_manager l'))) = drop 5 ex_shared.
Proof.
  destruct (torrent_transferred unit 7 8 0 (fun _ _ => @rev nat) (fun _ _ => 0) ex_substream
    (fun _ => 3) ex_leech_client ex_serve_client 0 ex_leech_torrent
    (piece_handler ex_leech_torrent) ex_shared_file ex_shared_entry ∅ 0
    ex_serve_torrent ex_shared_file ex_shared_entry ex_shared)
    as (acts & l' & s' & t' & st' & f & Hex & Hfin & _ & _ & _ & _ & Hdata).
  - intros _ _ ps. symmetry. apply Permutation_rev.
  - vm_compute. discriminate.
  - split; try (vm_compute; reflexivity).
    + split; vm_compute; reflexivity.
    + by left.
    + apply ex_leech_ready.
    + eexists. vm_compute. reflexivity.
    + split; [..|vm_compute; split; [discriminate|reflexivity]]; vm_compute; reflexivity.
    + split; [vm_compute; reflexivity..|apply map_Forall_empty|].
      left. split; [vm_compute; reflexivity|done].
  - split; try (vm_compute; reflexivity).
    + split; vm_compute; reflexivity.
    + split; vm_compute; reflexivity.
    + intros i Hi%ex_missing. destruct i as [|[|i]]; [vm_compute; reflexivity..|lia].
    + split; [split|]; vm_compute; reflexivity.
    + split; [..|vm_compute; split; [discriminate|reflexivity]]; vm_compute; reflexivity.
  - vm_compute; reflexivity.
  - vm_compute; reflexivity.
  - split; vm_compute; discriminate.
  - intros i Hi%ex_missing. destruct i as [|[|i]]; [| |lia];
      (split; [|vm_compute; reflexivity]); vm_compute; repeat split; discriminate.
  - intros n Hn. split; apply ex_dm_prompts; simpl in Hn; lia.
  - exists acts, l', s'. split; [exact Hex|]. split; [exact Hfin|].
    split; [apply (Hdata 0%nat)|apply (Hdata 1%nat)]; apply ex_missing; lia.
Defined.
End ExchangeWitnesses.
