(* ===== verification/Connect.v ===== *)
(** * From the connection to the download

    Two clients of Network.v that do not know each other yet: the handshake,
    the bit fields, the interest and the choke of src/src/behavior.rs and
    src/src/peer/torrent.rs lead to the states from which Exchange proves the
    download. *)

From S2P Require Import Prelude Crates DiskFs Util Message Codec MetaInfo Block Peer DiskError.
From S2P Require Import PieceBuffer PieceHandler Download Events Torrent Pool DiskFile BlockIO.
From S2P Require Import DiskManager Store Handler Behavior Announce Client Network Exchange.
Local Open Scope Z_scope.

(** ** Specification *)

Section ConnectSpec.
Context `{Countable PeerId} {Multiaddr : Type} `{BitVec BV} `{Sha1 Hasher} `{Clock Instant}.
Context `{FileSystem Fs File FsError} `{LruCache TorrentFileId (FileState File) C} `{Profile}.
Context `{!MapOrder PeerId (BitTorrentPeer BV Instant)}.
Context `{!MapOrder Z (Torrent PeerId BV Instant)} `{!SetOrder FileEntry}.
#[local] Abbreviation Bt := (BitTorrent PeerId Multiaddr BV Hasher Instant Fs File C).
Implicit Types l s : Bt.
Context (leecher seeder : PeerId) (now : Instant).

(** The hashes of a handshake have the length their type has in the code. *)
Definition hashes_wf (info_hash : ShaHash) (b : Bt) : Prop :=
  ShaHash_wf info_hash /\ ShaHash_wf (local_peer_hash (bt_torrents b)).

(** A torrent with these peers *)
Definition with_peers_of (ps : gmap PeerId (BitTorrentPeer BV Instant))
    (t : Torrent PeerId BV Instant) : Torrent PeerId BV Instant :=
  with_piece_handler (with_th_peers ps (piece_handler t)) t.

(** What changes of the client [b0] while it gets to know another one: the
    peers of its torrent [t], and what it has to say *)
Record meets (id : TorrentId) (t : Torrent PeerId BV Instant)
    (ps : gmap PeerId (BitTorrentPeer BV Instant))
    (q : list (NetworkBehaviourAction PeerId BV Hasher Instant)) (b0 b : Bt) : Prop := {
  mt_queue : bt_queued_events b = q;
  mt_torrents : torrents (bt_torrents b) = {[id := with_peers_of ps t]};
  mt_hash : local_peer_hash (bt_torrents b) = local_peer_hash (bt_torrents b0);
  mt_disk : disk_manager b = disk_manager b0;
}.

(** A bit field that goes over the wire: its length is not taken for the one of
    another message. *)
Definition field_fits (n : nat) : Prop :=
  n <> 0%nat /\ n <> 4%nat /\ 1 + Z.of_nat n < FRAME_LIMIT.

(** A client that has a torrent of one file, which is open or can be opened, and
    no peers *)
Record offers (hash : ShaHash) (id : TorrentId) (t : Torrent PeerId BV Instant)
    (tf : TorrentFile Hasher) (e : FileEntry) (bytes : list byte) `{FileContents Fs File} s : Prop := {
  of_quiet : bt_quiet id t now s;
  of_hash : torrent_info_hash t = hash;
  of_hashes : hashes_wf hash s;
  of_complete : complete t;
  of_pieces : bf_all (Torrent_bitfield t) = true;
  of_peers : peers (piece_handler t) = ∅;
  of_pending : pending_seed_blocks (piece_handler t) = [];
  of_disk : disk_ready id tf (disk_manager s);
  of_single : single_file id tf e;
  of_capacity : 0 < lru_capacity (file_cache (disk_manager s));
  of_file : has_bytes e bytes (disk_manager s);
}.

(** A client that leeches a torrent and dials the seeder for it.  It has no peers,
    and has chosen the piece [i] to start with; [h] is its handler without this
    piece, and [D] are the bytes its metadata promises. *)
Record wants (hash : ShaHash) (id : TorrentId) (t : Torrent PeerId BV Instant)
    (h : TorrentPieceHandler PeerId BV Instant) (i : nat) (buf : PieceBuffer PeerId)
    (tf : TorrentFile Hasher) (e : FileEntry) (D : nat -> list byte) `{FileContents Fs File}
    (σ : gmap Z (list byte)) l :
    Prop := {
  wa_quiet : bt_quiet id t now l;
  wa_active : Torrent_is_active t = true;
  wa_leech : is_leeching (Torrent.seed_leech t) = true;
  wa_dialled : pending_handshakes l !! seeder = Some hash;
  wa_hash : torrent_info_hash t = hash;
  wa_hashes : hashes_wf hash l;
  wa_handler : piece_handler t = with_piece_buffer (Some buf) h;
  wa_piece : bf_get (th_bitfield h) i = Some false;
  wa_buffer : buffer_asks seeder (D i) (Z.of_nat i) id (blocks_of h i) AP_Away buf;
  wa_inv : handler_inv nobody h;
  wa_idle : piece_buffer h = None;
  wa_unfinished : finished h = false;
  wa_peers : peers h = ∅;
  wa_id : th_id h = id;
  wa_lengths : 0 < th_piece_length h /\ 0 < th_last_piece_length h;
  wa_data : forall j, (j < bf_len (th_bitfield h))%nat -> Z.of_nat (length (D j)) = piece_len h j;
  wa_single : single_file id tf e;
  wa_store : store_rel id tf e σ (disk_manager l);
}.
End ConnectSpec.

(** ** Lemmas *)

Section Connect.
Context `{Countable PeerId} {Multiaddr : Type} `{BitVecLaws BV} `{Sha1 Hasher} `{Clock Instant}.
Context `{FileSystemLaws Fs File FsError} `{LruCacheLaws TorrentFileId (FileState File) C}.
Context `{Profile} `{!MapOrder PeerId (BitTorrentPeer BV Instant)}.
Context `{!MapOrder Z (Torrent PeerId BV Instant)} `{!SetOrder FileEntry} `{ByteOrderLaws}.
Context `{MessageStream Strm (PeerMessage BV)}.
#[local] Abbreviation Bt := (BitTorrent PeerId Multiaddr BV Hasher Instant Fs File C).
#[local] Abbreviation Action := (NetworkBehaviourAction PeerId BV Hasher Instant).
#[local] Abbreviation Peer := (BitTorrentPeer BV Instant).
Implicit Types l s b : Bt.
Context (UpgrErr : Type) (leecher seeder : PeerId) (now : Instant).
Context (rnd : nat -> nat -> list nat -> list nat) (clock : nat -> nat -> Instant).
Context (strm : Strm) (request_id : PeerMessage BV -> BitTorrentRequestId).
#[local] Abbreviation hears := (hears UpgrErr now request_id).
#[local] Abbreviation hears_answer := (hears_answer UpgrErr now).
#[local] Abbreviation carry := (carry UpgrErr leecher seeder now rnd clock strm request_id).
#[local] Abbreviation carry_all := (carry_all UpgrErr leecher seeder now rnd clock strm request_id).
#[local] Abbreviation drain := (drain now rnd clock).
Context (Hnow : duration_since_secs now now <= 120).

(** *** Messages between the clients *)

Lemma hears_same p m b b' ev :
  PeerMessage_wf m -> PeerMessage_fits m -> ~ bitfield_collides m ->
  process_btt_in (UserData := TorrentId) (UpgrErr := UpgrErr) now m (request_id m) = Ret ev ->
  inject_node_event now now p ev b = Ret b' -> hears p m b = Ret (Some b').
Proof.
  intros Hwf Hfit Hcol He Hb. unfold hears. rewrite on_wire_same, obind_some, He by done.
  rewrite bind_ret. unfold inject. by rewrite Hb.
Qed.

Lemma hears_answer_same p id m b b' ev :
  PeerMessage_wf m -> PeerMessage_fits m -> ~ bitfield_collides m ->
  process_btt_out (Instant := Instant) (UpgrErr := UpgrErr) m id = Ret ev ->
  inject_node_event now now p ev b = Ret b' -> hears_answer p id m b = Ret (Some b').
Proof.
  intros Hwf Hfit Hcol He Hb. unfold hears_answer. rewrite on_wire_same, obind_some, He by done.
  rewrite bind_ret. unfold inject. by rewrite Hb.
Qed.

Lemma carry_request ev ans m m' id l l' s s1 s2 :
  sent (Strm := Strm) UpgrErr ev = Some (m, Some id) -> hears leecher m s = Ret (Some s1) ->
  drain 3 s1 = Ret (Some ([SendEvent leecher ans], s2)) ->
  answer_message ans = Some (m', request_id m) -> hears_answer seeder id m' l = Ret (Some l') ->
  carry (SendEvent seeder ev) l s = Ret (Some (l', s2)).
Proof.
  intros Hm Hs Hd Ha Hl. unfold carry. rewrite decide_True, Hm, Hs, obind_some, Hd, obind_some by done.
  rewrite decide_True, (answered_same strm _ ans m' Ha), Hl by done. done.
Qed.

Lemma carry_tell ev acts m l l' s s1 s2 :
  sent (Strm := Strm) UpgrErr ev = Some (m, None) -> hears leecher m s = Ret (Some s1) ->
  drain 3 s1 = Ret (Some (acts, s2)) ->
  carry_back (Strm := Strm) UpgrErr leecher seeder now request_id acts l = Ret (Some l') ->
  carry (SendEvent seeder ev) l s = Ret (Some (l', s2)).
Proof.
  intros Hm Hs Hd Hl. unfold carry. by rewrite decide_True, Hm, Hs, obind_some, Hd, obind_some, Hl.
Qed.

(** *** Clients that do nothing of their own accord *)

(** A peer that was just heard of, and what is learned of it *)
Definition heard_now (peer : Peer) : Prop := remote_heartbeat peer = now /\ client_heartbeat peer = now.

Lemma one_in_time (ps : gmap PeerId Peer) :
  map_Forall (fun _ => heard_now) ps -> first_timeout now (map_iter ps) = None.
Proof.
  intros Hps. apply first_timeout_None, Forall_forall. intros [p peer] Hin%map_iter_elem.
  destruct (Hps p peer Hin) as [Hr Hc]. unfold in_time, is_client_timeout, is_remote_timeout. simpl.
  rewrite Hr, Hc, (proj2 (Z.ltb_ge _ _) Hnow). done.
Qed.

Section Meets.
Context (id : TorrentId) (t : Torrent PeerId BV Instant) (b0 : Bt).
Implicit Types ps : gmap PeerId Peer.

Lemma with_peers_same ps : peers (piece_handler t) = ps -> with_peers_of ps t = t.
Proof. intros <-. by destruct t as [? ? [] ? ? ?]. Qed.

Lemma meets_still ps q b :
  meets id t ps q b0 b -> meets id t ps [] b0 (bt_with_queue [] b).
Proof. by intros []; split. Qed.

Lemma meets_quiet ps b :
  torrent_id t = id -> map_Forall (fun _ => heard_now) ps -> meets id t ps [] b0 b ->
  bt_quiet id (with_peers_of ps t) now b.
Proof. intros Hid Hps [Hq Ht _ _]. split; try done. by apply one_in_time. Qed.

(** Clients that have no torrent to poll for, or wait for peers that can seed *)
Definition calm : Prop :=
  complete t \/
  Torrent_is_active t = true /\ exists buf, piece_buffer (piece_handler t) = Some buf /\
    pb_peers buf = [] /\ is_full_piece buf = false.

Lemma calm_pool ps b rn clk :
  calm -> bt_quiet id (with_peers_of ps t) now b -> pool_loop 2 rn clk now b = Ret (Some (b, None)).
Proof.
  intros [[Hb Hf]|(Ha & buf & Hb & Hp & Hfull)] Hq.
  - cbn [pool_loop]. rewrite (pool_poll_seed _ _ now (bt_torrents b) id (with_peers_of ps t)), bind_ret
      by (done || apply Hq). by destruct b.
  - apply (pool_loop_quiet 1 rn clk now b id (with_peers_of ps t) (TPS_Waiting (torrent_id t))); try done.
    unfold Torrent_poll. rewrite (bq_timeout _ _ _ _ Hq). unfold th_poll. simpl. rewrite Hb, Hfull.
    unfold PieceBuffer_next. rewrite Hp. simpl. unfold with_peers_of. rewrite <- Hb.
    by destruct t as [? ? [] ? ? ?].
Qed.

(** The client says what it has to say, and nothing more. *)
Lemma meets_drain ps q b fuel :
  calm -> torrent_id t = id ->
  active_blocks (disk_manager b0) = [] /\ queued_events (disk_manager b0) = [] ->
  meets id t ps q b0 b -> Forall inert q -> map_Forall (fun _ => heard_now) ps ->
  drain (length q + S fuel) b = Ret (Some (q, bt_with_queue [] b)) /\
  meets id t ps [] b0 (bt_with_queue [] b).
Proof.
  intros Hc Hid Hdisk Hm Hin Hps. pose proof (meets_still _ _ _ Hm) as Hm'. split; [|done].
  rewrite <- (app_nil_r q) at 2. apply drain_queue; [apply Hm|done|].
  pose proof (meets_quiet _ _ Hid Hps Hm') as Hq. apply drain_end, bt_poll_pending; [done| |].
  - by apply calm_pool with ps.
  - by rewrite (mt_disk _ _ _ _ _ _ Hm').
Qed.

(** *** What the clients hear of each other *)

(** The peer as it is known after the handshake, and after its bit field *)
Definition greeted (hash : ShaHash) : Peer := BitTorrentPeer_new hash now now.
Definition with_field (f : BitField BV) (peer : Peer) : Peer := with_bitfield (Some f) peer.

(** A connection that the client dialled, and one that it accepted *)
Lemma dialled hash b :
  bt_quiet id t now b -> peers (piece_handler t) = ∅ -> torrent_info_hash t = hash ->
  pending_handshakes b !! seeder = Some hash ->
  meets id t ∅ [SendEvent seeder (HI_HandshakeReq (Handshake_new hash (local_peer_hash (bt_torrents b))) id)]
    b (inject_connected seeder CP_Dialer b).
Proof.
  intros [Hq Ht Hid _] Hp Hh Hd. unfold inject_connected. rewrite Hd. unfold send_handshake, get_for_info_hash.
  simpl. rewrite Ht, map_iter_singleton. simpl. rewrite bool_decide_true by done. simpl.
  split; simpl; try done; [by rewrite Hq, Hid|].
  by rewrite Ht, (with_peers_same _ Hp).
Qed.

Lemma accepted p addr b :
  bt_quiet id t now b -> peers (piece_handler t) = ∅ ->
  meets id t ∅ [] b (inject_connected p (CP_Listener addr) b).
Proof.
  intros [Hq Ht _ _] Hp. unfold inject_connected, add_address_torrents.
  pose proof (with_peers_same _ Hp) as He.
  destruct (known_peers b !! p) as [[]|]; split; simpl; by rewrite ?He.
Qed.

(** The handshake of the other client *)
Lemma hears_handshake p hs b :
  Handshake_wf hs -> meets id t ∅ [] b0 b -> torrent_info_hash t = info_hash hs ->
  exists b', hears p (PM_Handshake hs) b = Ret (Some b') /\
    meets id t {[p := greeted (Message.peer_id hs)]}
      [SendEvent p (HI_HandshakeRes (Handshake_new (info_hash hs) (local_peer_hash (bt_torrents b0)))
        (request_id (PM_Handshake hs)))] b0 b'.
Proof.
  intros Hwf [Hq Ht Hh Hd] Hhash.
  assert (is_associated (bt_torrents b) p = false) as Ha.
  { unfold is_associated. rewrite Ht, map_iter_singleton. simpl. unfold contains_peer. simpl.
    rewrite lookup_empty. by rewrite bool_decide_false by by intros []. }
  eexists. split.
  - eapply hears_same; try done; [by intros []|]. node_event. unfold on_handshake_request. rewrite Ha.
    unfold get_for_info_hash. rewrite Ht, map_iter_singleton. simpl. rewrite bool_decide_true by done.
    simpl. rewrite insert_singleton_eq. reflexivity.
  - split; simpl; [by rewrite Hq, Hh| |done..]. f_equal. unfold with_peers_of, greeted.
    unfold insert_peer. simpl. destruct (piece_buffer _); [|done].
    unfold remote_can_seed_piece, remote_can_seed. done.
Qed.

Lemma hears_handshake_back p hs b :
  Handshake_wf hs -> meets id t ∅ [] b0 b -> torrent_info_hash t = info_hash hs ->
  exists b', hears_answer p id (PM_Handshake hs) b = Ret (Some b') /\
    meets id t {[p := greeted (Message.peer_id hs)]}
      [SendEvent p (HI_BitfieldReq (Torrent_bitfield t) id);
       GenerateEvent (EV_HandshakeResult (Ok p))] b0 b'.
Proof.
  intros Hwf [Hq Ht Hh Hd] Hhash. eexists. split.
  - eapply hears_answer_same; try done; [by intros []|]. node_event. unfold on_handshake_response.
    rewrite Ht, lookup_singleton_eq. simpl. rewrite bool_decide_true by done.
    simpl. rewrite insert_singleton_eq. reflexivity.
  - split; simpl; [| |done..].
    + rewrite Hq. unfold insert_peer. simpl. unfold Torrent_bitfield. simpl.
      destruct (piece_buffer _); done.
    + f_equal. unfold with_peers_of, insert_peer. simpl. by destruct (piece_buffer _).
Qed.

(** The bit field of the other client *)
Lemma hears_bitfield p f peer b :
  field_fits (bf_len f) -> meets id t {[p := peer]} [] b0 b ->
  exists b', hears p (PM_Bitfield f) b = Ret (Some b') /\
    meets id t {[p := with_field f peer]}
      [SendEvent p (HI_BitfieldRes (Torrent_bitfield t) (request_id (PM_Bitfield f)))] b0 b'.
Proof.
  intros (H0' & H4' & Hfit) [Hq Ht Hh Hd]. eexists. split.
  - eapply hears_same; try done; [apply prefix_fits_small; lia|by intros []|]. node_event. unfold on_bitfield_request.
    rewrite (visit_single _ (bt_torrents b) id _ Ht). unfold Torrent_set_peer_bitfield, get_peer. simpl.
    rewrite lookup_singleton_eq. simpl. reflexivity.
  - split; simpl; [by rewrite Hq| |done..]. f_equal. unfold with_peers_of, set_peer. simpl.
    by rewrite insert_singleton_eq.
Qed.

(** A client that has everything is interesting. *)
Lemma having_missing_pieces f (peer : Peer) other :
  bitfield peer = Some f -> bf_all f = true -> bf_len f = bf_len other ->
  (exists i, bf_get other i = Some false) -> is_having_missing_pieces_for peer other = Ret true.
Proof.
  intros Hf Hall Hl [i Hi]. destruct (is_having_missing_pieces_for_iff peer other) as (r & -> & Hr).
  f_equal. apply Hr. exists f, i. split_and!; try done.
  apply bf_all_true; [done|]. rewrite Hl. by eapply bf_get_Some.
Qed.

Lemma hears_bitfield_back p f peer b :
  field_fits (bf_len f) -> meets id t {[p := peer]} [] b0 b ->
  is_leeching (Torrent.seed_leech t) = true -> bf_all f = true ->
  bf_len f = bf_len (Torrent_bitfield t) -> (exists i, bf_get (Torrent_bitfield t) i = Some false) ->
  exists b', hears_answer p id (PM_Bitfield f) b = Ret (Some b') /\
    meets id t {[p := with_client_interest Interested (with_field f peer)]}
      [GenerateEvent (EV_BitfieldResult (Ok (mkBitfieldOk id p))); SendEvent p (HI_Interest Interested)]
      b0 b'.
Proof.
  intros (H0' & H4' & Hfit) [Hq Ht Hh Hd] Hleech Hall Hl Hmiss. eexists. split.
  - eapply hears_answer_same; try done; [apply prefix_fits_small; lia|by intros []|]. node_event.
    unfold set_peer_bitfield, update_torrent, Torrent_set_peer_bitfield, get_peer.
    rewrite Ht, lookup_singleton_eq. simpl. rewrite lookup_singleton_eq. simpl.
    unfold Pool.is_remote_interesting. simpl. rewrite insert_singleton_eq, lookup_singleton_eq. simpl.
    rewrite Hleech. unfold get_peer. simpl. rewrite lookup_insert_eq.
    rewrite (having_missing_pieces f) by done. rewrite bind_ret.
    unfold pool_set_client_interest, update_torrent. simpl. rewrite lookup_singleton_eq. simpl.
    unfold Torrent_set_client_interest, on_handler, set_client_interest. simpl.
    rewrite lookup_insert_eq. simpl. reflexivity.
  - split; simpl; [by rewrite Hq| |done..]. rewrite insert_singleton_eq. f_equal.
    unfold with_peers_of, set_peer. simpl. by rewrite !insert_singleton_eq.
Qed.

(** The interest of the other client *)
Lemma hears_interest p peer b :
  meets id t {[p := peer]} [] b0 b ->
  exists b', hears p PM_Interested b = Ret (Some b') /\
    meets id t {[p := with_remote_interest Interested peer]}
      [GenerateEvent (EV_InterestResult (Ok (IO_Interested p)))] b0 b'.
Proof.
  intros [Hq Ht Hh Hd]. eexists. split.
  - eapply hears_same; try done; [by intros []|]. node_event. unfold on_interest_by_remote.
    rewrite (visit_single _ (bt_torrents b) id _ Ht).
    unfold Torrent_on_remote_interested, on_handler, set_interest_on_remote. simpl.
    rewrite lookup_singleton_eq. simpl. reflexivity.
  - split; simpl; [by rewrite Hq| |done..]. f_equal. unfold with_peers_of, set_peer. simpl.
    by rewrite insert_singleton_eq.
Qed.

(** The other client may have pieces. *)
Lemma unchokes p peer b :
  meets id t {[p := peer]} [] b0 b ->
  meets id t {[p := with_client_choke UnChoked peer]} [SendEvent p (HI_Choke UnChoked)] b0
    (unchoke_peer p b).
Proof.
  intros [Hq Ht Hh Hd]. unfold unchoke_peer, pool_unchoke_remote.
  rewrite (visit_single _ (bt_torrents b) id _ Ht).
  unfold Torrent_unchoke_remote, Torrent_set_choke_for_remote. simpl. rewrite lookup_singleton_eq. simpl.
  split; simpl; [by rewrite Hq| |done..]. f_equal. unfold with_peers_of, set_peer. simpl.
  by rewrite insert_singleton_eq.
Qed.

(** The other client lets this one have pieces, and joins the piece in progress. *)
Lemma hears_unchoke p peer buf b :
  meets id t {[p := peer]} [] b0 b -> piece_buffer (piece_handler t) = Some buf ->
  let peer' := with_remote_choke UnChoked peer in
  remote_can_seed_piece peer' (Z.to_nat (pb_piece_index buf)) = true ->
  exists b' ev, hears p PM_UnChoke b = Ret (Some b') /\ bt_queued_events b' = [GenerateEvent ev] /\
    inert (GenerateEvent ev : Action) /\
    torrents (bt_torrents b') = {[id := with_piece_handler (with_piece_buffer
      (Some (PieceBuffer_push_peer buf p)) (with_th_peers {[p := peer']} (piece_handler t))) t]} /\
    disk_manager b' = disk_manager b0.
Proof.
  intros [Hq Ht Hh Hd] Hb peer' Hcan. eexists _, _. split_and!.
  - eapply hears_same; try done; [by intros []|]. node_event. unfold on_choke_by_remote.
    rewrite (visit_single _ (bt_torrents b) id _ Ht).
    unfold Torrent_on_choke_by_remote, Torrent_on_unchoked_by_remote, on_handler, set_choke_on_remote.
    simpl. rewrite lookup_singleton_eq. simpl. rewrite Hb. fold peer'. rewrite Hcan. simpl. reflexivity.
  - simpl. by rewrite Hq.
  - done.
  - simpl. f_equal. unfold with_peers_of, set_peer. simpl. by rewrite insert_singleton_eq.
  - done.
Qed.
End Meets.

(** *** The clients get to know each other *)

#[local] Abbreviation exchange :=
  (exchange UpgrErr leecher seeder now rnd clock strm request_id).

Lemma exchange_more rounds acts acts' l s l1 s1 l2 :
  carry_all acts l s = Ret (Some (l1, s1)) -> drain 4 l1 = Ret (Some (acts', l2)) ->
  existsb (says_to seeder) acts' = true ->
  exchange (S rounds) acts l s =
  obind (exchange rounds acts' l2 s1) (fun '(rest, l, s) => Ret (Some (acts' ++ rest, l, s))).
Proof. intros Hc Hd Hs. cbn [Network.exchange]. by rewrite Hc, obind_some, Hd, obind_some, Hs. Qed.

Lemma carry_all_report ev acts l s : carry_all (GenerateEvent ev :: acts) l s = carry_all acts l s.
Proof. done. Qed.

Lemma carry_all_one a acts l s l1 s1 :
  carry a l s = Ret (Some (l1, s1)) -> carry_all (a :: acts) l s = carry_all acts l1 s1.
Proof. intros Hc. cbn [Network.carry_all]. by rewrite Hc, obind_some. Qed.

Lemma Handshake_new_wf hash id :
  ShaHash_wf hash -> ShaHash_wf id -> Handshake_wf (Handshake_new hash id).
Proof. by repeat split. Qed.

(** What the clients know of each other then *)
Definition known_seeder (hash : ShaHash) (f : BitField BV) : Peer :=
  with_client_interest Interested (with_field f (greeted hash)).
Definition known_leecher (hash : ShaHash) (f : BitField BV) : Peer := with_field f (greeted hash).

(** What the leecher does then *)
Definition interest_of (id : TorrentId) : list Action :=
  [GenerateEvent (EV_BitfieldResult (Ok (mkBitfieldOk id seeder))); SendEvent seeder (HI_Interest Interested)].

Lemma peers_meet id t l sid st s hash addr :
  bt_quiet id t now l -> calm t -> peers (piece_handler t) = ∅ -> hashes_wf hash l ->
  bt_quiet sid st now s -> calm st -> peers (piece_handler st) = ∅ -> hashes_wf hash s ->
  active_blocks (disk_manager l) = [] /\ queued_events (disk_manager l) = [] ->
  active_blocks (disk_manager s) = [] /\ queued_events (disk_manager s) = [] ->
  pending_handshakes l !! seeder = Some hash ->
  torrent_info_hash t = hash -> torrent_info_hash st = hash ->
  is_leeching (Torrent.seed_leech t) = true -> bf_all (Torrent_bitfield st) = true ->
  bf_len (Torrent_bitfield st) = bf_len (Torrent_bitfield t) ->
  (exists i, bf_get (Torrent_bitfield t) i = Some false) -> field_fits (bf_len (Torrent_bitfield t)) ->
  exists acts l' s',
    (forall rounds, exchange (3 + rounds) [] (inject_connected seeder CP_Dialer l)
        (inject_connected leecher (CP_Listener addr) s) =
      obind (exchange rounds (interest_of id) l' s')
        (fun '(rest, l, s) => Ret (Some (acts ++ rest, l, s)))) /\
    meets id t {[seeder := known_seeder (local_peer_hash (bt_torrents s)) (Torrent_bitfield st)]}
      [] l l' /\
    meets sid st {[leecher := known_leecher (local_peer_hash (bt_torrents l)) (Torrent_bitfield t)]}
      [] s s'.
Proof.
  intros Hql Hcl Hpl [Hhash Hhl] Hqs Hcs Hps [_ Hhs] Hdl Hds Hpend Hth Hsth Hleech Hall Hlen Hmiss Hfits.
  pose proof (bq_id _ _ _ _ Hql) as Hid. pose proof (bq_id _ _ _ _ Hqs) as Hsid.
  assert (forall p peer, heard_now peer -> map_Forall (fun _ => heard_now) ({[p := peer]} : gmap PeerId Peer))
    as Hone by (intros; by apply map_Forall_singleton).
  (* the handshake *)
  pose proof (dialled id t hash l Hql Hpl Hth Hpend) as Hl1.
  pose proof (accepted sid st leecher addr s Hqs Hps) as Hs1.
  destruct (meets_drain id t l ∅ _ _ 2 Hcl Hid Hdl Hl1 ltac:(by repeat constructor) (map_Forall_empty _)) as [Hd1 Hl2].
  set (hs := Handshake_new hash (local_peer_hash (bt_torrents l))) in *.
  destruct (hears_handshake sid st s leecher hs _ (Handshake_new_wf _ _ Hhash Hhl) Hs1 Hsth) as (s2 & Hh2 & Hs2).
  destruct (meets_drain sid st s _ _ _ 1 Hcs Hsid Hds Hs2 ltac:(by repeat constructor) ltac:(by apply Hone)) as [Hd2 Hs3].
  set (hs' := Handshake_new (info_hash hs) (local_peer_hash (bt_torrents s))) in *.
  destruct (hears_handshake_back id t l seeder hs' _ (Handshake_new_wf _ _ Hhash Hhs) Hl2 Hth) as (l3 & Ha3 & Hl3).
  (* the bit fields *)
  destruct (meets_drain id t l _ _ _ 1 Hcl Hid Hdl Hl3 ltac:(by repeat constructor) ltac:(by apply Hone)) as [Hd3 Hl4].
  destruct (hears_bitfield sid st s leecher (Torrent_bitfield t) _ _ Hfits Hs3) as (s4 & Hh4 & Hs4).
  destruct (meets_drain sid st s _ _ _ 1 Hcs Hsid Hds Hs4 ltac:(by repeat constructor) ltac:(by apply Hone)) as [Hd4 Hs5].
  destruct (hears_bitfield_back id t l seeder (Torrent_bitfield st) _ _ ltac:(by rewrite Hlen) Hl4 Hleech
    Hall Hlen Hmiss) as (l5 & Ha5 & Hl5).
  destruct (meets_drain id t l _ _ _ 1 Hcl Hid Hdl Hl5 ltac:(by repeat constructor) ltac:(by apply Hone))
    as [Hd5 Hl6].
  exists ([SendEvent seeder (HI_HandshakeReq hs id); SendEvent seeder (HI_BitfieldReq (Torrent_bitfield t) id);
    GenerateEvent (EV_HandshakeResult (Ok seeder))] ++ interest_of id).
  eexists _, _. split; [|split; [exact Hl6|exact Hs5]]. intros rounds. cbn [Nat.add].
  erewrite exchange_more; [|reflexivity|exact Hd1|simpl; by rewrite bool_decide_true].
  erewrite exchange_more; [| |exact Hd3|simpl; by rewrite bool_decide_true].
  2: { erewrite carry_all_one; [reflexivity|]. by eapply carry_request; try done. }
  erewrite exchange_more; [| |exact Hd5|simpl; by rewrite bool_decide_true].
  2: { erewrite carry_all_one; [reflexivity|]. by eapply carry_request; try done. }
  destruct (exchange rounds _ _ _) as [[[[rest l'] s']|]|]; by simpl.
Qed.

(** *** The seeder lets the leecher have its pieces *)

(** The peer that may have pieces, and the one that gives them *)
Definition served (peer : Peer) : Peer := with_client_choke UnChoked peer.
Definition serves (peer : Peer) : Peer := with_remote_choke UnChoked peer.

Lemma known_can_seed hash f i :
  bf_all f = true -> (i < bf_len f)%nat -> remote_can_seed_piece (serves (known_seeder hash f)) i = true.
Proof.
  intros Hall Hi. apply remote_can_seed_piece_true. split.
  - apply remote_can_seed_true. by split_and!; [..|eexists].
  - by apply bf_all_true.
Qed.

(** The torrent of the leecher when the peer has joined *)
Definition joined (p : PeerId) (peer : Peer) (buf : PieceBuffer PeerId) t : Torrent PeerId BV Instant :=
  with_piece_handler (with_piece_buffer (Some (PieceBuffer_push_peer buf p))
    (with_th_peers {[p := peer]} (piece_handler t))) t.

(** The user of the seeder lets it, as soon as it is interested. *)
Lemma seeder_unchokes sid st s s1 peer :
  meets sid st {[leecher := peer]} [GenerateEvent (EV_InterestResult (Ok (IO_Interested leecher)))] s s1 ->
  calm st -> torrent_id st = sid -> heard_now peer ->
  active_blocks (disk_manager s) = [] /\ queued_events (disk_manager s) = [] ->
  exists s2, drain 3 s1 = Ret (Some (
      [GenerateEvent (EV_InterestResult (Ok (IO_Interested leecher))); SendEvent leecher (HI_Choke UnChoked)],
      s2)) /\
    meets sid st {[leecher := served peer]} [] s s2.
Proof.
  intros Hs Hc Hsid Hnew Hdisk. pose proof (meets_still _ _ _ _ _ _ Hs) as Hs'.
  pose proof (unchokes sid st s leecher peer _ Hs') as Hu.
  destruct (meets_drain sid st s _ _ _ 0 Hc Hsid Hdisk Hu ltac:(by repeat constructor)
    ltac:(by apply map_Forall_singleton)) as [Hd Hs2]. cbn [length Nat.add] in Hd.
  eexists. split; [|exact Hs2]. erewrite drain_step.
  2: { cbn [bt_poll]. by rewrite (mt_queue _ _ _ _ _ _ Hs). }
  cbn [client_event fst]. by rewrite Hd, obind_some.
Qed.

Lemma peers_join id t l l1 sid st s s1 hash f peer buf i :
  meets id t {[seeder := known_seeder hash f]} [] l l1 ->
  meets sid st {[leecher := peer]} [] s s1 -> calm st -> torrent_id st = sid -> heard_now peer ->
  active_blocks (disk_manager s) = [] /\ queued_events (disk_manager s) = [] ->
  piece_buffer (piece_handler t) = Some buf -> pb_piece_index buf = Z.of_nat i ->
  bf_all f = true -> (i < bf_len f)%nat ->
  exists l2 s2 ev,
    carry_all (interest_of id) l1 s1 = Ret (Some (l2, s2)) /\
    bt_queued_events l2 = [GenerateEvent ev] /\ inert (GenerateEvent ev : Action) /\
    torrents (bt_torrents l2) = {[id := joined seeder (serves (known_seeder hash f)) buf t]} /\
    disk_manager l2 = disk_manager l /\
    meets sid st {[leecher := served (with_remote_interest Interested peer)]} [] s s2.
Proof.
  intros Hl Hs Hc Hsid Hnew Hdisk Hb Hi Hall Hlt.
  destruct (hears_interest sid st s leecher _ _ Hs) as (s2 & Hh & Hs2).
  destruct (seeder_unchokes sid st s s2 _ Hs2 Hc Hsid Hnew Hdisk) as (s3 & Hd & Hs3).
  destruct (hears_unchoke id t l seeder _ buf l1 Hl Hb) as (l2 & ev & Hu & Hq & Hev & Ht & Hdm).
  { rewrite Hi, Nat2Z.id. by apply known_can_seed. }
  exists l2, s3, ev. split_and!; try done. unfold interest_of. rewrite carry_all_report.
  erewrite carry_all_one; [reflexivity|]. eapply carry_tell; [done|exact Hh|exact Hd|].
  cbn [Network.carry_back]. rewrite decide_True, sent_unchoke by done. by rewrite Hu, obind_some.
Qed.

Lemma exchange_carried rounds acts l s l1 s1 :
  carry_all acts l s = Ret (Some (l1, s1)) ->
  exchange (S rounds) acts l s = exchange (S rounds) [] l1 s1.
Proof. intros Hc. cbn [Network.exchange]. by rewrite Hc. Qed.
End Connect.

Section Start.
Context `{Countable PeerId} {Multiaddr : Type} `{BitVecLaws BV} `{Sha1 Hasher} `{Clock Instant}.
Context `{FileSystemLaws Fs File FsError} `{LruCacheLaws TorrentFileId (FileState File) C}.
Context `{Profile} `{!MapOrder PeerId (BitTorrentPeer BV Instant)}.
Context `{!MapOrder Z (Torrent PeerId BV Instant)} `{!SetOrder FileEntry} `{ByteOrderLaws}.
#[local] Abbreviation Bt := (BitTorrent PeerId Multiaddr BV Hasher Instant Fs File C).
#[local] Abbreviation Peer := (BitTorrentPeer BV Instant).
Implicit Types l s b : Bt.
Context (leecher seeder : PeerId) (now : Instant) (Hnow : duration_since_secs now now <= 120).

(** *** The clients before the download *)

Lemma offers_calm hash id t tf e bytes s : offers now hash id t tf e bytes s -> calm t.
Proof. intros Ho. left. apply Ho. Qed.

Lemma wants_downloadable hash id t h i buf tf e D σ l peer :
  wants seeder now hash id t h i buf tf e D σ l ->
  (forall j, (j < bf_len (th_bitfield h))%nat -> remote_can_seed_piece peer j = true) ->
  downloadable D (with_th_peers {[seeder := peer]} h).
Proof.
  intros Hw Hcan. split; simpl; try apply Hw.
  - destruct (wa_inv _ _ _ _ _ _ _ _ _ _ _ _ _ Hw) as [_ Hl Hf].
    split; [|done..]. simpl. by rewrite (wa_idle _ _ _ _ _ _ _ _ _ _ _ _ _ Hw).
  - by rewrite map_iter_singleton.
  - intros j Hj. apply all_can_seed_true. intros p q Hin. simpl in Hin. apply lookup_singleton_Some in Hin as [_ <-].
    by apply Hcan.
Qed.

Lemma wants_calm hash id t h i buf tf e D σ l :
  wants seeder now hash id t h i buf tf e D σ l -> calm t.
Proof.
  intros Hw. right. split; [apply Hw|]. exists buf.
  destruct (wa_buffer _ _ _ _ _ _ _ _ _ _ _ _ _ Hw) as [Hi _ _ _ _ Hn [_ Hp]].
  rewrite (wa_handler _ _ _ _ _ _ _ _ _ _ _ _ _ Hw). split_and!; [done..|].
  apply not_true_iff_false. rewrite is_full_piece_iff by done. intros [Hm _].
  rewrite Hm in Hn. by apply (blocks_of_pos h i (wa_lengths _ _ _ _ _ _ _ _ _ _ _ _ _ Hw)).
Qed.

(** The leecher when the seeder has joined the piece it started with *)
Lemma wants_leech hash id t h i buf tf e D σ l l2 peer :
  wants seeder now hash id t h i buf tf e D σ l -> heard_now now peer ->
  (forall j, (j < bf_len (th_bitfield h))%nat -> remote_can_seed_piece peer j = true) ->
  torrents (bt_torrents l2) = {[id := joined seeder peer buf t]} ->
  disk_manager l2 = disk_manager l ->
  can_leech seeder now id (joined seeder peer buf t) (with_th_peers {[seeder := peer]} h) tf e D σ
    (bt_with_queue [] l2).
Proof.
  intros Hw Hpeer Hcan Ht Hdm. split; try apply Hw.
  - split; [done..|apply Hw|]. apply one_in_time; [done|by apply map_Forall_singleton].
  - right. exists i, (PieceBuffer_push_peer buf seeder). split_and!; [|apply Hw|].
    + unfold joined. by rewrite (wa_handler _ _ _ _ _ _ _ _ _ _ _ _ _ Hw).
    + apply (buffer_asks_join seeder (D i)), (wa_buffer _ _ _ _ _ _ _ _ _ _ _ _ _ Hw).
  - by eapply wants_downloadable.
  - by exists peer.
  - simpl. rewrite Hdm. apply Hw.
Qed.

(** The seeder when the leecher may have its pieces *)
Lemma offers_serve hash id t tf e bytes ps s s2 peer :
  offers now hash id t tf e bytes s -> heard_now now peer -> remote_can_leech peer = true ->
  (forall i, i ∈ ps -> (i < bf_len (Torrent_bitfield t))%nat) ->
  meets id t {[leecher := peer]} [] s s2 ->
  can_serve leecher now id (with_peers_of {[leecher := peer]} t) tf e bytes ps s2.
Proof.
  intros Ho Hpeer Hleech Hps Hm. pose proof Hm as [Hq Ht _ Hdm].
  pose proof (of_quiet _ _ _ _ _ _ _ _ Ho) as Hquiet.
  split; try (rewrite ?Hdm; apply Ho).
  - apply (meets_quiet now Hnow id t s); [apply Hquiet|by apply map_Forall_singleton|done].
  - intros i Hi. unfold can_seed_piece_to, get_peer, th_has_piece, is_ready_to_seed_block. simpl.
    rewrite lookup_singleton_eq, Hleech, (of_pending _ _ _ _ _ _ _ _ Ho).
    pose proof (proj1 (bf_all_true _) (of_pieces _ _ _ _ _ _ _ _ Ho) i (Hps i Hi)) as Hget.
    unfold Torrent_bitfield in Hget. by rewrite Hget.
Qed.

(** *** From the connection to the start of the download *)

Context `{MessageStream Strm (PeerMessage BV)} (UpgrErr : Type) (strm : Strm).
Context (rnd : nat -> nat -> list nat -> list nat) (clock : nat -> nat -> Instant).
Context (request_id : PeerMessage BV -> BitTorrentRequestId).

Lemma wants_field hash id t h i buf tf e D σ l :
  wants seeder now hash id t h i buf tf e D σ l -> Torrent_bitfield t = th_bitfield h.
Proof.
  intros Hw. unfold Torrent_bitfield. by rewrite (wa_handler _ _ _ _ _ _ _ _ _ _ _ _ _ Hw).
Qed.

Lemma wants_missing hash id t h i buf tf e D σ l j :
  wants seeder now hash id t h i buf tf e D σ l ->
  j ∈ missing_piece_indices h <-> bf_get (th_bitfield h) j = Some false.
Proof.
  intros Hw. rewrite missing_piece_indices_elem, (wa_idle _ _ _ _ _ _ _ _ _ _ _ _ _ Hw).
  split; [by intros [? _]|by split].
Qed.

Lemma connected hash id t h i buf tf e D σ l sid st stf se bytes s addr :
  wants seeder now hash id t h i buf tf e D σ l -> offers now hash sid st stf se bytes s ->
  bf_len (Torrent_bitfield st) = bf_len (th_bitfield h) -> field_fits (bf_len (th_bitfield h)) ->
  exists acts l2 s2 ev t2 st2 peer,
    (forall rounds, exchange UpgrErr leecher seeder now rnd clock strm request_id (4 + rounds) []
        (inject_connected seeder CP_Dialer l) (inject_connected leecher (CP_Listener addr) s) =
      obind (exchange UpgrErr leecher seeder now rnd clock strm request_id (S rounds) [] l2 s2)
        (fun '(rest, l, s) => Ret (Some (acts ++ rest, l, s)))) /\
    bt_queued_events l2 = [GenerateEvent ev] /\
    inert (GenerateEvent ev : NetworkBehaviourAction PeerId BV Hasher Instant) /\
    can_leech seeder now id t2 (with_th_peers {[seeder := peer]} h) tf e D σ (bt_with_queue [] l2) /\
    can_serve leecher now sid st2 stf se bytes (missing_piece_indices h) s2.
Proof.
  intros Hw Ho Hlen Hfits. pose proof (wants_field _ _ _ _ _ _ _ _ _ _ _ Hw) as Hf.
  pose proof (wa_store _ _ _ _ _ _ _ _ _ _ _ _ _ Hw) as Hst.
  pose proof (of_pieces _ _ _ _ _ _ _ _ Ho) as Hall.
  destruct (peers_meet UpgrErr leecher seeder now rnd clock strm request_id Hnow id t l sid st s hash addr)
    as (acts & l1 & s1 & He & Hl & Hs); rewrite ?Hf; try apply Hw; try apply Ho; try done.
  - by eapply wants_calm.
  - by rewrite (wa_handler _ _ _ _ _ _ _ _ _ _ _ _ _ Hw), <- (wa_peers _ _ _ _ _ _ _ _ _ _ _ _ _ Hw).
  - by eapply offers_calm.
  - split; [apply (sr_active _ _ _ _ _ Hst)|apply (sr_queue _ _ _ _ _ Hst)].
  - exists i. apply Hw.
  - destruct (peers_join UpgrErr leecher seeder now rnd clock strm request_id Hnow id t l l1 sid st s s1
      (local_peer_hash (bt_torrents s)) (Torrent_bitfield st) _ buf i Hl Hs)
      as (l2 & s2 & ev & Hc & Hq & Hev & Ht & Hdm & Hs2); try apply Ho; try done.
    + by eapply offers_calm.
    + by rewrite (wa_handler _ _ _ _ _ _ _ _ _ _ _ _ _ Hw).
    + apply (wa_buffer _ _ _ _ _ _ _ _ _ _ _ _ _ Hw).
    + rewrite Hlen. eapply bf_get_Some, (wa_piece _ _ _ _ _ _ _ _ _ _ _ _ _ Hw).
    + eexists acts, l2, s2, ev, _, _,
        (serves (known_seeder now (local_peer_hash (bt_torrents s)) (Torrent_bitfield st))).
      split_and!; [|done|done| |].
      * intros rounds. change (4 + rounds)%nat with (3 + S rounds)%nat. rewrite (He (S rounds)).
        by rewrite (exchange_carried UpgrErr leecher seeder now rnd clock strm request_id _ _ _ _ _ _ Hc).
      * eapply wants_leech; [done|by split| |done..].
        intros j Hj. apply known_can_seed; [done|by rewrite Hlen].
      * eapply offers_serve; [done| | | |exact Hs2]; [by split|done|]. intros j Hj%(wants_missing _ _ _ _ _ _ _ _ _ _ _ _ Hw).
        rewrite Hlen. by eapply bf_get_Some.
Qed.
End Start.

(** ** Properties *)

Section ConnectProperties.
Context `{Countable PeerId} {Multiaddr : Type} `{BitVecLaws BV} `{Sha1 Hasher} `{Clock Instant}.
Context `{FileSystemLaws Fs File FsError} `{LruCacheLaws TorrentFileId (FileState File) C}.
Context `{Profile} `{!MapOrder PeerId (BitTorrentPeer BV Instant)}.
Context `{!MapOrder Z (Torrent PeerId BV Instant)} `{!SetOrder FileEntry} `{ByteOrderLaws}.
Context `{MessageStream Strm (PeerMessage BV)}.
#[local] Abbreviation Bt := (BitTorrent PeerId Multiaddr BV Hasher Instant Fs File C).

(** A client that dials a seeder downloads the torrent from it.  The
    clients handle their events as the example does, and know nothing of each
    other at first: they shake hands, exchange their bit fields, the one is
    interested, the other lets it have its pieces, and the blocks are
    transferred.  What they say goes through the handlers and the codec.  After
    five rounds, and one for each missing block, the torrent is reported as
    finished, the client owns every piece, and its file has the bytes of the
    seeder's file at the places of the pieces that were missing. *)
Theorem dialled_and_downloaded (UpgrErr : Type) (leecher seeder : PeerId) (now : Instant) rnd clock
    (strm : Strm) request_id (addr : Multiaddr) (l s : Bt) hash id t h i buf tf e σ
    sid st stf se bytes :
  duration_since_secs now now <= 120 -> (forall i j (ps : list nat), rnd i j ps ≡ₚ ps) ->
  let ps := missing_piece_indices h in
  let P := piece_length (info (tf_meta_info tf)) in
  let D := piece_bytes P h bytes in
  wants seeder now hash id t h i buf tf e D σ l -> offers now hash sid st stf se bytes s ->
  bf_len (Torrent_bitfield st) = bf_len (th_bitfield h) -> field_fits (bf_len (th_bitfield h)) ->
  tf_meta_info stf = tf_meta_info tf -> fe_size se = fe_size e -> fields_fit (tf_meta_info tf) ->
  (forall i, i ∈ ps -> piece_wf (tf_meta_info tf) (fe_size e) (Z.of_nat i) (D i) /\
     pieces (info (tf_meta_info tf)) !! i = Some (ShaHash_from_bytes (D i))) ->
  (forall n, Z.of_nat n <= P -> prompt n (fe_path e) /\ prompt n (fe_path se)) ->
  exists acts l' s' t' st' f,
    exchange UpgrErr leecher seeder now rnd clock strm request_id (5 + blocks_left h) []
      (inject_connected seeder CP_Dialer l) (inject_connected leecher (CP_Listener addr) s) =
      Ret (Some (acts, l', s')) /\
    GenerateEvent (EV_TorrentFinished id) ∈ acts /\
    torrents (bt_torrents l') = {[id := t']} /\ bf_all (Torrent_bitfield t') = true /\
    can_serve leecher now sid st' stf se bytes ps s' /\
    lru_get (file_cache (disk_manager l')) (fe_id e) = Some (FS_Ready f) /\
    forall i, i ∈ ps ->
      take (length (D i)) (drop (Z.to_nat (P * Z.of_nat i)) (file_data (file_system (disk_manager l')) f)) =
      take (length (D i)) (drop (Z.to_nat (P * Z.of_nat i)) bytes).
Proof.
  intros Hnow Hperm ps P D Hw Ho Hlen Hfits Hmeta Hsize Hfit Hpieces Hprompt.
  assert (ps <> []) as Hne.
  { intros He. apply (not_elem_of_nil i). rewrite <- He.
    apply (wants_missing seeder now _ _ _ _ _ _ _ _ _ _ _ _ Hw), Hw. }
  assert (forall i, take (length (D i)) (drop (Z.to_nat (P * Z.of_nat i)) bytes) = D i) as Hbytes.
  { intros j. unfold D, piece_bytes. apply take_length_take. }
  destruct (connected leecher seeder now Hnow UpgrErr strm rnd clock request_id _ _ _ _ _ _ _ _ _ _ _
    _ _ _ _ _ _ addr Hw Ho Hlen Hfits)
    as (acts1 & l2 & s2 & ev & t2 & st2 & peer & He1 & Hq & Hev & Hl2 & Hs2).
  destruct (exchange_downloads UpgrErr leecher seeder now rnd clock Hperm strm request_id id tf e ps D
    Hfit Hpieces (fun n Hn => proj1 (Hprompt n Hn)) (wa_single _ _ _ _ _ _ _ _ _ _ _ _ _ Hw)
    sid stf se bytes Hmeta Hsize (fun i _ => Hbytes i) (fun n Hn => proj2 (Hprompt n Hn)) σ t2
    (with_th_peers {[seeder := peer]} h) l2 s2 [GenerateEvent ev])
    as (acts & l' & s' & Hex & Hfin & Hl' & (st' & Hs')); try done.
  - constructor; [by eexists|constructor].
  - by constructor.
  - simpl. lia.
  - by exists st2.
  - destruct (leeched_file now id tf e ps D l' Hl' Hne) as (t' & f & Ht' & Hall & Hf & Hdata).
    exists (acts1 ++ acts), l', s', t', st', f. split_and!; try done.
    + change (5 + blocks_left h)%nat with (4 + S (blocks_left h))%nat.
      rewrite (He1 (S (blocks_left h))). change (blocks_left h) with
        (blocks_left (with_th_peers {[seeder := peer]} h)). by rewrite Hex, obind_some.
    + apply elem_of_app. by right.
    + intros j Hj. rewrite Hbytes. by apply Hdata.
Qed.
End ConnectProperties.

(** ** Witnesses *)

Section ConnectWitnesses.
#[local] Existing Instances list_bitvec list_bitvec_laws toy_sha1 seconds debug_build
  ex_order ex_torrent_order ex_dm_order ex_dm_fs ex_dm_contents ex_dm_fs_laws ex_dm_cache
  ex_dm_cache_laws std_byteorder std_byteorder_laws mem_message_stream.

Definition ex_polled (b : outcome ex_behaviour) : ex_behaviour :=
  match (b ← b; drain 0 (fun _ _ => @rev nat) (fun _ _ => 0) 4 b) with
  | Ret (Some (_, b)) => b
  | _ => ex_bt0
  end.

(** A client that was told to leech the torrent of [ex_store_meta] and to dial
    the client 8 for it *)
Definition ex_dialling : ex_behaviour := ex_polled (
  b ← add_leech 0 ex_store_meta Active ex_bt0;
  Ret (handshake_known_peer 8 (MetaInfo_sha_hash ex_store_meta)
         (add_address_torrents 8 80 [] b).1).1).

(** A client that was told to seed it, and has opened its file *)
Definition ex_offering : ex_behaviour :=
  let b := ex_polled (add_seed 0 {| seed_torrent := ex_store_meta; seed_path := "f" |} Active ex_bt0) in
  bt_with_disk (dm_with_cache (lru_insert (4, []) (TorrentFileId_new 0 0) (FS_Ready 0))
    (dm_with_fs ex_shared (disk_manager b))) b.

Definition ex_torrent_of (b : ex_behaviour) : Torrent Z (list bool) Z :=
  default ex_leech_torrent (torrents (bt_torrents b) !! 0).
Definition ex_dialling_handler : TorrentPieceHandler Z (list bool) Z :=
  with_piece_buffer None (piece_handler (ex_torrent_of ex_dialling)).
Definition ex_dialling_buffer : PieceBuffer Z :=
  default (PieceBuffer_new 0 0 0 []) (piece_buffer (piece_handler (ex_torrent_of ex_dialling))).

Lemma ex_dialling_missing i : i ∈ missing_piece_indices ex_dialling_handler <-> (i < 2)%nat.
Proof.
  replace (missing_piece_indices ex_dialling_handler) with [0%nat; 1%nat] by (vm_compute; reflexivity).
  rewrite !elem_of_cons, elem_of_nil. lia.
Qed.

Lemma ex_dialling_wants : wants 8 0 (MetaInfo_sha_hash ex_store_meta) 0 (ex_torrent_of ex_dialling)
  ex_dialling_handler 1 ex_dialling_buffer ex_shared_file ex_shared_entry
  (piece_bytes 5 ex_dialling_handler ex_shared) ∅ ex_dialling.
Proof.
  split; try (vm_compute; reflexivity).
  - split; vm_compute; reflexivity.
  - split; vm_compute; reflexivity.
  - split; try (vm_compute; reflexivity); [|by constructor|by split; vm_compute].
    replace ex_dialling_buffer with (PieceBuffer_new (PeerId := Z) 1 3 0 []) by (vm_compute; reflexivity).
    apply new_inv; [lia|constructor].
  - split; [done|by split|by vm_compute].
  - by split.
  - intros j Hj. assert (j < 2)%nat as Hj2 by done.
    destruct j as [|[|j]]; [vm_compute; reflexivity|vm_compute; reflexivity|lia].
  - split; [..|vm_compute; split; [discriminate|reflexivity]]; vm_compute; reflexivity.
  - split; [vm_compute; reflexivity..|apply map_Forall_empty|].
    left. split; [vm_compute; reflexivity|done].
Qed.

Lemma ex_offering_offers : offers 0 (MetaInfo_sha_hash ex_store_meta) 0 (ex_torrent_of ex_offering)
  ex_shared_file ex_shared_entry ex_shared ex_offering.
Proof.
  split; try (vm_compute; reflexivity).
  - split; vm_compute; reflexivity.
  - split; vm_compute; reflexivity.
  - split; vm_compute; reflexivity.
  - split; [split|]; vm_compute; reflexivity.
  - split; [..|vm_compute; split; [discriminate|reflexivity]]; vm_compute; reflexivity.
Qed.

(** The first one downloads the file from the second one. *)
Lemma dialled_and_downloaded_witness :
  exists acts (l' s' : ex_behaviour),
    exchange unit 7 8 0 (fun _ _ => @rev nat) (fun _ _ => 0) ex_substream (fun _ => 3) 7 []
      (inject_connected 8 CP_Dialer ex_dialling) (inject_connected 7 (CP_Listener 70) ex_offering) =
      Ret (Some (acts, l', s')) /\
    GenerateEvent (EV_TorrentFinished 0) ∈ acts /\
    take 5 (file_system (disk_manager l')) = take 5 ex_shared /\
    take 3 (drop 5 (file_system (disk_manager l'))) = drop 5 ex_shared.
Proof.
  destruct (dialled_and_downloaded unit 7 8 0 (fun _ _ => @rev nat) (fun _ _ => 0) ex_substream
    (fun _ => 3) 70 ex_dialling ex_offering (MetaInfo_sha_hash ex_store_meta) 0
    (ex_torrent_of ex_dialling) ex_dialling_handler 1 ex_dialling_buffer ex_shared_file ex_shared_entry ∅
    0 (ex_torrent_of ex_offering) ex_shared_file ex_shared_entry ex_shared)
    as (acts & l' & s' & t' & st' & f & Hex & Hfin & _ & _ & _ & _ & Hdata).
  - vm_compute. discriminate.
  - intros _ _ ps. symmetry. apply Permutation_rev.
  - apply ex_dialling_wants.
  - apply ex_offering_offers.
  - vm_compute. reflexivity.
  - unfold field_fits. vm_compute. repeat split; discriminate.
  - vm_compute; reflexivity.
  - vm_compute; reflexivity.
  - split; vm_compute; discriminate.
  - intros i Hi%ex_dialling_missing. destruct i as [|[|i]]; [| |lia];
      (split; [|vm_compute; reflexivity]); vm_compute; repeat split; discriminate.
  - intros n Hn. split; apply ex_dm_prompts; simpl in Hn; lia.
  - exists acts, l', s'. split; [exact Hex|]. split; [exact Hfin|].
    split; [apply (Hdata 0%nat)|apply (Hdata 1%nat)]; apply ex_dialling_missing; lia.
Defined.
End ConnectWitnesses.
