(* ===== verification/Start.v ===== *)
(** * The program from its start

    Two processes of src/examples/bittorrent.rs that have only just started: one
    writes a file and its torrent and seeds it, the other one reads the torrent
    and leeches the file.  They reach the states from which Connect proves the
    download. *)

From S2P Require Import Prelude Crates DiskFs Strings Bencode BencodeText Util Message Codec MetaInfo Block Peer.
From S2P Require Import DiskError PieceBuffer TorrentFile Tracker Builder PieceHandler Download Events.
From S2P Require Import Torrent Pool DiskFile BlockIO DiskManager Store Handler Behavior Announce Client.
From S2P Require Import Network Exchange Connect.
Local Open Scope Z_scope.

(** ** Specification *)

Section StartSpec.
Context `{Sha1 Hasher} `{Countable PeerId} `{BitVec BV} `{Clock Instant} `{Profile}.
Implicit Types m : MetaInfo Hasher.

(** The metadata of a file with these bytes, as the builder makes them; the bit
    field of the torrent can be sent. *)
Record describes m (bytes : list byte) : Prop := {
  ds_content : content (info m) = Single (Z.of_nat (length bytes));
  ds_hashes : hash <$> pieces (info m) =
    sha1 <$> chunks (Z.to_nat (piece_length (info m))) bytes;
  ds_piece : 0 < piece_length (info m) <= 2 ^ 32;
  ds_bytes : bytes <> [];
  ds_fits : field_fits (length (pieces (info m)));
  ds_hash : ShaHash_wf (MetaInfo_sha_hash m);
}.

(** The length of the last piece *)
Definition last_length m (bytes : list byte) : Z :=
  Z.of_nat (length bytes) - (Z.of_nat (length (pieces (info m))) - 1) * piece_length (info m).

(** The handler of a new torrent *)
Definition handler_of m (bytes : list byte) (f : BitField BV) : TorrentPieceHandler PeerId BV Instant :=
  TorrentPieceHandler_new 0 Random f (piece_length (info m)) (last_length m bytes).
Definition leech_handler m bytes : TorrentPieceHandler PeerId BV Instant :=
  handler_of m bytes (BitField_new_all_clear (length (pieces (info m)))).
Definition seed_handler m bytes : TorrentPieceHandler PeerId BV Instant :=
  handler_of m bytes (BitField_new_all_set (length (pieces (info m)))).

(** The file of the torrent *)
Definition file_of m (bytes : list byte) : FileEntry :=
  {| fe_path := name (info m); fe_id := TorrentFileId_new 0 0; fe_offset := 0;
     fe_size := Z.of_nat (length bytes) |}.
Definition torrent_file_of m (bytes : list byte) : TorrentFile Hasher :=
  {| tf_id := 0; tf_meta_info := m; tf_files := [file_of m bytes] |}.
End StartSpec.

(** ** Lemmas *)

(** *** Chunks *)

Lemma chunks_lookup {A} n (l : list A) i :
  (0 < n)%nat -> chunks n l !! i =
  if decide (i * n < length l)%nat then Some (take n (drop (i * n) l)) else None.
Proof.
  intros Hn. revert l. induction i as [|i IH]; intros l.
  - destruct (decide (l = [])) as [->|Hl]; [by rewrite decide_False by (simpl; lia)|].
    rewrite chunks_step by done. rewrite decide_True; [done|]. destruct l; [done|simpl; lia].
  - destruct (decide (l = [])) as [->|Hl]; [by rewrite decide_False by (simpl; lia)|].
    rewrite chunks_step by done. cbn [lookup list_lookup]. rewrite IH, length_drop, drop_drop.
    repeat case_decide; try done; lia.
Qed.

Lemma length_chunks_bounds {A} n (l : list A) :
  (0 < n)%nat -> l <> [] ->
  ((length (chunks n l) - 1) * n < length l <= length (chunks n l) * n)%nat /\
  (0 < length (chunks n l))%nat.
Proof.
  intros Hn Hl. set (k := length (chunks n l)).
  assert (0 < k)%nat as Hk by (unfold k; rewrite chunks_step by done; simpl; lia).
  split; [|done]. split.
  - destruct (lookup_lt_is_Some_2 (chunks n l) (k - 1)) as [c Hc]; [unfold k in *; lia|].
    rewrite chunks_lookup in Hc by done. by case_decide.
  - assert (chunks n l !! k = None) as Hc by by apply lookup_ge_None_2.
    rewrite chunks_lookup in Hc by done. case_decide; [done|lia].
Qed.

(** *** The metadata of a file *)

Section Described.
Context `{Sha1Laws Hasher} `{Profile}.
Implicit Types m : MetaInfo Hasher.

Lemma describes_pieces m bytes :
  describes m bytes ->
  length (pieces (info m)) = length (chunks (Z.to_nat (piece_length (info m))) bytes).
Proof.
  intros Hd. pose proof (f_equal length (ds_hashes _ _ Hd)) as Hl. by rewrite !length_fmap in Hl.
Qed.

Lemma describes_bounds m bytes :
  describes m bytes ->
  let P := piece_length (info m) in
  let n := Z.of_nat (length (pieces (info m))) in
  0 < n < FRAME_LIMIT /\ (n - 1) * P < Z.of_nat (length bytes) <= n * P /\
  0 < last_length m bytes <= P.
Proof.
  intros Hd P n. pose proof (ds_piece _ _ Hd) as HP. pose proof (ds_fits _ _ Hd) as (_ & _ & Hf).
  destruct (length_chunks_bounds (Z.to_nat P) bytes) as [Hb Hn]; [unfold P; lia|apply Hd|].
  pose proof (describes_pieces _ _ Hd) as Hlen. fold P in HP, Hlen. rewrite <- Hlen in Hb, Hn. unfold last_length. fold P n.
  assert (0 < n < FRAME_LIMIT) by (unfold n; lia). split; [done|].
  assert (Z.of_nat ((length (pieces (info m)) - 1) * Z.to_nat P) = (n - 1) * P) as Hm1 by (unfold n; nia).
  assert (Z.of_nat (length (pieces (info m)) * Z.to_nat P) = n * P) as Hm2 by (unfold n; nia).
  lia.
Qed.

Lemma describes_last m bytes :
  describes m bytes -> last_piece_length (info m) = Ret (last_length m bytes).
Proof.
  intros Hd. destruct (describes_bounds _ _ Hd) as (Hn & Hl & Hlast).
  pose proof (ds_piece _ _ Hd) as HP. unfold last_piece_length. rewrite (ds_content _ _ Hd). simpl.
  unfold last_length in *. unfold FRAME_LIMIT in Hn. revert Hn Hl Hlast HP.
  generalize (piece_length (info m)) as P, (Z.of_nat (length (pieces (info m)))) as n. intros P n Hn Hl Hlast HP.
  assert (0 <= (n - 1) * P <= (19 * 2 ^ 24) * 2 ^ 32) as Hm
    by (split; [nia|apply Z.mul_le_mono_nonneg; lia]).
  do 3 (rewrite checked_in_range by (unfold in_range; lia); rewrite ?bind_ret). done.
Qed.

Lemma describes_fields m bytes : describes m bytes -> fields_fit m.
Proof.
  intros Hd. destruct (describes_bounds _ _ Hd) as (Hn & _).
  split; [apply (ds_piece _ _ Hd)|]. unfold FRAME_LIMIT in Hn. lia.
Qed.

Lemma describes_single m bytes :
  describes m bytes -> single_file 0 (torrent_file_of m bytes) (file_of m bytes).
Proof.
  intros Hd. destruct (describes_bounds _ _ Hd) as (Hn & Hl & _). pose proof (ds_piece _ _ Hd) as HP.
  unfold FRAME_LIMIT in Hn. split; try done. simpl. nia.
Qed.
End Described.

(** *** The pieces of the file *)

Section Pieces.
Context `{Sha1Laws Hasher} `{Countable PeerId} `{BitVecLaws BV} `{Clock Instant} `{Profile}.
Context `{!MapOrder PeerId (BitTorrentPeer BV Instant)}.
Implicit Types m : MetaInfo Hasher.
#[local] Abbreviation Handler := (TorrentPieceHandler PeerId BV Instant).

Lemma iter_all_clear n : bf_iter (BitField_new_all_clear (BV := BV) n) = replicate n false.
Proof. unfold bf_iter. simpl. by rewrite bv_iter_from_elem. Qed.
Lemma iter_all_set n : bf_iter (BitField_new_all_set (BV := BV) n) = replicate n true.
Proof. unfold bf_iter. simpl. by rewrite bv_iter_from_elem. Qed.

Lemma leech_bits m bytes :
  bf_len (th_bitfield (leech_handler m bytes : Handler)) = length (pieces (info m)).
Proof. simpl. by rewrite bf_len_iter, iter_all_clear, length_replicate. Qed.

Lemma leech_missing m bytes i :
  bf_get (th_bitfield (leech_handler m bytes : Handler)) i = Some false <->
  (i < length (pieces (info m)))%nat.
Proof.
  simpl. rewrite bf_get_iter, iter_all_clear, lookup_replicate. by split; [intros []|].
Qed.

Lemma seed_all m bytes : bf_all (th_bitfield (seed_handler m bytes : Handler)) = true.
Proof.
  apply bf_all_true. intros i. simpl. rewrite bf_len_iter, bf_get_iter, iter_all_set, length_replicate.
  apply lookup_replicate_2.
Qed.

Lemma leech_lacks m bytes :
  (0 < length (pieces (info m)))%nat -> bf_all (th_bitfield (leech_handler m bytes : Handler)) = false.
Proof.
  intros Hn. apply not_true_is_false. intros Hall.
  pose proof (proj2 (leech_missing m bytes 0) Hn) as H0'.
  rewrite (proj1 (bf_all_true _) Hall 0%nat) in H0'; [done|]. by rewrite leech_bits.
Qed.

(** The length of a piece *)
Lemma leech_piece_len m bytes i :
  describes m bytes -> (i < length (pieces (info m)))%nat ->
  let P := piece_length (info m) in
  piece_len (leech_handler m bytes : Handler) i = P `min` (Z.of_nat (length bytes) - Z.of_nat i * P) /\
  Z.of_nat i * P < Z.of_nat (length bytes).
Proof.
  intros Hd Hi P. destruct (describes_bounds _ _ Hd) as (Hn & Hl & Hlast). fold P in Hl, Hlast.
  pose proof (ds_piece _ _ Hd) as HP. fold P in HP. unfold piece_len. rewrite leech_bits.
  cbn [leech_handler handler_of TorrentPieceHandler_new th_last_piece_length th_piece_length].
  unfold last_length in *. fold P in Hl, Hlast |- *.
  destruct (Nat.eqb_spec (S i) (length (pieces (info m)))) as [He|He].
  - replace (Z.of_nat (length (pieces (info m))) - 1) with (Z.of_nat i) in * by lia. lia.
  - assert (Z.of_nat (S i) * P <= (Z.of_nat (length (pieces (info m))) - 1) * P)
      by (apply Z.mul_le_mono_nonneg_r; lia). lia.
Qed.

(** A piece of the file *)
Lemma leech_piece m bytes i :
  describes m bytes -> (i < length (pieces (info m)))%nat ->
  let D := piece_bytes (piece_length (info m)) (leech_handler m bytes : Handler) bytes in
  Z.of_nat (length (D i)) = piece_len (leech_handler m bytes : Handler) i /\
  piece_wf m (Z.of_nat (length bytes)) (Z.of_nat i) (D i) /\
  pieces (info m) !! i = Some (ShaHash_from_bytes (D i)).
Proof.
  intros Hd Hi D. destruct (describes_bounds _ _ Hd) as (Hn & Hl & _).
  destruct (leech_piece_len _ _ _ Hd Hi) as (Hp & Hlt). pose proof (ds_piece _ _ Hd) as HP.
  unfold FRAME_LIMIT in Hn. set (P := piece_length (info m)) in *.
  assert (Z.of_nat (length (D i)) = piece_len (leech_handler m bytes : Handler) i) as HD.
  { unfold D, piece_bytes. rewrite length_take, length_drop. fold P. rewrite Hp. nia. }
  split; [done|]. split.
  - assert (P * (Z.of_nat i + 1) <= 2 ^ 32 * 2 ^ 30) by (apply Z.mul_le_mono_nonneg; lia).
    unfold piece_wf. fold P. rewrite HD, Hp. split_and!; lia.
  - assert (chunks (Z.to_nat P) bytes !! i = Some (D i)) as Hc.
    { rewrite chunks_lookup, decide_True by lia. unfold D, piece_bytes. fold P. rewrite Hp. f_equal.
      replace (Z.to_nat (P * Z.of_nat i)) with (i * Z.to_nat P)%nat by nia.
      destruct (decide (P <= Z.of_nat (length bytes) - Z.of_nat i * P)) as [Hle|Hle].
      - by rewrite Z.min_l by done.
      - rewrite Z.min_r, !take_ge by (rewrite ?length_drop; lia). done. }
    pose proof (f_equal (fun l => l !! i) (ds_hashes _ _ Hd)) as Hh. fold P in Hh. cbv beta in Hh.
    rewrite !list_lookup_fmap, Hc in Hh. destruct (pieces (info m) !! i) as [[h]|]; [|done].
    injection Hh as Hh. subst h. f_equal.
    by rewrite <- (ShaHash_from_bytes_hash (D i)).
Qed.

(** A file that has every piece has the bytes. *)
Lemma pieces_are_file m bytes (data : list byte) :
  describes m bytes ->
  let P := piece_length (info m) in
  let D := piece_bytes P (leech_handler m bytes : Handler) bytes in
  (forall i, (i < length (pieces (info m)))%nat ->
     take (length (D i)) (drop (Z.to_nat (P * Z.of_nat i)) data) =
     take (length (D i)) (drop (Z.to_nat (P * Z.of_nat i)) bytes)) ->
  take (length bytes) data = bytes.
Proof.
  intros Hd P D Hall. destruct (describes_bounds _ _ Hd) as (_ & Hl & _). fold P in Hl.
  pose proof (ds_piece _ _ Hd) as HP. fold P in HP. apply list_eq. intros k.
  destruct (decide (k < length bytes)%nat) as [Hk|Hk].
  2: { rewrite lookup_take_ge, (proj2 (lookup_ge_None bytes k)) by lia. done. }
  set (i := Z.to_nat (Z.of_nat k / P)). pose proof (Z.div_mod (Z.of_nat k) P) as Hdm.
  pose proof (Z.mod_pos_bound (Z.of_nat k) P) as Hm. pose proof (Z.div_pos (Z.of_nat k) P) as Hq.
  assert (i < length (pieces (info m)))%nat as Hi by (unfold i; nia).
  assert (Z.of_nat i = Z.of_nat k / P) as Hik by (unfold i; lia).
  destruct (leech_piece _ _ _ Hd Hi) as (HD & _). destruct (leech_piece_len _ _ _ Hd Hi) as (Hp & _).
  fold P in HD, Hp. fold D in HD.
  pose proof (f_equal (fun l => l !! (k - Z.to_nat (P * Z.of_nat i))%nat) (Hall i Hi)) as He.
  cbv beta in He. rewrite !lookup_take_lt, !lookup_drop in He by nia.
  rewrite lookup_take_lt by done. by replace (Z.to_nat (P * Z.of_nat i) + (k - Z.to_nat (P * Z.of_nat i)))%nat with k in He by nia.
Qed.
End Pieces.

(** *** New clients *)

Section NewClients.
Context `{Countable PeerId} {Multiaddr : Type} `{BitVecLaws BV} `{Sha1Laws Hasher} `{Clock Instant}.
Context `{FileSystemLaws Fs File FsError} `{LruCacheLaws TorrentFileId (FileState File) C}.
Context `{Profile} `{!MapOrder PeerId (BitTorrentPeer BV Instant)}.
Context `{!MapOrder Z (Torrent PeerId BV Instant)} `{!SetOrder FileEntry}.
#[local] Abbreviation Bt := (BitTorrent PeerId Multiaddr BV Hasher Instant Fs File C).
#[local] Abbreviation Action := (NetworkBehaviourAction PeerId BV Hasher Instant).
#[local] Abbreviation Handler := (TorrentPieceHandler PeerId BV Instant).
Implicit Types m : MetaInfo Hasher.
Implicit Types b : Bt.
Context (now : Instant).
Context (rnd : nat -> nat -> list nat -> list nat) (clock : nat -> nat -> Instant).
#[local] Abbreviation drain := (drain now rnd clock).

(** The torrent that a client has added, and a client that has been told of it,
    and has to say [q] and to greet [ps] *)
Definition torrent_with m (h : Handler) (c : SeedLeechConfig) : Torrent PeerId BV Instant :=
  Torrent_new now 0 (MetaInfo_sha_hash m) h c Active.

Record started random (fs : Fs) m t (q : list Action) (ps : gmap PeerId ShaHash) b : Prop := {
  st_queue : bt_queued_events b = q;
  st_torrents : torrents (bt_torrents b) = {[0 := t]};
  st_hash : local_peer_hash (bt_torrents b) = random;
  st_pending : pending_handshakes b = ps;
  st_disk : disk_manager b = dm_add_torrent 0 m (DiskManager_with_capacity fs 100);
}.

Lemma new_leech random p (fs : Fs) m bytes :
  describes m bytes ->
  exists b, add_leech now m Active (BitTorrent_with_config random p fs BitTorrentConfig_default) = Ret b /\
    started random fs m (torrent_with m (leech_handler m bytes) SeedAndLeech)
      [GenerateEvent (EV_TorrentAddedResult (Ok (TA_NewLeech 0 Active)))] ∅ b /\
    known_peers b = ∅ /\ connected_peers b = ∅.
Proof.
  intros Hd. unfold add_leech, TorrentConfig_new_leech. rewrite (describes_last _ _ Hd), bind_ret. simpl.
  rewrite add_torrent_eq by (simpl; lia). simpl. rewrite map_iter_empty. simpl.
  eexists. split; [done|]. split; [|done]. split; try done. unfold added_state, iter_active. simpl.
  by rewrite map_iter_empty.
Qed.

Lemma new_seed random p (fs : Fs) m path bytes :
  describes m bytes ->
  exists b, add_seed now (TorrentSeed_new path m) Active
      (BitTorrent_with_config random p fs BitTorrentConfig_default) = Ret b /\
    started random fs m (torrent_with m (seed_handler m bytes) SeedOnly)
      [GenerateEvent (EV_TorrentAddedResult (Ok (TA_NewSeed 0 Active)))] ∅ b.
Proof.
  intros Hd. unfold add_seed, TorrentConfig_new_seed. simpl. rewrite (describes_last _ _ Hd), bind_ret. simpl.
  rewrite add_torrent_eq by (simpl; lia). simpl. rewrite map_iter_empty. simpl.
  eexists. split; [done|]. split; try done. unfold added_state, iter_active. simpl.
  by rewrite map_iter_empty.
Qed.

(** The client that leeches, as its arguments say *)
Lemma new_leech_started `{BendyLaws DecodingError EncodingError} `{StdFs Files} `{!PeerIdText PeerId}
    `{!ClientText Multiaddr PeerId} random p seeder (fs : Fs) m bytes (files : Files)
    torrent addr_text seeder_text addr :
  describes m bytes -> from_torrent_file (EncodingError := EncodingError) files torrent = Ok m ->
  peer_id_parse seeder_text = Ok seeder -> multiaddr_parse addr_text = Ok addr ->
  exists b, client_leech (EncodingError := EncodingError) now files addr_text seeder_text torrent
      (BitTorrent_with_config random p fs BitTorrentConfig_default) = Ret b /\
    started random fs m (torrent_with m (leech_handler m bytes) SeedAndLeech)
      [GenerateEvent (EV_TorrentAddedResult (Ok (TA_NewLeech 0 Active))); DialPeer seeder]
      {[seeder := MetaInfo_sha_hash m]} b.
Proof.
  intros Hd Hf Hpeer Haddr. destruct (new_leech random p fs m bytes Hd) as (b & Hb & Hst & Hk & Hco).
  unfold client_leech. rewrite Hpeer, Hf. cbn [unwrap_result]. rewrite !bind_ret, Hb, Haddr. cbn [unwrap_result].
  rewrite !bind_ret. destruct Hst as [Hq Ht Hh Hp Hdm]. unfold add_address_torrents. rewrite Hk, lookup_empty.
  unfold handshake_known_peer. simpl. rewrite Hp, Hco, lookup_empty, lookup_insert_eq. simpl.
  eexists. split; [done|]. split; try done; simpl. by rewrite Hq.
Qed.

(** The first polls: what waits in the queue, and then the torrent is added to
    the disk manager. *)
Lemma started_drain random (fs : Fs) m bytes t t' q ps b fuel :
  describes m bytes -> started random fs m t q ps b -> Forall inert q ->
  pool_loop 2 (rnd 1%nat) (clock 1%nat) now (bt_with_queue [] b) =
    Ret (Some (bt_with_pool (with_torrents {[0 := t']} (bt_torrents b)) (bt_with_queue [] b), None)) ->
  exists b', drain (length q + S fuel) b = Ret (Some (q, b')) /\
    bt_queued_events b' = [] /\ torrents (bt_torrents b') = {[0 := t']} /\
    local_peer_hash (bt_torrents b') = random /\ pending_handshakes b' = ps /\
    store_rel 0 (torrent_file_of m bytes) (file_of m bytes) ∅ (disk_manager b') /\
    file_system (disk_manager b') = fs /\ file_cache (disk_manager b') = lru_new 100.
Proof.
  intros Hd [Hq Ht Hh Hp Hdm] Hin Hpool.
  destruct (store_add fs 100 0 (torrent_file_of m bytes) (file_of m bytes) (Z.of_nat (length bytes)))
    as (dm & Hadd & Hst & Hfs & Hc); [by apply describes_single|done|apply Hd|done|done|].
  set (b1 := bt_with_pool (with_torrents {[0 := t']} (bt_torrents b)) (bt_with_queue [] b)) in *.
  exists (bt_with_disk dm b1). split_and!; try done.
  rewrite <- (app_nil_r q) at 2. apply drain_queue; [done|done|]. apply drain_end.
  cbn [bt_poll]. replace (bt_queued_events (bt_with_queue [] b)) with (@nil Action) by done.
  rewrite Hpool, bind_ret. cbn [disk_loop].
  replace (disk_manager b1) with (dm_add_torrent 0 m (DiskManager_with_capacity (C := C) fs 100))
    by (by rewrite <- Hdm).
  cbn [tf_meta_info torrent_file_of] in Hadd. rewrite Hadd, bind_ret. cbn [on_disk_message].
  replace (disk_manager (bt_with_disk dm b1)) with dm by done.
  rewrite (poll_idle dm 1 (sr_active _ _ _ _ _ Hst) (sr_queue _ _ _ _ _ Hst)), !bind_ret. done.
Qed.

(** A new client that leeches chooses a piece, and waits for peers. *)
Lemma leech_pool m bytes b (Hrnd : forall l, rnd 1%nat 1%nat l ≡ₚ l) :
  describes m bytes -> let h : Handler := leech_handler m bytes in
  torrents (bt_torrents b) = {[0 := torrent_with m h SeedAndLeech]} ->
  exists i, (i < length (pieces (info m)))%nat /\
    let buf := PieceBuffer_new (Z.of_nat i) (piece_len h i) 0 [] in
    pool_loop 2 (rnd 1%nat) (clock 1%nat) now b =
    Ret (Some (bt_with_pool (with_torrents
      {[0 := torrent_with m (with_piece_buffer (Some buf) h) SeedAndLeech]} (bt_torrents b)) b, None)).
Proof.
  intros Hd h Ht. destruct (describes_bounds _ _ Hd) as (Hn & _).
  destruct (next_piece_buffer_cases (rnd 1%nat 1%nat) h) as [(i & Hi & _ & Hnext)|(_ & [[Hs _]|Hno])].
  - done.
  - unfold h. rewrite leech_bits. unfold FRAME_LIMIT in Hn. unfold is_u64. lia.
  - exists i. apply missing_piece_indices_elem in Hi as [Hi _]. apply leech_missing in Hi.
    split; [done|]. intros buf. cbn [pool_loop]. unfold pool_poll.
    rewrite (iter_active_singleton (bt_torrents b) 0 _ Ht). simpl. unfold Torrent_poll. simpl.
    rewrite map_iter_empty. simpl. unfold th_poll.
    replace (piece_buffer h) with (@None (PieceBuffer PeerId)) by done.
    assert (bf_all (th_bitfield h) = false) as Hall by (apply leech_lacks; lia).
    replace (finished h) with (bf_all (th_bitfield h)) by done. rewrite Hall, Hnext, bind_ret. simpl.
    rewrite map_iter_empty. simpl. by rewrite Ht, insert_singleton_eq.
  - done.
  - exfalso. assert (0 < length (pieces (info m)))%nat as Hpos by lia.
    assert (0%nat ∈ missing_piece_indices h) as H0'%Hno.
    { apply missing_piece_indices_elem. split; [by apply leech_missing|done]. }
    unfold all_can_seed in H0'. simpl in H0'. by rewrite map_iter_empty in H0'.
Qed.

(** *** The clients when they connect *)

Lemma leech_fields m bytes :
  describes m bytes -> let h : Handler := leech_handler m bytes in
  handler_inv nobody h /\ finished h = false /\ 0 < th_piece_length h /\ 0 < th_last_piece_length h.
Proof.
  intros Hd h. destruct (describes_bounds _ _ Hd) as (Hn & _ & Hlast). pose proof (ds_piece _ _ Hd) as HP.
  assert (0 <= piece_length (info m) /\ 0 <= last_length m bytes) as Hlen by lia.
  split_and!; [|change (bf_all (th_bitfield h) = false); apply leech_lacks; lia|simpl; lia..]. split; [done|exact Hlen|].
  unfold h. rewrite leech_bits. unfold FRAME_LIMIT in Hn. unfold is_u64. lia.
Qed.

Lemma start_wants seeder random (fs : Fs) m bytes q b fuel
    (Hrnd : forall l, rnd 1%nat 1%nat l ≡ₚ l) :
  describes m bytes -> ShaHash_wf random -> let h : Handler := leech_handler m bytes in
  started random fs m (torrent_with m h SeedAndLeech) q {[seeder := MetaInfo_sha_hash m]} b ->
  Forall inert q ->
  exists i buf b', drain (length q + S fuel) b = Ret (Some (q, b')) /\
    wants seeder now (MetaInfo_sha_hash m) 0 (torrent_with m (with_piece_buffer (Some buf) h) SeedAndLeech)
      h i buf (torrent_file_of m bytes) (file_of m bytes) (piece_bytes (piece_length (info m)) h bytes) ∅ b'.
Proof.
  intros Hd Hr h Hst Hin. destruct (leech_pool m bytes (bt_with_queue [] b) Hrnd Hd) as (j & Hj & Hpool);
    [apply (st_torrents _ _ _ _ _ _ _ Hst)|].
  destruct (started_drain random fs m bytes _ _ q _ b fuel Hd Hst Hin Hpool)
    as (b' & Hdr & Hq & Ht & Hh & Hp & Hsr & _).
  exists j, (PieceBuffer_new (Z.of_nat j) (piece_len h j) 0 []), b'. split; [done|].
  destruct (leech_fields m bytes Hd) as (Hinv & Hfin & Hlens). fold h in Hinv, Hfin, Hlens.
  destruct (leech_piece (PeerId := PeerId) (BV := BV) (Instant := Instant) m bytes j Hd Hj) as (HD & (_ & _ & Hpos & _) & _). fold h in HD, Hpos.
  assert (bf_get (th_bitfield h) j = Some false) as Hget
    by exact (proj2 (leech_missing m bytes j) Hj).
  split; try done.
  - split; try done. simpl. by rewrite map_iter_empty.
  - by rewrite Hp, lookup_singleton_eq.
  - split; [apply Hd|by rewrite Hh].
  - split; try done; [apply new_inv; [lia|constructor]| |].
    + unfold received_from. by constructor.
    + by rewrite new_missing_blocks by lia.
  - intros k Hk. apply leech_piece; [done|]. unfold h in Hk. by rewrite leech_bits in Hk.
  - by apply describes_single.
Qed.

Lemma start_offers random (fs : Fs) m bytes q b fuel :
  describes m bytes -> ShaHash_wf random -> let h : Handler := seed_handler m bytes in
  (exists fs' f, poll_open_file fs (name (info m)) = (fs', Ready (Ok f)) /\ file_data fs' f = bytes) ->
  started random fs m (torrent_with m h SeedOnly) q ∅ b -> Forall inert q ->
  exists b', drain (length q + S fuel) b = Ret (Some (q, b')) /\
    offers now (MetaInfo_sha_hash m) 0 (torrent_with m h SeedOnly) (torrent_file_of m bytes)
      (file_of m bytes) bytes b'.
Proof.
  intros Hd Hr h Hfile Hst Hin. pose proof (seed_all m bytes : bf_all (th_bitfield h) = true) as Hall.
  assert (first_timeout now (map_iter (peers h)) = None) as Hto by (simpl; by rewrite map_iter_empty).
  assert (pool_loop 2 (rnd 1%nat) (clock 1%nat) now (bt_with_queue [] b) =
    Ret (Some (bt_with_pool (with_torrents {[0 := torrent_with m h SeedOnly]} (bt_torrents b))
      (bt_with_queue [] b), None))) as Hpool.
  { cbn [pool_loop]. rewrite (pool_poll_seed _ _ now (bt_torrents (bt_with_queue [] b)) 0
      (torrent_with m h SeedOnly)), bind_ret by (done || apply (st_torrents _ _ _ _ _ _ _ Hst)).
    by rewrite <- (st_torrents _ _ _ _ _ _ _ Hst), with_torrents_same. }
  destruct (started_drain _ _ _ _ _ _ _ _ _ fuel Hd Hst Hin Hpool)
    as (b' & Hdr & Hq & Ht & Hh & Hp & Hsr & Hfs & Hc).
  exists b'. split; [done|]. split; try done.
  - split; [apply Hd|by rewrite Hh].
  - split; [split; apply Hsr|apply Hsr].
  - by apply describes_single.
  - apply Hsr.
  - unfold has_bytes. by rewrite Hc, lru_get_new, Hfs.
Qed.
End NewClients.

(** *** The download *)

Lemma missing_all current k n :
  (forall i, (k <= i)%nat -> Some (Z.of_nat i) <> current) ->
  missing_from current k (replicate n false) = seq k n.
Proof.
  revert k. induction n as [|n IH]; intros k Hk; simpl; [done|].
  rewrite bool_decide_false by (by apply Hk). simpl. f_equal. apply IH. intros i Hi. apply Hk. lia.
Qed.

(** The blocks of a file *)
Definition file_blocks (P : Z) (bytes : list byte) : nat :=
  sum_list_with (fun c => length (piece_blocks 0 (Z.of_nat (length c)))) (chunks (Z.to_nat P) bytes).

Section StartedClients.
Context `{Countable PeerId} {Multiaddr : Type} `{BitVecLaws BV} `{Sha1Laws Hasher} `{Clock Instant}.
Context `{FileSystemLaws Fs File FsError} `{LruCacheLaws TorrentFileId (FileState File) C}.
Context `{Profile} `{!MapOrder PeerId (BitTorrentPeer BV Instant)}.
Context `{!MapOrder Z (Torrent PeerId BV Instant)} `{!SetOrder FileEntry} `{ByteOrderLaws}.
Context `{MessageStream Strm (PeerMessage BV)}.
#[local] Abbreviation Bt := (BitTorrent PeerId Multiaddr BV Hasher Instant Fs File C).
#[local] Abbreviation Handler := (TorrentPieceHandler PeerId BV Instant).
Implicit Types m : MetaInfo Hasher.

Lemma sum_list_with_seq {A} (f : nat -> nat) (g : A -> nat) l k :
  (forall i x, l !! i = Some x -> f (k + i)%nat = g x) ->
  sum_list_with f (seq k (length l)) = sum_list_with g l.
Proof.
  revert k. induction l as [|x l IH]; intros k Hf; simpl; [done|]. f_equal.
  - rewrite <- (Hf 0%nat x eq_refl). f_equal. lia.
  - apply IH. intros i y Hy. rewrite <- (Hf (S i) y Hy). f_equal. lia.
Qed.

Lemma leech_blocks m bytes :
  describes m bytes ->
  blocks_left (leech_handler m bytes : Handler) = file_blocks (piece_length (info m)) bytes.
Proof.
  intros Hd. pose proof (ds_piece _ _ Hd) as HP. unfold blocks_left, missing_piece_indices.
  cbn [leech_handler handler_of TorrentPieceHandler_new piece_buffer th_bitfield].
  rewrite iter_all_clear, missing_all, (describes_pieces _ _ Hd) by done.
  apply sum_list_with_seq. intros i c Hc. rewrite Nat.add_0_l.
  rewrite chunks_lookup in Hc by lia. case_decide as Hi; [|done]. injection Hc as <-.
  assert (i < length (pieces (info m)))%nat as Hin.
  { rewrite (describes_pieces _ _ Hd). apply lookup_lt_is_Some.
    rewrite chunks_lookup, decide_True by (done || lia). done. }
  destruct (leech_piece_len (PeerId := PeerId) (BV := BV) (Instant := Instant) m bytes i Hd Hin)
    as (Hp & _).
  unfold blocks_of, piece_blocks. rewrite !length_fmap, !length_seqZ, Hp, length_take, length_drop.
  do 2 f_equal. lia.
Qed.

(** The clients after their first polls, and the download *)
Lemma started_download (UpgrErr : Type) (leecher seeder : PeerId) (now : Instant) rnd clock (strm : Strm) request_id
    (addr : Multiaddr) random random' (fs fs' : Fs) m bytes q q' (k k' : nat) (l0 s0 : Bt) :
  duration_since_secs now now <= 120 -> (forall i j (ps : list nat), rnd i j ps ≡ₚ ps) ->
  describes m bytes -> ShaHash_wf random -> ShaHash_wf random' ->
  (exists fs1 f, poll_open_file fs' (name (info m)) = (fs1, Ready (Ok f)) /\ file_data fs1 f = bytes) ->
  (forall n, Z.of_nat n <= piece_length (info m) -> prompt n (name (info m))) ->
  started random fs m (torrent_with now m (leech_handler m bytes) SeedAndLeech) q
    {[seeder := MetaInfo_sha_hash m]} l0 -> Forall inert q ->
  started random' fs' m (torrent_with now m (seed_handler m bytes) SeedOnly) q' ∅ s0 -> Forall inert q' ->
  exists l s,
    drain now rnd clock (length q + S k) l0 = Ret (Some (q, l)) /\
    drain now rnd clock (length q' + S k') s0 = Ret (Some (q', s)) /\
    exists acts l' s' t f,
      exchange UpgrErr leecher seeder now rnd clock strm request_id
        (5 + file_blocks (piece_length (info m)) bytes) []
        (inject_connected seeder CP_Dialer l) (inject_connected leecher (CP_Listener addr) s) =
        Ret (Some (acts, l', s')) /\
      GenerateEvent (EV_TorrentFinished 0) ∈ acts /\
      torrents (bt_torrents l') = {[0 := t]} /\ bf_all (Torrent_bitfield t) = true /\
      lru_get (file_cache (disk_manager l')) (TorrentFileId_new 0 0) = Some (FS_Ready f) /\
      take (length bytes) (file_data (file_system (disk_manager l')) f) = bytes.
Proof.
  intros Hnow Hperm Hd Hr Hr' Hfile Hprompt Hl Hq Hs Hq'.
  destruct (start_wants now rnd clock seeder random fs m bytes q l0 k (Hperm 1%nat 1%nat) Hd Hr Hl Hq)
    as (i & buf & l & Hdl & Hw).
  destruct (start_offers now rnd clock random' fs' m bytes q' s0 k' Hd Hr' Hfile Hs Hq') as (s & Hds & Ho).
  exists l, s. split; [done|]. split; [done|].
  assert (forall j, j ∈ missing_piece_indices (leech_handler m bytes : Handler) ->
    (j < length (pieces (info m)))%nat) as Hmiss.
  { intros j [Hj _]%missing_piece_indices_elem. by apply leech_missing in Hj. }
  destruct (dialled_and_downloaded UpgrErr leecher seeder now rnd clock strm request_id addr l s
    _ 0 _ _ i buf _ _ ∅ 0 _ _ _ bytes Hnow Hperm Hw Ho)
    as (acts & l' & s' & t & st & f & Hex & Hfin & Ht & Hall & _ & Hf & Hdata); try done.
  - rewrite leech_bits. unfold Torrent_bitfield. simpl. by rewrite bf_len_iter, iter_all_set, length_replicate.
  - rewrite leech_bits. apply Hd.
  - by eapply describes_fields.
  - intros j Hj%Hmiss. by apply leech_piece.
  - intros n Hn. split; by apply Hprompt.
  - exists acts, l', s', t, f. rewrite <- leech_blocks by done. split_and!; try done.
    eapply pieces_are_file; [done|]. intros j Hj. apply Hdata.
    apply missing_piece_indices_elem. split; [by apply leech_missing|done].
Qed.
End StartedClients.

(** ** Properties *)

Section StartProperties.
Context `{Countable PeerId} {Multiaddr : Type} `{BitVecLaws BV} `{Sha1Laws Hasher} `{Clock Instant}.
Context `{FileSystemLaws Fs File FsError} `{LruCacheLaws TorrentFileId (FileState File) C}.
Context `{Profile} `{!MapOrder PeerId (BitTorrentPeer BV Instant)}.
Context `{!MapOrder Z (Torrent PeerId BV Instant)} `{!SetOrder FileEntry} `{ByteOrderLaws}.
Context `{MessageStream Strm (PeerMessage BV)}.
Context `{BendyLaws DecodingError EncodingError} `{StdFsLaws Files} `{!ClientFiles Files}.
Context `{!ClientFilesLaws Files} `{!PeerIdText PeerId} `{!ClientText Multiaddr PeerId}.
#[local] Abbreviation Bt := (BitTorrent PeerId Multiaddr BV Hasher Instant Fs File C).

(** C1: The two terminals of the example.  In the first one the program writes
    a file, builds its torrent, writes the torrent file and seeds the file.  In
    the second one it reads the torrent file and dials the first one.  After five
    rounds, and one for each block of the file, it reports the torrent as
    finished, and its file starts with all the bytes of the other file.  The
    seeder finds the file it wrote in its file system; files are prompt (the
    ones of disk/native.rs never are, see NativeFs), nobody is timed out, and
    the bit field of the torrent is not taken for another message. *)
Theorem example_downloads (UpgrErr : Type) (leecher seeder : PeerId) (now : Instant) rnd clock
    (strm : Strm) request_id (addr addr' : Multiaddr) random random' (fs_l fs_s : Fs)
    (files files' : Files) tmp rubbish torrent addr_text seeder_text (s0 : Bt) :
  let bytes := concat rubbish in
  let P := piece_length_for (Z.of_nat (length bytes)) in
  let new random p fs : Bt := BitTorrent_with_config random p fs BitTorrentConfig_default in
  duration_since_secs now now <= 120 -> (forall i j (ps : list nat), rnd i j ps ≡ₚ ps) ->
  ShaHash_wf random -> ShaHash_wf random' ->
  bytes <> [] -> is_u64 (Z.of_nat (length bytes)) -> field_fits (length (chunks (Z.to_nat P) bytes)) ->
  absent files (path_join tmp "rubbish.txt") ->
  client_seed (EncodingError := EncodingError) now files tmp rubbish (new random' seeder fs_s) =
    Ret (files', torrent, s0) ->
  peer_id_parse seeder_text = Ok seeder -> multiaddr_parse addr_text = Ok addr ->
  (exists fs f, poll_open_file fs_s "rubbish.txt" = (fs, Ready (Ok f)) /\ file_data fs f = bytes) ->
  (forall n, Z.of_nat n <= P -> prompt n "rubbish.txt") ->
  exists l0 l s,
    client_leech (EncodingError := EncodingError) now files' addr_text seeder_text torrent
      (new random leecher fs_l) = Ret l0 /\
    drain now rnd clock 4 l0 = Ret (Some ([GenerateEvent (EV_TorrentAddedResult
      (Ok (TA_NewLeech 0 Active))); DialPeer seeder], l)) /\
    drain now rnd clock 4 s0 = Ret (Some ([GenerateEvent (EV_TorrentAddedResult
      (Ok (TA_NewSeed 0 Active)))], s)) /\
    exists acts l' s' t f,
      exchange UpgrErr leecher seeder now rnd clock strm request_id (5 + file_blocks P bytes) []
        (inject_connected seeder CP_Dialer l) (inject_connected leecher (CP_Listener addr') s) =
        Ret (Some (acts, l', s')) /\
      GenerateEvent (EV_TorrentFinished 0) ∈ acts /\
      torrents (bt_torrents l') = {[0 := t]} /\ bf_all (Torrent_bitfield t) = true /\
      lru_get (file_cache (disk_manager l')) (TorrentFileId_new 0 0) = Some (FS_Ready f) /\
      take (length bytes) (file_data (file_system (disk_manager l')) f) = bytes.
Proof.
  intros bytes P new Hnow Hperm Hr Hr' Hne Hu Hfits Habs Hseed Hpeer Haddr Hfile Hprompt.
  destruct (piece_length_for_range (Z.of_nat (length bytes))) as (_ & HP & _); [lia|]. fold P in HP.
  destruct (client_seed_built now files tmp rubbish (new random' seeder fs_s) files' torrent s0)
    as (m & Hc & Hp & Hpl & Hn & Hh & Hback & Hadd); fold bytes P; try done; [lia|unfold is_u64; lia|].
  fold bytes in Hc, Hp, Hpl. fold P in Hp, Hpl.
  assert (describes m bytes) as Hd.
  { split; [done|by rewrite Hpl|rewrite Hpl; lia|done| |done].
    apply (f_equal length) in Hp. rewrite !length_fmap in Hp. by rewrite Hp. }
  destruct (new_seed (Multiaddr := Multiaddr) (BV := BV) (C := C) 
    now random' seeder fs_s m (path_join tmp "rubbish.txt") bytes Hd) as (s1 & Hs1 & Hs).
  unfold new in Hadd. rewrite Hadd in Hs1. injection Hs1 as <-.
  destruct (new_leech_started (Multiaddr := Multiaddr) (BV := BV) (C := C) 
    now random leecher seeder fs_l m bytes files' torrent addr_text seeder_text addr)
    as (l0 & Hl0 & Hl); try done.
  rewrite <- Hn in Hfile, Hprompt. rewrite <- Hpl in Hprompt |- *.
  destruct (started_download UpgrErr leecher seeder now rnd clock strm request_id addr' random random'
    fs_l fs_s m bytes _ _ 1 2 l0 s0 Hnow Hperm Hd Hr Hr' Hfile Hprompt Hl ltac:(by repeat constructor)
    Hs ltac:(by repeat constructor)) as (l & s & Hdl & Hds & Hres).
  by exists l0, l, s.
Qed.
End StartProperties.

(** ** Witnesses *)

Section StartWitnesses.
#[local] Existing Instances list_bitvec list_bitvec_laws toy_sha1 toy_sha1_laws seconds debug_build
  ex_order ex_torrent_order ex_dm_order ex_dm_contents ex_dm_cache ex_dm_cache_laws std_byteorder
  std_byteorder_laws mem_message_stream text_bendy text_bendy_laws memory_files memory_files_laws.

(** Files in memory *)
#[local] Instance memory_client : ClientFiles (gmap string (list byte)) := {|
  open_new fs path := (<[path := default [] (fs !! path)]> fs, Ok tt);
  files_tree fs := {|
    path_len path := result_map (fun b => Z.of_nat (length b)) (std_read fs path);
    path_is_dir path := false;
    open_file path := result_map (fun b => (b, None)) (std_read fs path);
    walk root keep :=
      let entry := mkDirEntry root (path_file_name root) true in
      if keep entry then [Ok entry] else [];
    entry_len e := result_map (fun b => Z.of_nat (length b)) (std_read fs (de_path e));
  |};
|}.

#[local] Instance memory_client_laws : ClientFilesLaws (gmap string (list byte)).
Proof.
  refine {| absent fs path := fs !! path = None |}.
  - intros s path s' Hs [= <-]. by split_and!; simpl; rewrite ?lookup_insert_eq, ?Hs.
  - intros s path bytes more s' (_ & _ & Ho & _) [= <-]. simpl in Ho.
    destruct (s !! path) as [b|] eqn:Hb; simpl in Ho; [|done]. injection Ho as ->.
    by split_and!; simpl; rewrite ?lookup_insert_eq, ?Hb.
Defined.

(** A disk with files of up to a piece *)
#[local] Instance ex_disk : FileSystem (list byte) Z unit := memory_fs (Z.to_nat 16384).
#[local] Instance ex_disk_laws : FileSystemLaws (list byte) Z unit := memory_fs_laws (Z.to_nat 16384).

Lemma ex_disk_prompts n path : Z.of_nat n <= 16384 -> prompt n path.
Proof.
  intros Hn. split.
  - intros fs. by eexists _, _.
  - intros fs f off. by eexists _, _, _.
  - intros fs f buf Hl. eexists _, _. unfold poll_write_block. cbn -[Nat.min Z.to_nat].
    by rewrite Hl, Nat.min_r by lia.
  - intros fs f Hf Hlen. eexists _, _, _. unfold poll_read_block. cbn -[take drop Nat.min Z.to_nat] in *.
    rewrite length_take, length_drop. repeat f_equal. lia.
Qed.

#[local] Instance ex_peer_text : PeerIdText Z := {|
  peer_id_bytes p := [byte_of_Z p];
  peer_id_parse s := if bool_decide (s = "8") then Ok 8 else Err "no peer";
|}.
#[local] Instance ex_client_text : ClientText Z Z := {|
  multiaddr_parse s := if bool_decide (s = "/80") then Ok 80 else Err "no address";
  peer_id_to_string p := pretty p;
|}.

Definition ex_hash_of (z : Z) : ShaHash := {| hash := replicate 20 (byte_of_Z z) |}.
Definition ex_client (z p : Z) (fs : list byte) : ex_behaviour :=
  BitTorrent_with_config (ex_hash_of z) p fs BitTorrentConfig_default.

(** The first terminal *)
Definition ex_rubbish : list (list byte) := [take 5 ex_shared; drop 5 ex_shared].
Definition ex_terminal : outcome (gmap string (list byte) * string * ex_behaviour) :=
  client_seed (EncodingError := string) 0 ∅ "tmp" ex_rubbish (ex_client 1 8 ex_shared).
Definition ex_terminal_files : gmap string (list byte) :=
  match ex_terminal with Ret (fs, _, _) => fs | Panic => ∅ end.
Definition ex_terminal_client : ex_behaviour :=
  match ex_terminal with Ret (_, _, b) => b | Panic => ex_bt0 end.

Lemma example_downloads_witness :
  exists l0 l s (acts : list (NetworkBehaviourAction Z (list bool) (list byte) Z)) (l' s' : ex_behaviour),
    client_leech (EncodingError := string) 0 ex_terminal_files "/80" "8" "tmp/rubbish.torrent"
      (ex_client 2 7 []) = Ret l0 /\
    drain 0 (fun _ _ => @rev nat) (fun _ _ => 0) 4 l0 =
      Ret (Some ([GenerateEvent (EV_TorrentAddedResult (Ok (TA_NewLeech 0 Active))); DialPeer 8], l)) /\
    exchange unit 7 8 0 (fun _ _ => @rev nat) (fun _ _ => 0) ex_substream (fun _ => 3) 6 []
      (inject_connected 8 CP_Dialer l) (inject_connected 7 (CP_Listener 70) s) =
      Ret (Some (acts, l', s')) /\
    GenerateEvent (EV_TorrentFinished 0) ∈ acts /\
    take 8 (file_system (disk_manager l')) = ex_shared.
Proof.
  destruct (example_downloads (EncodingError := string) unit 7 8 0 (fun _ _ => @rev nat) (fun _ _ => 0)
    ex_substream (fun _ => 3) 80 70 (ex_hash_of 2) (ex_hash_of 1) [] ex_shared ∅ ex_terminal_files "tmp"
    ex_rubbish "tmp/rubbish.torrent" "/80" "8" ex_terminal_client)
    as (l0 & l & s & Hl0 & Hl & _ & acts & l' & s' & t & f & Hex & Hfin & _ & _ & _ & Hdata).
  - vm_compute. discriminate.
  - intros _ _ ps. symmetry. apply Permutation_rev.
  - vm_compute. reflexivity.
  - vm_compute. reflexivity.
  - discriminate.
  - vm_compute. split; [discriminate|reflexivity].
  - unfold field_fits. vm_compute. repeat split; discriminate.
  - vm_compute. reflexivity.
  - vm_compute. reflexivity.
  - vm_compute. reflexivity.
  - vm_compute. reflexivity.
  - exists ex_shared, 0. split; reflexivity.
  - intros n Hn. apply ex_disk_prompts. exact Hn.
  - exists l0, l, s, acts, l', s'. split; [exact Hl0|]. split; [exact Hl|]. split; [exact Hex|].
    split; [exact Hfin|]. exact Hdata.
Defined.
End StartWitnesses.
